(* ===== verification/_CoqProject ===== *)
-Q . S2P
Prelude.v
Words.v
Types.v
Layout.v
World.v
Text.v
Sim.v
Timer.v
Ident.v
Device.v
Buffer.v
Adapter.v
Channel.v
Tcp.v
Endpoint.v
Session.v
Threads.v
Helpers.v
ClientServer.v
Flow.v
Mesh.v
Lanes.v
Posts.v
Pair.v
Hub.v
Turns.v
Bench.v
Talk.v
Event.v
Wheel.v
Net.v
Options.v
Log.v
Reports.v
Programs.v
