(* ===== verification/Prelude.v ===== *)
(** * rdma_comm_core: a verification development

    The repository is a C++ library for RDMA communication over libibverbs
    (src/ and include/) with utilities (include/util/) and three programs
    (example/).  This library models all of it except the formatting of log
    lines, and proves what its parts promise each other.

    ** The program

    A process creates a session ([RDMAClientSession] or [RDMAServerSession],
    both an [RDMASession]).  [init_session] connects or accepts TCP
    connections and makes an [RDMAEndPoint] of each; an endpoint owns a
    [TCPConnector] and one [RDMAChannel], which is an [RDMAAdapter] with tables
    of the buffers registered in it and of the peer's buffers.  [connecting]
    loads each adapter (protection domain, completion queue, queue pair, from
    the [RDMADevice] shared by all adapters of a NIC), exchanges the adapters'
    information over TCP and asks for the queue pair to be taken to RTS.  [running] groups
    the channels by completion queue and starts a completion loop per group,
    which dispatches completions to the registered or the default callbacks.
    Data lives in [RDMABuffer]s, pinned memory cut into equal blocks that two
    cursors, [next] and [last], hand out and take back.  The programs are a full
    mesh of servers and clients, a benchmark of latency and bandwidth, and a
    ping-pong test.  The utilities are a stop watch, two kinds of event for
    threads to wait on, and a thread that calls timed events.

    ** The files

    - Prelude: outcomes, the state-and-failure monad [M], inversion lemmas, the
      predicates [keeps] (a run leaves a part of the state alone) and
      [completes] (a run never needs more fuel) with their hint databases, and
      record update.
    - Words: conversions between integer types, little-endian bytes, [htonll]
      and [ntohll] (include/rdma_base.h), byte-addressed memory.
    - Types: the enums, structs and object layouts of include/*.h.
    - Layout: the packed wire structs [CommDescriptor] and [AdapterInfo].
    - World: the interface [Platform] (libibverbs, sockets, POSIX memory,
      interfaces), the state [World] with one heap of objects per class, and
      the accessors.  A C++ pointer is an address in the heap of its class, so
      aliasing is kept: a channel reached through a buffer, an endpoint or a
      work completion is the same object.
    - Text: [atoi], [strtoul], dotted quads.
    - Sim: an executable [Platform], and proofs that it satisfies the laws the
      theorems assume; the witnesses run on it.
    - Ident: the get_id/info chain of sessions, endpoints, channels, adapters.
    - Device: src/rdma_device.cc.  Registry and discovery, completion queues,
      registration of memory, posting and polling.
    - Buffer: src/rdma_buffer.cc, against the interface [AdapterOps] with its
      laws [AdapterLaws]; [ring] is the abstract specification of the cursors.
    - Adapter: src/rdma_adapter.cc.  [loading], [connecting] and the queue pair
      state machine, requests and counters.
    - Channel: src/rdma_channel.cc; it implements [AdapterOps] and discharges
      its laws.
    - Tcp: src/tcp_connector.cc and include/util/ip_qos_helper.h.
    - Endpoint: src/rdma_endpoint.cc.
    - Session: src/rdma_session.cc, the default callbacks and the completion
      loop included; [Application] is the table of registered callbacks.
    - Threads: threads as sequences of atomic actions, schedules of a pool of
      them, and rely/guarantee rules for what each ends with.
    - Helpers: the helper threads of [real_connecting] in src/rdma_session.cc,
      one action per critical section of src/rdma_device.cc.
    - ClientServer: src/rdma_client_sess.cc and src/rdma_server_sess.cc.
    - Timer: include/util/time_record.h.
    - Flow: how the cursors and the request counters move under the operations
      of a channel; the common ground of the next two.
    - Mesh: the towers of example/mesh_comm_service.cc.
    - Lanes: the completion loops of its towers, one action per completion.
    - Posts: the log of the requests a process posts, and what each handler of
      the towers adds to it and writes to memory.
    - Pair: a client and a server of the mesh as one system, joined by a link
      that carries out what they post; [run_moves] executes it.
    - Hub: a server of the mesh with all its connections, whose channels share one
      queue, and the client of each; both run their polling loops.  [view] is one
      of its connections as a pair, [run_hub] executes it.
    - Turns: the turns of the polling loops of a hub return; [ends] is returning up
      to a refused request.
    - Bench: the sessions of example/lat_bw_benchmark.cc.
    - Talk: the messages its two ends send and the receives they post; [talks] derives
      them from the code, operation by operation.
    - Event: [ManualEvent] and [AutoEvent] of include/util/time_event.h, as
      sequences of actions of any number of threads.
    - Wheel: [TimeEvent] of the same file, its callbacks those of [UserCode].
    - Net: include/util/net_util.h.
    - Options: include/config.h.
    - Log: the static parts of include/util/logging.h.
    - Reports: what is printed, as characters: the usage text, the configuration, a
      buffer, the sizes of the benchmark.
    - Programs: the main functions of example/*.cc, with the default session
      classes of example/ping_pong_test.cc.

    Definitions keep the names of the methods ([this] is the object's address);
    where two classes use one name, the class is put in front.  Auxiliary
    definitions are the bodies of loops and of branches.  The objects'
    constructors are [<Class>_ctor], destructors [<Class>_dtor].

    ** What the theorems show

    - Device: the registry keeps one object per NIC name, created once, with
      every adapter recorded; one completion queue per key; the port scan ends
      below 255 ports and never returns at 255.
    - Buffer: [allocate_buffer] partitions the memory into its blocks and gives
      a fresh ring; [next] and [last] refine the abstract ring, go round robin
      and avoid outstanding blocks while one is free; [fill_in] writes exactly
      its data; registration and deregistration (with Channel) are inverse on
      the tables.
    - Adapter: a returned [connecting] has made the three requests that take the
      queue pair from RESET to RTS, each complete, and the queue pair is as far as
      the verbs granted them (in the error state all are refused, unless
      [reset_hca] was granted first); what [loading] publishes; a returned read,
      write or send posted exactly one request, inside the local buffer and the
      remote region.  [connecting] reports success whatever the verbs answer, and
      the check of the peer's link layer is an assignment.
    - Layout and Tcp: what is decoded is what was encoded; the receiving loops take
      exactly the bytes asked for, however they arrive, and terminate once the
      bytes are on their way; [sock_sync_data] swaps equal amounts.
    - Endpoint, Session, ClientServer: a turn of [connecting] exchanges the two
      [AdapterInfo]s, and two ends that hear each other have their queue pairs on
      paths to each other and ready to send, as far as the verbs granted the
      requests for it; accepted endpoints carry their index; [running] partitions
      the channels by queue; no failed completion gets past a poll; the default
      handlers re-post one receive per completion; the server accepts exactly
      its cluster, the role decides which queue is shared.
    - Helpers: in whatever order the helper threads take their turns, the
      registry stays well formed and each channel ends set up; the channels of a
      device that name the same queue share it; and the sequential [real_connecting] of
      Session is one of these orders.
    - Mesh: with these parts, the client's and the server's flow control: no
      send block is out twice while at most one answer has come to the client (so it
      is in Pair and Hub), receives stay constant, and the queue has room for
      all requests; the client reads the server's answer from the right block and
      writes to the buffer it describes.
    - Lanes: the channels of a process do not interfere, however the handling of
      their completions is interleaved.
    - Pair: in every state a client and a server reach together, a receive is
      posted for each message, the client writes into the buffer the server
      described and nowhere else, neither end has more out than it may, and there is
      always a completion to handle or a request to carry.
    - Hub: each connection of a server keeps what a pair keeps, whatever the other
      clients do and however the batches of the shared queue fall; no connection is
      ever left without something to do, and the queues stay short.
    - Turns: in a hub no check of the handlers fails and nothing they do is undefined:
      each turn of a polling loop returns unless the verbs refuse a request.  A
      client's int cursors make this true for its first 2^30 requests only.
    - Bench: with these parts, the latency and bandwidth tests complete on a
      healthy link, every request given back; the two ends agree on the buffer
      they exchange, in whichever order the completions arrive; the client's
      requests are balanced whatever test runs; the sizes are the powers of two.
    - Talk: each message of one end of the benchmark has a receive of the other with
      room for it, over the whole conversation.
    - Event: no thread stays blocked once a signal is sent and its notifier has
      run; an [AutoEvent] lets one waiter through per signal, a [ManualEvent]
      every one until it is reset.
    - Wheel: the calls of the timed events are those of the schedule a repeating
      or single timer means; a cancelled event that nobody resets is not called again,
      whenever callbacks or other threads cancel it; the wake-ups do not drift; a callback that sets a new timeout of one tick keeps the
      thread in one turn for ever.
    - Timer, Log: a stop watch reads the time between its start and its stop; the
      log level is set by the first user of the log and once.
    - Programs: every host of a mesh runs one server and one client per other
      host, so each server waits for the clients that are started for it; a role
      must be given to the other programs.
    - Net and Options: the host's address comes from its interface in the
      subnet; argument parsing terminates and leaves a well-formed
      configuration; the cluster is sorted and never contains the host.

    ** Failures, bounds and fuel

    A call returns ([Ok]), or ends the process ([Fatal] for CHECK and
    LOG(FATAL), [Exit] for exit), or leaves defined behaviour ([UB]: an
    out-of-range index, a dangling or null pointer, signed overflow, an
    uninitialised or unallocated byte).  [OutOfFuel] is no behaviour of the
    program; each fuelled loop has a theorem that says when it does not occur:

    - the port scan, [port_fuel] = 256 rounds of an 8-bit counter
      ([port_scan_termination]);
    - the receiving loops take fuel as an argument; one more than the size is
      enough ([recv_data_terminates]), and a connection closed by the peer
      shows that no fuel is ([closed_peer_spins]);
    - the client tries [connect_fuel] = 3001 times, as the code counts;
    - the server's accept loop runs max(1, |cluster|) times
      ([server_accepts_cluster]);
    - the channel destructor's loop visits each entry of its table at most once;
    - the parsing loops end after the options left ([parse_args_terminates]);
    - the completion loops are endless: [process_rounds], [server_rounds] and
      [client_rounds] are their first [n] turns, for every [n];
    - the benchmark's loops that wait for a completion take [pfuel] empty polls;
      on a link that answers within [patience] polls one more is enough
      ([latency_tests_complete], [bandwidth_tests_complete]); the loop over the
      sizes ends after [sizes_fuel] = 25 turns ([sizes_covered]), the one that
      waits for an answer takes two completions, [answer_fuel];
    - a turn of [TimeEvent] visits each event once if no callback adds one
      ([ticks_follow_schedule]), and need not end otherwise
      ([rearming_timeout_spins]); [run_ticks] are the first [n] turns.

    ** Assumptions

    Everything outside the repository is an operation of [Platform] (or
    [GetOpt], [Application], [UserCode]) and arbitrary unless a theorem names a class of
    laws, each documented behaviour of that code with a concrete instance on
    [Sim] or a script: [MemalignLaws] (fresh, aligned memory), [QpLaws] (what the
    answer of ibv_modify_qp says of the state of the queue pair, never that a
    request is granted, and that ibv_query_qp changes none), [PathLaws]
    (where the queue pair's path to its peer comes from), [StreamLaws]
    (TCP delivers the bytes in order, in pieces of any size), [InetLaws]
    (inet_ntop and inet_addr), [GetOptLaws] (each option consumes arguments),
    [ClockLaws] (the steady clock), [LinkLaws] (a healthy link takes
    [send_room] requests and completes each, in order, within [patience] polls),
    [PostLog] (the requests a process has posted; posting and polling move no data),
    [OtherCalls] (clock and sockets post none),
    [ReliableLink] (requests are carried out in order, and are while they can be),
    [QuietCode] and [PublicCode] (callbacks that leave the timed events alone, and
    that use only the public members of the wheel and its handles).

    The ABI is little-endian x86-64 Linux: int is 32 bits, pointers and size_t
    64.  Arguments of LOG and of make_string are evaluated, as they may end
    the process; those of VLOG are not, its level being off by default.  The
    member [fd_] that one handler sends uninitialised is the parameter
    [uninit].

    ** Not modelled

    - Threads, except in Event, Helpers, Lanes and Wheel.  There, what another thread
      may do between two actions is modelled, and an action itself is a critical
      section, or a handler on data of its own channel, without interleaving;
      helper threads begin once [ready] is set.  In Pair and Hub the processes
      take turns, of one completion or one poll with its batch.  In Wheel other
      threads signal, cancel and reset the handles of a [TimeEvent] at any moment of
      its turns ([wheel_step]); its events are set in a callback, or from outside
      while its thread waits, since a set during a turn is a data race on the set of
      events.  The rest of the library runs in one thread.
    - The lines of the log and the measured times: output only; with them
      [make_string], [get_tid] and the stream part of include/util/logging.h.  What a
      run prints is not part of its state: Reports gives the characters, and the
      places that print are named in Options.
    - [NetTool::get_token_id]: a sscanf without callers.
    - The two ends of the benchmark as one system with a link: Bench runs each end
      against [LinkLaws], and Talk compares what they say.
    - Threads of the library inside one another's handlers, and the memory model of
      the atomics: [Event], [Helpers], [Lanes] and [Wheel] take actions as atomic. *)
From stdpp Require Export base gmap strings list fin_maps pretty.
From Stdlib Require Export Ascii ZArith Lia.
Open Scope Z_scope.

(** ** Outcomes and the state-and-failure monad

    A C++ call either returns, or ends the process through glog's
    [CHECK]/[LOG(FATAL)] ([Fatal]) or by [exit] ([Exit]), or has undefined
    behaviour ([UB]); a loop the model cuts off is [OutOfFuel].  The state is
    kept in every case. *)

Inductive failure :=
  | Fatal (msg : string)
  | Exit (code : Z)
  | UB (msg : string)
  | OutOfFuel.

#[export] Instance failure_eq_dec : EqDecision failure.
Proof. solve_decision. Defined.

Inductive result (S A : Type) :=
  | Ok (a : A) (s : S)
  | Abort (f : failure) (s : S).
Arguments Ok {S A} a s.
Arguments Abort {S A} f s.

Definition M (S A : Type) : Type := S → result S A.

#[export] Instance M_ret S : MRet (M S) := λ A a s, Ok a s.
#[export] Instance M_bind S : MBind (M S) := λ A B k m s,
  match m s with
  | Ok a s' => k a s'
  | Abort f s' => Abort f s'
  end.

Definition get {S} : M S S := λ s, Ok s s.
Definition gets {S A} (f : S → A) : M S A := λ s, Ok (f s) s.
Definition modify {S} (f : S → S) : M S unit := λ s, Ok tt (f s).
Definition fail {S A} (f : failure) : M S A := λ s, Abort f s.

(** [CHECK(b) << msg]: glog ends the process when the condition is false. *)
Definition check {S} (b : bool) (msg : string) : M S unit :=
  if b then mret tt else fail (Fatal msg).

(** [LOG(FATAL) << msg] *)
Definition log_fatal {S A} (msg : string) : M S A := fail (Fatal msg).

(** Behaviour the C++ standard leaves undefined unless [b] holds. *)
Definition defined {S} (b : bool) (msg : string) : M S unit :=
  if b then mret tt else fail (UB msg).

(** Read a value that must be there for the program to be defined. *)
Definition must {S A} (o : option A) (msg : string) : M S A :=
  match o with Some a => mret a | None => fail (UB msg) end.

Fixpoint for_each {S A} (xs : list A) (body : A → M S unit) : M S unit :=
  match xs with
  | [] => mret tt
  | x :: xs => body x ;; for_each xs body
  end.

(** A loop that passes a value on. *)
Fixpoint fold_each {S A B} (step : A → B → M S A) (a : A) (l : list B) : M S A :=
  match l with
  | [] => mret a
  | b :: l => a ← step a b; fold_each step a l
  end.

(** ** Laws of the monad and the lemmas that drive its proofs *)

Section monad_lemmas.
Context {S : Type}.
Implicit Types s : S.

Lemma bind_Ok {A B} (m : M S A) (k : A → M S B) s a s' :
  m s = Ok a s' → (m ≫= k) s = k a s'.
Proof. unfold mbind, M_bind. by intros ->. Qed.

Lemma bind_ext {A B} (m m' : M S A) (k k' : A → M S B) s :
  m s = m' s → (∀ a s', k a s' = k' a s') → (m ≫= k) s = (m' ≫= k') s.
Proof. intros Hm Hk. unfold mbind, M_bind. rewrite Hm. by destruct (m' s). Qed.
Lemma bind_Abort {A B} (m : M S A) (k : A → M S B) s f s' :
  m s = Abort f s' → (m ≫= k) s = Abort f s'.
Proof. unfold mbind, M_bind. by intros ->. Qed.

Lemma bind_inv {A B} (m : M S A) (k : A → M S B) s b s'' :
  (m ≫= k) s = Ok b s'' → ∃ a s', m s = Ok a s' ∧ k a s' = Ok b s''.
Proof. unfold mbind, M_bind. destruct (m s) as [a s'|f s'] eqn:E; [eauto|done]. Qed.

Lemma bind_ret {A B} (a : A) (k : A → M S B) s : (mret a ≫= k) s = k a s.
Proof. done. Qed.

Lemma bind_get {B} (k : S → M S B) s : (get ≫= k) s = k s s.
Proof. done. Qed.
Lemma bind_modify {B} (f : S → S) (k : unit → M S B) s : (modify f ≫= k) s = k tt (f s).
Proof. done. Qed.

Lemma bind_assoc {A B C} (m : M S A) (k : A → M S B) (h : B → M S C) s :
  ((m ≫= k) ≫= h) s = (m ≫= (λ a, k a ≫= h)) s.
Proof. unfold mbind, M_bind. by destruct (m s). Qed.

Lemma check_inv b msg s u s' :
  check b msg s = Ok u s' → b = true ∧ s' = s.
Proof. destruct b; cbn; [by intros [= _ ->]|done]. Qed.

Lemma defined_inv b msg s u s' :
  defined b msg s = Ok u s' → b = true ∧ s' = s.
Proof. destruct b; cbn; [by intros [= _ ->]|done]. Qed.

Lemma must_inv {A} (o : option A) msg s a s' :
  must o msg s = Ok a s' → o = Some a ∧ s' = s.
Proof. destruct o; cbn; [by intros [= -> ->]|done]. Qed.

Lemma gets_inv {A} (f : S → A) s a s' :
  gets f s = Ok a s' → a = f s ∧ s' = s.
Proof. by intros [= -> ->]. Qed.

Lemma ret_inv {A} (x : A) s a s' : mret (M:=M S) x s = Ok a s' → a = x ∧ s' = s.
Proof. by intros [= -> ->]. Qed.

Lemma modify_inv (f : S → S) s u s' : modify f s = Ok u s' → s' = f s.
Proof. by intros [= _ ->]. Qed.

(** [keeps p m]: a run of [m] that returns leaves the component [p] of the
    state as it was. *)
Definition keeps {P A} (p : S → P) (m : M S A) : Prop :=
  ∀ s a s', m s = Ok a s' → p s' = p s.

Lemma keeps_ret {P A} (p : S → P) (a : A) : keeps p (mret a).
Proof. intros s a' s' H. by apply ret_inv in H as [_ ->]. Qed.
Lemma keeps_bind {P A B} (p : S → P) (m : M S A) (k : A → M S B) :
  keeps p m → (∀ a, keeps p (k a)) → keeps p (m ≫= k).
Proof.
  intros Hm Hk s b s'' H. apply bind_inv in H as (a & s' & H1 & H2).
  rewrite (Hk _ _ _ _ H2). eauto.
Qed.
Lemma keeps_fail {P A} (p : S → P) f : keeps p (fail (A:=A) f).
Proof. by intros s a s' H. Qed.
Lemma keeps_gets {P A} (p : S → P) (f : S → A) : keeps p (gets f).
Proof. intros s a s' H. by apply gets_inv in H as [_ ->]. Qed.
Lemma keeps_modify {P} (p : S → P) f : (∀ s, p (f s) = p s) → keeps p (modify f).
Proof. intros Hf s a s' H. apply modify_inv in H as ->. done. Qed.
Lemma keeps_check {P} (p : S → P) b msg : keeps p (check b msg).
Proof. intros s a s' H. by apply check_inv in H as [_ ->]. Qed.
Lemma keeps_defined {P} (p : S → P) b msg : keeps p (defined b msg).
Proof. intros s a s' H. by apply defined_inv in H as [_ ->]. Qed.
Lemma keeps_must {P A} (p : S → P) (o : option A) msg : keeps p (must o msg).
Proof. intros s a s' H. by apply must_inv in H as [_ ->]. Qed.
Lemma keeps_if {P A} (p : S → P) (b : bool) (m1 m2 : M S A) :
  keeps p m1 → keeps p m2 → keeps p (if b then m1 else m2).
Proof. by destruct b. Qed.
Lemma keeps_for_each {P A} (p : S → P) (xs : list A) body :
  (∀ x, keeps p (body x)) → keeps p (for_each xs body).
Proof.
  intros Hb. induction xs as [|x xs IH]; cbn.
  - apply keeps_ret.
  - apply keeps_bind; eauto.
Qed.

(** [completes m]: [m] never runs out of fuel. *)
Definition completes {A} (m : M S A) : Prop := ∀ s s', m s ≠ Abort OutOfFuel s'.

Lemma completes_ret {A} (a : A) : completes (mret a).
Proof. done. Qed.
Lemma completes_fail {A} f : f ≠ OutOfFuel → completes (fail (A:=A) f).
Proof. intros Hf s s' [=]. by apply Hf. Qed.
Lemma completes_check b msg : completes (check b msg).
Proof. by destruct b. Qed.
Lemma completes_defined b msg : completes (defined b msg).
Proof. by destruct b. Qed.
Lemma completes_must {A} (o : option A) msg : completes (must o msg).
Proof. by destruct o. Qed.
Lemma completes_bind {A B} (m : M S A) (k : A → M S B) :
  completes m → (∀ a, completes (k a)) → completes (m ≫= k).
Proof.
  intros Hm Hk s s'. unfold mbind, M_bind. destruct (m s) as [a s1|f s1] eqn:E.
  - apply Hk.
  - intros [= -> ->]. by apply Hm in E.
Qed.
Lemma completes_if {A} (b : bool) (m1 m2 : M S A) :
  completes m1 → completes m2 → completes (if b then m1 else m2).
Proof. by destruct b. Qed.

Lemma for_each_app {A} (xs ys : list A) (body : A → M S unit) s :
  for_each (xs ++ ys) body s = (for_each xs body ;; for_each ys body) s.
Proof.
  revert s. induction xs as [|x xs IH]; intros s; cbn; [done|].
  unfold mbind, M_bind. destruct (body x s); [apply IH|done].
Qed.

(** An invariant of a loop's turns, indexed by the turns taken. *)
Lemma fold_each_inv {A B} (I : nat → A → S → Prop) (step : A → B → M S A) l :
  (∀ i b a s a' s', l !! i = Some b → I i a s → step a b s = Ok a' s' →
     I (Datatypes.S i) a' s') →
  ∀ a s a' s', I 0%nat a s → fold_each step a l s = Ok a' s' → I (length l) a' s'.
Proof.
  revert I. induction l as [|b l IH]; intros I Hstep a s a' s' H0 H; cbn [fold_each length] in *.
  - by apply ret_inv in H as [-> ->].
  - apply bind_inv in H as (a1 & s1 & H1 & H).
    apply (IH (λ i, I (Datatypes.S i))) in H; [done| |].
    + intros i b' a2 s2 a3 s3 Hi HI. by apply (Hstep (Datatypes.S i)).
    + by eapply (Hstep 0%nat).
Qed.
Lemma for_each_inv {A} (I : nat → S → Prop) (body : A → M S unit) l :
  (∀ i a s u s', l !! i = Some a → I i s → body a s = Ok u s' → I (Datatypes.S i) s') →
  ∀ s u s', I 0%nat s → for_each l body s = Ok u s' → I (length l) s'.
Proof.
  revert I. induction l as [|a l IH]; intros I Hstep s u s' H0 H; cbn [for_each length] in *.
  - by apply ret_inv in H as [_ ->].
  - apply bind_inv in H as (v & s1 & H1 & H).
    apply (IH (λ i, I (Datatypes.S i))) in H; [done| |].
    + intros i a' s2 u' s3 Hi HI. by apply (Hstep (Datatypes.S i)).
    + by eapply (Hstep 0%nat).
Qed.
(** The parts of what holds at the end of a loop, each established by one turn
    and left alone by the others. *)
Lemma for_each_parts {A} (P Q : nat → S → Prop) (body : A → M S unit) l :
  (∀ i a s u s', l !! i = Some a → P i s → body a s = Ok u s' →
     Q i s' ∧ ∀ j, j ≠ i → (j < length l)%nat → (P j s → P j s') ∧ (Q j s → Q j s')) →
  ∀ s u s', (∀ i, (i < length l)%nat → P i s) → for_each l body s = Ok u s' →
  ∀ i, (i < length l)%nat → Q i s'.
Proof.
  intros Hstep s u s' H0 H i Hi.
  cut (if decide (i < length l)%nat then Q i s' else P i s'); [by rewrite decide_True|].
  revert i Hi. refine (for_each_inv (λ n s, ∀ i, (i < length l)%nat →
    if decide (i < n)%nat then Q i s else P i s) body l _ s u s' _ H).
  - intros n a s1 u1 s2 Ha HI Hb. apply lookup_lt_Some in Ha as Hn.
    pose proof (HI n Hn) as HP. rewrite decide_False in HP by lia.
    destruct (Hstep _ _ _ _ _ Ha HP Hb) as [HQ Hother]. intros i Hi.
    destruct (decide (i = n)) as [->|Hne]; [by rewrite decide_True by lia|].
    specialize (HI i Hi). destruct (Hother i Hne Hi) as [HPi HQi].
    destruct (decide (i < n)%nat), (decide (i < Datatypes.S n)%nat); auto; lia.
  - intros i Hi. rewrite decide_False by lia. auto.
Qed.
(** The same when every turn succeeds. *)
Lemma fold_each_total {A B} (I : nat → A → S → Prop) (step : A → B → M S A) l :
  (∀ i b a s, l !! i = Some b → I i a s →
     ∃ a' s', step a b s = Ok a' s' ∧ I (Datatypes.S i) a' s') →
  ∀ a s, I 0%nat a s → ∃ a' s', fold_each step a l s = Ok a' s' ∧ I (length l) a' s'.
Proof.
  revert I. induction l as [|b l IH]; intros I Hstep a s H0; cbn [fold_each length].
  - by exists a, s.
  - destruct (Hstep 0%nat b a s eq_refl H0) as (a1 & s1 & E1 & H1).
    rewrite (bind_Ok _ _ _ _ _ E1).
    apply (IH (λ i, I (Datatypes.S i))); [|done].
    intros i b' a2 s2 Hi HI. by apply (Hstep (Datatypes.S i)).
Qed.
Lemma for_each_total {A} (I : nat → S → Prop) (body : A → M S unit) l :
  (∀ i a s, l !! i = Some a → I i s → ∃ u s', body a s = Ok u s' ∧ I (Datatypes.S i) s') →
  ∀ s, I 0%nat s → ∃ s', for_each l body s = Ok tt s' ∧ I (length l) s'.
Proof.
  revert I. induction l as [|a l IH]; intros I Hstep s H0; cbn [for_each length].
  - by exists s.
  - destruct (Hstep 0%nat a s eq_refl H0) as (u & s1 & E1 & H1).
    rewrite (bind_Ok _ _ _ _ _ E1). apply (IH (λ i, I (Datatypes.S i))); [|done].
    intros i a' s2 Hi HI. by apply (Hstep (Datatypes.S i)).
Qed.
End monad_lemmas.

Create HintDb keeps.
#[export] Hint Resolve keeps_ret keeps_fail keeps_gets keeps_check keeps_defined
  keeps_must : keeps.
#[export] Hint Extern 1 (keeps _ (mbind _ _)) => apply keeps_bind; [|intros ?] : keeps.
#[export] Hint Extern 1 (keeps _ (if _ then _ else _)) => apply keeps_if : keeps.
#[export] Hint Extern 1 (keeps _ (for_each _ _)) => apply keeps_for_each; intros ? : keeps.
#[export] Hint Extern 2 (keeps _ (log_fatal _)) => apply keeps_fail : keeps.
#[export] Hint Extern 2 (keeps _ (modify _)) => apply keeps_modify; intros ?; reflexivity : keeps.
#[export] Hint Extern 3 (keeps _ (match ?x with _ => _ end)) => destruct x : keeps.

(** [solve_keeps] proves that a monadic body keeps a component, from the hint
    database [keeps]. *)
Ltac solve_keeps := solve [eauto 40 with keeps].

Create HintDb completes.
#[export] Hint Resolve completes_ret completes_check completes_defined
  completes_must : completes.
#[export] Hint Extern 1 (completes (mbind _ _)) => apply completes_bind; [|intros ?] : completes.
#[export] Hint Extern 1 (completes (if _ then _ else _)) => apply completes_if : completes.
#[export] Hint Extern 2 (completes (fail _)) => apply completes_fail; discriminate : completes.
#[export] Hint Extern 2 (completes (log_fatal _)) => apply completes_fail; discriminate : completes.
#[export] Hint Extern 3 (completes (match ?x with _ => _ end)) => destruct x : completes.

(** [solve_completes] proves that a body without fuelled loops completes. *)
Ltac solve_completes := solve [eauto 40 with completes].

(** [mstep E] runs the first call of a sequence with the equation [E]. *)
Ltac mstep E := first [erewrite (bind_Ok _ _ _ _ _ E) | erewrite (bind_Abort _ _ _ _ _ E)]; cbn beta.

(** ** Record update

    [r <| f := v |>] is [r] with field [f] set to [v]; the setter of a field
    is derived from the record's [Eta] instance. *)

Class Eta (R : Type) := eta : R → R.
Class Upd {R E : Type} (g : R → E) := mkUpd { upd : (E → E) → R → R }.
Arguments mkUpd {R E} g upd.
Arguments upd {R E} g {_} f r /.

Ltac derive_upd :=
  lazymatch goal with
  | |- @Upd ?R ?E ?g =>
      let i := constr:(_ : Eta R) in
      let h := fresh "h" in let r := fresh "r" in
      refine (mkUpd g _); intros h r;
      let b := eval hnf in (i r) in
      let p := eval pattern (g r) in b in
      lazymatch p with
      | (fun _ => ?c) _ => fail "derive_upd: not a field"
      | ?c _ => let t := eval cbv beta in (c (h (g r))) in exact t
      end
  end.
#[export] Hint Extern 0 (Upd _) => derive_upd : typeclass_instances.

Set Warnings "-postfix-notation-not-level-1".
Declare Scope upd_scope.
Notation "r <| f := v |>" := (upd f (λ _, v) r)
  (at level 12, left associativity, f at level 9, v at level 99) : upd_scope.
Notation "r <| f ::= h |>" := (upd f h r)
  (at level 12, left associativity, f at level 9, h at level 99) : upd_scope.
Open Scope upd_scope.

