(* ===== verification/Words.v ===== *)
(** * Machine words, byte order and raw memory

    Fixed-width conversions as the x86-64 Linux ABI does them, little-endian
    encodings of integers, the [htonll]/[ntohll] helpers of
    include/rdma_base.h, and the byte-addressed memory that data buffers live
    in. *)
From S2P Require Import Prelude.

(** ** Conversions between integer types *)

Definition u8 (z : Z) : Z := z mod 2^8.
Definition u16 (z : Z) : Z := z mod 2^16.
Definition u32 (z : Z) : Z := z mod 2^32.
Definition u64 (z : Z) : Z := z mod 2^64.
Definition i32 (z : Z) : Z := (z + 2^31) mod 2^32 - 2^31.

Definition INT_MAX : Z := 2^31 - 1.
Definition INT64_MAX : Z := 2^63 - 1.
Definition INT64_MIN : Z := - 2^63.

Lemma u8_range z : 0 ≤ u8 z < 2^8.
Proof. apply Z.mod_pos_bound. lia. Qed.
Lemma u16_range z : 0 ≤ u16 z < 2^16.
Proof. apply Z.mod_pos_bound. lia. Qed.
Lemma u32_range z : 0 ≤ u32 z < 2^32.
Proof. apply Z.mod_pos_bound. lia. Qed.
Lemma u64_range z : 0 ≤ u64 z < 2^64.
Proof. apply Z.mod_pos_bound. lia. Qed.
Lemma u8_small z : 0 ≤ z < 2^8 → u8 z = z.
Proof. apply Z.mod_small. Qed.
Lemma u16_small z : 0 ≤ z < 2^16 → u16 z = z.
Proof. apply Z.mod_small. Qed.
Lemma u32_small z : 0 ≤ z < 2^32 → u32 z = z.
Proof. apply Z.mod_small. Qed.
Lemma u64_small z : 0 ≤ z < 2^64 → u64 z = z.
Proof. apply Z.mod_small. Qed.
Lemma i32_small z : - 2^31 ≤ z < 2^31 → i32 z = z.
Proof. intros. unfold i32. rewrite Z.mod_small; lia. Qed.

(** ** Little-endian encodings *)

Fixpoint le_bytes (n : nat) (z : Z) : list Z :=
  match n with
  | O => []
  | S n => z mod 256 :: le_bytes n (z / 256)
  end.

Fixpoint le_val (bs : list Z) : Z :=
  match bs with
  | [] => 0
  | b :: bs => b + 256 * le_val bs
  end.

Definition is_byte (b : Z) : Prop := 0 ≤ b < 256.
#[export] Instance is_byte_dec b : Decision (is_byte b).
Proof. unfold is_byte. apply _. Defined.

Lemma length_le_bytes n z : length (le_bytes n z) = n.
Proof. revert z. induction n; intros; cbn; auto. Qed.

Lemma le_bytes_is_byte n z : Forall is_byte (le_bytes n z).
Proof.
  revert z. induction n as [|n IH]; intros z; cbn; constructor; auto.
  unfold is_byte. apply Z.mod_pos_bound. lia.
Qed.

Lemma pow256_succ n : 256 ^ Z.of_nat (S n) = 256 * 256 ^ Z.of_nat n.
Proof. rewrite Nat2Z.inj_succ, Z.pow_succ_r; lia. Qed.

Lemma le_val_bytes n z : le_val (le_bytes n z) = z mod 256 ^ Z.of_nat n.
Proof.
  revert z. induction n as [|n IH]; intros z; cbn [le_val le_bytes].
  - by rewrite Z.mod_1_r.
  - rewrite IH, pow256_succ, Z.rem_mul_r; lia.
Qed.

Lemma le_val_range bs : Forall is_byte bs → 0 ≤ le_val bs < 256 ^ Z.of_nat (length bs).
Proof.
  induction 1 as [|b bs Hb _ IH]; cbn [le_val length]; [cbn; lia|].
  rewrite pow256_succ. unfold is_byte in Hb. nia.
Qed.

Lemma le_bytes_val bs : Forall is_byte bs → le_bytes (length bs) (le_val bs) = bs.
Proof.
  induction 1 as [|b bs Hb Hbs IH]; cbn [le_val length le_bytes]; [done|].
  unfold is_byte in Hb.
  replace (b + 256 * le_val bs) with (le_val bs * 256 + b) by lia.
  f_equal.
  - rewrite Z.add_comm, Z.mod_add, Z.mod_small; lia.
  - rewrite Z.div_add_l, (Z.div_small b), Z.add_0_r by lia. exact IH.
Qed.

Lemma le_val_bytes_small n z :
  0 ≤ z < 256 ^ Z.of_nat n → le_val (le_bytes n z) = z.
Proof. intros. rewrite le_val_bytes. by apply Z.mod_small. Qed.

(** ** Network byte order (include/rdma_base.h) *)

(** glibc's [bswap_64] and [bswap_16]: the bytes of the word reversed. *)
Definition bswap_64 (x : Z) : Z := le_val (reverse (le_bytes 8 x)).
Definition bswap_16 (x : Z) : Z := le_val (reverse (le_bytes 2 x)).

(** The branch of the preprocessor conditional: the host's byte order. *)
Inductive byte_order := LITTLE_ENDIAN | BIG_ENDIAN.

Definition htonll (o : byte_order) (x : Z) : Z :=
  match o with LITTLE_ENDIAN => bswap_64 x | BIG_ENDIAN => x end.
Definition ntohll (o : byte_order) (x : Z) : Z :=
  match o with LITTLE_ENDIAN => bswap_64 x | BIG_ENDIAN => x end.

(** [htons]/[ntohs] of the (little-endian) host the library runs on. *)
Definition htons (x : Z) : Z := bswap_16 (u16 x).
Definition ntohs (x : Z) : Z := bswap_16 (u16 x).

Lemma bswap_involutive n x :
  0 ≤ x < 256 ^ Z.of_nat n →
  le_val (reverse (le_bytes n (le_val (reverse (le_bytes n x))))) = x.
Proof.
  intros Hx.
  assert (length (reverse (le_bytes n x)) = n) as Hn
    by by rewrite length_reverse, length_le_bytes.
  rewrite <-Hn at 1. rewrite le_bytes_val by apply Forall_reverse, le_bytes_is_byte.
  rewrite reverse_involutive. by apply le_val_bytes_small.
Qed.

Lemma ntohs_htons x : 0 ≤ x < 2^16 → ntohs (htons x) = x.
Proof.
  intros Hx. unfold ntohs, htons. rewrite (u16_small x) by lia.
  assert (0 ≤ bswap_16 x < 2^16) as Hb.
  { unfold bswap_16. pose proof (le_val_range (reverse (le_bytes 2 x))) as Hr.
    rewrite length_reverse, length_le_bytes in Hr.
    apply Hr, Forall_reverse, le_bytes_is_byte. }
  rewrite u16_small by lia. by apply (bswap_involutive 2).
Qed.

(** ** Byte-addressed memory

    A byte that is in the map is allocated; touching any other byte is
    undefined behaviour. *)

Abbreviation mem := (gmap Z Z).

Fixpoint mem_write (a : Z) (bs : list Z) (m : mem) : mem :=
  match bs with
  | [] => m
  | b :: bs => <[a := b]> (mem_write (a + 1) bs m)
  end.

Fixpoint mem_read (a : Z) (n : nat) (m : mem) : option (list Z) :=
  match n with
  | O => Some []
  | S n =>
      match m !! a, mem_read (a + 1) n m with
      | Some b, Some bs => Some (b :: bs)
      | _, _ => None
      end
  end.

(** All [n] bytes from [a] on are allocated. *)
Fixpoint mem_allocated (a : Z) (n : nat) (m : mem) : bool :=
  match n with
  | O => true
  | S n => bool_decide (is_Some (m !! a)) && mem_allocated (a + 1) n m
  end.

Definition zeros (n : Z) : list Z := replicate (Z.to_nat n) 0.

Lemma mem_write_lookup a bs m x :
  mem_write a bs m !! x =
    if bool_decide (a ≤ x < a + Z.of_nat (length bs))
    then bs !! Z.to_nat (x - a) else m !! x.
Proof.
  revert a. induction bs as [|b bs IH]; intros a; cbn [mem_write length].
  - rewrite bool_decide_false by lia. done.
  - rewrite lookup_insert, IH. destruct (decide (a = x)) as [->|Hne].
    + rewrite bool_decide_true by lia. by rewrite Z.sub_diag.
    + case_bool_decide.
      * rewrite bool_decide_true by lia.
        replace (Z.to_nat (x - a)) with (S (Z.to_nat (x - (a + 1)))) by lia. done.
      * rewrite bool_decide_false by lia. done.
Qed.

Lemma mem_write_frame a bs m x :
  ¬ (a ≤ x < a + Z.of_nat (length bs)) → mem_write a bs m !! x = m !! x.
Proof. intros. rewrite mem_write_lookup. by rewrite bool_decide_false. Qed.

Lemma mem_allocated_spec a n m :
  mem_allocated a n m = true ↔ ∀ x, a ≤ x < a + Z.of_nat n → is_Some (m !! x).
Proof.
  revert a. induction n as [|n IH]; intros a; cbn [mem_allocated].
  - split; [lia|done].
  - rewrite andb_true_iff, bool_decide_eq_true, IH. split.
    + intros [Ha Hn] x Hx. destruct (decide (x = a)) as [->|]; [done|].
      apply Hn. lia.
    + intros H. split; [apply H; lia|]. intros x Hx. apply H. lia.
Qed.

Lemma mem_allocated_write a n b bs m :
  mem_allocated a n m = true → mem_allocated a n (mem_write b bs m) = true.
Proof.
  rewrite !mem_allocated_spec. intros H x Hx. rewrite mem_write_lookup.
  case_bool_decide; [|auto]. apply lookup_lt_is_Some. lia.
Qed.

Lemma mem_allocated_sub a n a' n' m :
  mem_allocated a n m = true → a ≤ a' → a' + Z.of_nat n' ≤ a + Z.of_nat n →
  mem_allocated a' n' m = true.
Proof. rewrite !mem_allocated_spec. intros H ?? x Hx. apply H. lia. Qed.

Lemma mem_read_spec a n m bs :
  mem_read a n m = Some bs ↔
    length bs = n ∧ ∀ i, (i < n)%nat → m !! (a + Z.of_nat i) = bs !! i.
Proof.
  revert a bs. induction n as [|n IH]; intros a bs; cbn [mem_read].
  - split; [intros [= <-]; split; [done|lia]|].
    intros [H _]. by destruct bs.
  - split.
    + destruct (m !! a) as [b|] eqn:Ha; [|done].
      destruct (mem_read (a + 1) n m) as [bs'|] eqn:Hr; [|done].
      intros [= <-]. apply IH in Hr as [Hl Hr]. cbn. split; [lia|].
      intros [|i] Hi; cbn; [by rewrite Z.add_0_r|].
      rewrite <-Hr by lia. f_equal. lia.
    + intros [Hl H]. destruct bs as [|b bs]; [done|].
      pose proof (H O ltac:(lia)) as H0. rewrite Z.add_0_r in H0. rewrite H0. cbn.
      assert (mem_read (a + 1) n m = Some bs) as ->; [|done].
      apply IH. cbn in Hl. split; [lia|]. intros i Hi.
      transitivity ((b :: bs) !! S i); [|done]. rewrite <-H by lia. f_equal. lia.
Qed.

Lemma mem_read_write a bs m : mem_read a (length bs) (mem_write a bs m) = Some bs.
Proof.
  apply mem_read_spec. split; [done|]. intros i Hi. rewrite mem_write_lookup.
  rewrite bool_decide_true by lia. f_equal. lia.
Qed.
