(* ===== verification/Types.v ===== *)
(** * Data of the library

    The enums, structs and object layouts of include/*.h, with the verbs
    structs the library fills in or reads (only the fields it touches). *)
From S2P Require Import Prelude Words.

(** ** Configuration (include/rdma_config.h) *)

Record Config := mkConfig {
  cfg_dev_name : string;
  server_name : string;
  serve_as_client : bool;
  tcp_port : Z;
  cfg_ib_port : Z;
  gid_idx : Z;
  cfg_traffic_class : Z;
  use_event : bool;
  DATA_MSG_SIZE : Z;
  CTRL_MSG_SIZE : Z;
  MSG_BLOCK_NUM : Z;
  local_ip : string;
  cluster : list string;
  num_senders : Z;
  single_recv : bool;
  service_type : Z;
  tree_width : Z;
  sub_groups : list (list string);
  role : string;
  master_ip : string;
  session_id : string
}.

#[export] Instance eta_Config : Eta Config := λ r,
  mkConfig (cfg_dev_name r) (server_name r) (serve_as_client r) (tcp_port r)
    (cfg_ib_port r) (gid_idx r) (cfg_traffic_class r) (use_event r)
    (DATA_MSG_SIZE r) (CTRL_MSG_SIZE r) (MSG_BLOCK_NUM r) (local_ip r)
    (cluster r) (num_senders r) (single_recv r) (service_type r) (tree_width r)
    (sub_groups r) (role r) (master_ip r) (session_id r).

Definition default_Config : Config :=
  {| cfg_dev_name := "mlx5_0"; server_name := ""; serve_as_client := false;
     tcp_port := 2020; cfg_ib_port := 1; gid_idx := 3; cfg_traffic_class := 0;
     use_event := false; DATA_MSG_SIZE := 1000; CTRL_MSG_SIZE := 4;
     MSG_BLOCK_NUM := 2; local_ip := ""; cluster := []; num_senders := 0;
     single_recv := false; service_type := 0; tree_width := 0; sub_groups := [];
     role := ""; master_ip := ""; session_id := "" |}.

(** ** Messages and descriptors (include/rdma_adapter.h) *)

Inductive MessageType :=
  | UNSET | RAW_DATA_BLOCK | TEST_FOR_CONNECTION | TEST_FOR_SYNC_DATA
  | SAY_HELLO | REQUEST_EXCHANGE_KEY | RESPONSE_EXCHANGE_KEY.

#[export] Instance MessageType_eq_dec : EqDecision MessageType.
Proof. solve_decision. Defined.

(** The enumerators' values, [static_cast<uint32_t>]. *)
Definition msg_code (t : MessageType) : Z :=
  match t with
  | UNSET => 0
  | RAW_DATA_BLOCK => 1
  | TEST_FOR_CONNECTION => 2
  | TEST_FOR_SYNC_DATA => 3
  | SAY_HELLO => 127
  | REQUEST_EXCHANGE_KEY => 2^31 + 1
  | RESPONSE_EXCHANGE_KEY => 2^31 + 2
  end.

Record CommDescriptor := mkCommDescriptor {
  buffer_addr_ : Z;
  buffer_length_ : Z;
  rkey_ : Z;
  fd_ : Z
}.

#[export] Instance eta_CommDescriptor : Eta CommDescriptor := λ r,
  mkCommDescriptor (buffer_addr_ r) (buffer_length_ r) (rkey_ r) (fd_ r).
#[export] Instance CommDescriptor_eq_dec : EqDecision CommDescriptor.
Proof. solve_decision. Defined.

Inductive AdapterState := UNUSED | RESET | RESOURCE_ALLOCATED | CONNECTING.

#[export] Instance AdapterState_eq_dec : EqDecision AdapterState.
Proof. solve_decision. Defined.

(** [enum ibv_mtu] of verbs.h is kept by value: [IBV_MTU_256] is 1,
    [IBV_MTU_4096] is 5. *)
Definition IBV_MTU_256 : Z := 1.
Definition IBV_MTU_4096 : Z := 5.

Record AdapterConfig := mkAdapterConfig {
  cfg_unique_id : string;
  dev_name : string;
  traffic_class : Z;
  cq_size : Z;
  ib_port : Z;
  gid_index : Z;
  used_mtu : Z;
  cq_key : string;
  signal_all_wqe : bool;
  using_shared_cq : bool;
  use_event_channel : bool;
  max_send_wr : Z;
  max_recv_wr : Z;
  max_send_sge : Z;
  max_recv_sge : Z;
  max_inline_data : Z
}.

#[export] Instance eta_AdapterConfig : Eta AdapterConfig := λ r,
  mkAdapterConfig (cfg_unique_id r) (dev_name r) (traffic_class r) (cq_size r)
    (ib_port r) (gid_index r) (used_mtu r) (cq_key r) (signal_all_wqe r)
    (using_shared_cq r) (use_event_channel r) (max_send_wr r) (max_recv_wr r)
    (max_send_sge r) (max_recv_sge r) (max_inline_data r).

Definition default_AdapterConfig : AdapterConfig :=
  {| cfg_unique_id := "Adapter"; dev_name := "mlx5_0"; traffic_class := 0;
     cq_size := 1024; ib_port := 1; gid_index := 3; used_mtu := IBV_MTU_4096;
     cq_key := ""; signal_all_wqe := false; using_shared_cq := true;
     use_event_channel := false; max_send_wr := 128; max_recv_wr := 128;
     max_send_sge := 1; max_recv_sge := 1; max_inline_data := 1 |}.

(** [gid] is the 16 raw bytes of [union ibv_gid], [unique_id] the 128 bytes of
    the array. *)
Record AdapterInfo := mkAdapterInfo {
  gid : list Z;
  qp_num : Z;
  lid : Z;
  link_layer : Z;
  active_mtu : Z;
  unique_id : list Z
}.

#[export] Instance eta_AdapterInfo : Eta AdapterInfo := λ r,
  mkAdapterInfo (gid r) (qp_num r) (lid r) (link_layer r) (active_mtu r)
    (unique_id r).

(** The member initialisers; [gid] has none and gets zeros here, it is written
    before it is read. *)
Definition default_AdapterInfo : AdapterInfo :=
  {| gid := replicate 16 0; qp_num := 0; lid := 0; link_layer := 0;
     active_mtu := IBV_MTU_256; unique_id := replicate 128 0 |}.

(** ** Verbs structs

    Opaque handles ([ibv_context], [ibv_pd], [ibv_cq], [ibv_comp_channel]) are
    their address, 0 for a null pointer. *)

Record ibv_device := mkIbvDevice { ibv_get_device_name : string; ibv_dev_handle : Z }.

Record ibv_port_attr := mkPortAttr {
  port_state : Z;
  max_mtu : Z;
  port_active_mtu : Z;
  port_lid : Z;
  sm_lid : Z;
  port_link_layer : Z
}.

Definition IBV_PORT_ACTIVE : Z := 4.
Definition IBV_LINK_LAYER_ETHERNET : Z := 2.

Record ibv_qp := mkIbvQp { qp_handle : Z; ibv_qp_num : Z }.
Record ibv_mr := mkIbvMr { mr_handle : Z; mr_lkey : Z; mr_rkey : Z }.

Record ibv_qp_init_attr := mkQpInitAttr {
  qp_type : Z;
  sq_sig_all : Z;
  send_cq : Z;
  recv_cq : Z;
  cap_max_send_wr : Z;
  cap_max_recv_wr : Z;
  cap_max_send_sge : Z;
  cap_max_recv_sge : Z;
  cap_max_inline_data : Z;
  srq : Z
}.

#[export] Instance eta_ibv_qp_init_attr : Eta ibv_qp_init_attr := λ r,
  mkQpInitAttr (qp_type r) (sq_sig_all r) (send_cq r) (recv_cq r)
    (cap_max_send_wr r) (cap_max_recv_wr r) (cap_max_send_sge r)
    (cap_max_recv_sge r) (cap_max_inline_data r) (srq r).

Definition zero_qp_init_attr : ibv_qp_init_attr := mkQpInitAttr 0 0 0 0 0 0 0 0 0 0.
Definition IBV_QPT_RC : Z := 2.

Inductive ibv_qp_state := IBV_QPS_RESET | IBV_QPS_INIT | IBV_QPS_RTR | IBV_QPS_RTS
  | IBV_QPS_OTHER (code : Z).

#[export] Instance ibv_qp_state_eq_dec : EqDecision ibv_qp_state.
Proof. solve_decision. Defined.

Record ibv_ah_attr := mkAhAttr {
  is_global : Z;
  dlid : Z;
  sl : Z;
  src_path_bits : Z;
  ah_port_num : Z;
  dgid : list Z;
  flow_label : Z;
  hop_limit : Z;
  sgid_index : Z;
  grh_traffic_class : Z
}.

#[export] Instance eta_ibv_ah_attr : Eta ibv_ah_attr := λ r,
  mkAhAttr (is_global r) (dlid r) (sl r) (src_path_bits r) (ah_port_num r)
    (dgid r) (flow_label r) (hop_limit r) (sgid_index r) (grh_traffic_class r).

Record ibv_qp_attr := mkQpAttr {
  qp_state : ibv_qp_state;
  path_mtu : Z;
  dest_qp_num : Z;
  rq_psn : Z;
  sq_psn : Z;
  qp_access_flags : Z;
  ah_attr : ibv_ah_attr;
  pkey_index : Z;
  port_num : Z;
  max_rd_atomic : Z;
  max_dest_rd_atomic : Z;
  min_rnr_timer : Z;
  timeout : Z;
  retry_cnt : Z;
  rnr_retry : Z
}.

#[export] Instance eta_ibv_qp_attr : Eta ibv_qp_attr := λ r,
  mkQpAttr (qp_state r) (path_mtu r) (dest_qp_num r) (rq_psn r) (sq_psn r)
    (qp_access_flags r) (ah_attr r) (pkey_index r) (port_num r)
    (max_rd_atomic r) (max_dest_rd_atomic r) (min_rnr_timer r) (timeout r)
    (retry_cnt r) (rnr_retry r).

(** [memset(&attr, 0, sizeof(attr))]; [IBV_QPS_RESET] is 0. *)
Definition zero_ah_attr : ibv_ah_attr := mkAhAttr 0 0 0 0 0 (replicate 16 0) 0 0 0 0.
Definition zero_qp_attr : ibv_qp_attr :=
  mkQpAttr IBV_QPS_RESET 0 0 0 0 0 zero_ah_attr 0 0 0 0 0 0 0 0.

(** [enum ibv_qp_attr_mask] and [enum ibv_access_flags] *)
Definition IBV_QP_STATE : Z := 2^0.
Definition IBV_QP_ACCESS_FLAGS : Z := 2^3.
Definition IBV_QP_PKEY_INDEX : Z := 2^4.
Definition IBV_QP_PORT : Z := 2^5.
Definition IBV_QP_AV : Z := 2^7.
Definition IBV_QP_PATH_MTU : Z := 2^8.
Definition IBV_QP_TIMEOUT : Z := 2^9.
Definition IBV_QP_RETRY_CNT : Z := 2^10.
Definition IBV_QP_RNR_RETRY : Z := 2^11.
Definition IBV_QP_RQ_PSN : Z := 2^12.
Definition IBV_QP_MAX_QP_RD_ATOMIC : Z := 2^13.
Definition IBV_QP_MIN_RNR_TIMER : Z := 2^15.
Definition IBV_QP_SQ_PSN : Z := 2^16.
Definition IBV_QP_MAX_DEST_RD_ATOMIC : Z := 2^17.
Definition IBV_QP_DEST_QPN : Z := 2^20.

Definition IBV_ACCESS_LOCAL_WRITE : Z := 1.
Definition IBV_ACCESS_REMOTE_WRITE : Z := 2.
Definition IBV_ACCESS_REMOTE_READ : Z := 4.

Definition flag_or (fs : list Z) : Z := foldr Z.lor 0 fs.

Inductive ibv_wr_opcode :=
  IBV_WR_RDMA_WRITE | IBV_WR_RDMA_WRITE_WITH_IMM | IBV_WR_SEND_WITH_IMM | IBV_WR_RDMA_READ.

Record ibv_sge := mkSge { sge_addr : Z; sge_length : Z; sge_lkey : Z }.

(** [None] marks a member the code leaves uninitialised. *)
Record ibv_send_wr := mkSendWr {
  swr_wr_id : Z;
  swr_sg_list : list ibv_sge;
  swr_opcode : ibv_wr_opcode;
  swr_send_flags : Z;
  swr_imm_data : option Z;
  swr_remote : option (Z * Z)
}.

Definition IBV_SEND_SIGNALED : Z := 2.

Record ibv_recv_wr := mkRecvWr { rwr_wr_id : Z; rwr_sg_list : list ibv_sge }.

Inductive ibv_wc_opcode :=
  IBV_WC_SEND | IBV_WC_RDMA_WRITE | IBV_WC_RDMA_READ | IBV_WC_RECV
  | IBV_WC_RECV_RDMA_WITH_IMM | IBV_WC_OTHER (code : Z).

Record ibv_wc := mkWc {
  wc_wr_id : Z;
  wc_status : Z;
  wc_opcode : ibv_wc_opcode;
  wc_byte_len : Z;
  wc_imm_data : Z;
  wc_flags : Z
}.
#[export] Instance ibv_wc_opcode_eq_dec : EqDecision ibv_wc_opcode.
Proof. solve_decision. Defined.
#[export] Instance ibv_wc_eq_dec : EqDecision ibv_wc.
Proof. solve_decision. Defined.

Definition IBV_WC_SUCCESS : Z := 0.
Definition IBV_WC_WITH_IMM : Z := 2.

Record sockaddr_in := mkSockaddrIn { sin_port : Z; sin_addr : Z }.

(** ** Objects of the library *)

Record RDMABuffer := mkRDMABuffer {
  buffer_name : string;
  buffer_size : Z;
  data_ptr : Z;
  owned_by_channel : Z;
  is_initialized : bool;
  mr_ : option ibv_mr;
  next_active : Z;
  last_active : Z;
  in_used : bool;
  buffer_index : Z;
  buffer_mgr_ : list Z;
  is_sub_buffer_ : bool;
  blocks_ : Z;
  base_buffer_ : Z
}.

#[export] Instance eta_RDMABuffer : Eta RDMABuffer := λ r,
  mkRDMABuffer (buffer_name r) (buffer_size r) (data_ptr r) (owned_by_channel r)
    (is_initialized r) (mr_ r) (next_active r) (last_active r) (in_used r)
    (buffer_index r) (buffer_mgr_ r) (is_sub_buffer_ r) (blocks_ r)
    (base_buffer_ r).

Record RDMADevice := mkRDMADevice {
  reg_cqs_ : gmap string Z;
  adapter_set_ : gset Z;
  dev_name_ : string;
  ib_ctx_ : Z;
  phys_port_cnt : Z;
  ports_attrs_ : list ibv_port_attr
}.

#[export] Instance eta_RDMADevice : Eta RDMADevice := λ r,
  mkRDMADevice (reg_cqs_ r) (adapter_set_ r) (dev_name_ r) (ib_ctx_ r)
    (phys_port_cnt r) (ports_attrs_ r).

Record RDMAAdapter := mkRDMAAdapter {
  id_ : string;
  vadapt_status_ : AdapterState;
  _adapter_config_ : AdapterConfig;
  self_ : AdapterInfo;
  remote_ : AdapterInfo;
  resource_is_allocated : bool;
  rdma_device_ : Z;
  owning_buffers : gmap string Z;
  sq_inflight : Z;
  rq_inflight : Z;
  indexed_by_session : Z;
  pd_ : Z;
  qp_ : option ibv_qp;
  qp_init_attr : ibv_qp_init_attr;
  used_cq_ : Z;
  event_channel : Z
}.

#[export] Instance eta_RDMAAdapter : Eta RDMAAdapter := λ r,
  mkRDMAAdapter (id_ r) (vadapt_status_ r) (_adapter_config_ r) (self_ r)
    (remote_ r) (resource_is_allocated r) (rdma_device_ r) (owning_buffers r)
    (sq_inflight r) (rq_inflight r) (indexed_by_session r) (pd_ r) (qp_ r)
    (qp_init_attr r) (used_cq_ r) (event_channel r).

(** [RDMAChannel] derives from [RDMAAdapter]: [adapter] is the base subobject,
    which has the channel's address. *)
Record RDMAChannel := mkRDMAChannel {
  adapter : RDMAAdapter;
  ch_work_env_ : Config;
  peer_buffer_mgr_ : gmap string CommDescriptor;
  registered_endpoint_ : Z
}.

#[export] Instance eta_RDMAChannel : Eta RDMAChannel := λ r,
  mkRDMAChannel (adapter r) (ch_work_env_ r) (peer_buffer_mgr_ r)
    (registered_endpoint_ r).

Record TCPConnector := mkTCPConnector {
  root_sock : Z;
  peer_ip : string;
  peer_port : Z;
  my_ip : string;
  my_port : Z
}.

#[export] Instance eta_TCPConnector : Eta TCPConnector := λ r,
  mkTCPConnector (root_sock r) (peer_ip r) (peer_port r) (my_ip r) (my_port r).

Record RDMAEndPoint := mkRDMAEndPoint {
  ep_id_ : string;
  ep_work_env_ : Config;
  pre_connector_ : Z;
  rdma_channel_mgr_ : list Z;
  registered_session_ : Z
}.

#[export] Instance eta_RDMAEndPoint : Eta RDMAEndPoint := λ r,
  mkRDMAEndPoint (ep_id_ r) (ep_work_env_ r) (pre_connector_ r)
    (rdma_channel_mgr_ r) (registered_session_ r).

(** A [std::function] member: the [default_*] method the constructor binds, or
    a function the application registered (known by a number). *)
Inductive callback := DefaultFn | UserFn (f : Z).

#[export] Instance callback_eq_dec : EqDecision callback.
Proof. solve_decision. Defined.

Record RDMASession := mkRDMASession {
  work_env_ : Config;
  end_point_mgr_ : list Z;
  is_connected_ : bool;
  established_done_ : callback;
  process_send_done_ : callback;
  process_recv_done_ : callback;
  process_recv_write_with_imm_done_ : callback;
  process_write_done_ : callback;
  process_read_done_ : callback
}.

#[export] Instance eta_RDMASession : Eta RDMASession := λ r,
  mkRDMASession (work_env_ r) (end_point_mgr_ r) (is_connected_ r)
    (established_done_ r) (process_send_done_ r) (process_recv_done_ r)
    (process_recv_write_with_imm_done_ r) (process_write_done_ r)
    (process_read_done_ r).
