(* ===== verification/Layout.v ===== *)
(** * Wire layout of the packed structs

    [CommDescriptor] and [AdapterInfo] (include/rdma_adapter.h) are
    [__attribute__((packed))] and travel as raw bytes: the first inside data
    buffers, the second over the TCP connection.  Both peers are
    little-endian. *)
From S2P Require Import Prelude Words Types.

(** C strings in fixed arrays: [sprintf] into a zeroed array stops at the
    first NUL of the source and writes one after it. *)
Definition string_bytes (s : string) : list Z :=
  (λ a, Z.of_nat (Ascii.nat_of_ascii a)) <$> String.list_ascii_of_string s.

Fixpoint c_str (bs : list Z) : list Z :=
  match bs with
  | [] => []
  | b :: bs => if b =? 0 then [] else b :: c_str bs
  end.

Definition sprintf_into (n : nat) (s : string) : list Z :=
  let bs := c_str (string_bytes s) in
  bs ++ replicate (n - length bs) 0.

(** ** CommDescriptor: 8 + 8 + 4 + 4 bytes *)

Definition sizeof_CommDescriptor : nat := 24.

Definition encode_CommDescriptor (d : CommDescriptor) : list Z :=
  le_bytes 8 (buffer_addr_ d) ++ le_bytes 8 (buffer_length_ d) ++
  le_bytes 4 (rkey_ d) ++ le_bytes 4 (fd_ d).

Definition decode_CommDescriptor (bs : list Z) : CommDescriptor :=
  {| buffer_addr_ := le_val (take 8 bs);
     buffer_length_ := le_val (take 8 (drop 8 bs));
     rkey_ := le_val (take 4 (drop 16 bs));
     fd_ := le_val (take 4 (drop 20 bs)) |}.

Definition CommDescriptor_wf (d : CommDescriptor) : Prop :=
  0 ≤ buffer_addr_ d < 2^64 ∧ 0 ≤ buffer_length_ d < 2^64 ∧
  0 ≤ rkey_ d < 2^32 ∧ 0 ≤ fd_ d < 2^32.

(** ** AdapterInfo: 16 + 4 + 2 + 1 + 4 + 128 bytes *)

Definition sizeof_AdapterInfo : nat := 155.

Definition encode_AdapterInfo (a : AdapterInfo) : list Z :=
  gid a ++ le_bytes 4 (qp_num a) ++ le_bytes 2 (lid a) ++
  le_bytes 1 (link_layer a) ++ le_bytes 4 (active_mtu a) ++ unique_id a.

Definition decode_AdapterInfo (bs : list Z) : AdapterInfo :=
  {| gid := take 16 bs;
     qp_num := le_val (take 4 (drop 16 bs));
     lid := le_val (take 2 (drop 20 bs));
     link_layer := le_val (take 1 (drop 22 bs));
     active_mtu := le_val (take 4 (drop 23 bs));
     unique_id := take 128 (drop 27 bs) |}.

Definition AdapterInfo_wf (a : AdapterInfo) : Prop :=
  length (gid a) = 16%nat ∧ Forall is_byte (gid a) ∧
  0 ≤ qp_num a < 2^32 ∧ 0 ≤ lid a < 2^16 ∧ 0 ≤ link_layer a < 2^8 ∧
  0 ≤ active_mtu a < 2^32 ∧
  length (unique_id a) = 128%nat ∧ Forall is_byte (unique_id a).

#[export] Instance CommDescriptor_wf_dec d : Decision (CommDescriptor_wf d).
Proof. unfold CommDescriptor_wf. apply _. Defined.
#[export] Instance AdapterInfo_wf_dec a : Decision (AdapterInfo_wf a).
Proof. unfold AdapterInfo_wf. apply _. Defined.

(** ** Lemmas *)

Lemma string_bytes_is_byte s : Forall is_byte (string_bytes s).
Proof.
  unfold string_bytes. apply Forall_fmap, Forall_true. intros a. unfold is_byte. cbn.
  pose proof (Ascii.nat_ascii_bounded a). lia.
Qed.

Lemma length_string_bytes s : length (string_bytes s) = String.length s.
Proof.
  unfold string_bytes. rewrite length_fmap. by induction s; cbn; f_equal.
Qed.

Lemma c_str_length bs : (length (c_str bs) ≤ length bs)%nat.
Proof. induction bs as [|b bs]; cbn; [done|]. destruct (b =? 0); cbn; lia. Qed.

Lemma c_str_is_byte bs : Forall is_byte bs → Forall is_byte (c_str bs).
Proof. induction 1; cbn; [done|]. destruct (_ =? 0); by constructor. Qed.

Lemma sprintf_into_length n s :
  (String.length s ≤ n)%nat → length (sprintf_into n s) = n.
Proof.
  intros. unfold sprintf_into. rewrite length_app, length_replicate.
  pose proof (c_str_length (string_bytes s)). rewrite length_string_bytes in *. lia.
Qed.

Lemma sprintf_into_is_byte n s : Forall is_byte (sprintf_into n s).
Proof.
  unfold sprintf_into. apply Forall_app. split.
  - apply c_str_is_byte, string_bytes_is_byte.
  - apply Forall_replicate. unfold is_byte. lia.
Qed.

Lemma sprintf_into_terminated n s :
  (String.length s < n)%nat → 0 ∈ sprintf_into n s.
Proof.
  intros. unfold sprintf_into. apply elem_of_app. right.
  pose proof (c_str_length (string_bytes s)). rewrite length_string_bytes in *.
  apply elem_of_replicate. split; [done|lia].
Qed.

(** A field of [n] bytes inside a longer encoding. *)
Lemma take_app_n {A} n (l k : list A) : length l = n → take n (l ++ k) = l.
Proof. intros <-. apply take_app_length. Qed.
Lemma drop_app_n {A} n (l k : list A) : length l = n → drop n (l ++ k) = k.
Proof. intros <-. apply drop_app_length. Qed.
Lemma drop_app_split {A} n m (l k : list A) :
  length l = n → drop (n + m) (l ++ k) = drop m k.
Proof. intros <-. by rewrite <-drop_drop, drop_app_length. Qed.

Lemma encode_CommDescriptor_length d :
  length (encode_CommDescriptor d) = sizeof_CommDescriptor.
Proof. unfold encode_CommDescriptor. by rewrite !length_app, !length_le_bytes. Qed.

Lemma encode_AdapterInfo_length a :
  AdapterInfo_wf a → length (encode_AdapterInfo a) = sizeof_AdapterInfo.
Proof.
  intros (Hg & _ & _ & _ & _ & _ & Hu & _). unfold encode_AdapterInfo.
  by rewrite !length_app, !length_le_bytes, Hg, Hu.
Qed.

Lemma decode_field n m k (l rest : list Z) z :
  length l = m → k = m → 0 ≤ z < 256 ^ Z.of_nat n →
  le_val (take n (drop k (l ++ le_bytes n z ++ rest))) = z.
Proof.
  intros Hl -> Hz. rewrite drop_app_n, take_app_n by (done || apply length_le_bytes).
  by apply le_val_bytes_small.
Qed.

Lemma AdapterInfo_decode_encode a :
  AdapterInfo_wf a → decode_AdapterInfo (encode_AdapterInfo a) = a.
Proof.
  intros (Hg & _ & Hq & Hl & Hk & Hm & Hu & _).
  destruct a as [g q l k m u]; cbn [gid qp_num lid link_layer active_mtu unique_id] in *.
  unfold decode_AdapterInfo, encode_AdapterInfo.
  cbn [gid qp_num lid link_layer active_mtu unique_id]. f_equal.
  - by apply take_app_n.
  - by apply (decode_field 4 16).
  - rewrite app_assoc. apply (decode_field 2 20); [by rewrite length_app, Hg, length_le_bytes|done..].
  - rewrite (app_assoc (le_bytes 4 q)), app_assoc.
    apply (decode_field 1 22); [by rewrite !length_app, Hg, !length_le_bytes|done..].
  - rewrite (app_assoc (le_bytes 2 l)), (app_assoc (le_bytes 4 q)), app_assoc.
    apply (decode_field 4 23); [by rewrite !length_app, Hg, !length_le_bytes|done..].
  - rewrite !app_assoc, drop_app_n by (by rewrite !length_app, Hg, !length_le_bytes).
    apply take_ge. lia.
Qed.

Lemma decode_encode_CommDescriptor d :
  CommDescriptor_wf d → decode_CommDescriptor (encode_CommDescriptor d) = d.
Proof.
  intros (H1 & H2 & H3 & H4). unfold decode_CommDescriptor, encode_CommDescriptor.
  destruct d as [a l r f]; cbn [buffer_addr_ buffer_length_ rkey_ fd_] in *. f_equal.
  - rewrite take_app_n by apply length_le_bytes. by apply le_val_bytes_small.
  - by apply (decode_field 8 8).
  - rewrite app_assoc. apply (decode_field 4 16); [by rewrite length_app, !length_le_bytes|done..].
  - rewrite (app_assoc (le_bytes 8 l)), app_assoc, <-(app_nil_r (le_bytes 4 f)).
    apply (decode_field 4 20); [by rewrite !length_app, !length_le_bytes|done..].
Qed.

(** ** Properties *)

(** a descriptor travels unchanged: decoding the 24 bytes of any
    [CommDescriptor] gives it back, and any 24 bytes are the encoding of the
    descriptor they decode to. *)
Theorem CommDescriptor_roundtrip d bs :
  (CommDescriptor_wf d → decode_CommDescriptor (encode_CommDescriptor d) = d) ∧
  (length bs = sizeof_CommDescriptor → Forall is_byte bs →
     encode_CommDescriptor (decode_CommDescriptor bs) = bs).
Proof.
  split.
  - apply decode_encode_CommDescriptor.
  - intros Hl Hb. unfold decode_CommDescriptor, encode_CommDescriptor.
    cbn [buffer_addr_ buffer_length_ rkey_ fd_]. unfold sizeof_CommDescriptor in Hl.
    assert (∀ n l, Forall is_byte l → (n ≤ length l)%nat →
      le_bytes n (le_val (take n l)) = take n l) as Hf.
    { intros n l Hby Hn. rewrite <-(le_bytes_val (take n l)) at 2 by (by apply Forall_take).
      by rewrite length_take, Nat.min_l by lia. }
    rewrite !Hf by (try apply Forall_drop; rewrite ?length_drop; done || lia).
    rewrite (take_ge (drop 20%nat bs)) by (rewrite length_drop; lia).
    change 20%nat with (16 + 4)%nat. rewrite <-drop_drop, take_drop.
    change 16%nat with (8 + 8)%nat. rewrite <-drop_drop, take_drop. apply take_drop.
Qed.

Lemma CommDescriptor_roundtrip_witness :
  decode_CommDescriptor (encode_CommDescriptor (mkCommDescriptor (2^40) 64 7 1)) =
    mkCommDescriptor (2^40) 64 7 1.
Proof.
  apply (proj1 (CommDescriptor_roundtrip (mkCommDescriptor (2^40) 64 7 1) [])).
  apply (bool_decide_unpack _). vm_compute. exact I.
Defined.
