(* ===== verification/World.v ===== *)
(** * The program state and the platform underneath it

    [Platform X] lists what the library calls outside this repository:
    libibverbs, the socket API, POSIX memory allocation, the environment, the
    clock and system parameters.  Each operation is a function of the platform state [X] and of
    the process memory, both of which it may change (the NIC writes into
    registered buffers), so a platform instance stands for one behaviour of
    the hardware, the kernel and the peers.  [World X] adds the C++ objects the
    library keeps, one heap per class, indexed by address. *)
From S2P Require Import Prelude Words Types.

Definition ext_op (X A : Type) : Type := X → mem → A * (X * mem).

(** ** The platform *)

Class Platform (X : Type) := {
  (* POSIX *)
  sysconf_pagesize : ext_op X Z;
  sysconf_dcache_linesize : ext_op X Z;
  (** [fopen] of the sysfs coherency file: [None] when it fails, then the
      first line [fgets] reads, if any. *)
  read_coherency_file : ext_op X (option (option string));
  posix_memalign : Z → Z → ext_op X (Z * Z);
  free : Z → ext_op X unit;
  getenv : string → ext_op X (option string);
  setenv : string → string → ext_op X Z;
  (* the clock and the scheduler; times in nanoseconds *)
  steady_clock_now : ext_op X Z;
  sleep_for : Z → ext_op X unit;
  (* sockets *)
  socket : ext_op X Z;
  setsockopt_tos : Z → Z → ext_op X Z;
  getsockopt_tos : Z → ext_op X (Z * Z);
  setsockopt_priority : Z → Z → ext_op X Z;
  getsockopt_priority : Z → ext_op X (Z * Z);
  setsockopt_reuse : Z → Z → ext_op X Z;
  getsockname : Z → ext_op X sockaddr_in;
  connect : Z → sockaddr_in → ext_op X Z;
  bind_ : Z → sockaddr_in → ext_op X Z;
  listen : Z → Z → ext_op X Z;
  accept : Z → ext_op X (Z * sockaddr_in);
  send : Z → list Z → ext_op X Z;
  recv : Z → Z → ext_op X (Z * list Z);
  inet_ntop : Z → string;
  (** [getifaddrs]: family and IPv4 address of each interface, [None] for one
      without an address. *)
  getifaddrs : ext_op X (list (option (Z * Z)));
  inet_addr : string → Z;
  (* libibverbs *)
  ibv_get_device_list : ext_op X (option (list ibv_device));
  ibv_free_device_list : list ibv_device → ext_op X unit;
  ibv_open_device : ibv_device → ext_op X Z;
  ibv_close_device : Z → ext_op X Z;
  ibv_query_device : Z → ext_op X (Z * Z);
  ibv_query_port : Z → Z → ext_op X (Z * ibv_port_attr);
  ibv_query_gid : Z → Z → Z → ext_op X (Z * list Z);
  ibv_create_comp_channel : Z → ext_op X Z;
  ibv_alloc_pd : Z → ext_op X Z;
  ibv_create_cq : Z → Z → Z → Z → Z → ext_op X Z;
  ibv_create_qp : Z → ibv_qp_init_attr → ext_op X (option ibv_qp);
  ibv_query_qp : ibv_qp → ibv_qp_init_attr →
    ext_op X (Z * ibv_qp_attr * ibv_qp_init_attr);
  ibv_modify_qp : ibv_qp → ibv_qp_attr → Z → ext_op X Z;
  ibv_post_send : option ibv_qp → ibv_send_wr → ext_op X Z;
  ibv_post_recv : option ibv_qp → ibv_recv_wr → ext_op X Z;
  ibv_poll_cq : Z → Z → ext_op X (Z * list ibv_wc);
  ibv_reg_mr : Z → Z → Z → Z → ext_op X (option ibv_mr);
  ibv_dereg_mr : option ibv_mr → ext_op X Z
}.

(** POSIX: a successful [posix_memalign] returns an aligned non-null address of
    a range that was free, now is allocated (with arbitrary contents) and lies in
    the address space; the rest of memory is as before. *)
Class MemalignLaws (X : Type) `{!Platform X} : Prop := {
  memalign_spec al sz x m p x' m' :
    0 < sz → posix_memalign al sz x m = ((0, p), (x', m')) →
    0 < p ∧ p + sz ≤ 2^64 ∧ (0 < al → p mod al = 0) ∧
    (∀ a, p ≤ a < p + sz → m !! a = None ∧ is_Some (m' !! a)) ∧
    (∀ a, ¬ (p ≤ a < p + sz) → m' !! a = m !! a)
}.

(** ** The program state *)

Record World (X : Type) := mkWorld {
  w_ext : X;
  w_mem : mem;
  w_next : Z;                       (* address of the next object [new] makes *)
  w_bufs : gmap Z RDMABuffer;
  w_chans : gmap Z RDMAChannel;
  w_devs : gmap Z RDMADevice;
  w_conns : gmap Z TCPConnector;
  w_eps : gmap Z RDMAEndPoint;
  w_sess : gmap Z RDMASession;
  device_map_ : gmap string Z;      (* RDMADevice::device_map_ *)
  cache_line_size : Z;              (* RDMADevice::cache_line_size *)
  cycle_buffer : Z                  (* RDMADevice::cycle_buffer *)
}.
Arguments mkWorld {X}.
Arguments w_ext {X}.
Arguments w_mem {X}.
Arguments w_next {X}.
Arguments w_bufs {X}.
Arguments w_chans {X}.
Arguments w_devs {X}.
Arguments w_conns {X}.
Arguments w_eps {X}.
Arguments w_sess {X}.
Arguments device_map_ {X}.
Arguments cache_line_size {X}.
Arguments cycle_buffer {X}.

#[export] Instance eta_World X : Eta (World X) := λ r,
  mkWorld (w_ext r) (w_mem r) (w_next r) (w_bufs r) (w_chans r) (w_devs r)
    (w_conns r) (w_eps r) (w_sess r) (device_map_ r) (cache_line_size r)
    (cycle_buffer r).

Abbreviation W X := (M (World X)).

Section world.
Context {X : Type}.
Implicit Types w : World X.

(** Run a platform operation on the platform state and the memory. *)
Definition call {A} (op : ext_op X A) : W X A := λ w,
  let '(a, (x, m)) := op (w_ext w) (w_mem w) in
  Ok a (w <| w_ext := x |> <| w_mem := m |>).

(** [new]: a fresh non-null address. *)
Definition new_addr : W X Z := λ w,
  Ok (w_next w) (w <| w_next ::= Z.succ |>).

(** Dereference of an object pointer: undefined when it is null or dangling. *)
Definition buf_at (p : Z) : W X RDMABuffer := λ w,
  must (w_bufs w !! p) "RDMABuffer*" w.
Definition set_buf (p : Z) (b : RDMABuffer) : W X unit :=
  modify (λ w, w <| w_bufs ::= <[p := b]> |>).
Definition upd_buf (p : Z) (f : RDMABuffer → RDMABuffer) : W X unit :=
  b ← buf_at p; set_buf p (f b).

Definition chan_at (p : Z) : W X RDMAChannel := λ w,
  must (w_chans w !! p) "RDMAChannel*" w.
Definition set_chan (p : Z) (c : RDMAChannel) : W X unit :=
  modify (λ w, w <| w_chans ::= <[p := c]> |>).
Definition upd_chan (p : Z) (f : RDMAChannel → RDMAChannel) : W X unit :=
  c ← chan_at p; set_chan p (f c).

(** The [RDMAAdapter] base of the channel at [p]. *)
Definition adapter_at (p : Z) : W X RDMAAdapter :=
  c ← chan_at p; mret (adapter c).
Definition upd_adapter (p : Z) (f : RDMAAdapter → RDMAAdapter) : W X unit :=
  upd_chan p (λ c, c <| adapter ::= f |>).

Definition dev_at (p : Z) : W X RDMADevice := λ w,
  must (w_devs w !! p) "RDMADevice*" w.
Definition set_dev (p : Z) (d : RDMADevice) : W X unit :=
  modify (λ w, w <| w_devs ::= <[p := d]> |>).
Definition upd_dev (p : Z) (f : RDMADevice → RDMADevice) : W X unit :=
  d ← dev_at p; set_dev p (f d).

Definition conn_at (p : Z) : W X TCPConnector := λ w,
  must (w_conns w !! p) "TCPConnector*" w.
Definition set_conn (p : Z) (c : TCPConnector) : W X unit :=
  modify (λ w, w <| w_conns ::= <[p := c]> |>).

Definition ep_at (p : Z) : W X RDMAEndPoint := λ w,
  must (w_eps w !! p) "RDMAEndPoint*" w.
Definition set_ep (p : Z) (e : RDMAEndPoint) : W X unit :=
  modify (λ w, w <| w_eps ::= <[p := e]> |>).
Definition upd_ep (p : Z) (f : RDMAEndPoint → RDMAEndPoint) : W X unit :=
  e ← ep_at p; set_ep p (f e).

Definition sess_at (p : Z) : W X RDMASession := λ w,
  must (w_sess w !! p) "RDMASession*" w.
Definition set_sess (p : Z) (s : RDMASession) : W X unit :=
  modify (λ w, w <| w_sess ::= <[p := s]> |>).
Definition upd_sess (p : Z) (f : RDMASession → RDMASession) : W X unit :=
  s ← sess_at p; set_sess p (f s).

(** [memset(p, 0, n)] and [memcpy(p, bs, n)] on data memory. *)
Definition memset0 (p n : Z) : W X unit := λ w,
  if mem_allocated p (Z.to_nat n) (w_mem w)
  then Ok tt (w <| w_mem ::= mem_write p (zeros n) |>)
  else Abort (UB "memset out of bounds") w.
Definition memcpy_in (p : Z) (bs : list Z) (n : Z) : W X unit := λ w,
  if (Z.to_nat n <=? length bs)%nat && mem_allocated p (Z.to_nat n) (w_mem w)
  then Ok tt (w <| w_mem ::= mem_write p (take (Z.to_nat n) bs) |>)
  else Abort (UB "memcpy out of bounds") w.
(** Read [n] bytes of data memory. *)
Definition load (p : Z) (n : nat) : W X (list Z) := λ w,
  must (mem_read p n (w_mem w)) "read out of bounds" w.

(** ** Basic lemmas *)

Lemma buf_at_inv p w b w' : buf_at p w = Ok b w' → w_bufs w !! p = Some b ∧ w' = w.
Proof. apply must_inv. Qed.
Lemma chan_at_inv p w c w' : chan_at p w = Ok c w' → w_chans w !! p = Some c ∧ w' = w.
Proof. apply must_inv. Qed.
Lemma dev_at_inv p w d w' : dev_at p w = Ok d w' → w_devs w !! p = Some d ∧ w' = w.
Proof. apply must_inv. Qed.
Lemma conn_at_inv p w c w' : conn_at p w = Ok c w' → w_conns w !! p = Some c ∧ w' = w.
Proof. apply must_inv. Qed.
Lemma ep_at_inv p w e w' : ep_at p w = Ok e w' → w_eps w !! p = Some e ∧ w' = w.
Proof. apply must_inv. Qed.
Lemma sess_at_inv p w s w' : sess_at p w = Ok s w' → w_sess w !! p = Some s ∧ w' = w.
Proof. apply must_inv. Qed.

Lemma buf_at_eq p w b : w_bufs w !! p = Some b → buf_at p w = Ok b w.
Proof. unfold buf_at. by intros ->. Qed.
Lemma chan_at_eq p w c : w_chans w !! p = Some c → chan_at p w = Ok c w.
Proof. unfold chan_at. by intros ->. Qed.
Lemma dev_at_eq p w d : w_devs w !! p = Some d → dev_at p w = Ok d w.
Proof. unfold dev_at. by intros ->. Qed.
Lemma conn_at_eq p w c : w_conns w !! p = Some c → conn_at p w = Ok c w.
Proof. unfold conn_at. by intros ->. Qed.
Lemma ep_at_eq p w e : w_eps w !! p = Some e → ep_at p w = Ok e w.
Proof. unfold ep_at. by intros ->. Qed.
Lemma sess_at_eq p w s : w_sess w !! p = Some s → sess_at p w = Ok s w.
Proof. unfold sess_at. by intros ->. Qed.
Lemma adapter_at_eq p w c : w_chans w !! p = Some c → adapter_at p w = Ok (adapter c) w.
Proof. intros H. unfold adapter_at. by rewrite (bind_Ok _ _ _ _ _ (chan_at_eq _ _ _ H)). Qed.
Lemma adapter_at_inv p w a w' :
  adapter_at p w = Ok a w' → ∃ c, w_chans w !! p = Some c ∧ a = adapter c ∧ w' = w.
Proof.
  intros H. apply bind_inv in H as (c & w1 & [H1 ->]%chan_at_inv & [-> ->]%ret_inv). eauto.
Qed.

Lemma upd_buf_eq p f w b :
  w_bufs w !! p = Some b → upd_buf p f w = Ok tt (w <| w_bufs ::= <[p := f b]> |>).
Proof. intros H. unfold upd_buf. by rewrite (bind_Ok _ _ _ _ _ (buf_at_eq _ _ _ H)). Qed.
Lemma upd_chan_eq p f w c :
  w_chans w !! p = Some c → upd_chan p f w = Ok tt (w <| w_chans ::= <[p := f c]> |>).
Proof. intros H. unfold upd_chan. by rewrite (bind_Ok _ _ _ _ _ (chan_at_eq _ _ _ H)). Qed.
Lemma upd_adapter_eq p f w c :
  w_chans w !! p = Some c →
  upd_adapter p f w = Ok tt (w <| w_chans ::= <[p := c <| adapter ::= f |>]> |>).
Proof. apply upd_chan_eq. Qed.
Lemma upd_dev_eq p f w d :
  w_devs w !! p = Some d → upd_dev p f w = Ok tt (w <| w_devs ::= <[p := f d]> |>).
Proof. intros H. unfold upd_dev. by rewrite (bind_Ok _ _ _ _ _ (dev_at_eq _ _ _ H)). Qed.

Lemma upd_buf_inv p f w u w' :
  upd_buf p f w = Ok u w' →
  ∃ b, w_bufs w !! p = Some b ∧ w' = w <| w_bufs ::= <[p := f b]> |>.
Proof.
  intros H. apply bind_inv in H as (b & w1 & [H1 ->]%buf_at_inv & H2).
  apply modify_inv in H2. eauto.
Qed.
Lemma upd_chan_inv p f w u w' :
  upd_chan p f w = Ok u w' →
  ∃ c, w_chans w !! p = Some c ∧ w' = w <| w_chans ::= <[p := f c]> |>.
Proof.
  intros H. apply bind_inv in H as (b & w1 & [H1 ->]%chan_at_inv & H2).
  apply modify_inv in H2. eauto.
Qed.
Lemma upd_adapter_inv p f w u w' :
  upd_adapter p f w = Ok u w' →
  ∃ c, w_chans w !! p = Some c ∧ w' = w <| w_chans ::= <[p := c <| adapter ::= f |>]> |>.
Proof. apply upd_chan_inv. Qed.
Lemma upd_dev_inv p f w u w' :
  upd_dev p f w = Ok u w' →
  ∃ d, w_devs w !! p = Some d ∧ w' = w <| w_devs ::= <[p := f d]> |>.
Proof.
  intros H. apply bind_inv in H as (b & w1 & [H1 ->]%dev_at_inv & H2).
  apply modify_inv in H2. eauto.
Qed.
Lemma call_inv {A} (op : ext_op X A) w a w' :
  call op w = Ok a w' →
  ∃ x m, op (w_ext w) (w_mem w) = (a, (x, m)) ∧
         w' = w <| w_ext := x |> <| w_mem := m |>.
Proof.
  unfold call. destruct (op (w_ext w) (w_mem w)) as [a' [x m]] eqn:E.
  intros [= -> <-]. eauto.
Qed.
Lemma call_eq {A} (op : ext_op X A) w a x m :
  op (w_ext w) (w_mem w) = (a, (x, m)) →
  call op w = Ok a (w <| w_ext := x |> <| w_mem := m |>).
Proof. unfold call. by intros ->. Qed.

(** ** What each primitive keeps *)

Lemma keeps_read {P A} (p : World X → P) (m : W X A) :
  (∀ w a w', m w = Ok a w' → w' = w) → keeps p m.
Proof. intros H w a w' E. by rewrite (H _ _ _ E). Qed.
Lemma keeps_buf_at {P} (p : World X → P) q : keeps p (buf_at q).
Proof. apply keeps_read. by intros ??? [_ ->]%buf_at_inv. Qed.
Lemma keeps_chan_at {P} (p : World X → P) q : keeps p (chan_at q).
Proof. apply keeps_read. by intros ??? [_ ->]%chan_at_inv. Qed.
Lemma keeps_adapter_at {P} (p : World X → P) q : keeps p (adapter_at q).
Proof. apply keeps_read. by intros ??? (?&_&_&->)%adapter_at_inv. Qed.
Lemma keeps_dev_at {P} (p : World X → P) q : keeps p (dev_at q).
Proof. apply keeps_read. by intros ??? [_ ->]%dev_at_inv. Qed.
Lemma keeps_conn_at {P} (p : World X → P) q : keeps p (conn_at q).
Proof. apply keeps_read. by intros ??? [_ ->]%conn_at_inv. Qed.
Lemma keeps_ep_at {P} (p : World X → P) q : keeps p (ep_at q).
Proof. apply keeps_read. by intros ??? [_ ->]%ep_at_inv. Qed.
Lemma keeps_sess_at {P} (p : World X → P) q : keeps p (sess_at q).
Proof. apply keeps_read. by intros ??? [_ ->]%sess_at_inv. Qed.
Lemma keeps_load {P} (p : World X → P) a n : keeps p (load a n).
Proof. apply keeps_read. by intros ??? [_ ->]%must_inv. Qed.
Lemma keeps_call {P A} (p : World X → P) (op : ext_op X A) :
  (∀ w x m, p (w <| w_ext := x |> <| w_mem := m |>) = p w) → keeps p (call op).
Proof. intros Hp w a w' (x & m & _ & ->)%call_inv. apply Hp. Qed.
Lemma completes_call {A} (op : ext_op X A) : completes (call op).
Proof. intros w w'. unfold call. by destruct (op _ _) as [? [? ?]]. Qed.
Lemma keeps_new_addr {P} (p : World X → P) :
  (∀ w, p (w <| w_next ::= Z.succ |>) = p w) → keeps p new_addr.
Proof. intros Hp w a w' [= _ <-]. apply Hp. Qed.
Lemma keeps_memset0 {P} (p : World X → P) a n :
  (∀ w m, p (w <| w_mem := m |>) = p w) → keeps p (memset0 a n).
Proof.
  intros Hp w u w'. unfold memset0. destruct (mem_allocated _ _ _); [|done].
  intros [= _ <-]. apply (Hp w).
Qed.
Lemma memcpy_in_inv a bs n (w : World X) u w' :
  memcpy_in a bs n w = Ok u w' →
  w' = w <| w_mem ::= mem_write a (take (Z.to_nat n) bs) |>.
Proof. unfold memcpy_in. destruct (_ && _); [congruence|done]. Qed.
Lemma keeps_memcpy_in {P} (p : World X → P) a bs n :
  (∀ w m, p (w <| w_mem := m |>) = p w) → keeps p (memcpy_in a bs n).
Proof.
  intros Hp w u w'. unfold memcpy_in. destruct (_ && _); [|done].
  intros [= _ <-]. apply (Hp w).
Qed.
End world.

#[export] Hint Resolve keeps_buf_at keeps_chan_at keeps_adapter_at keeps_dev_at
  keeps_conn_at keeps_ep_at keeps_sess_at keeps_load : keeps.
#[export] Hint Resolve completes_call : completes.
#[export] Hint Extern 2 (keeps _ (call _)) => apply keeps_call; intros; reflexivity : keeps.
#[export] Hint Extern 2 (keeps _ new_addr) => apply keeps_new_addr; intros; reflexivity : keeps.
#[export] Hint Extern 2 (keeps _ (memset0 _ _)) => apply keeps_memset0; intros; reflexivity : keeps.
#[export] Hint Extern 2 (keeps _ (memcpy_in _ _ _)) =>
  apply keeps_memcpy_in; intros; reflexivity : keeps.
#[export] Hint Extern 2 (keeps _ (set_buf _ _)) => unfold set_buf : keeps.
#[export] Hint Extern 2 (keeps _ (set_chan _ _)) => unfold set_chan : keeps.
#[export] Hint Extern 2 (keeps _ (set_dev _ _)) => unfold set_dev : keeps.
#[export] Hint Extern 2 (keeps _ (set_conn _ _)) => unfold set_conn : keeps.
#[export] Hint Extern 2 (keeps _ (set_ep _ _)) => unfold set_ep : keeps.
#[export] Hint Extern 2 (keeps _ (set_sess _ _)) => unfold set_sess : keeps.
#[export] Hint Extern 2 (keeps _ (upd_buf _ _)) => unfold upd_buf : keeps.
#[export] Hint Extern 2 (keeps _ (upd_chan _ _)) => unfold upd_chan : keeps.
#[export] Hint Extern 2 (keeps _ (upd_adapter _ _)) => unfold upd_adapter : keeps.
#[export] Hint Extern 2 (keeps _ (upd_dev _ _)) => unfold upd_dev : keeps.
#[export] Hint Extern 2 (keeps _ (upd_ep _ _)) => unfold upd_ep : keeps.
#[export] Hint Extern 2 (keeps _ (upd_sess _ _)) => unfold upd_sess : keeps.

(** [pinv H] inverts a run of a single primitive. *)
Ltac pinv H :=
  lazymatch type of H with
  | buf_at _ _ = Ok _ _ => apply buf_at_inv in H as [H ->]
  | chan_at _ _ = Ok _ _ => apply chan_at_inv in H as [H ->]
  | adapter_at _ _ = Ok _ _ => apply adapter_at_inv in H as (? & H & -> & ->)
  | dev_at _ _ = Ok _ _ => apply dev_at_inv in H as [H ->]
  | conn_at _ _ = Ok _ _ => apply conn_at_inv in H as [H ->]
  | ep_at _ _ = Ok _ _ => apply ep_at_inv in H as [H ->]
  | sess_at _ _ = Ok _ _ => apply sess_at_inv in H as [H ->]
  | upd_buf _ _ _ = Ok _ _ => apply upd_buf_inv in H as (? & H & ->)
  | upd_adapter _ _ _ = Ok _ _ => apply upd_adapter_inv in H as (? & H & ->)
  | upd_chan _ _ _ = Ok _ _ => apply upd_chan_inv in H as (? & H & ->)
  | upd_dev _ _ _ = Ok _ _ => apply upd_dev_inv in H as (? & H & ->)
  | set_buf _ _ _ = Ok _ _ => apply modify_inv in H as ->
  | set_chan _ _ _ = Ok _ _ => apply modify_inv in H as ->
  | set_dev _ _ _ = Ok _ _ => apply modify_inv in H as ->
  | set_conn _ _ _ = Ok _ _ => apply modify_inv in H as ->
  | set_ep _ _ _ = Ok _ _ => apply modify_inv in H as ->
  | set_sess _ _ _ = Ok _ _ => apply modify_inv in H as ->
  | call _ _ = Ok _ _ => apply call_inv in H as (? & ? & H & ->)
  | check _ _ _ = Ok _ _ => apply check_inv in H as [H ->]
  | defined _ _ _ = Ok _ _ => apply defined_inv in H as [H ->]
  | must _ _ _ = Ok _ _ => apply must_inv in H as [H ->]
  | gets _ _ = Ok _ _ => apply gets_inv in H as [-> ->]
  | mret _ _ = Ok _ _ => apply ret_inv in H as [-> ->]
  | modify _ _ = Ok _ _ => apply modify_inv in H as ->
  | fail _ _ = Ok _ _ => discriminate H
  | log_fatal _ _ = Ok _ _ => discriminate H
  end.

(** [wstep H as a w1 H1] splits off the first call of the run [H]: its result
    [a], the state [w1] after it and its own equation [H1], inverted when it is
    a primitive. *)
Tactic Notation "wstep" hyp(H) "as" simple_intropattern(a) ident(w1) ident(H1) :=
  apply bind_inv in H as (a & w1 & H1 & H); try pinv H1.

(** Two lookups of the same object agree. *)
Ltac same H1 H2 := rewrite H2 in H1; injection H1 as <-.
