(* ===== verification/Text.v ===== *)
(** * The C string conversions the library uses

    [atoi] and [strtoul(s, NULL, 0)], on the characters of the argument, and
    IPv4 addresses as dotted quads. *)
From S2P Require Import Prelude Words.

Definition char_code (a : Ascii.ascii) : Z := Z.of_nat (Ascii.nat_of_ascii a).

Definition is_space (a : Ascii.ascii) : bool :=
  let c := char_code a in (c =? 32) || ((9 <=? c) && (c <=? 13)).

(** The value of a digit in bases up to 16. *)
Definition digit_val (a : Ascii.ascii) : option Z :=
  let c := char_code a in
  if (48 <=? c) && (c <=? 57) then Some (c - 48)
  else if (97 <=? c) && (c <=? 102) then Some (c - 87)
  else if (65 <=? c) && (c <=? 70) then Some (c - 55)
  else None.

Fixpoint skip_space (s : string) : string :=
  match s with
  | String a s' => if is_space a then skip_space s' else s
  | EmptyString => s
  end.

(** The longest prefix of digits below [base], as a number. *)
Fixpoint digits (base acc : Z) (s : string) : Z :=
  match s with
  | String a s' =>
      match digit_val a with
      | Some d => if d <? base then digits base (acc * base + d) s' else acc
      | None => acc
      end
  | EmptyString => acc
  end.

(** An optional sign: whether it is a minus, and the rest. *)
Definition sign (s : string) : bool * string :=
  match s with
  | String "-"%char s' => (true, s')
  | String "+"%char s' => (false, s')
  | _ => (false, s)
  end.

(** [atoi] on a value that fits an [int] (out of range is undefined). *)
Definition atoi (s : string) : Z :=
  let '(neg, s) := sign (skip_space s) in
  let v := digits 10 0 s in if neg : bool then - v else v.

(** The digits of a [strtoul(s, NULL, 0)] argument: a [0x] prefix followed by a
    hexadecimal digit selects base 16, a leading 0 base 8. *)
Definition strtoul_magnitude (s : string) : Z :=
  match s with
  | String "0"%char (String x (String d s')) =>
      if (bool_decide (x = "x"%char) || bool_decide (x = "X"%char)) &&
         bool_decide (is_Some (digit_val d))
      then digits 16 0 (String d s') else digits 8 0 s
  | String "0"%char _ => digits 8 0 s
  | _ => digits 10 0 s
  end.

(** [strtoul(s, NULL, 0)]: the result is saturated to [ULONG_MAX], a minus sign
    negates modulo 2^64. *)
Definition strtoul0 (s : string) : Z :=
  let '(neg, s) := sign (skip_space s) in
  let v := strtoul_magnitude s in
  if 2^64 <=? v then 2^64 - 1 else if neg : bool then u64 (- v) else v.

(** ** Dotted quads

    An IPv4 address in network byte order, as the little-endian [in_addr_t]
    holds it: its lowest byte is printed first. *)
Definition quad_byte (a i : Z) : Z := a / 256 ^ i mod 256.
Definition dotted_quad (a : Z) : string :=
  pretty (quad_byte a 0) +:+ "." +:+ pretty (quad_byte a 1) +:+ "." +:+
  pretty (quad_byte a 2) +:+ "." +:+ pretty (quad_byte a 3).

Fixpoint after_dot (s : string) : string :=
  match s with
  | String "."%char s' => s'
  | String _ s' => after_dot s'
  | EmptyString => EmptyString
  end.
Definition parse_quad (s : string) : Z :=
  let s1 := after_dot s in let s2 := after_dot s1 in let s3 := after_dot s2 in
  digits 10 0 s + 256 * digits 10 0 s1 + 256 ^ 2 * digits 10 0 s2 + 256 ^ 3 * digits 10 0 s3.

Lemma digit_val_range a d : digit_val a = Some d → 0 ≤ d < 16.
Proof.
  unfold digit_val. intros H. repeat case_match; simplify_eq; lia.
Qed.

Lemma digits_nonneg base acc s : 0 ≤ base → 0 ≤ acc → 0 ≤ digits base acc s.
Proof.
  intros Hb. revert acc. induction s as [|a s IH]; intros acc Ha; cbn; [done|].
  destruct (digit_val a) as [d|] eqn:Hd; [|done].
  apply digit_val_range in Hd. case_match; [|done]. apply IH. nia.
Qed.

Lemma strtoul_magnitude_nonneg s : 0 ≤ strtoul_magnitude s.
Proof. unfold strtoul_magnitude. repeat case_match; apply digits_nonneg; lia. Qed.

Lemma strtoul0_range s : 0 ≤ strtoul0 s < 2^64.
Proof.
  unfold strtoul0. destruct (sign _) as [neg s'].
  pose proof (strtoul_magnitude_nonneg s'). cbv zeta.
  destruct (2^64 <=? _) eqn:E; [lia|]. destruct neg; [apply u64_range|lia].
Qed.

Example strtoul0_dec : strtoul0 "2020" = 2020. Proof. reflexivity. Qed.
Example strtoul0_hex : strtoul0 " 0x1F" = 31. Proof. reflexivity. Qed.
Example strtoul0_oct : strtoul0 "017" = 15. Proof. reflexivity. Qed.
Example strtoul0_neg : strtoul0 "-1" = 2^64 - 1. Proof. reflexivity. Qed.
Example atoi_neg : atoi "-12abc" = -12. Proof. reflexivity. Qed.
