(* ===== verification/Sim.v ===== *)
(** * A concrete platform

    One executable instance of [Platform], used to evaluate the model on
    concrete inputs and to show that the hypotheses of the theorems can hold.
    Handles and addresses come from counters, fresh memory holds the byte 205,
    [recv] and [ibv_poll_cq] replay scripts, posted work requests and queue
    pair states are recorded. *)
From S2P Require Import Prelude Words Types World Text.

Record Sim := mkSim {
  sim_handle : Z;
  sim_brk : Z;
  sim_devices : list ibv_device;
  sim_ports : list ibv_port_attr;
  sim_inbox : list (list Z);
  sim_sent : list Z;
  sim_qps : gmap Z ibv_qp_state;
  sim_paths : gmap Z (Z * Z * ibv_ah_attr);
  sim_sends : list (option ibv_qp * ibv_send_wr);
  sim_recvs : list (option ibv_qp * ibv_recv_wr);
  sim_completions : list (list ibv_wc);
  sim_cqs : list (Z * Z);
  sim_modify : list ibv_qp_attr;
  sim_connect : list Z;
  sim_accept : list (Z * sockaddr_in);
  sim_ifaddrs : list (option (Z * Z));
  sim_env : gmap string string;
  sim_clock : Z;
  (** Whether each posted send is completed, after one empty poll. *)
  sim_echo : bool
}.

#[export] Instance eta_Sim : Eta Sim := λ r,
  mkSim (sim_handle r) (sim_brk r) (sim_devices r) (sim_ports r) (sim_inbox r)
    (sim_sent r) (sim_qps r) (sim_paths r) (sim_sends r) (sim_recvs r) (sim_completions r)
    (sim_cqs r) (sim_modify r) (sim_connect r) (sim_accept r)
    (sim_ifaddrs r) (sim_env r) (sim_clock r) (sim_echo r).

Definition sim_pure {A} (f : Sim → A) : ext_op Sim A := λ x m, (f x, (x, m)).
Definition sim_upd {A} (f : Sim → A * Sim) : ext_op Sim A := λ x m,
  let '(a, x') := f x in (a, (x', m)).
Definition sim_fresh : ext_op Sim Z :=
  sim_upd (λ x, (sim_handle x, x <| sim_handle ::= Z.succ |>)).

(** The next multiple of [al] at or above [a]. *)
Definition align_up (a al : Z) : Z := (a + al - 1) / al * al.

(** [ENOMEM] when the range is not free or leaves the address space. *)
Definition sim_memalign (al size : Z) : ext_op Sim (Z * Z) := λ x m,
  let p := align_up (sim_brk x) al in
  if (0 <? p) && (p + size <=? 2^64) &&
     bool_decide (Forall (λ a, m !! a = None) (seqZ p size))
  then ((0, p), (x <| sim_brk := p + size |>,
                 mem_write p (replicate (Z.to_nat size) 205) m))
  else ((12, 0), (x, m)).

(** Data arrives in chunks, handed out at most [n] bytes at a time; an empty
    inbox is a closed connection. *)
Fixpoint sim_take (n : nat) (chunks : list (list Z)) : list Z * list (list Z) :=
  match chunks with
  | [] => ([], [])
  | [] :: rest => sim_take n rest
  | bs :: rest => (take n bs, drop n bs :: rest)
  end.
Definition sim_recv (fd n : Z) : ext_op Sim (Z * list Z) := sim_upd (λ x,
  let '(got, rest) := sim_take (Z.to_nat n) (sim_inbox x) in
  ((Z.of_nat (length got), got), x <| sim_inbox := rest |>)).

(** The transitions [ibv_modify_qp] documents for a reliable connection between
    the states the library uses, each with the attributes a request for it must
    carry.  A request that carries them may still be refused. *)
Definition qp_requires (from to : ibv_qp_state) : option Z :=
  match from, to with
  | _, IBV_QPS_RESET => Some IBV_QP_STATE
  | IBV_QPS_RESET, IBV_QPS_INIT =>
      Some (flag_or [IBV_QP_STATE; IBV_QP_PKEY_INDEX; IBV_QP_PORT; IBV_QP_ACCESS_FLAGS])
  | IBV_QPS_INIT, IBV_QPS_INIT => Some IBV_QP_STATE
  | IBV_QPS_INIT, IBV_QPS_RTR =>
      Some (flag_or [IBV_QP_STATE; IBV_QP_AV; IBV_QP_PATH_MTU; IBV_QP_DEST_QPN;
        IBV_QP_RQ_PSN; IBV_QP_MAX_DEST_RD_ATOMIC; IBV_QP_MIN_RNR_TIMER])
  | IBV_QPS_RTR, IBV_QPS_RTS =>
      Some (flag_or [IBV_QP_STATE; IBV_QP_TIMEOUT; IBV_QP_RETRY_CNT; IBV_QP_RNR_RETRY;
        IBV_QP_SQ_PSN; IBV_QP_MAX_QP_RD_ATOMIC])
  | IBV_QPS_RTS, IBV_QPS_RTS => Some IBV_QP_STATE
  | _, _ => None
  end.

Definition has_flags (flags required : Z) : bool := Z.land flags required =? required.

(** The error state. *)
Definition IBV_QPS_ERR : ibv_qp_state := IBV_QPS_OTHER 6.

(** The states [ibv_modify_qp] only leaves by a transition of the table. *)
Definition tabled (s : ibv_qp_state) : bool :=
  match s with IBV_QPS_OTHER c => c =? 6 | _ => true end.

(** What the documentation of [ibv_modify_qp] and [ibv_query_qp] says of the
    state of a queue pair, given by its handle.  A request that is answered with 0
    was for a transition of the table, carried the attributes it requires, and has
    made it; any other answer is an error and leaves the queue pair as it was.
    Nothing is said of which requests are answered with 0. *)
Class QpLaws (X : Type) `{!Platform X} := {
  qp_st : X → Z → ibv_qp_state;
  modify_done q a fl x m x' m' :
    ibv_modify_qp q a fl x m = (0, (x', m')) → has_flags fl IBV_QP_STATE = true →
    qp_st x' (qp_handle q) = qp_state a;
  modify_failed q a fl x m r x' m' :
    ibv_modify_qp q a fl x m = (r, (x', m')) → r ≠ 0 →
    qp_st x' (qp_handle q) = qp_st x (qp_handle q);
  modify_complete q a fl x m x' m' :
    ibv_modify_qp q a fl x m = (0, (x', m')) → has_flags fl IBV_QP_STATE = true →
    tabled (qp_st x (qp_handle q)) = true →
    ∃ mask, qp_requires (qp_st x (qp_handle q)) (qp_state a) = Some mask ∧
      has_flags fl mask = true;
  query_qp_frame q ia x m r x' m' :
    ibv_query_qp q ia x m = (r, (x', m')) → ∀ h, qp_st x' h = qp_st x h
}.

(** The path to the peer, which the attributes of the transition to RTR set: the
    peer's queue pair, the MTU and the address vector. *)
Definition path_of (a : ibv_qp_attr) : Z * Z * ibv_ah_attr :=
  (dest_qp_num a, path_mtu a, ah_attr a).
Definition path_flags : Z := flag_or [IBV_QP_AV; IBV_QP_PATH_MTU; IBV_QP_DEST_QPN].

(** A queue pair takes its path from a transition that succeeds with the three
    attributes and keeps it over one without any of them; neither queries nor
    sockets change queue pairs. *)
Class PathLaws (X : Type) `{!Platform X} `{!QpLaws X} := {
  qp_path : X → Z → Z * Z * ibv_ah_attr;
  modify_path q a fl x m r x' m' :
    ibv_modify_qp q a fl x m = (r, (x', m')) → r = 0 → has_flags fl path_flags = true →
    qp_path x' (qp_handle q) = path_of a;
  modify_no_path q a fl x m r x' m' :
    ibv_modify_qp q a fl x m = (r, (x', m')) → qp_state a ≠ IBV_QPS_RESET →
    Z.land fl path_flags = 0 → qp_path x' (qp_handle q) = qp_path x (qp_handle q);
  query_qp_path q ia x m r x' m' :
    ibv_query_qp q ia x m = (r, (x', m')) → ∀ h, qp_path x' h = qp_path x h;
  send_qps fd bs x m r x' m' :
    send fd bs x m = (r, (x', m')) → ∀ h, qp_st x' h = qp_st x h ∧ qp_path x' h = qp_path x h;
  recv_qps fd n x m r x' m' :
    recv fd n x m = (r, (x', m')) → ∀ h, qp_st x' h = qp_st x h ∧ qp_path x' h = qp_path x h
}.

(** A request for a queue pair number of more than 24 bits is refused. *)
Definition sim_modify_qp (q : ibv_qp) (a : ibv_qp_attr) (flags : Z) : ext_op Sim Z :=
  sim_upd (λ x,
    let x := x <| sim_modify ::= λ l, l ++ [a] |> in
    let from := default IBV_QPS_RESET (sim_qps x !! qp_handle q) in
    match qp_requires from (qp_state a) with
    | Some mask =>
        if has_flags flags mask && (dest_qp_num a <? 2^24)
        then (0, x <| sim_qps ::= <[qp_handle q := qp_state a]> |>
                   <| sim_paths ::= λ m,
                        if has_flags flags path_flags then <[qp_handle q := path_of a]> m else m |>)
        else (22, x)
    | None => (22, x)
    end).

(** The completion of a send request. *)
Definition done_opcode (op : ibv_wr_opcode) : ibv_wc_opcode :=
  match op with
  | IBV_WR_SEND_WITH_IMM => IBV_WC_SEND
  | IBV_WR_RDMA_WRITE | IBV_WR_RDMA_WRITE_WITH_IMM => IBV_WC_RDMA_WRITE
  | IBV_WR_RDMA_READ => IBV_WC_RDMA_READ
  end.
Definition sim_done (wr : ibv_send_wr) : ibv_wc :=
  mkWc (swr_wr_id wr) IBV_WC_SUCCESS (done_opcode (swr_opcode wr)) 0 0 0.

#[export] Instance sim_platform : Platform Sim := {
  sysconf_pagesize := sim_pure (λ _, 4096);
  sysconf_dcache_linesize := sim_pure (λ _, 64);
  read_coherency_file := sim_pure (λ _, Some (Some "64"));
  posix_memalign := sim_memalign;
  free := λ _, sim_pure (λ _, tt);
  getenv k := sim_pure (λ x, sim_env x !! k);
  setenv k v := sim_upd (λ x, (0, x <| sim_env ::= <[k := v]> |>));
  steady_clock_now := sim_upd (λ x, (sim_clock x, x <| sim_clock ::= Z.add 1500 |>));
  sleep_for t := sim_upd (λ x, (tt, x <| sim_clock ::= Z.add t |>));
  socket := sim_fresh;
  setsockopt_tos := λ _ _, sim_pure (λ _, 0);
  getsockopt_tos := λ _, sim_pure (λ _, (0, 16));
  setsockopt_priority := λ _ _, sim_pure (λ _, 0);
  getsockopt_priority := λ _, sim_pure (λ _, (0, 4));
  setsockopt_reuse := λ _ _, sim_pure (λ _, 0);
  getsockname := λ fd, sim_pure (λ _, mkSockaddrIn (htons (5000 + fd)) 1);
  connect := λ _ _, sim_upd (λ x,
    match sim_connect x with [] => (-1, x) | r :: l => (r, x <| sim_connect := l |>) end);
  bind_ := λ _ _, sim_pure (λ _, 0);
  listen := λ _ _, sim_pure (λ _, 0);
  accept := λ _, sim_upd (λ x,
    match sim_accept x with
    | [] => ((-1, mkSockaddrIn 0 0), x)
    | r :: l => (r, x <| sim_accept := l |>)
    end);
  send := λ _ bs, sim_upd (λ x,
    (Z.of_nat (length bs), x <| sim_sent ::= λ l, l ++ bs |>));
  recv := sim_recv;
  inet_ntop := dotted_quad;
  getifaddrs := sim_pure sim_ifaddrs;
  inet_addr := parse_quad;
  ibv_get_device_list := sim_pure (λ x, Some (sim_devices x));
  ibv_free_device_list := λ _, sim_pure (λ _, tt);
  ibv_open_device := λ d, sim_pure (λ _, ibv_dev_handle d);
  ibv_close_device := λ _, sim_pure (λ _, 0);
  ibv_query_device := λ _, sim_pure (λ x, (0, Z.of_nat (length (sim_ports x))));
  ibv_query_port := λ _ i, sim_pure (λ x,
    match sim_ports x !! Z.to_nat (i - 1) with
    | Some a => (0, a)
    | None => (22, mkPortAttr 0 0 0 0 0 0)
    end);
  ibv_query_gid := λ _ _ i, sim_pure (λ _, (0, replicate 15 7 ++ [i]));
  ibv_create_comp_channel := λ _, sim_fresh;
  ibv_alloc_pd := λ _, sim_fresh;
  ibv_create_cq := λ _ cqe _ _ _, sim_upd (λ x,
    (sim_handle x,
     x <| sim_handle ::= Z.succ |> <| sim_cqs ::= λ l, l ++ [(sim_handle x, cqe)] |>));
  ibv_create_qp := λ _ _, sim_upd (λ x,
    (Some (mkIbvQp (sim_handle x) (100 + sim_handle x)),
     x <| sim_handle ::= Z.succ |>));
  ibv_query_qp := λ q ia, sim_pure (λ x,
    (0, zero_qp_attr <| qp_state := default IBV_QPS_RESET (sim_qps x !! qp_handle q) |>, ia));
  ibv_modify_qp := sim_modify_qp;
  ibv_post_send := λ q wr, sim_upd (λ x,
    let x := x <| sim_sends ::= λ l, l ++ [(q, wr)] |> in
    (0, if sim_echo x then x <| sim_completions ::= λ l, l ++ [[]; [sim_done wr]] |> else x));
  ibv_post_recv := λ q wr, sim_upd (λ x, (0, x <| sim_recvs ::= λ l, l ++ [(q, wr)] |>));
  ibv_poll_cq := λ _ n, sim_upd (λ x,
    match sim_completions x with
    | [] => ((0, []), x)
    | ws :: rest =>
        let got := take (Z.to_nat n) ws in
        ((Z.of_nat (length got), got), x <| sim_completions := rest |>)
    end);
  ibv_reg_mr := λ _ _ _ _, sim_upd (λ x,
    (Some (mkIbvMr (sim_handle x) (1000 + sim_handle x) (2000 + sim_handle x)),
     x <| sim_handle ::= Z.succ |>));
  ibv_dereg_mr := λ _, sim_pure (λ _, 0)
}.

Definition sim_port : ibv_port_attr := mkPortAttr 4 5 3 0 0 2.

Definition sim0 : Sim :=
  {| sim_handle := 1; sim_brk := 2^20;
     sim_devices := [mkIbvDevice "mlx5_1" 90; mkIbvDevice "mlx5_0" 91];
     sim_ports := [sim_port]; sim_inbox := []; sim_sent := []; sim_qps := ∅; sim_paths := ∅;
     sim_sends := []; sim_recvs := []; sim_completions := []; sim_cqs := [];
     sim_modify := []; sim_connect := []; sim_accept := [];
     sim_ifaddrs := []; sim_env := ∅; sim_clock := 0; sim_echo := false |}.

(** A process that has just started. *)
Definition world0 : World Sim :=
  {| w_ext := sim0; w_mem := ∅; w_next := 4096; w_bufs := ∅; w_chans := ∅;
     w_devs := ∅; w_conns := ∅; w_eps := ∅; w_sess := ∅; device_map_ := ∅;
     cache_line_size := 64; cycle_buffer := 4096 |}.

(** The value a run returns, if it returns. *)
Definition value {S A} (r : result S A) : option A :=
  match r with Ok a _ => Some a | Abort _ _ => None end.
Definition state_of {S A} (r : result S A) : S :=
  match r with Ok _ s => s | Abort _ s => s end.
(** What a witness runs returns if it does not fail; only that is computed. *)
Lemma returned_state (m : W Sim unit) w :
  match m w with Ok _ _ => true | Abort _ _ => false end = true → m w = Ok tt (state_of (m w)).
Proof. by destruct (m w) as [[] w'|]. Qed.
Lemma is_Some_computes {A} (o : option A) :
  match o with Some _ => true | None => false end = true → is_Some o.
Proof. by destruct o; [eexists|]. Qed.

Lemma value_Ok {S A} (r : result S A) a : value r = Some a → r = Ok a (state_of r).
Proof. destruct r; cbn; congruence. Qed.

#[export] Instance sim_memalign_laws : MemalignLaws Sim.
Proof.
  split. intros al sz x m p x' m' Hsz H. cbn in H. unfold sim_memalign in H.
  cbv zeta in H. set (q := align_up (sim_brk x) al) in *.
  destruct ((0 <? q) && (q + sz <=? 2 ^ 64)) eqn:Hr; cbn [andb] in H; [|done].
  case_bool_decide as Hfree; [|done]. injection H as <- <- <-.
  apply andb_true_iff in Hr as [H1%Z.ltb_lt H2%Z.leb_le].
  split; [done|]. split; [done|]. split; [intros; apply Z.mod_mul; lia|]. split.
  - intros a Ha. split.
    + rewrite Forall_forall in Hfree. apply Hfree, elem_of_seqZ. lia.
    + rewrite mem_write_lookup, length_replicate, bool_decide_true by lia.
      rewrite lookup_replicate_2 by lia. done.
  - intros a Ha. apply mem_write_frame. rewrite length_replicate. lia.
Qed.

(** The steady clock never goes back; times are 64-bit nanosecond counts. *)
Class ClockLaws (X : Type) `{!Platform X} := {
  clock_of : X → Z;
  clock_read x m t x' m' : steady_clock_now x m = (t, (x', m')) → clock_of x ≤ t ≤ clock_of x';
  clock_sleep n x m u x' m' : 0 ≤ n → sleep_for n x m = (u, (x', m')) → clock_of x + n ≤ clock_of x'
}.
#[export] Instance sim_clock_laws : ClockLaws Sim.
Proof.
  refine {| clock_of := sim_clock |}; intros; cbn in *; unfold sim_upd in *; cbn in *; simplify_eq;
    cbn; lia.
Defined.

(** A healthy link: [in_flight q cq ops k x] says that the requests [ops], oldest
    first, are posted on [q] and not yet reported to [cq], and that at most
    [k] polls in a row find nothing while there are any.  A signalled request
    is accepted while the queue has room; polls report the requests in the order
    they were posted, as successes of their kind.  Reading the clock and
    sleeping change nothing. *)
Definition completes_op (op : ibv_wr_opcode) (wc : ibv_wc) : Prop :=
  wc_status wc = IBV_WC_SUCCESS ∧ wc_opcode wc = done_opcode op.
Class LinkLaws (X : Type) `{!Platform X} := {
  patience : nat;
  send_room : nat;
  in_flight : ibv_qp → Z → list ibv_wr_opcode → nat → X → Prop;
  post_in_flight q cq ops k wr x m r x' m' :
    in_flight q cq ops k x → (length ops < send_room)%nat →
    swr_send_flags wr = IBV_SEND_SIGNALED →
    ibv_post_send (Some q) wr x m = (r, (x', m')) →
    r = 0 ∧ ∃ k', (k' ≤ patience)%nat ∧ in_flight q cq (ops ++ [swr_opcode wr]) k' x';
  poll_in_flight q cq ops k n x m num wcs x' m' :
    in_flight q cq ops k x → ops ≠ [] → 1 ≤ n →
    ibv_poll_cq cq n x m = ((num, wcs), (x', m')) →
    num = Z.of_nat (length wcs) ∧ num ≤ n ∧
    ∃ done rest k', ops = done ++ rest ∧ Forall2 completes_op done wcs ∧
      (k' ≤ patience)%nat ∧ (wcs = [] → (k' < k)%nat) ∧ in_flight q cq rest k' x';
  clock_in_flight q cq ops k x m t x' m' :
    steady_clock_now x m = (t, (x', m')) → in_flight q cq ops k x → in_flight q cq ops k x';
  sleep_in_flight q cq ops k n x m u x' m' :
    sleep_for n x m = (u, (x', m')) → in_flight q cq ops k x → in_flight q cq ops k x'
}.

(** On the concrete platform every completion is preceded by an empty poll. *)
Definition sim_pending (k : nat) (wcs : list ibv_wc) : list (list ibv_wc) :=
  drop (1 - k) (wcs ≫= (λ wc, [[]; [wc]])).
Definition sim_in_flight (ops : list ibv_wr_opcode) (k : nat) (x : Sim) : Prop :=
  sim_echo x = true ∧ (k ≤ 1)%nat ∧ ∃ wcs, Forall2 completes_op ops wcs ∧
    sim_completions x = sim_pending k wcs.
Lemma sim_pending_app k wcs wc :
  (k ≤ 1)%nat → (wcs = [] → k = 1%nat) → sim_pending k wcs ++ [[]; [wc]] = sim_pending k (wcs ++ [wc]).
Proof.
  intros Hk Hw. unfold sim_pending. rewrite bind_app. destruct wcs as [|w0 wcs].
  { by rewrite Hw. }
  destruct k as [|[|k]]; [done|done|lia].
Qed.
Lemma sim_post_in_flight ops k wr (x : Sim) m r x' m' qp :
  sim_in_flight ops k x → ibv_post_send qp wr x m = (r, (x', m')) →
  r = 0 ∧ ∃ k', (k' ≤ 1)%nat ∧ sim_in_flight (ops ++ [swr_opcode wr]) k' x'.
Proof.
  intros (He & Hk & wcs & Hw & Hc) H. cbn in H. unfold sim_upd in H. cbn in H.
  rewrite He, Hc in H. injection H as <- <- <-. split; [done|].
  set (k' := match wcs with [] => 1%nat | _ => k end).
  exists k'. split; [subst k'; destruct wcs; lia|]. split; [done|].
  split; [subst k'; destruct wcs; lia|]. exists (wcs ++ [sim_done wr]).
  split; [by apply Forall2_app; [|repeat constructor]|]. cbn.
  rewrite <-sim_pending_app by (subst k'; destruct wcs; done || lia). f_equal.
  subst k'. destruct wcs; [|done]. by destruct k.
Qed.
Lemma sim_poll_in_flight ops k n (x : Sim) m num wcs x' m' cq :
  sim_in_flight ops k x → ops ≠ [] → 1 ≤ n → ibv_poll_cq cq n x m = ((num, wcs), (x', m')) →
  num = Z.of_nat (length wcs) ∧ num ≤ n ∧
  ∃ done rest k', ops = done ++ rest ∧ Forall2 completes_op done wcs ∧
    (k' ≤ 1)%nat ∧ (wcs = [] → (k' < k)%nat) ∧ sim_in_flight rest k' x'.
Proof.
  intros (He & Hk & all & Hw & Hc) Hne Hn H. cbn in H. unfold sim_upd in H. rewrite Hc in H.
  destruct Hw as [|op wc ops all Hop Hw]; [done|]. unfold sim_pending in H. cbn in H.
  destruct k as [|[|k]]; [| |lia]; cbn in H.
  - destruct (Z.to_nat n) as [|n'] eqn:En; [lia|]. cbn in H. rewrite take_nil in H.
    injection H as <- <- <- <-. split; [done|]. split; [cbn; lia|].
    exists [op], ops, 1%nat. split; [done|]. split; [by constructor; [|constructor]|]. split; [lia|].
    split; [done|]. split; [done|]. split; [lia|]. by exists all.
  - rewrite take_nil in H. injection H as <- <- <- <-. split; [done|]. split; [cbn; lia|].
    exists [], (op :: ops), 0%nat. split; [done|]. split; [constructor|]. split; [lia|].
    split; [lia|]. split; [done|]. split; [lia|]. exists (wc :: all). split; [by constructor|done].
Qed.
#[export] Instance sim_link_laws : LinkLaws Sim.
Proof.
  refine {| patience := 1; send_room := 1024; in_flight _ _ := sim_in_flight |}.
  - intros q cq ops k wr x m r x' m' Hi _ _ H. by eapply sim_post_in_flight.
  - intros q cq ops k n x m num wcs x' m' Hi Hne Hn H. by eapply sim_poll_in_flight.
  - intros q cq ops k x m t x' m' H Hi. cbn in H. unfold sim_upd in H. by injection H as <- <- <-.
  - intros q cq ops k n x m u x' m' H Hi. cbn in H. unfold sim_upd in H. by injection H as <- <- <-.
Defined.

#[export] Instance sim_qp_laws : QpLaws Sim.
Proof.
  refine {| qp_st := λ x h, default IBV_QPS_RESET (sim_qps x !! h) |};
    intros q a; intros; cbn in *; unfold sim_modify_qp, sim_upd, sim_pure in *;
    cbn in *; repeat case_match; simplify_eq; cbn; try done.
  all: rewrite ?andb_true_iff in *; destruct_and?.
  all: rewrite ?lookup_insert_eq; cbn; eauto; congruence.
Defined.
#[export] Instance sim_path_laws : PathLaws Sim.
Proof.
  refine {| qp_path := λ x h, default (0, 0, zero_ah_attr) (sim_paths x !! h) |}.
  - intros q a fl x m r x' m' H -> Hf. cbn in H. unfold sim_modify_qp, sim_upd in H.
    rewrite Hf in H. repeat case_match; simplify_eq; cbn. by rewrite lookup_insert_eq.
  - intros q a fl x m r x' m' H _ Hf. cbn in H. unfold sim_modify_qp, sim_upd, has_flags in H.
    rewrite Hf in H. repeat case_match; simplify_eq; cbn; done.
  - intros q ia x m r x' m' [= _ <- _] h. done.
  - intros fd bs x m r x' m' [= _ <- _] h. done.
  - intros fd n x m r x' m' H h. cbn in H. unfold sim_recv, sim_upd in H.
    destruct (sim_take _ _). by injection H as _ <- _.
Defined.

(** ** What the laws say of a world's queue pairs *)

Section queue_pairs.
Context {X : Type} `{!Platform X} `{!QpLaws X} `{!PathLaws X}.

(** State and path of the queue pair with handle [h]. *)
Definition qp_view (h : Z) (w : World X) : ibv_qp_state * (Z * Z * ibv_ah_attr) :=
  (qp_st (w_ext w) h, qp_path (w_ext w) h).

Lemma keeps_view_call {A} (op : ext_op X A) h :
  (∀ x m r x' m', op x m = (r, (x', m')) → qp_st x' h = qp_st x h ∧ qp_path x' h = qp_path x h) →
  keeps (qp_view h) (call op).
Proof.
  intros Hop w a w' (x & m & E & ->)%call_inv. unfold qp_view. cbn.
  by destruct (Hop _ _ _ _ _ E) as [-> ->].
Qed.
Lemma keeps_view_send fd bs h : keeps (qp_view h) (call (send fd bs)).
Proof. apply keeps_view_call. intros x m r x' m' E. by apply (send_qps _ _ _ _ _ _ _ E). Qed.
Lemma keeps_view_recv fd n h : keeps (qp_view h) (call (recv fd n)).
Proof. apply keeps_view_call. intros x m r x' m' E. by apply (recv_qps _ _ _ _ _ _ _ E). Qed.
End queue_pairs.
#[export] Hint Resolve keeps_view_send keeps_view_recv : keeps.
