(* ===== verification/Timer.v ===== *)
(** * newplan::Timer (include/util/time_record.h)

    A stop watch on the steady clock.  Time points are nanosecond counts; a
    default constructed one is the epoch.  The [elapsed_*] members hold nothing
    until their getter has run. *)
From S2P Require Import Prelude Words Types World Sim.

Record Timer := mkTimer {
  initted_ : bool;
  running_ : bool;
  has_run_at_least_once_ : bool;
  start_cpu_ : Z;
  stop_cpu_ : Z;
  elapsed_milliseconds_ : option Z;
  elapsed_microseconds_ : option Z;
  elasped_nanoseconds_ : option Z;
  elasped_seconds_ : option Z
}.

#[export] Instance eta_Timer : Eta Timer := λ r,
  mkTimer (initted_ r) (running_ r) (has_run_at_least_once_ r) (start_cpu_ r) (stop_cpu_ r)
    (elapsed_milliseconds_ r) (elapsed_microseconds_ r) (elasped_nanoseconds_ r)
    (elasped_seconds_ r).

Definition Timer_Init (t : Timer) : Timer :=
  if initted_ t then t else t <| initted_ := true |>.
Definition Timer_ctor : Timer :=
  Timer_Init (mkTimer false false false 0 0 None None None None).

Section timer.
Context {X : Type} `{!Platform X}.

Definition Timer_Start (t : Timer) : W X Timer :=
  if running_ t then mret t
  else
    now ← call steady_clock_now;
    mret (t <| start_cpu_ := now |> <| running_ := true |> <| has_run_at_least_once_ := true |>).

Definition Timer_Stop (t : Timer) : W X Timer :=
  if running_ t then
    now ← call steady_clock_now;
    mret (t <| stop_cpu_ := now |> <| running_ := false |>)
  else mret t.

(** [duration_cast<period>(stop_cpu_ - start_cpu_).count()] as a [uint64_t]; the
    cast rounds towards zero. *)
Definition elapsed_in (period : Z) (t : Timer) : W X Z :=
  let d := stop_cpu_ t - start_cpu_ t in
  defined ((INT64_MIN <=? d) && (d <=? INT64_MAX)) "signed overflow" ;;
  mret (u64 (Z.quot d period)).

(** What the four getters share: 0 for a timer that never ran, and a running
    timer is stopped first. *)
Definition read_timer (period : Z) (store : Z → Timer → Timer) (t : Timer) : W X (Z * Timer) :=
  if negb (has_run_at_least_once_ t) then mret (0, t)
  else
    t ← (if running_ t then Timer_Stop t else mret t);
    e ← elapsed_in period t;
    mret (e, store e t).

Definition MilliSeconds : Timer → W X (Z * Timer) :=
  read_timer 1000000 (λ e t, t <| elapsed_milliseconds_ := Some e |>).
Definition MicroSeconds : Timer → W X (Z * Timer) :=
  read_timer 1000 (λ e t, t <| elapsed_microseconds_ := Some e |>).
Definition NanoSeconds : Timer → W X (Z * Timer) :=
  read_timer 1 (λ e t, t <| elasped_nanoseconds_ := Some e |>).
Definition Seconds : Timer → W X (Z * Timer) :=
  read_timer 1000000000 (λ e t, t <| elasped_seconds_ := Some e |>).
End timer.

(** ** Lemmas *)

Section timer_lemmas.
Context {X : Type} `{!Platform X}.
Implicit Types (w : World X) (t : Timer).

Lemma Timer_Start_inv t w t' w' :
  Timer_Start t w = Ok t' w' → running_ t = false →
  ∃ now x m, steady_clock_now (w_ext w) (w_mem w) = (now, (x, m)) ∧
    t' = t <| start_cpu_ := now |> <| running_ := true |> <| has_run_at_least_once_ := true |> ∧
    w' = w <| w_ext := x |> <| w_mem := m |>.
Proof.
  intros H Hr. unfold Timer_Start in H. rewrite Hr in H. wstep H as now w1 H1. pinv H. eauto 10.
Qed.
Lemma Timer_Stop_inv t w t' w' :
  Timer_Stop t w = Ok t' w' → running_ t = true →
  ∃ now x m, steady_clock_now (w_ext w) (w_mem w) = (now, (x, m)) ∧
    t' = t <| stop_cpu_ := now |> <| running_ := false |> ∧
    w' = w <| w_ext := x |> <| w_mem := m |>.
Proof.
  intros H Hr. unfold Timer_Stop in H. rewrite Hr in H. wstep H as now w1 H1. pinv H. eauto 10.
Qed.

Lemma Timer_Start_total t w :
  running_ t = false →
  ∃ t' now x m, steady_clock_now (w_ext w) (w_mem w) = (now, (x, m)) ∧ running_ t' = true ∧
    Timer_Start t w = Ok t' (w <| w_ext := x |> <| w_mem := m |>).
Proof.
  intros Hr. unfold Timer_Start. rewrite Hr.
  destruct (steady_clock_now (w_ext w) (w_mem w)) as [now [x m]] eqn:E.
  rewrite (bind_Ok _ _ _ _ _ (call_eq _ _ _ _ _ E)). eexists _, now, x, m.
  split; [done|]. split; [|reflexivity]. reflexivity.
Qed.
Lemma Timer_Stop_total t w :
  running_ t = true →
  ∃ t' now x m, steady_clock_now (w_ext w) (w_mem w) = (now, (x, m)) ∧
    Timer_Stop t w = Ok t' (w <| w_ext := x |> <| w_mem := m |>).
Proof.
  intros Hr. unfold Timer_Stop. rewrite Hr.
  destruct (steady_clock_now (w_ext w) (w_mem w)) as [now [x m]] eqn:E.
  rewrite (bind_Ok _ _ _ _ _ (call_eq _ _ _ _ _ E)). by eexists _, now, x, m.
Qed.
Lemma keeps_timer_start {P} (p : World X → P) t :
  (∀ w x m, p (w <| w_ext := x |> <| w_mem := m |>) = p w) → keeps p (Timer_Start t).
Proof. intros Hp. unfold Timer_Start. eauto using keeps_call with keeps. Qed.
Lemma keeps_timer_stop {P} (p : World X → P) t :
  (∀ w x m, p (w <| w_ext := x |> <| w_mem := m |>) = p w) → keeps p (Timer_Stop t).
Proof. intros Hp. unfold Timer_Stop. eauto using keeps_call with keeps. Qed.

(** A stopped timer is read without the clock. *)
Lemma read_stopped period store t w e :
  has_run_at_least_once_ t = true → running_ t = false →
  INT64_MIN ≤ stop_cpu_ t - start_cpu_ t ≤ INT64_MAX →
  u64 (Z.quot (stop_cpu_ t - start_cpu_ t) period) = e →
  read_timer period store t w = Ok (e, store e t) w.
Proof.
  intros Hh Hr Hd <-. unfold read_timer. rewrite Hh, Hr. cbn [negb]. rewrite bind_ret.
  unfold elapsed_in. cbv zeta. rewrite bind_assoc.
  rewrite (proj2 (Z.leb_le _ _) (proj1 Hd)), (proj2 (Z.leb_le _ _) (proj2 Hd)). done.
Qed.
End timer_lemmas.

Section timer_theorems.
Context {X : Type} `{!Platform X} `{!ClockLaws X}.
Implicit Types (w : World X) (t : Timer).

(** a timer that is started, left running while anything moves the clock
    forward, and stopped reads the nanoseconds between the two, in each unit
    rounded down, so a coarser reading is the finer one divided; reading does
    not touch the clock, and reading again gives the same. *)
Theorem timer_reads_elapsed w t1 w1 w2 t2 w3 :
  Timer_Start Timer_ctor w = Ok t1 w1 → clock_of (w_ext w1) ≤ clock_of (w_ext w2) →
  Timer_Stop t1 w2 = Ok t2 w3 → clock_of (w_ext w3) - clock_of (w_ext w) ≤ INT64_MAX →
  ∃ d, 0 ≤ d ∧ clock_of (w_ext w2) - clock_of (w_ext w1) ≤ d ≤
      clock_of (w_ext w3) - clock_of (w_ext w) ∧
    NanoSeconds t2 w3 = Ok (d, t2 <| elasped_nanoseconds_ := Some d |>) w3 ∧
    MicroSeconds t2 w3 = Ok (d / 1000, t2 <| elapsed_microseconds_ := Some (d / 1000) |>) w3 ∧
    MilliSeconds t2 w3 =
      Ok (d / 1000 / 1000, t2 <| elapsed_milliseconds_ := Some (d / 1000 / 1000) |>) w3 ∧
    Seconds t2 w3 =
      Ok (d / 1000 / 1000 / 1000, t2 <| elasped_seconds_ := Some (d / 1000 / 1000 / 1000) |>) w3.
Proof.
  intros H1 Hmid H2 Hmax.
  apply Timer_Start_inv in H1 as (a & x1 & m1 & E1 & -> & ->); [|done].
  apply Timer_Stop_inv in H2 as (b & x2 & m2 & E2 & Ht2 & ->); [|done].
  apply clock_read in E1, E2. cbn [w_ext upd] in *.
  assert (has_run_at_least_once_ t2 = true ∧ running_ t2 = false ∧
    stop_cpu_ t2 - start_cpu_ t2 = b - a) as (Hh & Hr & Hd) by (by subst t2).
  clear Ht2. exists (b - a). assert (0 ≤ b - a ≤ INT64_MAX) as Hba by lia.
  assert (∀ p, 0 < p → u64 (Z.quot (stop_cpu_ t2 - start_cpu_ t2) p) = (b - a) / p) as Hq.
  { intros p Hp. rewrite Hd, Z.quot_div_nonneg by lia. apply u64_small. unfold INT64_MAX in *.
    pose proof (Z.div_pos (b - a) p ltac:(lia) Hp).
    pose proof (Z.div_le_upper_bound (b - a) p (b - a) Hp ltac:(nia)). lia. }
  split; [lia|]. split; [lia|]. rewrite <-(Z.div_1_r (b - a)) at 1 2. rewrite !Z.div_div by lia.
  unfold INT64_MAX in *.
  split_and!; apply read_stopped; try (apply Hq; lia); rewrite ?Hd;
    unfold INT64_MIN, INT64_MAX; try done; lia.
Qed.
End timer_theorems.

(** A timer read before it ever ran says 0; one read while running is stopped
    by the reading. *)
Example timer_never_run :
  MicroSeconds Timer_ctor world0 = Ok (0, Timer_ctor) world0.
Proof. reflexivity. Qed.
Example timer_read_running :
  ∃ t1 w1 t2 w2, Timer_Start Timer_ctor world0 = Ok t1 w1 ∧
    MicroSeconds t1 w1 = Ok (1, t2) w2 ∧ running_ t2 = false.
Proof. repeat eexists. Qed.

(** ** Witness *)

Definition ti_w1 : World Sim := state_of (Timer_Start Timer_ctor world0).
Definition ti_t1 : Timer := default Timer_ctor (value (Timer_Start Timer_ctor world0)).
Definition ti_w2 : World Sim := state_of (call (sleep_for 2500000) ti_w1).
Definition ti_t2 : Timer := default Timer_ctor (value (Timer_Stop ti_t1 ti_w2)).
Definition ti_w3 : World Sim := state_of (Timer_Stop ti_t1 ti_w2).

Lemma timer_reads_elapsed_witness :
  value (MicroSeconds ti_t2 ti_w3) =
    Some (2501, ti_t2 <| elapsed_microseconds_ := Some 2501 |>).
Proof.
  destruct (timer_reads_elapsed world0 ti_t1 ti_w1 ti_w2 ti_t2 ti_w3)
    as (d & _ & Hd & Hn & Hm & _).
  - reflexivity.
  - vm_compute; discriminate.
  - reflexivity.
  - vm_compute; discriminate.
  - rewrite Hm. assert (d = 2501500) as -> by (vm_compute in Hn; congruence). reflexivity.
Defined.
