(* ===== verification/Ident.v ===== *)
(** * Names of sessions, endpoints, channels and adapters

    [RDMASession::get_id], [RDMAEndPoint::get_id]/[info]/[get_unique_id],
    [RDMAChannel::get_id]/[info] and [RDMAAdapter::info].  An adapter's name
    goes through its endpoint, the endpoint's TCP connector and its session, and
    is the key of a private completion queue and the identity sent to the
    peer. *)
From S2P Require Import Prelude Words Types World.

Section ident.
Context {X : Type}.

(** [std::to_string] of an [int]. *)
Definition to_string (z : Z) : string := pretty z.

Definition session_get_id (s : Z) : W X string :=
  sess ← sess_at s;
  mret (role (work_env_ sess) +:+ "@" +:+ session_id (work_env_ sess)).

(** my_ip:my_port-->peer_ip:peer_port *)
Definition route (c : TCPConnector) : string :=
  my_ip c +:+ ":" +:+ to_string (my_port c) +:+ "-->" +:+
  peer_ip c +:+ ":" +:+ to_string (peer_port c).

Definition endpoint_get_id (ep : Z) : W X string :=
  e ← ep_at ep;
  check (negb (pre_connector_ e =? 0)) "RDMAEndPoint is not initialized before using" ;;
  c ← conn_at (pre_connector_ e);
  sid ← session_get_id (registered_session_ e);
  mret ("[" +:+ route c +:+ "]@" +:+ sid).

Definition endpoint_info (ep : Z) : W X string :=
  i ← endpoint_get_id ep; mret ("RDMAEndPoint@" +:+ i).

Definition get_unique_id (ep : Z) : W X string :=
  e ← ep_at ep;
  check (negb (pre_connector_ e =? 0)) "TCPConnector is not initialized" ;;
  c ← conn_at (pre_connector_ e);
  mret ("RDMAEndPoint(" +:+ route c +:+ ")").

Definition channel_get_id (ch : Z) : W X string :=
  c ← chan_at ch;
  eid ← endpoint_get_id (registered_endpoint_ c);
  mret ("(" +:+ id_ (adapter c) +:+ ")" +:+ eid).

Definition channel_info (ch : Z) : W X string :=
  i ← channel_get_id ch; mret ("RDMAChannel@" +:+ i).

Definition adapter_info (ch : Z) : W X string :=
  i ← channel_get_id ch; mret ("RDMAAdapter@" +:+ i).

Lemma read_only_ret {A} (a : A) : ∀ w v w', mret (M:=W X) a w = Ok v w' → w' = w.
Proof. by intros w v w' [_ ->]%ret_inv. Qed.

(** Names are read without changing the state. *)
Lemma endpoint_get_id_read ep w i w' : endpoint_get_id ep w = Ok i w' → w' = w.
Proof.
  intros H. unfold endpoint_get_id, session_get_id in H.
  wstep H as e w1 H1. wstep H as ? w2 H2. wstep H as c w3 H3.
  wstep H as sid w4 H4. wstep H4 as s w5 H5. pinv H4. by pinv H.
Qed.
Lemma channel_get_id_read ch w i w' : channel_get_id ch w = Ok i w' → w' = w.
Proof.
  intros H. unfold channel_get_id in H. wstep H as c w1 H1.
  apply bind_inv in H as (eid & w2 & ->%endpoint_get_id_read & H). by pinv H.
Qed.
Lemma adapter_info_read ch w i w' : adapter_info ch w = Ok i w' → w' = w.
Proof.
  intros H. unfold adapter_info in H.
  apply bind_inv in H as (eid & w2 & ->%channel_get_id_read & H). by pinv H.
Qed.

(** An adapter's name is not empty. *)
Lemma adapter_info_prefix ch w i w' :
  adapter_info ch w = Ok i w' → ∃ t, i = "RDMAAdapter@" +:+ t.
Proof.
  intros H. unfold adapter_info in H.
  apply bind_inv in H as (t & w2 & _ & H). pinv H. eauto.
Qed.

(** What a name depends on besides the channel itself. *)
Definition names (w : World X) := (w_eps w, w_conns w, w_sess w).

Lemma endpoint_get_id_cong ep w w' i :
  names w' = names w → endpoint_get_id ep w = Ok i w → endpoint_get_id ep w' = Ok i w'.
Proof.
  intros [= He Hc Hs] H. unfold endpoint_get_id, session_get_id in *.
  wstep H as e w1 H1. wstep H as ? w2 H2. wstep H as c w3 H3.
  wstep H as sid w4 H4. wstep H4 as s w5 H5. pinv H4. injection H as <-.
  erewrite bind_Ok by (apply ep_at_eq; rewrite He; exact H1). rewrite H2.
  cbn [check]. rewrite bind_ret.
  erewrite bind_Ok by (apply conn_at_eq; rewrite Hc; exact H3). rewrite bind_assoc.
  by erewrite bind_Ok by (apply sess_at_eq; rewrite Hs; exact H5).
Qed.

(** An adapter's name only depends on its own identity and on the endpoint,
    connector and session objects. *)
Lemma adapter_info_cong ch w w' c c' i :
  w_chans w !! ch = Some c → w_chans w' !! ch = Some c' →
  id_ (adapter c') = id_ (adapter c) →
  registered_endpoint_ c' = registered_endpoint_ c → names w' = names w →
  adapter_info ch w = Ok i w → adapter_info ch w' = Ok i w'.
Proof.
  intros Hc Hc' Hid Hep Hn H. unfold adapter_info, channel_get_id in *.
  rewrite bind_assoc in H |- *.
  rewrite (bind_Ok _ _ _ _ _ (chan_at_eq _ _ _ Hc)) in H.
  rewrite (bind_Ok _ _ _ _ _ (chan_at_eq _ _ _ Hc')).
  rewrite bind_assoc in H |- *. apply bind_inv in H as (eid & w1 & H1 & H).
  pose proof (endpoint_get_id_read _ _ _ _ H1) as ->.
  rewrite Hep, (bind_Ok _ _ _ _ _ (endpoint_get_id_cong _ _ _ _ Hn H1)), Hid.
  by injection H as <-.
Qed.

Lemma keeps_adapter_info {P} (p : World X → P) ch : keeps p (adapter_info ch).
Proof. apply keeps_read. intros ???. apply adapter_info_read. Qed.
Lemma keeps_channel_get_id {P} (p : World X → P) ch : keeps p (channel_get_id ch).
Proof. apply keeps_read. intros ???. apply channel_get_id_read. Qed.
End ident.

#[export] Hint Resolve keeps_adapter_info keeps_channel_get_id : keeps.
