(* ===== verification/Device.v ===== *)
(** * RDMADevice (include/rdma_device.h, src/rdma_device.cc)

    The abstraction of one NIC: the process-wide registry of devices, device
    discovery, the per-device registry of completion queues, and the calls that
    hand work requests and memory regions to libibverbs.  A critical section
    under [device_global_lock_] or [device_local_lock_] is a run of the monad
    without interleaving. *)
From S2P Require Import Prelude Words Types World Sim Text Ident.

Definition DEF_CACHE_LINE_SIZE : Z := 64.

Section device.
Context {X : Type} `{!Platform X}.

(** ** System parameters *)

(** [fgets(line, 10, fp)] keeps at most nine characters. *)
Definition get_cache_line_size : W X Z :=
  size0 ← call sysconf_dcache_linesize;
  let size := i32 size0 in
  if size =? 0 then
    fp ← call read_coherency_file;
    match fp with
    | None => mret DEF_CACHE_LINE_SIZE
    | Some line =>
        let size :=
          match line with Some l => atoi (String.substring 0 9 l) | None => size end in
        mret (if size <=? 0 then DEF_CACHE_LINE_SIZE else size)
    end
  else mret (if size <=? 0 then DEF_CACHE_LINE_SIZE else size).

Definition load_sys_params : W X unit :=
  c ← get_cache_line_size;
  modify (λ w, w <| cache_line_size := c |>) ;;
  p ← call sysconf_pagesize;
  modify (λ w, w <| cycle_buffer := i32 p |>).

(** ** Opening a device *)

(** The search loop of [open_device]: an empty [dev_name_] takes the name of
    the first device listed. *)
Fixpoint find_device (name : string) (devs : list ibv_device)
    : string * option ibv_device :=
  match devs with
  | [] => (name, None)
  | d :: devs =>
      let name := if bool_decide (name = "") then ibv_get_device_name d else name in
      if bool_decide (ibv_get_device_name d = name) then (name, Some d)
      else find_device name devs
  end.

Definition open_device (this : Z) : W X bool :=
  dev_list ← call ibv_get_device_list;
  match dev_list with
  | None => log_fatal "failed to get IB devices list"
  | Some devs =>
      check (negb (bool_decide (devs = []))) "found 0 device(s)" ;;
      d ← dev_at this;
      let '(name, ib_dev) := find_device (dev_name_ d) devs in
      upd_dev this (λ d, d <| dev_name_ := name |>) ;;
      match ib_dev with
      | None => log_fatal "Not find the IB device"
      | Some dev =>
          ctx ← call (ibv_open_device dev);
          upd_dev this (λ d, d <| ib_ctx_ := ctx |>) ;;
          check (negb (ctx =? 0)) "failed to open device" ;;
          call (ibv_free_device_list devs) ;;
          mret true
      end
  end.

Definition query_port_attr (this ib_port : Z) : W X unit :=
  d ← dev_at this;
  r ← call (ibv_query_port (ib_ctx_ d) ib_port);
  let '(ret, port_attr) := r in
  check (ret =? 0) "failed to Query port" ;;
  upd_dev this (λ d, d <| ports_attrs_ ::= λ l, l ++ [port_attr] |>) ;;
  check (port_state port_attr =? IBV_PORT_ACTIVE) "port is not working properly".

(** [for (uint8_t port_index = 1; port_index <= phys_port_cnt; port_index++)] *)
Fixpoint query_ports (fuel : nat) (this port_index : Z) : W X unit :=
  match fuel with
  | O => fail OutOfFuel
  | S fuel =>
      d ← dev_at this;
      if port_index <=? phys_port_cnt d then
        query_port_attr this port_index ;;
        query_ports fuel this (u8 (port_index + 1))
      else mret tt
  end.

(** The loop runs at most 255 times when it ends at all. *)
Definition port_fuel : nat := 256.

Definition query_hardware_info (this : Z) : W X unit :=
  d ← dev_at this;
  r ← call (ibv_query_device (ib_ctx_ d));
  let '(ret, cnt) := r in
  upd_dev this (λ d, d <| phys_port_cnt := u8 cnt |>) ;;
  check (ret =? 0) "Fail to query device attributes" ;;
  query_ports port_fuel this 1.

Definition init_resources (this : Z) : W X bool :=
  load_sys_params ;;
  open_device this ;;
  query_hardware_info this ;;
  mret false.

(** The constructor. *)
Definition RDMADevice_ctor (name : string) : W X Z :=
  this ← new_addr;
  set_dev this (mkRDMADevice ∅ ∅ name 0 0 []) ;;
  init_resources this ;;
  mret this.

(** The destructor. *)
Definition RDMADevice_dtor (this : Z) : W X unit :=
  d ← dev_at this;
  if ib_ctx_ d =? 0 then mret tt
  else call (ibv_close_device (ib_ctx_ d)) ;; mret tt.

(** ** The device registry *)

Definition register_adapter (this adp : Z) : W X bool :=
  if adp =? 0 then mret false
  else
    d ← dev_at this;
    if bool_decide (adp ∈ adapter_set_ d) then adapter_info adp ;; mret false
    else upd_dev this (λ d, d <| adapter_set_ ::= λ s, {[adp]} ∪ s |>) ;; mret true.

Definition get_device (name : string) (adp : Z) : W X Z :=
  check (negb (adp =? 0)) "Adapter cannot be empty" ;;
  found ← gets (λ w, device_map_ w !! name);
  dev_handler ←
    match found with
    | None =>
        dev ← RDMADevice_ctor name;
        modify (λ w, w <| device_map_ ::= <[name := dev]> |>) ;;
        mret dev
    | Some dev => mret dev
    end;
  register_adapter dev_handler adp ;;
  mret dev_handler.

(** ** Resources *)

Definition create_event_channel (this : Z) : W X Z :=
  d ← dev_at this;
  c ← call (ibv_create_comp_channel (ib_ctx_ d));
  check (negb (c =? 0)) "Failed to create completion channel" ;;
  mret c.

Definition create_protected_domain (this : Z) : W X Z :=
  d ← dev_at this;
  pd ← call (ibv_alloc_pd (ib_ctx_ d));
  check (negb (pd =? 0)) "Failed to create protection domain" ;;
  mret pd.

Definition has_created_cq (this : Z) (key : string) : W X bool :=
  d ← dev_at this;
  mret (bool_decide (is_Some (reg_cqs_ d !! key))).

Definition create_completion_queue (this : Z) (key : string)
    (max_cqe cb_ctx channel comp_vector : Z) : W X Z :=
  d ← dev_at this;
  match reg_cqs_ d !! key with
  | Some cq => mret cq
  | None =>
      cq ← call (ibv_create_cq (ib_ctx_ d) max_cqe cb_ctx channel comp_vector);
      upd_dev this (λ d, d <| reg_cqs_ ::= <[key := cq]> |>) ;;
      check (negb (cq =? 0)) "Failed to create completion queue" ;;
      mret cq
  end.

Definition create_queue_pair (this pd : Z) (init_attr : ibv_qp_init_attr)
    : W X (option ibv_qp) :=
  dev_at this ;;
  qp ← call (ibv_create_qp pd init_attr);
  check (bool_decide (is_Some qp)) "Failed to create completion queue" ;;
  mret qp.

Definition get_port_attr (this ib_port : Z) : W X ibv_port_attr :=
  d ← dev_at this;
  check ((1 <=? u32 ib_port) && (u32 ib_port <=? phys_port_cnt d)) "Invalid port index" ;;
  must (ports_attrs_ d !! Z.to_nat (u32 ib_port - 1)) "ports_attrs_[]".

(** Returns the attributes and the init attributes the verbs wrote back. *)
Definition get_qp_attr (this : Z) (qp : option ibv_qp) (ia : ibv_qp_init_attr)
    : W X (ibv_qp_attr * ibv_qp_init_attr) :=
  dev_at this ;;
  match qp with
  | None => log_fatal "Invalid QP"
  | Some q =>
      r ← call (ibv_query_qp q ia);
      let '(_, attr, ia') := r in mret (attr, ia')
  end.

Definition query_gid (this ib_port gid_index : Z) : W X (list Z) :=
  let ib_port := u8 ib_port in
  let gid_index := u8 gid_index in
  d ← dev_at this;
  check ((1 <=? ib_port) && (ib_port <=? Z.of_nat (length (ports_attrs_ d))))
    "Invalid ib_port" ;;
  check (0 <=? gid_index) "Invalid gid_index" ;;
  r ← call (ibv_query_gid (ib_ctx_ d) ib_port gid_index);
  let '(ret, my_gid) := r in
  check (ret =? 0) "could not get gid for port" ;;
  mret my_gid.

(** ** Memory regions *)

Definition DEFAULT_ACCESS : Z :=
  flag_or [IBV_ACCESS_LOCAL_WRITE; IBV_ACCESS_REMOTE_READ; IBV_ACCESS_REMOTE_WRITE].

Definition real_register_mem (this pd ptr size access_flags : Z) (info : string)
    : W X (option ibv_mr) :=
  check (negb (pd =? 0)) "protect domain should not be empty for register mem" ;;
  let access_flags := DEFAULT_ACCESS in
  check (0 <? size) "Error of register mem buf with size" ;;
  check (negb (ptr =? 0)) "Error of data_ptr" ;;
  dev_at this ;;
  tmp_mr ← call (ibv_reg_mr pd ptr size access_flags);
  check (bool_decide (is_Some tmp_mr)) "register mem failed" ;;
  mret tmp_mr.

Definition real_deregister_mem (this : Z) (mr : option ibv_mr) (info : string)
    : W X bool :=
  dev_at this ;;
  ret ← call (ibv_dereg_mr mr);
  check (ret =? 0) "Error of deregister_mem" ;;
  mret true.

(** ** Work requests *)

Definition real_poll_completion_queue (cq expected : Z) : W X (Z * list ibv_wc) :=
  check (negb (cq =? 0)) "The completion queue is empty!" ;;
  check (1 <=? expected) "invalid expected wqe" ;;
  call (ibv_poll_cq cq expected).

Definition post_send (qp : option ibv_qp) (wr : ibv_send_wr) : W X bool :=
  ret ← call (ibv_post_send qp wr);
  check (ret =? 0) "failed to post send_request" ;;
  mret true.

Definition send_wr (addr length lkey imm_data key : Z) : ibv_send_wr :=
  {| swr_wr_id := key;
     swr_sg_list := [mkSge addr length lkey];
     swr_opcode := IBV_WR_SEND_WITH_IMM;
     swr_send_flags := IBV_SEND_SIGNALED;
     swr_imm_data := Some imm_data;
     swr_remote := None |}.

Definition real_send_ (qp : option ibv_qp) (mr : option ibv_mr)
    (addr msg_size imm_data key : Z) : W X bool :=
  m ← must mr "mr_->lkey";
  post_send qp (send_wr addr msg_size (mr_lkey m) imm_data key).

Definition recv_wr (addr length lkey key : Z) : ibv_recv_wr :=
  {| rwr_wr_id := key; rwr_sg_list := [mkSge addr length lkey] |}.

Definition real_recv_ (qp : option ibv_qp) (mr : option ibv_mr)
    (addr msg_size key : Z) : W X bool :=
  m ← must mr "mr_->lkey";
  ret ← call (ibv_post_recv qp (recv_wr addr msg_size (mr_lkey m) key));
  check (ret =? 0) "failed to post RR" ;;
  mret true.

Definition rdma_wr (op : ibv_wr_opcode) (rkey lkey local remote size : Z)
    (imm : option Z) (wr_id : Z) : ibv_send_wr :=
  {| swr_wr_id := wr_id;
     swr_sg_list := [mkSge local size lkey];
     swr_opcode := op;
     swr_send_flags := IBV_SEND_SIGNALED;
     swr_imm_data := imm;
     swr_remote := Some (remote, rkey) |}.

Definition real_write_remote_ (qp : option ibv_qp)
    (rkey lkey src_addr dest_addr size wr_id : Z) : W X bool :=
  post_send qp (rdma_wr IBV_WR_RDMA_WRITE rkey lkey src_addr dest_addr size None wr_id).

Definition real_write_remote_with_notify_ (qp : option ibv_qp)
    (rkey lkey src_addr dest_addr size imm_data wr_id : Z) : W X bool :=
  post_send qp (rdma_wr IBV_WR_RDMA_WRITE_WITH_IMM rkey lkey src_addr dest_addr size
                  (Some imm_data) wr_id).

Definition real_read_remote_ (qp : option ibv_qp)
    (rkey lkey dest_addr src_addr size wr_id : Z) : W X bool :=
  post_send qp (rdma_wr IBV_WR_RDMA_READ rkey lkey dest_addr src_addr size None wr_id).
End device.

(** ** What the device code leaves alone *)

(** The C++ objects other than devices. *)
Definition objects {X} (w : World X) :=
  (w_bufs w, w_chans w, w_conns w, w_eps w, w_sess w).

Section device_frame.
Context {X : Type} `{!Platform X}.

Lemma keeps_load_sys_params : keeps objects load_sys_params.
Proof. unfold load_sys_params, get_cache_line_size. solve_keeps. Qed.
Lemma keeps_open_device this : keeps objects (open_device this).
Proof. unfold open_device. solve_keeps. Qed.
Lemma keeps_query_port_attr this i : keeps objects (query_port_attr this i).
Proof. unfold query_port_attr. solve_keeps. Qed.
#[local] Hint Resolve keeps_load_sys_params keeps_open_device keeps_query_port_attr : keeps.
Lemma keeps_query_ports fuel this i : keeps objects (query_ports fuel this i).
Proof. revert i. induction fuel; intros; cbn; solve_keeps. Qed.
#[local] Hint Resolve keeps_query_ports : keeps.
Lemma keeps_RDMADevice_ctor name : keeps objects (RDMADevice_ctor name).
Proof. unfold RDMADevice_ctor, init_resources, query_hardware_info. solve_keeps. Qed.
#[local] Hint Resolve keeps_RDMADevice_ctor : keeps.
Lemma keeps_get_device name adp : keeps objects (get_device name adp).
Proof. unfold get_device, register_adapter. solve_keeps. Qed.
End device_frame.

(** ** Lemmas *)

Section device_lemmas.
Context {X : Type} `{!Platform X}.
Implicit Types w : World X.

Definition port_active (a : ibv_port_attr) : Prop := port_state a = IBV_PORT_ACTIVE.

Lemma query_port_attr_inv this i w u w' d :
  query_port_attr this i w = Ok u w' → w_devs w !! this = Some d →
  ∃ a, port_active a ∧
    w_devs w' = <[this := d <| ports_attrs_ ::= λ l, l ++ [a] |>]> (w_devs w).
Proof.
  intros H Hd. unfold query_port_attr in H.
  wstep H as ? w1 H1. same H1 Hd. wstep H as [ret a] w2 H2.
  wstep H as ? w3 H3. wstep H as ? w4 H4. pinv H. cbn in H4. same H4 Hd.
  exists a. split; [by apply Z.eqb_eq|done].
Qed.

Lemma query_ports_inv fuel this i w u w' d :
  query_ports fuel this i w = Ok u w' → w_devs w !! this = Some d →
  phys_port_cnt d < 255 → 1 ≤ i ≤ phys_port_cnt d + 1 →
  Z.of_nat (length (ports_attrs_ d)) = i - 1 → Forall port_active (ports_attrs_ d) →
  ∃ l, w_devs w' = <[this := d <| ports_attrs_ := l |>]> (w_devs w) ∧
       Z.of_nat (length l) = phys_port_cnt d ∧ Forall port_active l.
Proof.
  revert i w d. induction fuel as [|fuel IH]; intros i w d H Hd Hc Hi Hl Ha; [done|].
  cbn in H. wstep H as ? w0 H0. same H0 Hd. destruct (i <=? phys_port_cnt d) eqn:Hle.
  - apply bind_inv in H as (? & w1 & H1 & H2).
    apply (query_port_attr_inv _ _ _ _ _ d) in H1 as (a & Hact & Hw1); [|done].
    rewrite u8_small in H2 by lia.
    apply (IH _ _ (d <| ports_attrs_ ::= λ l, l ++ [a] |>)) in H2
      as (l & Hw' & Hlen & Hl'); cbn in *.
    + exists l. split; [|done]. rewrite Hw', Hw1, insert_insert_eq. done.
    + rewrite Hw1. apply lookup_insert_eq.
    + done.
    + lia.
    + rewrite length_app. cbn. lia.
    + apply Forall_app. auto.
  - pinv H. exists (ports_attrs_ d). split; [|split; [lia|done]].
    rewrite insert_id; [done|]. rewrite Hd. by destruct d.
Qed.

(** The eight-bit port counter wraps before it passes 255. *)
Lemma query_ports_255 fuel this i w d :
  w_devs w !! this = Some d → phys_port_cnt d = 255 → 0 ≤ i < 256 →
  ∀ u w', query_ports fuel this i w ≠ Ok u w'.
Proof.
  revert i w d. induction fuel as [|fuel IH]; intros i w d Hd Hc Hi u w' H; [done|].
  cbn in H. wstep H as ? w0 H0. same H0 Hd. rewrite Hc in H.
  replace (i <=? 255) with true in H by (symmetry; apply Z.leb_le; lia).
  apply bind_inv in H as (? & w1 & H1 & H2).
  apply (query_port_attr_inv _ _ _ _ _ d) in H1 as (a & _ & Hw1); [|done].
  refine (IH _ w1 _ _ _ _ _ _ H2).
  - rewrite Hw1. apply lookup_insert_eq.
  - done.
  - apply u8_range.
Qed.

Lemma find_device_spec name devs name' o :
  find_device name devs = (name', o) →
  match o with
  | Some d => d ∈ devs ∧ ibv_get_device_name d = name' ∧ (name ≠ "" → name' = name)
  | None => ∀ d, d ∈ devs → name ≠ "" ∧ ibv_get_device_name d ≠ name
  end.
Proof.
  revert name. induction devs as [|d devs IH]; intros name; cbn.
  - intros [= <- <-]. set_solver.
  - case_bool_decide as Hn; case_bool_decide as Hd; intros H; [| |by destruct Hn|].
    + injection H as <- <-. split; [left|]. split; [done|]. by intros [].
    + injection H as <- <-. split; [left|]. auto.
    + apply IH in H. destruct o as [e|].
      * destruct H as (He & H). split; [by right|done].
      * intros e He. apply elem_of_cons in He as [->|He]; [done|auto].
Qed.

Lemma open_device_inv this w b w' d :
  open_device this w = Ok b w' → w_devs w !! this = Some d →
  ∃ name ctx, w_devs w' = <[this := d <| dev_name_ := name |> <| ib_ctx_ := ctx |>]> (w_devs w) ∧
    ctx ≠ 0 ∧ (dev_name_ d ≠ "" → name = dev_name_ d).
Proof.
  intros H Hd. unfold open_device in H. wstep H as o w1 H1.
  destruct o as [devs|]; [|done].
  wstep H as ? w2 H2. wstep H as ? w3 H3. cbn in H3. same H3 Hd.
  destruct (find_device (dev_name_ d) devs) as [name o] eqn:Ef.
  apply find_device_spec in Ef.
  wstep H as ? w4 H4. cbn in H4. same H4 Hd. destruct o as [dev|]; [|done].
  wstep H as ctx w5 H5. wstep H as ? w6 H6. cbn in H6. simplify_map_eq.
  wstep H as ? w7 H7. wstep H as ? w8 H8. pinv H. cbn. rewrite insert_insert_eq.
  eexists name, _. split; [done|]. split; [|tauto].
  by apply negb_true_iff, Z.eqb_neq in H7.
Qed.

(** What the constructor of a device establishes. *)
Definition device_ok (d : RDMADevice) : Prop :=
  Z.of_nat (length (ports_attrs_ d)) = phys_port_cnt d ∧
  0 ≤ phys_port_cnt d < 255 ∧
  Forall port_active (ports_attrs_ d) ∧ ib_ctx_ d ≠ 0.

Lemma keeps_init_resources this :
  keeps (λ w : World X, (device_map_ w, w_next w)) (init_resources this).
Proof.
  assert (∀ fuel i, keeps (λ w : World X, (device_map_ w, w_next w))
    (query_ports fuel this i)).
  { induction fuel; intros; cbn; unfold query_port_attr; solve_keeps. }
  unfold init_resources, query_hardware_info, open_device, load_sys_params,
    get_cache_line_size. solve_keeps.
Qed.
Lemma keeps_load_sys_params_devs : keeps (w_devs (X:=X)) load_sys_params.
Proof. unfold load_sys_params, get_cache_line_size. solve_keeps. Qed.

Lemma RDMADevice_ctor_inv name w p w' :
  RDMADevice_ctor name w = Ok p w' →
  p = w_next w ∧ w_next w' = Z.succ (w_next w) ∧ device_map_ w' = device_map_ w ∧
  ∃ d, w_devs w' = <[p := d]> (w_devs w) ∧ device_ok d ∧ reg_cqs_ d = ∅ ∧
       adapter_set_ d = ∅ ∧ (name ≠ "" → dev_name_ d = name).
Proof.
  intros H. unfold RDMADevice_ctor in H.
  apply bind_inv in H as (p0 & w1 & [= <- <-] & H).
  wstep H as ? w1 H1. wstep H as ? w2 H2. pinv H.
  assert (Hk : keeps (λ w, (device_map_ w, w_next w)) (init_resources (X:=X) (w_next w)))
    by apply keeps_init_resources.
  specialize (Hk _ _ _ H2). cbn in Hk. injection Hk as -> ->.
  split; [done|]. split; [done|]. split; [done|].
  unfold init_resources in H2.
  wstep H2 as ? w3 H3. apply keeps_load_sys_params_devs in H3. cbn in H3.
  wstep H2 as ? w4 H4.
  apply (open_device_inv _ _ _ _ (mkRDMADevice ∅ ∅ name 0 0 [])) in H4
    as (nm & ctx & Hw4 & Hctx & Hnm); [|rewrite H3; apply lookup_insert_eq].
  rewrite H3, insert_insert_eq in Hw4. cbn in *.
  wstep H2 as ? w5 H5. pinv H2. unfold query_hardware_info in H5.
  wstep H5 as d1 w6 H6. rewrite Hw4, lookup_insert_eq in H6. injection H6 as <-.
  wstep H5 as [ret cnt] w7 H7. wstep H5 as ? w8 H8. cbn in H8.
  rewrite Hw4, lookup_insert_eq in H8. injection H8 as <-.
  wstep H5 as ? w9 H9.
  pose proof (u8_range cnt) as Hc8.
  assert (u8 cnt < 255) as Hcnt.
  { destruct (decide (u8 cnt = 255)) as [E|]; [|lia]. exfalso.
    refine (query_ports_255 _ _ _ _ (mkRDMADevice ∅ ∅ nm ctx (u8 cnt) []) _ E _ _ _ H5).
    - apply lookup_insert_eq.
    - lia. }
  apply (query_ports_inv _ _ _ _ _ _ (mkRDMADevice ∅ ∅ nm ctx (u8 cnt) []))
    in H5 as (l & Hw' & Hl & Hact);
    [|apply lookup_insert_eq|cbn; lia..|constructor].
  cbn in *. rewrite insert_insert_eq, Hw4, insert_insert_eq in Hw'.
  eexists. split; [exact Hw'|]. unfold device_ok. cbn.
  split_and!; [lia..|done|done|done|done|done].
Qed.

(** ** The device registry *)

(** Registered devices are alive, completely initialised and listed under
    their own name; object addresses are below the allocation mark. *)
Definition registry_wf w : Prop :=
  (∀ name p, device_map_ w !! name = Some p →
    ∃ d, w_devs w !! p = Some d ∧ device_ok d ∧ (name ≠ "" → dev_name_ d = name)) ∧
  (∀ p, is_Some (w_devs w !! p) → p < w_next w).

Definition add_adapter (adp : Z) (d : RDMADevice) : RDMADevice :=
  d <| adapter_set_ ::= λ s, {[adp]} ∪ s |>.

Lemma add_adapter_ok adp d : device_ok (add_adapter adp d) ↔ device_ok d.
Proof. done. Qed.

(** The name of an adapter that is already registered is printed. *)
Definition printable (adp : Z) (d : RDMADevice) w : Prop :=
  adp ∈ adapter_set_ d → ∃ i, adapter_info adp w = Ok i w.

Lemma add_adapter_id adp d : adp ∈ adapter_set_ d → add_adapter adp d = d.
Proof.
  intros Hin. destruct d; cbn in *. unfold add_adapter. cbn. f_equal.
  by apply subseteq_union_1_L, singleton_subseteq_l.
Qed.

(** Registering is a set insertion, whether or not the adapter was there. *)
Lemma register_adapter_eq p adp w d :
  adp ≠ 0 → w_devs w !! p = Some d → printable adp d w →
  ∃ b, register_adapter p adp w = Ok b (w <| w_devs ::= <[p := add_adapter adp d]> |>).
Proof.
  intros Ha Hd Hi. unfold register_adapter.
  rewrite (proj2 (Z.eqb_neq _ _) Ha), (bind_Ok _ _ _ _ _ (dev_at_eq _ _ _ Hd)).
  case_bool_decide as Hin.
  - destruct (Hi Hin) as [i Hn]. rewrite (bind_Ok _ _ _ _ _ Hn).
    exists false. unfold mret, M_ret. f_equal. destruct w; cbn in *. f_equal.
    rewrite insert_id; [done|]. rewrite Hd. f_equal. symmetry. by apply add_adapter_id.
  - exists true. by rewrite (bind_Ok _ _ _ _ _ (upd_dev_eq _ _ _ _ Hd)).
Qed.
Lemma register_adapter_inv p adp w d b w' :
  adp ≠ 0 → w_devs w !! p = Some d → register_adapter p adp w = Ok b w' →
  w' = w <| w_devs ::= <[p := add_adapter adp d]> |>.
Proof.
  intros Ha Hd H. assert (printable adp d w) as Hp.
  { intros Hin. unfold register_adapter in H.
    rewrite (proj2 (Z.eqb_neq _ _) Ha), (bind_Ok _ _ _ _ _ (dev_at_eq _ _ _ Hd)) in H.
    rewrite bool_decide_true in H by done.
    apply bind_inv in H as (i & w1 & H1 & _). exists i.
    by rewrite <-(adapter_info_read _ _ _ _ H1) at 2. }
  destruct (register_adapter_eq p adp w d Ha Hd Hp) as [b' Hb]. congruence.
Qed.

Lemma get_device_hit name adp w p d :
  adp ≠ 0 → device_map_ w !! name = Some p → w_devs w !! p = Some d →
  printable adp d w →
  get_device name adp w = Ok p (w <| w_devs ::= <[p := add_adapter adp d]> |>).
Proof.
  intros Ha Hm Hd Hi. unfold get_device. rewrite (proj2 (Z.eqb_neq _ _) Ha). cbn.
  unfold mbind, M_bind, gets, mret, M_ret. rewrite Hm.
  destruct (register_adapter_eq p adp w d Ha Hd Hi) as [b Hb]. by rewrite Hb.
Qed.
Lemma get_device_hit_inv name adp w p d q w' :
  device_map_ w !! name = Some p → w_devs w !! p = Some d →
  get_device name adp w = Ok q w' →
  adp ≠ 0 ∧ q = p ∧ w' = w <| w_devs ::= <[p := add_adapter adp d]> |>.
Proof.
  intros Hm Hd H. unfold get_device in H. wstep H as ? w1 H1.
  apply negb_true_iff, Z.eqb_neq in H1. wstep H as ? w2 H2. rewrite Hm, bind_ret in H.
  apply bind_inv in H as (b & w3 & H3 & H). pinv H.
  by rewrite (register_adapter_inv _ _ _ _ _ _ H1 Hd H3).
Qed.

Lemma get_device_miss name adp w p w' :
  device_map_ w !! name = None → get_device name adp w = Ok p w' →
  adp ≠ 0 ∧ p = w_next w ∧ w_next w' = Z.succ (w_next w) ∧
  device_map_ w' = <[name := p]> (device_map_ w) ∧
  ∃ d, w_devs w' = <[p := add_adapter adp d]> (w_devs w) ∧ device_ok d ∧
       reg_cqs_ d = ∅ ∧ adapter_set_ d = ∅ ∧ (name ≠ "" → dev_name_ d = name).
Proof.
  intros Hm H. unfold get_device in H. wstep H as ? w1 H1.
  apply negb_true_iff, Z.eqb_neq in H1. wstep H as ? w2 H2. rewrite Hm in H.
  wstep H as dev w3 H3. wstep H3 as dev' w4 H4. wstep H3 as ? w5 H5. pinv H3.
  apply RDMADevice_ctor_inv in H4 as (-> & Hn & Hmap & d & Hd & Hok & Hcq & Has & Hname).
  apply bind_inv in H as (b & w6 & H6 & H). pinv H.
  destruct (register_adapter_eq (w_next w) adp
    (w4 <| device_map_ ::= <[name := w_next w]> |>) d H1) as [b' Hb].
  { cbn. rewrite Hd. apply lookup_insert_eq. }
  { intros Hin. by rewrite Has in Hin. }
  rewrite Hb in H6. injection H6 as _ <-. cbn.
  rewrite Hmap, Hd, insert_insert_eq. split_and!; try done. by exists d.
Qed.

(** A run of [get_device] in either case. *)
Lemma get_device_inv name adp w p w' :
  registry_wf w → get_device name adp w = Ok p w' →
  adp ≠ 0 ∧ device_map_ w' = <[name := p]> (device_map_ w) ∧
  w_next w ≤ w_next w' ∧ (p < w_next w') ∧
  ∃ d, w_devs w' = <[p := add_adapter adp d]> (w_devs w) ∧ device_ok d ∧
       (name ≠ "" → dev_name_ d = name) ∧
       (∀ d0, w_devs w !! p = Some d0 → device_map_ w !! name = Some p ∧ d = d0).
Proof.
  intros [Hwf Hfresh] H. destruct (device_map_ w !! name) as [q|] eqn:Hm.
  - destruct (Hwf _ _ Hm) as (d & Hd & Hok & Hname).
    destruct (get_device_hit_inv _ _ _ _ _ _ _ Hm Hd H) as (Ha & <- & ->). cbn.
    split; [done|]. split; [by rewrite insert_id|]. split; [lia|].
    split; [apply Hfresh; eauto|]. exists d. split_and!; try done.
    intros d0 Hd0. split; congruence.
  - apply get_device_miss in H as (Ha & -> & Hn & Hmap & d & Hd & Hok & _ & _ & Hname); [|done].
    split; [done|]. split; [done|]. rewrite Hn. split; [lia|]. split; [lia|].
    exists d. split_and!; try done. intros d0 Hd0.
    assert (w_next w < w_next w); [|lia]. apply Hfresh. eauto.
Qed.

Lemma get_device_registry_wf name adp w p w' :
  registry_wf w → get_device name adp w = Ok p w' → registry_wf w'.
Proof.
  intros Hwf H. pose proof (get_device_inv _ _ _ _ _ Hwf H)
    as (_ & Hmap & Hn & Hp & d & Hd & Hok & Hname & Hold).
  destruct Hwf as [Hwf Hfresh]. split.
  - intros n q Hq. rewrite Hmap in Hq. rewrite Hd.
    destruct (decide (n = name)) as [->|Hne].
    + rewrite lookup_insert_eq in Hq. injection Hq as <-. rewrite lookup_insert_eq. eauto.
    + rewrite lookup_insert_ne in Hq by done.
      destruct (Hwf _ _ Hq) as (d1 & Hd1 & Hok1 & Hname1).
      destruct (decide (q = p)) as [->|Hqp].
      * rewrite lookup_insert_eq. destruct (Hold _ Hd1) as [_ ->]. eauto.
      * rewrite lookup_insert_ne by done. eauto.
  - intros q Hq. rewrite Hd in Hq. destruct (decide (q = p)) as [->|Hqp]; [done|].
    rewrite lookup_insert_ne in Hq by done. specialize (Hfresh _ Hq). lia.
Qed.

(** ** Completion queues *)

Lemma create_cq_hit this key m cb ch v w d cq :
  w_devs w !! this = Some d → reg_cqs_ d !! key = Some cq →
  create_completion_queue this key m cb ch v w = Ok cq w.
Proof.
  intros Hd Hk. unfold create_completion_queue.
  rewrite (bind_Ok _ _ _ _ _ (dev_at_eq _ _ _ Hd)). by rewrite Hk.
Qed.

Lemma create_cq_miss this key m cb ch v w cq w' d :
  w_devs w !! this = Some d → reg_cqs_ d !! key = None →
  create_completion_queue this key m cb ch v w = Ok cq w' →
  cq ≠ 0 ∧ (∃ x mm, ibv_create_cq (ib_ctx_ d) m cb ch v (w_ext w) (w_mem w) = (cq, (x, mm)) ∧
    w' = w <| w_ext := x |> <| w_mem := mm |>
           <| w_devs ::= <[this := d <| reg_cqs_ ::= <[key := cq]> |>]> |>).
Proof.
  intros Hd Hk H. unfold create_completion_queue in H.
  rewrite (bind_Ok _ _ _ _ _ (dev_at_eq _ _ _ Hd)) in H. rewrite Hk in H.
  wstep H as cq' w1 H1. wstep H as ? w2 H2. cbn in H2. same H2 Hd.
  wstep H as ? w3 H3. pinv H. apply negb_true_iff, Z.eqb_neq in H3. eauto 10.
Qed.

(** ** Memory regions *)

Lemma real_register_mem_eq this pd ptr size fl info w d :
  w_devs w !! this = Some d → pd ≠ 0 → 0 < size → ptr ≠ 0 →
  real_register_mem this pd ptr size fl info w =
    (mr ← call (ibv_reg_mr pd ptr size DEFAULT_ACCESS);
     check (bool_decide (is_Some mr)) "register mem failed" ;; mret mr) w.
Proof.
  intros Hd H1 H2 H3. unfold real_register_mem.
  rewrite (proj2 (Z.eqb_neq _ _) H1), (proj2 (Z.eqb_neq _ _) H3),
    (proj2 (Z.ltb_lt _ _) H2). cbn [negb check].
  rewrite !bind_ret. by rewrite (bind_Ok _ _ _ _ _ (dev_at_eq _ _ _ Hd)).
Qed.

Lemma query_ports_fuel fuel this i w d w' :
  w_devs w !! this = Some d → phys_port_cnt d < 255 →
  1 ≤ i ≤ phys_port_cnt d + 1 → phys_port_cnt d + 1 - i < Z.of_nat fuel →
  query_ports fuel this i w ≠ Abort OutOfFuel w'.
Proof.
  revert i w d. induction fuel as [|fuel IH]; intros i w d Hd Hc Hi Hf; [lia|].
  cbn [query_ports]. rewrite (bind_Ok _ _ _ _ _ (dev_at_eq _ _ _ Hd)).
  destruct (i <=? phys_port_cnt d) eqn:Hle; [|done].
  destruct (query_port_attr this i w) as [u w1|f w1] eqn:Hq.
  - rewrite (bind_Ok _ _ _ _ _ Hq). rewrite u8_small by lia.
    apply (query_port_attr_inv _ _ _ _ _ d) in Hq as (a & _ & Hw1); [|done].
    apply (IH _ _ (d <| ports_attrs_ ::= λ l, l ++ [a] |>)); cbn; [|lia..].
    rewrite Hw1. apply lookup_insert_eq.
  - rewrite (bind_Abort _ _ _ _ _ Hq). intros [= -> ->]. revert Hq.
    unfold query_port_attr. rewrite (bind_Ok _ _ _ _ _ (dev_at_eq _ _ _ Hd)).
    unfold call, mbind, M_bind.
    destruct (ibv_query_port _ _ _ _) as [[ret a] [x m]]. cbn.
    destruct (ret =? 0); cbn; [|done]. unfold upd_dev, mbind, M_bind, dev_at. cbn.
    rewrite Hd. cbn. by destruct (_ =? _).
Qed.
End device_lemmas.

(** ** Properties *)

Section device_properties.
Context {X : Type} `{!Platform X}.
Implicit Types w : World X.

(** C13: [get_device] keeps the registry well formed (every registered device
    is alive, has an open context and one active port record per physical
    port, and is listed under its own name), registers the returned device
    under the requested name, records the calling adapter in it, and leaves
    every other entry of the registry alone. *)
Theorem get_device_registry name adp w p w' :
  registry_wf w → get_device name adp w = Ok p w' →
  registry_wf w' ∧ device_map_ w' !! name = Some p ∧
  (∃ d, w_devs w' !! p = Some d ∧ adp ∈ adapter_set_ d ∧ device_ok d) ∧
  (∀ n, n ≠ name → device_map_ w' !! n = device_map_ w !! n).
Proof.
  intros Hwf H. split; [by eapply get_device_registry_wf|].
  apply (get_device_inv _ _ _ _ _ Hwf) in H
    as (_ & Hmap & _ & _ & d & Hd & Hok & _ & _). rewrite Hmap, Hd.
  split; [apply lookup_insert_eq|]. split.
  - eexists. rewrite lookup_insert_eq. split; [done|]. split; [|done].
    cbn. set_solver.
  - intros n Hn. by rewrite lookup_insert_ne.
Qed.

(** one [RDMADevice] per device name: a later [get_device] for the same
    name, from any adapter, returns the same object and calls neither
    libibverbs nor the system.  (An adapter that is registered already is
    named in a warning, so its name must be readable.) *)
Theorem get_device_singleton name a1 a2 w p w1 :
  registry_wf w → get_device name a1 w = Ok p w1 → a2 ≠ 0 →
  (∀ d, w_devs w1 !! p = Some d → printable a2 d w1) →
  ∃ w2, get_device name a2 w1 = Ok p w2 ∧
    w_ext w2 = w_ext w1 ∧ w_mem w2 = w_mem w1 ∧ device_map_ w2 = device_map_ w1.
Proof.
  intros Hwf H Ha Hi. apply (get_device_inv _ _ _ _ _ Hwf) in H
    as (_ & Hmap & _ & _ & d & Hd & _).
  assert (w_devs w1 !! p = Some (add_adapter a1 d)) as Hp
    by (rewrite Hd; apply lookup_insert_eq).
  eexists. split; [apply (get_device_hit name a2 w1 p (add_adapter a1 d) Ha)|done]; [|exact Hp|by apply Hi].
  rewrite Hmap. apply lookup_insert_eq.
Qed.

(** a completion queue is created once per key: after a call returned a
    queue, the key counts as created and every later request for it, whatever
    size, context or channel it asks for, gets the same queue with no effect
    on the state. *)
Theorem completion_queue_shared this key m cb ch v w cq w1 :
  create_completion_queue this key m cb ch v w = Ok cq w1 →
  has_created_cq this key w1 = Ok true w1 ∧
  ∀ m' cb' ch' v', create_completion_queue this key m' cb' ch' v' w1 = Ok cq w1.
Proof.
  intros H. assert (∃ d, w_devs w !! this = Some d) as [d Hd].
  { unfold create_completion_queue in H. wstep H as d w0 H0. eauto. }
  assert (∃ d1, w_devs w1 !! this = Some d1 ∧ reg_cqs_ d1 !! key = Some cq)
    as (d1 & Hd1 & Hk1).
  { destruct (reg_cqs_ d !! key) as [cq0|] eqn:Hk.
    - rewrite (create_cq_hit _ _ _ _ _ _ _ _ _ Hd Hk) in H. injection H as <- <-. eauto.
    - destruct (create_cq_miss _ _ _ _ _ _ _ _ _ _ Hd Hk H) as (_ & x & mm & _ & ->).
      cbn. rewrite lookup_insert_eq. eexists. split; [done|]. apply lookup_insert_eq. }
  split.
  - unfold has_created_cq. rewrite (bind_Ok _ _ _ _ _ (dev_at_eq _ _ _ Hd1)).
    rewrite Hk1. by rewrite bool_decide_true by done.
  - intros. by eapply create_cq_hit.
Qed.

(** on an initialised device [get_port_attr] returns the record of an
    active port for exactly the port numbers 1 to [phys_port_cnt]; every other
    32-bit port number ends the process instead of indexing out of range. *)
Theorem get_port_attr_bounds this w d i :
  w_devs w !! this = Some d → device_ok d → 0 ≤ i < 2^32 →
  if bool_decide (1 ≤ i ≤ phys_port_cnt d)
  then ∃ a, get_port_attr this i w = Ok a w ∧ port_state a = IBV_PORT_ACTIVE
  else get_port_attr this i w = Abort (Fatal "Invalid port index") w.
Proof.
  intros Hd (Hl & Hc & Ha & _) Hi. unfold get_port_attr.
  rewrite (bind_Ok _ _ _ _ _ (dev_at_eq _ _ _ Hd)), !u32_small by lia.
  case_bool_decide as Hb.
  - rewrite (proj2 (Z.leb_le 1 i)), (proj2 (Z.leb_le i _)) by lia. cbn [andb check].
    rewrite bind_ret.
    destruct (lookup_lt_is_Some_2 (ports_attrs_ d) (Z.to_nat (i - 1))) as [a Hat]; [lia|].
    rewrite Hat. exists a. split; [done|]. exact (proj1 (Forall_lookup _ _) Ha _ _ Hat).
  - replace ((1 <=? i) && (i <=? phys_port_cnt d)) with false; [done|].
    symmetry. apply andb_false_iff. rewrite !Z.leb_gt. lia.
Qed.

(** the port scan of [query_hardware_info] ends within its fuel on every
    device with fewer than 255 ports; on a device that reports 255 the
    eight-bit loop counter wraps to 0 and no number of iterations lets the
    loop return. *)
Theorem port_scan_termination this w d :
  w_devs w !! this = Some d → 0 ≤ phys_port_cnt d < 256 →
  (phys_port_cnt d < 255 → ∀ w', query_ports port_fuel this 1 w ≠ Abort OutOfFuel w') ∧
  (phys_port_cnt d = 255 → ∀ fuel u w', query_ports fuel this 1 w ≠ Ok u w').
Proof.
  intros Hd Hc. split.
  - intros Hlt w'. apply (query_ports_fuel _ _ _ _ d); [done|lia..|].
    unfold port_fuel. lia.
  - intros Heq fuel u w'. apply (query_ports_255 _ _ _ _ d); [done|done|lia].
Qed.

(** whatever [access_flags] a caller asks for, a successful registration
    asks libibverbs for local write, remote read and remote write (flags 7) on
    exactly the requested range; a null domain, an empty range, a null
    address or a failed registration ends the process. *)
Theorem register_mem_flags this pd ptr size fl info w mr w' :
  real_register_mem this pd ptr size fl info w = Ok mr w' →
  pd ≠ 0 ∧ 0 < size ∧ ptr ≠ 0 ∧ is_Some mr ∧
  ∃ x m, ibv_reg_mr pd ptr size 7 (w_ext w) (w_mem w) = (mr, (x, m)) ∧
    w' = w <| w_ext := x |> <| w_mem := m |>.
Proof.
  intros H. unfold real_register_mem in H.
  wstep H as ? w1 H1. wstep H as ? w2 H2. wstep H as ? w3 H3. wstep H as d w4 H4.
  wstep H as mr' w5 H5. wstep H as ? w6 H6. pinv H.
  apply negb_true_iff, Z.eqb_neq in H1. apply Z.ltb_lt in H2.
  apply negb_true_iff, Z.eqb_neq in H3. apply bool_decide_eq_true in H6. eauto 10.
Qed.

(** the cache line size recorded for a device is positive, whatever the
    system reports (0, a negative value, or an unreadable sysfs file). *)
Theorem cache_line_size_positive w c w' :
  get_cache_line_size w = Ok c w' → 0 < c.
Proof.
  intros H. unfold get_cache_line_size, DEF_CACHE_LINE_SIZE in H.
  wstep H as s w1 H1. destruct (i32 s =? 0) eqn:Hz.
  - wstep H as fp w2 H2. destruct fp as [[l|]|]; pinv H; repeat case_match; lia.
  - pinv H. case_match; lia.
Qed.
End device_properties.

(** ** Witnesses *)

Definition dev_w1 : World Sim := state_of (get_device "mlx5_0" 7 world0).

Lemma world0_registry_wf : registry_wf world0.
Proof. split; [done|]. intros p [d H]. done. Defined.

Lemma get_device_registry_witness :
  get_device "mlx5_0" 7 world0 = Ok 4096 dev_w1 ∧ registry_wf dev_w1.
Proof.
  assert (get_device "mlx5_0" 7 world0 = Ok 4096 dev_w1) as H by (vm_compute; reflexivity).
  split; [exact H|].
  exact (proj1 (get_device_registry "mlx5_0" 7 world0 4096 dev_w1 world0_registry_wf H)).
Defined.

Lemma get_device_singleton_witness :
  ∃ w2, get_device "mlx5_0" 9 dev_w1 = Ok 4096 w2 ∧ w_ext w2 = w_ext dev_w1 ∧
    w_mem w2 = w_mem dev_w1 ∧ device_map_ w2 = device_map_ dev_w1.
Proof.
  apply (get_device_singleton "mlx5_0" 7 9 world0 4096 dev_w1 world0_registry_wf).
  - vm_compute; reflexivity.
  - lia.
  - intros d Hd Hin. exfalso.
    assert ((λ d, bool_decide (9 ∈ adapter_set_ d)) <$> (w_devs dev_w1 !! 4096) = Some false)
      as E by (vm_compute; reflexivity).
    rewrite Hd in E. injection E as E. apply bool_decide_eq_false in E. exact (E Hin).
Defined.

Definition dev_w2 : World Sim :=
  state_of (create_completion_queue 4096 "cq" 16 7 0 0 dev_w1).

Lemma completion_queue_shared_witness :
  has_created_cq 4096 "cq" dev_w2 = Ok true dev_w2 ∧
  ∀ m' cb' ch' v', create_completion_queue 4096 "cq" m' cb' ch' v' dev_w2 = Ok 1 dev_w2.
Proof.
  apply (completion_queue_shared 4096 "cq" 16 7 0 0 dev_w1 1 dev_w2).
  vm_compute; reflexivity.
Defined.

Definition dev1 : RDMADevice := mkRDMADevice ∅ ∅ "mlx5_0" 91 1 [sim_port].
Definition dev_w3 : World Sim := world0 <| w_devs := {[4096 := dev1]} |>.

Lemma get_port_attr_bounds_witness :
  (∃ a, get_port_attr 4096 1 dev_w3 = Ok a dev_w3 ∧ port_state a = IBV_PORT_ACTIVE) ∧
  get_port_attr 4096 2 dev_w3 = Abort (Fatal "Invalid port index") dev_w3.
Proof.
  assert (w_devs dev_w3 !! 4096 = Some dev1) as Hd by reflexivity.
  assert (device_ok dev1) as Hok
    by (unfold device_ok; cbn; split_and!; [done..|repeat constructor|done]).
  split.
  - exact (get_port_attr_bounds 4096 dev_w3 dev1 1 Hd Hok ltac:(lia)).
  - exact (get_port_attr_bounds 4096 dev_w3 dev1 2 Hd Hok ltac:(lia)).
Defined.

Definition dev255 : RDMADevice := mkRDMADevice ∅ ∅ "big" 91 255 [].
Definition dev_w4 : World Sim := world0 <| w_devs := {[4096 := dev1]} |>.
Definition dev_w5 : World Sim := world0 <| w_devs := {[4096 := dev255]} |>.

Lemma port_scan_termination_witness :
  (∀ w', query_ports port_fuel 4096 1 dev_w4 ≠ Abort OutOfFuel w') ∧
  (∀ fuel u w', query_ports fuel 4096 1 dev_w5 ≠ Ok u w').
Proof.
  split.
  - apply (proj1 (port_scan_termination 4096 dev_w4 dev1 eq_refl ltac:(cbn; lia))). cbn; lia.
  - apply (proj2 (port_scan_termination 4096 dev_w5 dev255 eq_refl ltac:(cbn; lia))). reflexivity.
Defined.

Lemma register_mem_flags_witness :
  ∃ x m, ibv_reg_mr 5 4096 64 7 (w_ext dev_w3) (w_mem dev_w3) =
    (Some (mkIbvMr 1 1001 2001), (x, m)).
Proof.
  destruct (register_mem_flags 4096 5 4096 64 0 "buf" dev_w3 (Some (mkIbvMr 1 1001 2001))
    (state_of (real_register_mem 4096 5 4096 64 0 "buf" dev_w3)))
    as (_ & _ & _ & _ & x & m & H & _).
  - vm_compute; reflexivity.
  - exists x, m. exact H.
Defined.

Lemma cache_line_size_positive_witness : 0 < 64.
Proof.
  apply (cache_line_size_positive world0 64 (state_of (get_cache_line_size world0))).
  vm_compute; reflexivity.
Defined.
