(* ===== verification/Buffer.v ===== *)
(** * RDMABuffer (include/rdma_buffer.h, src/rdma_buffer.cc)

    Pinned memory split into equal blocks: allocation, the ring cursors
    [next]/[last], filling, and registration in a channel.  A buffer reaches its
    channel through [AdapterOps], the calls [RDMAAdapter] offers to it. *)
From S2P Require Import Prelude Words Types World Sim.

(** What a buffer asks of the adapter (channel) it is registered in. *)
Class AdapterOps (X : Type) := {
  op_register_mem : Z → Z → Z → Z → string → W X (option ibv_mr);
  op_deregister_mem : Z → option ibv_mr → string → W X bool;
  op_remove_buffer : Z → Z → W X bool
}.

(** What the adapter promises: registration returns a region, and none of the
    three calls touches a buffer object or, for [remove_buffer], memory. *)
Class AdapterLaws (X : Type) `{!AdapterOps X} : Prop := {
  register_mem_bufs c p n f i : keeps (w_bufs (X:=X)) (op_register_mem c p n f i);
  deregister_mem_bufs c m i : keeps (w_bufs (X:=X)) (op_deregister_mem c m i);
  remove_buffer_bufs c b : keeps (w_bufs (X:=X)) (op_remove_buffer c b);
  register_mem_Some c p n f i w m w' :
    op_register_mem c p n f i w = Ok m w' → is_Some m
}.

Section buffer.
Context {X : Type} `{!Platform X} `{!AdapterOps X}.

(** ** Construction *)

(** The member initialisers. *)
Definition init_members (size n : Z) (info : string) (sub : bool) : RDMABuffer :=
  {| buffer_name := info; buffer_size := u64 (size * n); data_ptr := 0;
     owned_by_channel := 0; is_initialized := false; mr_ := None;
     next_active := -1; last_active := -1; in_used := false;
     buffer_index := -1; buffer_mgr_ := []; is_sub_buffer_ := sub;
     blocks_ := n; base_buffer_ := 0 |}.

Definition get_block_size (b : RDMABuffer) : Z := u32 (Z.of_nat (length (buffer_mgr_ b))).

(** The constructor with [is_sub_buffer = true]. *)
Definition RDMABuffer_sub (size n : Z) (info : string) (base : Z) : W X Z :=
  this ← new_addr;
  set_buf this (init_members size n info true) ;;
  check (negb (base =? 0)) "error of the base buffer" ;;
  bb ← buf_at base;
  let index := i32 (get_block_size bb) in
  upd_buf this (λ b, b <| base_buffer_ := base |>
                       <| buffer_index := index |>
                       <| data_ptr := u64 (data_ptr bb + u64 (index * size)) |>
                       <| owned_by_channel := owned_by_channel bb |>
                       <| is_initialized := true |>
                       <| mr_ := mr_ bb |>) ;;
  upd_buf this (λ b, b <| is_initialized := true |>) ;;
  mret this.

(** One turn of the splitting loop. *)
Definition split_block (this size : Z) (info : string) (b_index : Z) : W X unit :=
  sub ← RDMABuffer_sub size 1 (pretty b_index +:+ "@" +:+ info) this;
  upd_buf this (λ b, b <| buffer_mgr_ ::= λ l, l ++ [sub] |>).

(** The constructor with [is_sub_buffer = false]. *)
Definition RDMABuffer_base (size n : Z) (info : string) : W X Z :=
  this ← new_addr;
  let b0 := init_members size n info false in
  set_buf this b0 ;;
  check (0 <? buffer_size b0) "The buffer should not been empty" ;;
  page ← call sysconf_pagesize;
  r ← call (posix_memalign (u64 page) (buffer_size b0));
  let '(ret, ptr) := r in
  check (ret =? 0) "posix_memalign" ;;
  upd_buf this (λ b, b <| data_ptr := ptr |>) ;;
  for_each (seqZ 0 n) (split_block this size info) ;;
  memset0 ptr size ;;
  upd_buf this (λ b, b <| base_buffer_ := this |>) ;;
  upd_buf this (λ b, b <| is_initialized := true |>) ;;
  mret this.

Definition allocate_buffer (size n : Z) (info : string) : W X Z :=
  RDMABuffer_base size n info.

(** ** Blocks *)

Definition at_ (this index : Z) : W X Z :=
  b ← buf_at this;
  check (index <? blocks_ b) "block index exceeds the maximum number of blocks" ;;
  must (buffer_mgr_ b !! Z.to_nat index) "buffer_mgr_[]".

(** [buffer_mgr_[i % blocks_]] of the base buffer; the [int] cursor is
    converted to [size_t]. *)
Definition slot (bb : RDMABuffer) (i : Z) : W X Z :=
  defined (negb (blocks_ bb =? 0)) "modulo by zero" ;;
  must (buffer_mgr_ bb !! Z.to_nat (u64 i mod blocks_ bb)) "buffer_mgr_[]".

Definition next (this : Z) : W X Z :=
  b ← buf_at this;
  let base := base_buffer_ b in
  bb ← buf_at base;
  defined (next_active bb <? INT_MAX) "signed overflow" ;;
  let i := next_active bb + 1 in
  upd_buf base (λ b, b <| next_active := i |>) ;;
  q ← slot bb i;
  upd_buf q (λ b, b <| in_used := true |>) ;;
  mret q.

Definition last (this : Z) : W X Z :=
  b ← buf_at this;
  let base := base_buffer_ b in
  bb ← buf_at base;
  defined (last_active bb <? INT_MAX) "signed overflow" ;;
  let i := last_active bb + 1 in
  upd_buf base (λ b, b <| last_active := i |>) ;;
  q ← slot bb i;
  upd_buf q (λ b, b <| in_used := false |>) ;;
  mret q.

(** ** Contents *)

Definition clear (this : Z) : W X bool :=
  b ← buf_at this;
  memset0 (data_ptr b) (buffer_size b) ;;
  mret true.

Definition fill_in (this : Z) (to_copyed_data : list Z) (data_length : Z) : W X bool :=
  b ← buf_at this;
  check (data_length <=? buffer_size b)
    "Error, the data length cannot be larger than the whole buffer size." ;;
  clear this ;;
  memcpy_in (data_ptr b) to_copyed_data data_length ;;
  mret true.

Definition security_check (this : Z) : W X bool :=
  b ← buf_at this;
  check (negb (buffer_size b =? 0)) "buffer size is 0" ;;
  check (negb (data_ptr b =? 0)) "buffer data_ptr is nullptr" ;;
  check (negb (owned_by_channel b =? 0)) "buffer owned_by_channel is nullptr" ;;
  mret true.

Definition release (this : Z) : W X bool :=
  log_fatal "release is not implemented yet".

Definition reset (this total_size : Z) (buffer_info : string) : W X bool :=
  upd_buf this (λ b, b <| buffer_name := buffer_info |>) ;;
  check (0 <? total_size) "The buffer should not been empty" ;;
  log_fatal "reset is not implemented yet".

(** ** Registration *)

Definition register_in_channel (this ch : Z) : W X bool :=
  b ← buf_at this;
  check (negb (is_sub_buffer_ b)) "sub-buffer cannot register in channel" ;;
  upd_buf this (λ b, b <| owned_by_channel := ch |>) ;;
  mr ← op_register_mem ch (data_ptr b) (buffer_size b) 0 (buffer_name b);
  upd_buf this (λ b, b <| mr_ := mr |>) ;;
  b ← buf_at this;
  for_each (buffer_mgr_ b) (λ e,
    upd_buf e (λ eb, eb <| owned_by_channel := owned_by_channel b |>
                        <| mr_ := mr_ b |>)) ;;
  mret true.

Definition deregister_from_channel (this ch : Z) : W X bool :=
  if ch =? 0 then mret false
  else
    b ← buf_at this;
    check (negb (is_sub_buffer_ b)) "Subbuffer cannot register in channel" ;;
    check (bool_decide (is_Some (mr_ b))) "Illegal mr" ;;
    op_deregister_mem ch (mr_ b) (buffer_name b) ;;
    op_remove_buffer ch this ;;
    upd_buf this (λ b, b <| owned_by_channel := 0 |>) ;;
    upd_buf this (λ b, b <| mr_ := None |>) ;;
    mret false.

(** The destructor. *)
Definition RDMABuffer_dtor (this : Z) : W X unit :=
  b ← buf_at this;
  if is_sub_buffer_ b then mret tt
  else
    (if owned_by_channel b =? 0 then mret tt
     else deregister_from_channel this (owned_by_channel b) ;; mret tt) ;;
    for_each (buffer_mgr_ b) (λ e,
      upd_buf e (λ eb, eb <| owned_by_channel := 0 |> <| data_ptr := 0 |>
                          <| mr_ := None |> <| is_initialized := false |>)) ;;
    call (free (data_ptr b)) ;;
    upd_buf this (λ b, b <| data_ptr := 0 |> <| mr_ := None |>
                         <| is_initialized := false |>).
End buffer.

(** ** The ring of blocks *)

(** The abstract ring: its slots and the number of the last slot handed out
    ([next_active]) and given back ([last_active]). *)
Record ring := mkRing { slots : list Z; handed : Z; returned : Z }.

Definition ring_size (r : ring) : Z := Z.of_nat (length (slots r)).
Definition ring_slot (r : ring) (i : Z) : option Z :=
  slots r !! Z.to_nat (i mod ring_size r).
Definition ring_next (r : ring) : option Z * ring :=
  (ring_slot r (handed r + 1), mkRing (slots r) (handed r + 1) (returned r)).
Definition ring_last (r : ring) : option Z * ring :=
  (ring_slot r (returned r + 1), mkRing (slots r) (handed r) (returned r + 1)).

(** The slots handed out and not given back, oldest first. *)
Definition outstanding (r : ring) : list (option Z) :=
  fmap (ring_slot r) (seqZ (returned r + 1) (handed r - returned r)).

Definition ring_of (b : RDMABuffer) : ring :=
  mkRing (buffer_mgr_ b) (next_active b) (last_active b).

(** The base buffer at [p] and its blocks form a ring in state [r]. *)
Definition ring_wf (bufs : gmap Z RDMABuffer) (p : Z) (r : ring) : Prop :=
  ∃ bb, bufs !! p = Some bb ∧ ring_of bb = r ∧ base_buffer_ bb = p ∧
    blocks_ bb = ring_size r ∧ 0 < ring_size r < 2^32 ∧
    -1 ≤ handed r ≤ INT_MAX ∧ -1 ≤ returned r ≤ INT_MAX ∧
    NoDup (slots r) ∧ (p ∉ slots r) ∧
    (∀ s, s ∈ slots r → ∃ sb, bufs !! s = Some sb ∧ base_buffer_ sb = p).

Section ring_lemmas.
Context {X : Type} `{!Platform X} `{!AdapterOps X}.
Implicit Types w : World X.

Lemma ring_slot_total r i : 0 < ring_size r → ∃ s, ring_slot r i = Some s ∧ s ∈ slots r.
Proof.
  intros Hn. unfold ring_slot.
  destruct (lookup_lt_is_Some_2 (slots r) (Z.to_nat (i mod ring_size r))) as [s Hs].
  - pose proof (Z.mod_pos_bound i (ring_size r) Hn). unfold ring_size in *. lia.
  - exists s. split; [done|]. by eapply list_elem_of_lookup_2.
Qed.

Lemma slot_eq bb i s w :
  blocks_ bb = ring_size (ring_of bb) → 0 < blocks_ bb → 0 ≤ i ≤ INT_MAX →
  ring_slot (ring_of bb) i = Some s → slot bb i w = Ok s w.
Proof.
  intros Hb Hpos Hi Hs. unfold slot.
  rewrite (proj2 (Z.eqb_neq _ 0)) by lia. cbn [negb defined]. rewrite bind_ret.
  rewrite u64_small by (unfold INT_MAX in Hi; lia).
  unfold ring_slot in Hs. rewrite Hb. cbn in Hs. by rewrite Hs.
Qed.

Lemma ring_wf_blocks_update bufs p r s sb sb' :
  ring_wf bufs p r → s ∈ slots r → bufs !! s = Some sb →
  base_buffer_ sb' = base_buffer_ sb → ring_wf (<[s := sb']> bufs) p r.
Proof.
  intros (bb & Hbb & Hr & Hbase & Hn & Hsz & Hh & Hret & Hnd & Hp & Hs) Hin Hsb Heq.
  assert (s ≠ p) by (intros ->; done).
  exists bb. rewrite lookup_insert_ne by done. split_and!; try done; [lia..|].
  intros t Ht. destruct (decide (t = s)) as [->|Hne].
  - rewrite lookup_insert_eq. eexists. split; [done|]. rewrite Heq.
    destruct (Hs _ Ht) as (sb0 & Hsb0 & Hb0). congruence.
  - rewrite lookup_insert_ne by done. auto.
Qed.

Lemma ring_wf_cursor_update bufs p r bb bb' r' :
  ring_wf bufs p r → bufs !! p = Some bb → ring_of bb' = r' →
  slots r' = slots r → -1 ≤ handed r' ≤ INT_MAX → -1 ≤ returned r' ≤ INT_MAX →
  base_buffer_ bb' = base_buffer_ bb → blocks_ bb' = blocks_ bb →
  ring_wf (<[p := bb']> bufs) p r'.
Proof.
  intros (bb0 & Hbb0 & Hr & Hbase & Hn & Hsz & Hh & Hret & Hnd & Hp & Hs) Hbb Hr' Hsl
    Hh' Hret' Hb Hbl. same Hbb0 Hbb.
  exists bb'. rewrite lookup_insert_eq. unfold ring_size in *. rewrite !Hsl.
  split_and!; try done; try lia; try congruence.
  intros t Ht. assert (t ≠ p) by (intros ->; done).
  rewrite lookup_insert_ne by done. auto.
Qed.

(** A handle on a ring: the base buffer or one of its blocks. *)
Lemma ring_handle bufs p r q :
  ring_wf bufs p r → q = p ∨ q ∈ slots r → ∃ b, bufs !! q = Some b ∧ base_buffer_ b = p.
Proof.
  intros (bb & Hbb & Hr & Hbase & _ & _ & _ & _ & _ & _ & Hs) [->|Hq]; eauto.
Qed.

Lemma next_refines q p r w :
  ring_wf (w_bufs w) p r → q = p ∨ q ∈ slots r → handed r < INT_MAX →
  ∃ s w', next q w = Ok s w' ∧ (ring_next r).1 = Some s ∧ s ∈ slots r ∧
    ring_wf (w_bufs w') p (ring_next r).2 ∧
    (∃ sb, w_bufs w' !! s = Some sb ∧ in_used sb = true) ∧ w_mem w' = w_mem w.
Proof.
  intros Hwf Hq Hlt. destruct (ring_handle _ _ _ _ Hwf Hq) as (b & Hb & Hbase).
  pose proof Hwf as (bb & Hbb & Hr & Hbb' & Hn & Hsz & Hh & Hret & Hnd & Hp & Hs).
  destruct (ring_slot_total r (handed r + 1)) as (s & Hslot & Hin); [lia|].
  assert (handed r = next_active bb) as Hha by (by subst r).
  set (bb1 := bb <| next_active := next_active bb + 1 |>).
  assert (ring_wf (<[p := bb1]> (w_bufs w)) p (ring_next r).2) as Hwf1.
  { apply (ring_wf_cursor_update _ p r bb bb1); subst bb1 r; cbn in *; first [done|lia]. }
  destruct (Hs _ Hin) as (sb & Hsb & Hsbase). assert (s ≠ p) by (intros ->; done).
  assert (<[p := bb1]> (w_bufs w) !! s = Some sb) as Hsb1 by (by rewrite lookup_insert_ne).
  eexists s, (w <| w_bufs := <[s := sb <| in_used := true |>]> (<[p := bb1]> (w_bufs w)) |>).
  split_and!; try done.
  - unfold next. rewrite (bind_Ok _ _ _ _ _ (buf_at_eq _ _ _ Hb)), Hbase.
    rewrite (bind_Ok _ _ _ _ _ (buf_at_eq _ _ _ Hbb)).
    rewrite (proj2 (Z.ltb_lt _ _)) by lia. cbn [defined]. rewrite bind_ret. cbv zeta.
    rewrite (bind_Ok _ _ _ _ _ (upd_buf_eq _ _ _ _ Hbb)).
    rewrite (bind_Ok _ _ _ s _ (slot_eq bb (next_active bb + 1) s _ ltac:(congruence)
      ltac:(lia) ltac:(lia) ltac:(congruence))).
    by erewrite bind_Ok by (apply upd_buf_eq; exact Hsb1).
  - cbn [w_bufs]. eapply ring_wf_blocks_update; [exact Hwf1|done|exact Hsb1|done].
  - exists (sb <| in_used := true |>). split; [apply lookup_insert_eq|done].
Qed.

Lemma last_refines q p r w :
  ring_wf (w_bufs w) p r → q = p ∨ q ∈ slots r → returned r < INT_MAX →
  ∃ s w', last q w = Ok s w' ∧ (ring_last r).1 = Some s ∧ s ∈ slots r ∧
    ring_wf (w_bufs w') p (ring_last r).2 ∧
    (∃ sb, w_bufs w' !! s = Some sb ∧ in_used sb = false) ∧ w_mem w' = w_mem w.
Proof.
  intros Hwf Hq Hlt. destruct (ring_handle _ _ _ _ Hwf Hq) as (b & Hb & Hbase).
  pose proof Hwf as (bb & Hbb & Hr & Hbb' & Hn & Hsz & Hh & Hret & Hnd & Hp & Hs).
  destruct (ring_slot_total r (returned r + 1)) as (s & Hslot & Hin); [lia|].
  assert (returned r = last_active bb) as Hha by (by subst r).
  set (bb1 := bb <| last_active := last_active bb + 1 |>).
  assert (ring_wf (<[p := bb1]> (w_bufs w)) p (ring_last r).2) as Hwf1.
  { apply (ring_wf_cursor_update _ p r bb bb1); subst bb1 r; cbn in *; first [done|lia]. }
  destruct (Hs _ Hin) as (sb & Hsb & Hsbase). assert (s ≠ p) by (intros ->; done).
  assert (<[p := bb1]> (w_bufs w) !! s = Some sb) as Hsb1 by (by rewrite lookup_insert_ne).
  eexists s, (w <| w_bufs := <[s := sb <| in_used := false |>]> (<[p := bb1]> (w_bufs w)) |>).
  split_and!; try done.
  - unfold last. rewrite (bind_Ok _ _ _ _ _ (buf_at_eq _ _ _ Hb)), Hbase.
    rewrite (bind_Ok _ _ _ _ _ (buf_at_eq _ _ _ Hbb)).
    rewrite (proj2 (Z.ltb_lt _ _)) by lia. cbn [defined]. rewrite bind_ret. cbv zeta.
    rewrite (bind_Ok _ _ _ _ _ (upd_buf_eq _ _ _ _ Hbb)).
    rewrite (bind_Ok _ _ _ s _ (slot_eq bb (last_active bb + 1) s _ ltac:(congruence)
      ltac:(lia) ltac:(lia) ltac:(congruence))).
    by erewrite bind_Ok by (apply upd_buf_eq; exact Hsb1).
  - cbn [w_bufs]. eapply ring_wf_blocks_update; [exact Hwf1|done|exact Hsb1|done].
  - exists (sb <| in_used := false |>). split; [apply lookup_insert_eq|done].
Qed.

Lemma next_overflow q p r w :
  ring_wf (w_bufs w) p r → q = p ∨ q ∈ slots r → handed r = INT_MAX →
  next q w = Abort (UB "signed overflow") w.
Proof.
  intros Hwf Hq Heq. destruct (ring_handle _ _ _ _ Hwf Hq) as (b & Hb & Hbase).
  destruct Hwf as (bb & Hbb & Hr & _). unfold next.
  rewrite (bind_Ok _ _ _ _ _ (buf_at_eq _ _ _ Hb)), Hbase.
  rewrite (bind_Ok _ _ _ _ _ (buf_at_eq _ _ _ Hbb)).
  assert (next_active bb = INT_MAX) as -> by (by subst r). done.
Qed.

(** Two cursor values less than a turn apart name different slots. *)
Lemma ring_slot_inj r i j s :
  NoDup (slots r) → 0 < ring_size r → i < j < i + ring_size r →
  ring_slot r i = Some s → ring_slot r j = Some s → False.
Proof.
  intros Hnd Hn Hij Hi Hj. unfold ring_slot in *.
  pose proof (NoDup_lookup _ _ _ _ Hnd Hi Hj) as Heq.
  pose proof (Z.mod_pos_bound i _ Hn). pose proof (Z.mod_pos_bound j _ Hn).
  assert ((j - i) mod ring_size r = 0) as Hz.
  { rewrite Zminus_mod. replace (j mod ring_size r) with (i mod ring_size r) by lia.
    by rewrite Z.sub_diag. }
  rewrite Z.mod_small in Hz; lia.
Qed.

(** [k] calls of [next] through the same handle. *)
Fixpoint take_blocks (k : nat) (q : Z) : W X (list Z) :=
  match k with
  | O => mret []
  | S k => s ← next q; l ← take_blocks k q; mret (s :: l)
  end.

Lemma take_blocks_refines k q p r w :
  ring_wf (w_bufs w) p r → q = p ∨ q ∈ slots r → handed r + Z.of_nat k ≤ INT_MAX →
  ∃ l w', take_blocks k q w = Ok l w' ∧
    Some <$> l = ring_slot r <$> seqZ (handed r + 1) (Z.of_nat k) ∧
    ring_wf (w_bufs w') p (mkRing (slots r) (handed r + Z.of_nat k) (returned r)).
Proof.
  revert r w. induction k as [|k IH]; intros r w Hwf Hq Hk.
  - exists [], w. rewrite Z.add_0_r. split; [done|]. split; [done|]. by destruct r.
  - destruct (next_refines q p r w Hwf Hq ltac:(lia))
      as (s & w1 & H1 & Hs & Hin & Hwf1 & _ & _).
    destruct (IH _ _ Hwf1 Hq ltac:(cbn; lia)) as (l & w2 & H2 & Hl & Hwf2).
    exists (s :: l), w2. split_and!.
    + cbn [take_blocks]. rewrite (bind_Ok _ _ _ _ _ H1), (bind_Ok _ _ _ _ _ H2). done.
    + rewrite (seqZ_cons (handed r + 1)) by lia. cbn [fmap list_fmap]. f_equal; [done|].
      replace (Z.succ (handed r + 1)) with (handed r + 1 + 1) by lia.
      replace (Z.pred (Z.of_nat (S k))) with (Z.of_nat k) by lia. exact Hl.
    + replace (handed r + Z.of_nat (S k)) with (handed r + 1 + Z.of_nat k) by lia. done.
Qed.
End ring_lemmas.

(** ** Allocation *)

(** Block number [i] of the base buffer [bb] at [p]. *)
Definition block_at (bb : RDMABuffer) (p size : Z) (info : string) (i : Z) : RDMABuffer :=
  {| buffer_name := pretty i +:+ "@" +:+ info; buffer_size := size;
     data_ptr := u64 (data_ptr bb + u64 (i * size));
     owned_by_channel := owned_by_channel bb; is_initialized := true;
     mr_ := mr_ bb; next_active := -1; last_active := -1; in_used := false;
     buffer_index := i; buffer_mgr_ := []; is_sub_buffer_ := true;
     blocks_ := 1; base_buffer_ := p |}.

Section allocation_lemmas.
Context {X : Type} `{!Platform X} `{!AdapterOps X}.
Implicit Types w : World X.

Definition add_blocks (bb : RDMABuffer) (l : list Z) : RDMABuffer :=
  bb <| buffer_mgr_ ::= λ m, m ++ l |>.

Lemma split_block_eq p size info i w bb :
  w_bufs w !! p = Some bb → p ≠ 0 → p < w_next w → 0 ≤ size < 2^64 →
  Z.of_nat (length (buffer_mgr_ bb)) = i → i < 2^31 →
  split_block p size info i w =
    Ok tt (w <| w_next ::= Z.succ |>
             <| w_bufs := <[p := add_blocks bb [w_next w]]>
                            (<[w_next w := block_at bb p size info i]> (w_bufs w)) |>).
Proof.
  intros Hbb Hp Hlt Hsz Hi Hmax. unfold split_block, RDMABuffer_sub.
  rewrite bind_assoc. erewrite bind_Ok by reflexivity. cbn beta.
  rewrite bind_assoc. erewrite bind_Ok by reflexivity. cbn beta.
  rewrite bind_assoc, (proj2 (Z.eqb_neq _ _) Hp). cbn [negb check]. rewrite bind_ret.
  rewrite bind_assoc. erewrite bind_Ok by
    (apply buf_at_eq; cbn; rewrite lookup_insert_ne by lia; exact Hbb). cbv zeta.
  unfold get_block_size. rewrite u32_small, i32_small, Hi by lia.
  rewrite bind_assoc. erewrite bind_Ok by (apply upd_buf_eq; cbn; apply lookup_insert_eq).
  rewrite bind_assoc. erewrite bind_Ok by (apply upd_buf_eq; cbn; apply lookup_insert_eq).
  rewrite bind_ret. erewrite upd_buf_eq; cycle 1.
  { cbn. rewrite !lookup_insert_ne by lia. exact Hbb. }
  cbn. rewrite !insert_insert_eq. unfold block_at, init_members. cbn.
  rewrite Z.mul_1_r, u64_small by done. done.
Qed.

Lemma split_blocks_eq k p size info i w bb :
  w_bufs w !! p = Some bb → p ≠ 0 → p < w_next w → 0 ≤ size < 2^64 →
  Z.of_nat (length (buffer_mgr_ bb)) = i → i + Z.of_nat k ≤ 2^31 →
  ∃ bufs, for_each (seqZ i (Z.of_nat k)) (split_block p size info) w =
      Ok tt (w <| w_next := w_next w + Z.of_nat k |> <| w_bufs := bufs |>) ∧
    bufs !! p = Some (add_blocks bb (seqZ (w_next w) (Z.of_nat k))) ∧
    (∀ j, 0 ≤ j < Z.of_nat k →
      bufs !! (w_next w + j) = Some (block_at bb p size info (i + j))) ∧
    (∀ a, a ≠ p → ¬ (w_next w ≤ a < w_next w + Z.of_nat k) → bufs !! a = w_bufs w !! a).
Proof.
  revert i w bb. induction k as [|k IH]; intros i w bb Hbb Hp Hlt Hsz Hi Hmax.
  { exists (w_bufs w). split; [cbn; rewrite Z.add_0_r; by destruct w|].
    split; [rewrite Hbb; unfold add_blocks; cbn; rewrite app_nil_r; by destruct bb|].
    split; [lia|done]. }
  rewrite seqZ_cons by lia. cbn [for_each].
  rewrite (bind_Ok _ _ _ _ _ (split_block_eq p size info i w bb Hbb Hp Hlt Hsz Hi ltac:(lia))).
  set (w1 := w <| w_next ::= Z.succ |> <| w_bufs := _ |>).
  destruct (IH (Z.succ i) w1 (add_blocks bb [w_next w])) as (bufs & Hrun & H1 & H2 & H3).
  - subst w1. cbn. apply lookup_insert_eq.
  - done.
  - subst w1. cbn. lia.
  - done.
  - unfold add_blocks. cbn. rewrite length_app. cbn. lia.
  - lia.
  - exists bufs. replace (Z.pred (Z.of_nat (S k))) with (Z.of_nat k) by lia.
    split.
    { rewrite Hrun. subst w1. cbn. do 2 f_equal. lia. }
    subst w1. cbn in H1, H2, H3. split_and!.
    + rewrite H1. unfold add_blocks. cbn. rewrite <-app_assoc. do 2 f_equal.
      rewrite (seqZ_cons _ (Z.of_nat (S k))) by lia. cbn. do 3 f_equal. lia.
    + intros j Hj. destruct (decide (j = 0)) as [->|Hne].
      * rewrite Z.add_0_r, H3 by lia. rewrite lookup_insert_ne by lia.
        rewrite lookup_insert_eq, Z.add_0_r. done.
      * specialize (H2 (j - 1) ltac:(lia)).
        replace (Z.succ (w_next w) + (j - 1)) with (w_next w + j) in H2 by lia.
        rewrite H2. replace (Z.succ i + (j - 1)) with (i + j) by lia. done.
    + intros a Ha Hr. rewrite H3 by lia. rewrite !lookup_insert_ne by lia. done.
Qed.

(** The base buffer [allocate_buffer] leaves at [p] over the range at [ptr]. *)
Definition base_at (p ptr size n : Z) (info : string) : RDMABuffer :=
  {| buffer_name := info; buffer_size := size * n; data_ptr := ptr;
     owned_by_channel := 0; is_initialized := true; mr_ := None;
     next_active := -1; last_active := -1; in_used := false;
     buffer_index := -1; buffer_mgr_ := seqZ (p + 1) n; is_sub_buffer_ := false;
     blocks_ := n; base_buffer_ := p |}.

Lemma allocate_inv `{!MemalignLaws X} size n info w p w' :
  0 ≤ size → 0 ≤ n < 2^31 → size * n < 2^64 → 0 < w_next w →
  allocate_buffer size n info w = Ok p w' →
  p = w_next w ∧ w_next w' = p + 1 + n ∧ 0 < size * n ∧
  ∃ ptr x m x1 m1 page, 
    posix_memalign page (size * n) x m = ((0, ptr), (x1, m1)) ∧
    0 < ptr ∧ ptr + size * n ≤ 2^64 ∧ w_mem w' = mem_write ptr (zeros size) m1 ∧
    w_bufs w' !! p = Some (base_at p ptr size n info) ∧
    (∀ i, 0 ≤ i < n → w_bufs w' !! (p + 1 + i) =
       Some (block_at (base_at p ptr size n info) p size info i)) ∧
    (∀ a, ¬ (p ≤ a < p + 1 + n) → w_bufs w' !! a = w_bufs w !! a).
Proof.
  intros Hsize Hn Hov Hnx H. unfold allocate_buffer, RDMABuffer_base in H.
  apply bind_inv in H as (p0 & w1 & [= <- <-] & H). cbv zeta in H.
  set (b0 := init_members size n info false) in *.
  assert (buffer_size b0 = size * n) as Hb0 by (subst b0; cbn; apply u64_small; lia).
  rewrite Hb0 in H. wstep H as ? w1 H1. wstep H as ? w2 H2. apply Z.ltb_lt in H2.
  wstep H as page w3 H3. wstep H as [ret ptr] w4 H4. wstep H as ? w5 H5.
  apply Z.eqb_eq in H5 as ->.
  destruct (memalign_spec _ _ _ _ _ _ _ H2 H4) as (Hptr & Htop & _ & Hfresh & Hframe).
  wstep H as ? w6 H6. cbn in H6. rewrite lookup_insert_eq in H6. injection H6 as <-.
  apply bind_inv in H as (? & w7 & H7 & H).
  set (w6 := _ <| w_bufs ::= <[w_next w := b0 <| data_ptr := ptr |>]> |>) in H7.
  destruct (split_blocks_eq (Z.to_nat n) (w_next w) size info 0 w6 (b0 <| data_ptr := ptr |>))
    as (bufs & Hrun & Hb1 & Hb2 & Hb3); try (subst w6 b0; cbn; lia).
  { subst w6. cbn. apply lookup_insert_eq. }
  { split; [lia|]. assert (n ≠ 0) by nia.
    assert (size * 1 ≤ size * n) by (apply Z.mul_le_mono_nonneg_l; lia). lia. }
  rewrite Z2Nat.id in * by lia. rewrite Hrun in H7. injection H7 as _ <-.
  apply bind_inv in H as (? & w8 & H8 & H). unfold memset0 in H8.
  destruct (mem_allocated _ _ _); [|done]. injection H8 as _ <-.
  wstep H as ? w9 H9. cbn in H9. same H9 Hb1.
  wstep H as ? w10 H10. cbn in H10. rewrite lookup_insert_eq in H10. injection H10 as <-.
  pinv H. cbn. rewrite insert_insert_eq.
  subst w6. cbn in Hb2, Hb3. cbn.
  split; [done|]. split; [lia|]. split; [lia|].
  eexists ptr, _, _, _, _, _. split; [exact H4|]. split; [done|]. split; [done|].
  split; [done|]. split.
  - rewrite lookup_insert_eq. unfold base_at, add_blocks. subst b0. cbn in Hb0 |- *.
    rewrite Hb0. done.
  - split.
    + intros i Hi. rewrite lookup_insert_ne by lia.
      replace (w_next w + 1 + i) with (Z.succ (w_next w) + i) by lia.
      rewrite Hb2 by lia. done.
    + intros a Ha. rewrite lookup_insert_ne by lia. rewrite Hb3 by lia.
      rewrite lookup_insert_ne by lia. by rewrite lookup_insert_ne by lia.
Qed.

Lemma base_ring_wf bufs p ptr size n info :
  0 < n < 2^31 → bufs !! p = Some (base_at p ptr size n info) →
  (∀ i, 0 ≤ i < n → bufs !! (p + 1 + i) =
     Some (block_at (base_at p ptr size n info) p size info i)) →
  ring_wf bufs p (mkRing (seqZ (p + 1) n) (-1) (-1)).
Proof.
  intros Hn Hp Hi. exists (base_at p ptr size n info). unfold ring_size, INT_MAX. cbn.
  rewrite length_seqZ. split_and!; try done; try lia.
  - apply NoDup_seqZ.
  - rewrite elem_of_seqZ. lia.
  - intros s Hs. apply elem_of_seqZ in Hs. specialize (Hi (s - (p + 1)) ltac:(lia)).
    replace (p + 1 + (s - (p + 1))) with s in Hi by lia. eauto.
Qed.

(** ** Updating every block *)

Lemma for_each_upd_eq (l : list Z) (f : RDMABuffer → RDMABuffer) w :
  NoDup l → (∀ s, s ∈ l → is_Some (w_bufs w !! s)) →
  ∃ bufs, for_each l (λ e, upd_buf e f) w = Ok tt (w <| w_bufs := bufs |>) ∧
    (∀ s, s ∈ l → bufs !! s = f <$> w_bufs w !! s) ∧
    (∀ s, s ∉ l → bufs !! s = w_bufs w !! s).
Proof.
  intros Hnd. revert w. induction Hnd as [|s l Hs Hnd IH]; intros w Hal.
  - exists (w_bufs w). split; [by destruct w|]. split; [set_solver|done].
  - destruct (Hal s) as [sb Hsb]; [set_solver|]. cbn [for_each].
    rewrite (bind_Ok _ _ _ _ _ (upd_buf_eq _ _ _ _ Hsb)).
    destruct (IH (w <| w_bufs ::= <[s := f sb]> |>)) as (bufs & Hrun & H1 & H2).
    { intros t Ht. cbn. rewrite lookup_insert_ne by (intros ->; done).
      apply Hal. by right. }
    exists bufs. split; [by rewrite Hrun|]. cbn in H1, H2. split.
    + intros t Ht. destruct (decide (t = s)) as [->|Hne].
      * rewrite H2 by done. by rewrite lookup_insert_eq, Hsb.
      * apply elem_of_cons in Ht as [->|Ht]; [done|]. rewrite H1 by done.
        by rewrite lookup_insert_ne.
    + intros t [Hne Ht]%not_elem_of_cons. rewrite H2 by done.
      by rewrite lookup_insert_ne.
Qed.
End allocation_lemmas.

(** ** Registration *)

(** A buffer object that points to channel [ch] and region [mr]. *)
Definition registered (ch : Z) (mr : option ibv_mr) (b : RDMABuffer) : RDMABuffer :=
  b <| owned_by_channel := ch |> <| mr_ := mr |>.

Section registration_lemmas.
Context {X : Type} `{!Platform X} `{!AdapterOps X} `{!AdapterLaws X}.
Implicit Types w : World X.

Lemma register_in_channel_inv p r ch b w u w1 :
  ring_wf (w_bufs w) p r → w_bufs w !! p = Some b →
  register_in_channel p ch w = Ok u w1 →
  ∃ mr, is_Some mr ∧ is_sub_buffer_ b = false ∧ u = true ∧
    w_bufs w1 !! p = Some (registered ch mr b) ∧
    (∀ s, s ∈ slots r → w_bufs w1 !! s = registered ch mr <$> w_bufs w !! s).
Proof.
  intros Hwf Hb Hr. unfold register_in_channel in Hr.
  destruct Hwf as (bb & Hbb & Hring & _ & _ & _ & _ & _ & Hnd & Hp & Hs).
  same Hbb Hb.
  wstep Hr as ? wa H1. same H1 Hb. wstep Hr as ? wb H2. apply negb_true_iff in H2.
  wstep Hr as ? wc H3. same H3 Hb.
  apply bind_inv in Hr as (mr & wd & H4 & Hr).
  pose proof (register_mem_bufs _ _ _ _ _ _ _ _ H4) as Hbufs.
  apply register_mem_Some in H4. cbn in Hbufs.
  wstep Hr as ? we H5. rewrite Hbufs, lookup_insert_eq in H5. injection H5 as <-.
  wstep Hr as b' wf H6. cbn in H6. rewrite Hbufs, lookup_insert_eq in H6. injection H6 as <-.
  apply bind_inv in Hr as (? & wg & H7 & Hr). cbn in H7.
  assert (buffer_mgr_ b = slots r) as Hsl by (by rewrite <-Hring). rewrite Hsl in H7.
  edestruct (for_each_upd_eq (X:=X) (slots r)) as (bufs & Hrun & Hin & Hout);
    [done| |rewrite Hrun in H7; injection H7 as _ <-].
  { intros s Hss. cbn. rewrite Hbufs, insert_insert_eq.
    rewrite lookup_insert_ne by (intros ->; done).
    destruct (Hs _ Hss) as (sb & -> & _). done. }
  pinv Hr. cbn in Hin, Hout. rewrite Hbufs, insert_insert_eq in Hin, Hout.
  specialize (Hout p Hp). rewrite lookup_insert_eq in Hout.
  exists mr. split; [done|]. split; [done|]. split; [done|].
  split; [cbn; by rewrite Hout, <-Hsl|].
  intros s Hss. cbn. rewrite Hin by done. by rewrite lookup_insert_ne by (intros ->; done).
Qed.

Lemma deregister_from_channel_inv p ch b w v w2 :
  deregister_from_channel p ch w = Ok v w2 → ch ≠ 0 → w_bufs w !! p = Some b →
  v = false ∧ is_Some (mr_ b) ∧ w_bufs w2 = <[p := registered 0 None b]> (w_bufs w).
Proof.
  intros Hd Hch Hb. unfold deregister_from_channel in Hd.
  rewrite (proj2 (Z.eqb_neq _ _) Hch) in Hd.
  wstep Hd as b1 wh H8. same H8 Hb. wstep Hd as ? wi H9. wstep Hd as ? wj H10.
  apply bool_decide_eq_true in H10.
  apply bind_inv in Hd as (? & wk & H11 & Hd).
  apply (deregister_mem_bufs _ _ _) in H11.
  apply bind_inv in Hd as (? & wl & H12 & Hd).
  apply (remove_buffer_bufs _ _) in H12. rewrite H11 in H12. clear H11.
  wstep Hd as ? wm H13. rewrite H12 in H13. same H13 Hb.
  wstep Hd as ? wn H14. cbn in H14. rewrite lookup_insert_eq in H14. injection H14 as <-.
  pinv Hd. cbn. by rewrite H12, insert_insert_eq.
Qed.
End registration_lemmas.

(** ** Properties *)

(** Address [a] lies in the block [b]. *)
Definition in_block (b : RDMABuffer) (a : Z) : Prop :=
  data_ptr b ≤ a < data_ptr b + buffer_size b.

Section buffer_properties.
Context {X : Type} `{!Platform X} `{!AdapterOps X}.
Implicit Types w : World X.

(** C11: a successful [allocate_buffer] yields a base buffer whose blocks are
    reached by [at] under the indices 0 to [num_blocks]-1 and tile its memory:
    every byte of the buffer lies in exactly one block.  The blocks and the
    base form a ring with nothing handed out. *)
Theorem allocate_tiles `{!MemalignLaws X} size n info w p w' :
  0 ≤ size → 0 ≤ n < 2^31 → size * n < 2^64 → 0 < w_next w →
  allocate_buffer size n info w = Ok p w' →
  ∃ bb, w_bufs w' !! p = Some bb ∧ buffer_size bb = size * n ∧
    ring_wf (w_bufs w') p (mkRing (seqZ (p + 1) n) (-1) (-1)) ∧
    (∀ i, 0 ≤ i < n → at_ p i w' = Ok (p + 1 + i) w') ∧
    (∀ a, in_block bb a → ∃ i, 0 ≤ i < n ∧
      ∀ j b, 0 ≤ j < n → w_bufs w' !! (p + 1 + j) = Some b → (in_block b a ↔ j = i)).
Proof.
  intros Hs Hn Hov Hnx H.
  destruct (allocate_inv _ _ _ _ _ _ Hs Hn Hov Hnx H)
    as (Hp & _ & Hpos & ptr & x & m & x1 & m1 & pg & _ & Hptr & Htop & _ & Hbb & Hblk & _).
  assert (0 < n ∧ 0 < size) as [Hn0 Hs0] by nia.
  exists (base_at p ptr size n info). split; [done|]. split; [done|].
  split; [apply (base_ring_wf _ p ptr size n info); [lia|done..]|]. split.
  - intros i Hi. unfold at_. rewrite (bind_Ok _ _ _ _ _ (buf_at_eq _ _ _ Hbb)). cbn.
    rewrite (proj2 (Z.ltb_lt _ _)) by lia. cbn [check]. rewrite bind_ret.
    rewrite lookup_seqZ_lt by lia. cbn. unfold mret, M_ret. f_equal. lia.
  - intros a Ha. unfold in_block in Ha. cbn in Ha.
    pose proof (Z.div_mod (a - ptr) size ltac:(lia)) as Hdm.
    pose proof (Z.mod_pos_bound (a - ptr) size Hs0).
    set (i := (a - ptr) / size) in *. exists i. split; [nia|].
    intros j b Hj Hb. rewrite Hblk in Hb by done. injection Hb as <-.
    assert (0 ≤ j * size ∧ (j + 1) * size ≤ n * size) by nia.
    unfold in_block. cbn. rewrite (u64_small (j * size)) by lia.
    rewrite u64_small by lia. split; [|intros ->; lia].
    intros Hin. nia.
Qed.

(** of a fresh buffer only the first block is zeroed: every other byte
    keeps whatever [posix_memalign] left there. *)
Theorem allocate_zeroes_first_block `{!MemalignLaws X} size n info w p w' :
  0 ≤ size → 0 ≤ n < 2^31 → size * n < 2^64 → 0 < w_next w →
  allocate_buffer size n info w = Ok p w' →
  ∃ bb page x m x1 m1, w_bufs w' !! p = Some bb ∧
    posix_memalign page (size * n) x m = ((0, data_ptr bb), (x1, m1)) ∧
    ∀ a, w_mem w' !! a =
      if bool_decide (data_ptr bb ≤ a < data_ptr bb + size) then Some 0 else m1 !! a.
Proof.
  intros Hs Hn Hov Hnx H.
  destruct (allocate_inv _ _ _ _ _ _ Hs Hn Hov Hnx H)
    as (_ & _ & _ & ptr & x & m & x1 & m1 & pg & Ha & _ & _ & Hmem & Hbb & _).
  eexists _, pg, x, m, x1, m1. split; [exact Hbb|]. split; [exact Ha|].
  intros a. rewrite Hmem, mem_write_lookup. unfold zeros. rewrite length_replicate. cbn.
  rewrite Z2Nat.id by lia. case_bool_decide; [|done]. apply lookup_replicate_2. lia.
Qed.

(** C12: [next] and [last], called on the base buffer or on any of its blocks,
    implement the abstract ring: they return the slot the abstract operation
    returns, leave the ring in the state it leaves, mark the block used or
    unused and do not touch data memory, for as long as the [int] cursor does
    not overflow. *)
Theorem next_last_refine_ring q p r w :
  ring_wf (w_bufs w) p r → q = p ∨ q ∈ slots r →
  (handed r < INT_MAX → ∃ s w', next q w = Ok s w' ∧ (ring_next r).1 = Some s ∧
    ring_wf (w_bufs w') p (ring_next r).2 ∧ w_mem w' = w_mem w ∧
    ∃ sb, w_bufs w' !! s = Some sb ∧ in_used sb = true) ∧
  (returned r < INT_MAX → ∃ s w', last q w = Ok s w' ∧ (ring_last r).1 = Some s ∧
    ring_wf (w_bufs w') p (ring_last r).2 ∧ w_mem w' = w_mem w ∧
    ∃ sb, w_bufs w' !! s = Some sb ∧ in_used sb = false).
Proof.
  intros Hwf Hq. split; intros Hlt.
  - destruct (next_refines q p r w Hwf Hq Hlt) as (s & w' & ? & ? & _ & ? & ? & ?). eauto 10.
  - destruct (last_refines q p r w Hwf Hq Hlt) as (s & w' & ? & ? & _ & ? & ? & ?). eauto 10.
Qed.

(** from a fresh ring, the first [k] calls of [next] return the blocks in
    round-robin order: call number [i] returns block [i mod num_blocks]. *)
Theorem next_round_robin k q p sl w :
  ring_wf (w_bufs w) p (mkRing sl (-1) (-1)) → q = p ∨ q ∈ sl → Z.of_nat k ≤ INT_MAX →
  ∃ l w', take_blocks k q w = Ok l w' ∧ length l = k ∧
    ∀ i, (i < k)%nat → l !! i = sl !! (i mod length sl)%nat.
Proof.
  intros Hwf Hq Hk.
  destruct (take_blocks_refines k q p _ w Hwf Hq ltac:(cbn; lia)) as (l & w' & H & Hl & _).
  assert (length l = k) as Hlen.
  { apply (f_equal length) in Hl. rewrite !length_fmap, length_seqZ in Hl. lia. }
  exists l, w'. split; [done|]. split; [done|]. intros i Hi.
  assert (length sl ≠ 0)%nat as Hne.
  { destruct Hwf as (?&_&_&_&_&Hsz&_). unfold ring_size in Hsz. cbn in Hsz. lia. }
  apply (f_equal (lookup i)) in Hl. rewrite !list_lookup_fmap in Hl.
  rewrite lookup_seqZ_lt in Hl by lia. cbn in Hl. unfold ring_slot, ring_size in Hl.
  cbn in Hl. replace (-1 + 1 + Z.of_nat i) with (Z.of_nat i) in Hl by lia.
  rewrite <-Nat2Z.inj_mod, Nat2Z.id in Hl.
  destruct (lookup_lt_is_Some_2 l i ltac:(lia)) as [s Hs]. rewrite Hs in Hl |- *.
  cbn in Hl. congruence.
Qed.

(** as long as fewer blocks are outstanding than the buffer has, [next]
    hands out a block that is not outstanding. *)
Theorem next_avoids_outstanding q p r w :
  ring_wf (w_bufs w) p r → q = p ∨ q ∈ slots r → handed r < INT_MAX →
  0 ≤ handed r - returned r < ring_size r →
  ∃ s w', next q w = Ok s w' ∧ Some s ∉ outstanding r.
Proof.
  intros Hwf Hq Hlt Hout.
  destruct (next_refines q p r w Hwf Hq Hlt) as (s & w' & H & Hs & _).
  exists s, w'. split; [done|]. unfold outstanding.
  rewrite list_elem_of_fmap. intros (i & Hi & Hin). apply elem_of_seqZ in Hin.
  destruct Hwf as (bb & _ & _ & _ & _ & Hsz & _ & _ & Hnd & _).
  apply (ring_slot_inj r i (handed r + 1) s); [done|lia|lia|by symmetry|done].
Qed.

(** after 2^31 blocks have been handed out the cursor is [INT_MAX] and the
    next call of [next] overflows a signed [int]: undefined behaviour. *)
Theorem next_cursor_overflow q p r w :
  ring_wf (w_bufs w) p r → q = p ∨ q ∈ slots r → handed r = INT_MAX →
  next q w = Abort (UB "signed overflow") w.
Proof. apply next_overflow. Qed.

(** [fill_in] of at most [buffer_size] bytes puts the data at the start of
    the buffer, zeroes the rest of it and changes nothing else; more data ends
    the process before a byte is written. *)
Theorem fill_in_contents p b bs len w :
  w_bufs w !! p = Some b →
  mem_allocated (data_ptr b) (Z.to_nat (buffer_size b)) (w_mem w) = true →
  0 ≤ buffer_size b → 0 ≤ len ≤ Z.of_nat (length bs) →
  if bool_decide (len ≤ buffer_size b)
  then ∃ m, fill_in p bs len w = Ok true (w <| w_mem := m |>) ∧
    ∀ a, m !! a =
      if bool_decide (data_ptr b ≤ a < data_ptr b + len) then bs !! Z.to_nat (a - data_ptr b)
      else if bool_decide (data_ptr b ≤ a < data_ptr b + buffer_size b) then Some 0
      else w_mem w !! a
  else fill_in p bs len w = Abort (Fatal
    "Error, the data length cannot be larger than the whole buffer size.") w.
Proof.
  intros Hb Hal Hsz Hlen. unfold fill_in.
  rewrite (bind_Ok _ _ _ _ _ (buf_at_eq _ _ _ Hb)). case_bool_decide as Hfit.
  - rewrite (proj2 (Z.leb_le _ _)) by lia. cbn [check]. rewrite bind_ret.
    eexists. split.
    + erewrite bind_Ok; cycle 1.
      { unfold clear. rewrite (bind_Ok _ _ _ _ _ (buf_at_eq _ _ _ Hb)).
        unfold memset0, mbind, M_bind. rewrite Hal. reflexivity. }
      unfold memcpy_in, mbind, M_bind. cbn.
      rewrite (proj2 (Nat.leb_le _ _)) by lia. cbn [andb].
      rewrite mem_allocated_write; [reflexivity|].
      eapply mem_allocated_sub; [exact Hal|lia|lia].
    + intros a. rewrite !mem_write_lookup, length_take_le by lia.
      unfold zeros. rewrite length_replicate, !Z2Nat.id by lia.
      case_bool_decide; [rewrite lookup_take_lt by lia; done|].
      case_bool_decide; [apply lookup_replicate_2; lia|done].
  - replace (len <=? buffer_size b) with false; [done|].
    symmetry. apply Z.leb_gt. lia.
Qed.

(** registering a buffer gives the base and all its blocks the channel and
    the memory region; deregistering it resets only the base: every block
    keeps pointing to the channel and to the region that is gone. *)
Theorem deregister_leaves_blocks `{!AdapterLaws X} p r ch b w w1 w2 u v :
  ring_wf (w_bufs w) p r → w_bufs w !! p = Some b → ch ≠ 0 →
  register_in_channel p ch w = Ok u w1 →
  deregister_from_channel p ch w1 = Ok v w2 →
  ∃ mr b2, w_bufs w2 !! p = Some b2 ∧ owned_by_channel b2 = 0 ∧ mr_ b2 = None ∧
    is_Some mr ∧ v = false ∧
    ∀ s, s ∈ slots r → ∃ sb, w_bufs w2 !! s = Some sb ∧
      owned_by_channel sb = ch ∧ mr_ sb = mr.
Proof.
  intros Hwf Hb Hch Hr Hd.
  destruct (register_in_channel_inv _ _ _ _ _ _ _ Hwf Hb Hr)
    as (mr & Hmr & _ & _ & Hp1 & Hs1).
  destruct (deregister_from_channel_inv _ _ _ _ _ _ Hd Hch Hp1) as (-> & _ & Hw2).
  exists mr, (registered 0 None (registered ch mr b)). rewrite Hw2, lookup_insert_eq.
  split_and!; try done. intros s Hs.
  destruct Hwf as (bb & _ & _ & _ & _ & _ & _ & _ & _ & Hp & Hall).
  rewrite lookup_insert_ne by (intros ->; done). rewrite Hs1 by done.
  destruct (Hall _ Hs) as (sb & -> & _). by exists (registered ch mr sb).
Qed.
End buffer_properties.

(** ** Witnesses *)

(** An adapter with nothing behind it but a region number. *)
Section witnesses.
#[local] Instance test_ops : AdapterOps Sim := {
  op_register_mem _ _ _ _ _ := mret (Some (mkIbvMr 1 1001 2001));
  op_deregister_mem _ _ _ := mret true;
  op_remove_buffer _ _ := mret false
}.
#[local] Instance test_laws : AdapterLaws Sim.
Proof.
  split; intros; try apply keeps_ret.
  apply ret_inv in H as [-> _]. done.
Qed.

Definition buf_w1 : World Sim := state_of (allocate_buffer 4 3 "b" world0).
Definition buf_ring : ring := mkRing [4097; 4098; 4099] (-1) (-1).

Lemma buf_w1_run : allocate_buffer 4 3 "b" world0 = Ok 4096 buf_w1.
Proof. vm_compute. reflexivity. Qed.

Lemma buf_w1_ring : ring_wf (w_bufs buf_w1) 4096 buf_ring.
Proof.
  apply (base_ring_wf _ 4096 (2^20) 4 3 "b"); [lia|vm_compute; reflexivity|].
  intros i Hi. assert (i = 0 ∨ i = 1 ∨ i = 2) as [->|[->| ->]] by lia;
    vm_compute; reflexivity.
Qed.

Lemma allocate_tiles_witness :
  ∃ bb, w_bufs buf_w1 !! 4096 = Some bb ∧ buffer_size bb = 12 ∧
    at_ 4096 2 buf_w1 = Ok 4099 buf_w1.
Proof.
  destruct (allocate_tiles 4 3 "b" world0 4096 buf_w1 ltac:(lia) ltac:(lia) ltac:(lia)
    ltac:(cbn; lia) buf_w1_run) as (bb & H1 & H2 & _ & H3 & _).
  exists bb. split; [exact H1|]. split; [exact H2|]. exact (H3 2 ltac:(lia)).
Defined.

Lemma allocate_zeroes_first_block_witness :
  ∃ bb, w_bufs buf_w1 !! 4096 = Some bb ∧ w_mem buf_w1 !! (data_ptr bb + 3) = Some 0 ∧
    w_mem buf_w1 !! (2^20 + 4) = Some 205.
Proof.
  destruct (allocate_zeroes_first_block 4 3 "b" world0 4096 buf_w1 ltac:(lia) ltac:(lia)
    ltac:(lia) ltac:(cbn; lia) buf_w1_run) as (bb & pg & x & m & x1 & m1 & H1 & _ & H3).
  exists bb. split; [exact H1|]. split.
  - rewrite H3. by rewrite bool_decide_true by lia.
  - vm_compute. reflexivity.
Defined.

Lemma next_last_refine_ring_witness :
  ∃ s w', next 4098 buf_w1 = Ok s w' ∧ ring_slot buf_ring 0 = Some s.
Proof.
  destruct (proj1 (next_last_refine_ring 4098 4096 buf_ring buf_w1 buf_w1_ring
    ltac:(cbn; set_solver)) ltac:(cbn; unfold INT_MAX; lia)) as (s & w' & H1 & H2 & _).
  exists s, w'. split; [exact H1|exact H2].
Defined.

Lemma next_round_robin_witness :
  ∃ l w', take_blocks 5 4096 buf_w1 = Ok l w' ∧ l !! 4%nat = Some 4098.
Proof.
  destruct (next_round_robin 5 4096 4096 [4097; 4098; 4099] buf_w1 buf_w1_ring
    ltac:(by left) ltac:(unfold INT_MAX; lia)) as (l & w' & H1 & _ & H2).
  exists l, w'. split; [exact H1|]. rewrite H2 by lia. reflexivity.
Defined.

Lemma next_avoids_outstanding_witness :
  ∃ s w', next 4096 buf_w1 = Ok s w' ∧ Some s ∉ outstanding buf_ring.
Proof.
  apply (next_avoids_outstanding 4096 4096 buf_ring buf_w1 buf_w1_ring).
  - by left.
  - cbn. unfold INT_MAX. lia.
  - unfold ring_size. cbn. lia.
Defined.

Definition full_base : RDMABuffer :=
  base_at 4096 (2^20) 4 3 "b" <| next_active := INT_MAX |>.
Definition buf_w2 : World Sim := buf_w1 <| w_bufs ::= <[4096 := full_base]> |>.

Lemma next_cursor_overflow_witness :
  next 4096 buf_w2 = Abort (UB "signed overflow") buf_w2.
Proof.
  apply (next_cursor_overflow 4096 4096 (mkRing [4097; 4098; 4099] INT_MAX (-1)));
    [|by left|done].
  apply (ring_wf_cursor_update (w_bufs buf_w1) 4096 buf_ring
    (base_at 4096 (2^20) 4 3 "b") full_base); try (cbn; unfold INT_MAX; lia); try done.
  apply buf_w1_ring.
Defined.

Lemma fill_in_contents_witness :
  ∃ m, fill_in 4096 [1; 2] 2 buf_w1 = Ok true (buf_w1 <| w_mem := m |>) ∧
    m !! (2^20 + 1) = Some 2 ∧ m !! (2^20 + 11) = Some 0.
Proof.
  destruct (fill_in_contents 4096 (base_at 4096 (2^20) 4 3 "b") [1; 2] 2 buf_w1)
    as (m & H1 & H2).
  - vm_compute. reflexivity.
  - vm_compute. reflexivity.
  - cbn. lia.
  - cbn. lia.
  - exists m. split; [exact H1|]. rewrite !H2. split; reflexivity.
Defined.

Definition buf_w3 : World Sim := state_of (register_in_channel 4096 7 buf_w1).
Definition buf_w4 : World Sim := state_of (deregister_from_channel 4096 7 buf_w3).

Lemma deregister_leaves_blocks_witness :
  ∃ mr b2, w_bufs buf_w4 !! 4096 = Some b2 ∧ mr_ b2 = None ∧
    ∀ s, s ∈ [4097; 4098; 4099] → ∃ sb, w_bufs buf_w4 !! s = Some sb ∧
      owned_by_channel sb = 7 ∧ mr_ sb = mr.
Proof.
  destruct (deregister_leaves_blocks 4096 buf_ring 7 (base_at 4096 (2^20) 4 3 "b")
    buf_w1 buf_w3 buf_w4 true false buf_w1_ring)
    as (mr & b2 & H1 & _ & H2 & _ & _ & H3).
  - vm_compute. reflexivity.
  - lia.
  - vm_compute. reflexivity.
  - vm_compute. reflexivity.
  - exists mr, b2. split; [exact H1|]. split; [exact H2|]. exact H3.
Defined.
End witnesses.
