(* ===== verification/Adapter.v ===== *)
(** * RDMAAdapter (include/rdma_adapter.h, src/rdma_adapter.cc)

    The low level of an RDMA connection: allocation of its protection domain,
    completion queue and queue pair, the INIT/RTR/RTS state machine of the queue
    pair, and the posting of send, receive, read and write requests. *)
From S2P Require Import Prelude Words Types Layout World Sim Ident Device Buffer.

(** The state the constructor leaves. *)
Definition init_adapter (id : string) : RDMAAdapter :=
  {| id_ := id; vadapt_status_ := RESET; _adapter_config_ := default_AdapterConfig;
     self_ := default_AdapterInfo; remote_ := default_AdapterInfo;
     resource_is_allocated := false; rdma_device_ := 0; owning_buffers := ∅;
     sq_inflight := 0; rq_inflight := 0; indexed_by_session := -1; pd_ := 0;
     qp_ := None; qp_init_attr := zero_qp_init_attr; used_cq_ := 0;
     event_channel := 0 |}.

(** ** Attributes of the queue pair transitions *)

Definition reset_attr : ibv_qp_attr := zero_qp_attr <| qp_state := IBV_QPS_RESET |>.
Definition reset_flags : Z := IBV_QP_STATE.

Definition init_attr (a : RDMAAdapter) : ibv_qp_attr :=
  zero_qp_attr <| qp_state := IBV_QPS_INIT |>
    <| port_num := u8 (ib_port (_adapter_config_ a)) |>
    <| pkey_index := 0 |>
    <| qp_access_flags := flag_or
         [IBV_ACCESS_LOCAL_WRITE; IBV_ACCESS_REMOTE_READ; IBV_ACCESS_REMOTE_WRITE] |>.
Definition init_flags : Z :=
  flag_or [IBV_QP_STATE; IBV_QP_PKEY_INDEX; IBV_QP_PORT; IBV_QP_ACCESS_FLAGS].

(** The address vector before the RoCE branch, and in it. *)
Definition ib_ah (a : RDMAAdapter) : ibv_ah_attr :=
  zero_ah_attr <| is_global := 0 |> <| dlid := u16 (lid (remote_ a)) |>
    <| sl := 0 |> <| src_path_bits := 0 |>
    <| ah_port_num := u8 (ib_port (_adapter_config_ a)) |>.
Definition roce_ah (a : RDMAAdapter) : ibv_ah_attr :=
  ib_ah a <| is_global := 1 |> <| ah_port_num := 1 |>
    <| dgid := gid (remote_ a) |> <| flow_label := 0 |> <| hop_limit := 255 |>
    <| sgid_index := u8 (gid_index (_adapter_config_ a)) |>
    <| grh_traffic_class := u8 (traffic_class (_adapter_config_ a)) |>.
Definition rtr_attr (a : RDMAAdapter) (ah : ibv_ah_attr) : ibv_qp_attr :=
  zero_qp_attr <| qp_state := IBV_QPS_RTR |>
    <| path_mtu := used_mtu (_adapter_config_ a) |>
    <| dest_qp_num := qp_num (remote_ a) |>
    <| rq_psn := 0 |> <| max_dest_rd_atomic := 1 |> <| min_rnr_timer := 12 |>
    <| ah_attr := ah |>.
Definition rtr_flags : Z :=
  flag_or [IBV_QP_STATE; IBV_QP_AV; IBV_QP_PATH_MTU; IBV_QP_DEST_QPN; IBV_QP_RQ_PSN;
           IBV_QP_MAX_DEST_RD_ATOMIC; IBV_QP_MIN_RNR_TIMER].

Definition rts_attr : ibv_qp_attr :=
  zero_qp_attr <| qp_state := IBV_QPS_RTS |> <| timeout := 14 |>
    <| retry_cnt := 7 |> <| rnr_retry := 7 |> <| sq_psn := 0 |> <| max_rd_atomic := 1 |>.
Definition rts_flags : Z :=
  flag_or [IBV_QP_STATE; IBV_QP_TIMEOUT; IBV_QP_RETRY_CNT; IBV_QP_RNR_RETRY;
           IBV_QP_SQ_PSN; IBV_QP_MAX_QP_RD_ATOMIC].

Section adapter.
Context {X : Type} `{!Platform X}.

Definition upd_config (this : Z) (f : AdapterConfig → AdapterConfig) : W X unit :=
  upd_adapter this (λ a, a <| _adapter_config_ ::= f |>).
Definition upd_self (this : Z) (f : AdapterInfo → AdapterInfo) : W X unit :=
  upd_adapter this (λ a, a <| self_ ::= f |>).

(** ** Loading *)

Definition create_pd (this : Z) : W X unit :=
  a ← adapter_at this;
  check (pd_ a =? 0) "Protected has been instanced" ;;
  pd ← create_protected_domain (rdma_device_ a);
  upd_adapter this (λ a, a <| pd_ := pd |>).

Definition create_compt_channel (this : Z) : W X unit :=
  adapter_info this ;;
  a ← adapter_at this;
  if use_event_channel (_adapter_config_ a) then
    ec ← create_event_channel (rdma_device_ a);
    upd_adapter this (λ a, a <| event_channel := ec |>)
  else mret tt.

Definition create_cq (this : Z) : W X unit :=
  adapter_info this ;;
  a ← adapter_at this;
  let c := _adapter_config_ a in
  check (negb (bool_decide (cq_key c = ""))) "please explicitly speficy the cq_key" ;;
  if using_shared_cq c then
    check (negb (bool_decide (cq_key c = ""))) "detected the shared_cq is empty" ;;
    cq ← create_completion_queue (rdma_device_ a) (cq_key c) (i32 (cq_size c)) this
           (event_channel a) 0;
    upd_adapter this (λ a, a <| used_cq_ := cq |>)
  else
    has ← has_created_cq (rdma_device_ a) (cq_key c);
    check (negb has) "detect previous one" ;;
    cq ← create_completion_queue (rdma_device_ a) (cq_key c) (i32 (cq_size c)) this
           (event_channel a) 0;
    upd_adapter this (λ a, a <| used_cq_ := cq |>).

Definition init_attr_type (a : RDMAAdapter) : ibv_qp_init_attr :=
  zero_qp_init_attr <| qp_type := IBV_QPT_RC |>
    <| sq_sig_all := if signal_all_wqe (_adapter_config_ a) then 1 else 0 |>.
Definition build_init_attr (a : RDMAAdapter) : ibv_qp_init_attr :=
  let c := _adapter_config_ a in
  init_attr_type a
    <| send_cq := used_cq_ a |> <| recv_cq := used_cq_ a |>
    <| cap_max_send_wr := max_send_wr c |> <| cap_max_recv_wr := max_recv_wr c |>
    <| cap_max_send_sge := max_send_sge c |> <| cap_max_recv_sge := max_recv_sge c |>
    <| cap_max_inline_data := 0 |> <| srq := 0 |>.

Definition create_qp (this : Z) : W X unit :=
  upd_adapter this (λ a, a <| qp_init_attr := init_attr_type a |>) ;;
  adapter_info this ;;
  a ← adapter_at this;
  let ia := build_init_attr a in
  upd_adapter this (λ a, a <| qp_init_attr := ia |>) ;;
  check (negb (bool_decide (is_Some (qp_ a)))) "queue pair has been instanced" ;;
  qp ← create_queue_pair (rdma_device_ a) (pd_ a) ia;
  upd_adapter this (λ a, a <| qp_ := qp |>).

(** sizeof(unique_id) - 20 *)
Definition max_id_length : nat := 108.

Definition update_my_adapter_info (this : Z) : W X unit :=
  a ← adapter_at this;
  let c := _adapter_config_ a in
  let dev := rdma_device_ a in
  check (negb (dev =? 0)) "rdma_device is not initialized" ;;
  g ← query_gid dev (ib_port c) (gid_index c);
  upd_self this (λ s, s <| gid := g |>) ;;
  check (bool_decide (is_Some (qp_ a))) "QP is not initialized yet" ;;
  q ← must (qp_ a) "qp_->qp_num";
  upd_self this (λ s, s <| qp_num := u32 (ibv_qp_num q) |>) ;;
  pa ← get_port_attr dev (ib_port c);
  upd_self this (λ s, s <| link_layer := u8 (port_link_layer pa) |>) ;;
  pa ← get_port_attr dev (ib_port c);
  let mtu := port_active_mtu pa in
  upd_self this (λ s, s <| active_mtu := mtu |>) ;;
  (if i32 mtu <? i32 (used_mtu c)
   then upd_config this (λ c, c <| used_mtu := mtu |>)
   else upd_self this (λ s, s <| active_mtu := used_mtu c |>)) ;;
  pa ← get_port_attr dev (ib_port c);
  upd_self this (λ s, s <| lid := u16 (port_lid pa) |>) ;;
  i ← adapter_info this;
  check (String.length i <? max_id_length)%nat "Invalid adapter unique_id" ;;
  upd_self this (λ s, s <| unique_id := replicate 128 0 |>) ;;
  upd_self this (λ s, s <| unique_id := sprintf_into 128 i |>).

Definition get_adapter_info (this : Z) (self : bool) : W X AdapterInfo :=
  a ← adapter_at this;
  mret (if self then self_ a else remote_ a).

Definition loading (this : Z) : W X AdapterInfo :=
  a ← adapter_at this;
  if resource_is_allocated a then adapter_info this ;; mret (self_ a)
  else
    (if using_shared_cq (_adapter_config_ a)
     then check (negb (bool_decide (cq_key (_adapter_config_ a) = "")))
            "expected to use shared cq, but the cq_key is not set"
     else i ← adapter_info this; upd_config this (λ c, c <| cq_key := i |>)) ;;
    dev ← get_device (dev_name (_adapter_config_ a)) this;
    upd_adapter this (λ a, a <| rdma_device_ := dev |>) ;;
    create_pd this ;;
    create_compt_channel this ;;
    create_cq this ;;
    create_qp this ;;
    update_my_adapter_info this ;;
    upd_adapter this (λ a, a <| vadapt_status_ := RESOURCE_ALLOCATED |>) ;;
    upd_adapter this (λ a, a <| resource_is_allocated := true |>) ;;
    get_adapter_info this true.

(** ** Queue pair state machine *)

Definition show_qp_info (this : Z) : W X unit :=
  a ← adapter_at this;
  r ← get_qp_attr (rdma_device_ a) (qp_ a) (qp_init_attr a);
  upd_adapter this (λ a, a <| qp_init_attr := r.2 |>).

(** CHECK(this->qp_ != 0) *)
Definition qp_of (a : RDMAAdapter) (msg : string) : W X ibv_qp :=
  match qp_ a with Some q => mret q | None => log_fatal msg end.

Definition modify_qp_to_reset (this : Z) : W X Z :=
  a ← adapter_at this;
  q ← qp_of a "QPair are not initialized";
  call (ibv_modify_qp q reset_attr reset_flags).

Definition modify_qp_to_init (this : Z) : W X Z :=
  a ← adapter_at this;
  q ← qp_of a "QPair are not initialized";
  call (ibv_modify_qp q (init_attr a) init_flags).

Definition modify_qp_to_rtr (this : Z) : W X Z :=
  a ← adapter_at this;
  q ← qp_of a "Qpair has not been initialized";
  ah ← (if link_layer (self_ a) =? IBV_LINK_LAYER_ETHERNET then
          check (link_layer (self_ a) =? link_layer (remote_ a))
            "QP should working in the same mode" ;;
          check (0 <=? gid_index (_adapter_config_ a))
            "Running under RoCE requires to speficy the gid_index" ;;
          mret (roce_ah a)
        else mret (ib_ah a));
  call (ibv_modify_qp q (rtr_attr a ah) rtr_flags).

Definition modify_qp_to_rts (this : Z) : W X Z :=
  a ← adapter_at this;
  q ← qp_of a "Qpair has not been initialized";
  call (ibv_modify_qp q rts_attr rts_flags).

Definition reset_hca (this : Z) : W X bool :=
  modify_qp_to_reset this ;; mret false.

(** Returns the caller's structure as the assignment inside the [CHECK]
    leaves it. *)
Definition update_peer_adapter_info (this : Z) (params : AdapterInfo)
    : W X AdapterInfo :=
  upd_adapter this (λ a, a <| remote_ := params |>) ;;
  a ← adapter_at this;
  let params := params <| link_layer := link_layer (self_ a) |> in
  check (negb (link_layer params =? 0)) "params.link_layer = self_.link_layer" ;;
  mret params.

(** A "%s" of a byte array that holds no NUL reads past its end. *)
Definition terminated (bs : list Z) : bool := bool_decide (0 ∈ bs).

(** The end of [connecting]: the three transitions and the new status. *)
Definition drive_qp (this : Z) : W X bool :=
  modify_qp_to_init this ;;
  show_qp_info this ;;
  modify_qp_to_rtr this ;;
  show_qp_info this ;;
  modify_qp_to_rts this ;;
  show_qp_info this ;;
  upd_adapter this (λ a, a <| vadapt_status_ := CONNECTING |>) ;;
  mret true.

Definition connecting (this : Z) (peer : AdapterInfo) : W X bool :=
  b ← must (head (unique_id peer)) "peer.unique_id[0]";
  check (negb (b =? 0)) "Invalid remote adaper" ;;
  update_peer_adapter_info this peer ;;
  adapter_info this ;;
  a ← adapter_at this;
  defined (terminated (unique_id (remote_ a))) "remote_.unique_id is not terminated" ;;
  defined (terminated (unique_id (self_ a))) "self_.unique_id is not terminated" ;;
  drive_qp this.

(** ** Memory regions *)

Definition register_mem (this ptr size flags : Z) (info : string)
    : W X (option ibv_mr) :=
  a ← adapter_at this;
  real_register_mem (rdma_device_ a) (pd_ a) ptr size flags info.

Definition deregister_mem (this : Z) (mr : option ibv_mr) (info : string) : W X bool :=
  a ← adapter_at this;
  real_deregister_mem (rdma_device_ a) mr info.

(** ** Requests in flight *)

Definition count64 (n d : Z) : W X Z :=
  defined ((INT64_MIN <=? n + d) && (n + d <=? INT64_MAX)) "signed overflow" ;;
  mret (n + d).
Definition increase_sqe (this : Z) : W X unit :=
  a ← adapter_at this; n ← count64 (sq_inflight a) 1;
  upd_adapter this (λ a, a <| sq_inflight := n |>).
Definition increase_rqe (this : Z) : W X unit :=
  a ← adapter_at this; n ← count64 (rq_inflight a) 1;
  upd_adapter this (λ a, a <| rq_inflight := n |>).
Definition decrease_sqe (this : Z) : W X unit :=
  a ← adapter_at this; n ← count64 (sq_inflight a) (-1);
  upd_adapter this (λ a, a <| sq_inflight := n |>).
Definition decrease_rqe (this : Z) : W X unit :=
  a ← adapter_at this; n ← count64 (rq_inflight a) (-1);
  upd_adapter this (λ a, a <| rq_inflight := n |>).

(** ** Communication *)

Definition send_remote (this buffer len msg_tag : Z) : W X bool :=
  let len := u32 len in
  check (negb (buffer =? 0)) "RDMABuffer has not been initialized" ;;
  security_check buffer ;;
  b ← buf_at buffer;
  check (len <=? buffer_size b) "Invalid data length to send" ;;
  increase_sqe this ;;
  a ← adapter_at this;
  real_send_ (qp_ a) (mr_ b) (data_ptr b) len (u32 msg_tag) this.

Definition recv_remote (this buffer len : Z) : W X bool :=
  let len := u32 len in
  check (negb (buffer =? 0)) "RDMABuffer has not been initialized" ;;
  security_check buffer ;;
  b ← buf_at buffer;
  check (len <=? buffer_size b) "Invalid data length to recv" ;;
  increase_rqe this ;;
  a ← adapter_at this;
  real_recv_ (qp_ a) (mr_ b) (data_ptr b) len this.

Definition read_remote (this buffer len : Z) (desc : option CommDescriptor) : W X bool :=
  let len := u32 len in
  check (negb (buffer =? 0)) "RDMABuffer has not been initialized" ;;
  security_check buffer ;;
  b ← buf_at buffer;
  check (len <=? buffer_size b) "Invalid data length to read" ;;
  d ← must desc "remote_buffer_descriptor";
  check (len <=? buffer_length_ d) "Invalid data length to read" ;;
  increase_sqe this ;;
  a ← adapter_at this;
  m ← must (mr_ b) "buffer->mr_->lkey";
  real_read_remote_ (qp_ a) (rkey_ d) (mr_lkey m) (data_ptr b) (buffer_addr_ d) len this.

Definition write_remote (this buffer len : Z) (desc : option CommDescriptor)
    (msg_tag : Z) (notify_peer : bool) : W X bool :=
  let len := u32 len in
  check (negb (buffer =? 0)) "RDMABuffer has not been initialized" ;;
  security_check buffer ;;
  b ← buf_at buffer;
  d ← must desc "remote_buffer_descriptor";
  check ((len <=? buffer_size b) && (len <=? buffer_length_ d))
    "Invalid data length to write" ;;
  increase_sqe this ;;
  a ← adapter_at this;
  m ← must (mr_ b) "buffer->mr_->lkey";
  if notify_peer
  then real_write_remote_with_notify_ (qp_ a) (rkey_ d) (mr_lkey m) (data_ptr b)
         (buffer_addr_ d) len (u32 msg_tag) this
  else real_write_remote_ (qp_ a) (rkey_ d) (mr_lkey m) (data_ptr b)
         (buffer_addr_ d) len this.

Definition poll_cq_batch (this num_wqe : Z) : W X (Z * list ibv_wc) :=
  a ← adapter_at this;
  real_poll_completion_queue (used_cq_ a) num_wqe.
End adapter.

(** ** Lemmas *)

(** The path MTU both ends settle on: the configured one, or the port's active
    one when that is smaller. *)
Definition negotiated (used active : Z) : Z :=
  if i32 active <? i32 used then active else used.

(** What an adapter says of itself once it is loaded. *)
Definition own_info (g : list Z) (q : ibv_qp) (pa : ibv_port_attr) (mtu : Z)
    (name : string) : AdapterInfo :=
  {| gid := g; qp_num := u32 (ibv_qp_num q); lid := u16 (port_lid pa);
     link_layer := u8 (port_link_layer pa); active_mtu := mtu;
     unique_id := sprintf_into 128 name |}.

Definition port_record (d : RDMADevice) (port : Z) : option ibv_port_attr :=
  ports_attrs_ d !! Z.to_nat (u32 port - 1).

Section adapter_lemmas.
Context {X : Type} `{!Platform X}.
Implicit Types w : World X.

Lemma get_port_attr_inv dev i w pa w' :
  get_port_attr dev i w = Ok pa w' →
  w' = w ∧ ∃ d, w_devs w !! dev = Some d ∧ port_record d i = Some pa.
Proof.
  intros H. unfold get_port_attr in H. wstep H as d w1 H1. wstep H as ? w2 H2.
  pinv H. eauto.
Qed.

Lemma query_gid_inv dev i g w r w' :
  query_gid dev i g w = Ok r w' →
  ∃ x m, w' = w <| w_ext := x |> <| w_mem := m |>.
Proof.
  intros H. unfold query_gid in H. wstep H as d w1 H1. wstep H as ? w2 H2.
  wstep H as ? w3 H3. wstep H as [ret r'] w4 H4. wstep H as ? w5 H5. pinv H. eauto.
Qed.

(** Writes to an adapter that keep its identity leave its name. *)
Definition loaded_adapter (a : RDMAAdapter) (info : AdapterInfo) (mtu : Z) : RDMAAdapter :=
  a <| self_ := info |> <| _adapter_config_ ::= λ c, c <| used_mtu := mtu |> |>.

Lemma update_my_adapter_info_inv this w u w' c :
  update_my_adapter_info this w = Ok u w' → w_chans w !! this = Some c →
  ∃ g q d pa i mtu,
    qp_ (adapter c) = Some q ∧ rdma_device_ (adapter c) ≠ 0 ∧
    w_devs w !! rdma_device_ (adapter c) = Some d ∧
    port_record d (ib_port (_adapter_config_ (adapter c))) = Some pa ∧
    mtu = negotiated (used_mtu (_adapter_config_ (adapter c))) (port_active_mtu pa) ∧
    adapter_info this w' = Ok i w' ∧ (String.length i < max_id_length)%nat ∧
    w_chans w' = <[this := c <| adapter ::= λ a,
      loaded_adapter a (own_info g q pa mtu i) mtu |>]> (w_chans w) ∧
    w_devs w' = w_devs w ∧ names w' = names w.
Proof.
  intros H Hc. unfold update_my_adapter_info, upd_self, upd_config in H.
  wstep H as a w1 H1. same H1 Hc. cbv zeta in H.
  wstep H as ? w2 H2. apply negb_true_iff, Z.eqb_neq in H2.
  apply bind_inv in H as (g & w3 & Hg & H).
  apply query_gid_inv in Hg as (x0 & m0 & ->).
  wstep H as ? w4 H4. cbn in H4. same H4 Hc.
  wstep H as ? w5 H5. wstep H as q w6 H6.
  wstep H as ? w7 H7. cbn in H7. rewrite lookup_insert_eq in H7. injection H7 as <-.
  apply bind_inv in H as (pa & w8 & (-> & d & Hd & Hpa)%get_port_attr_inv & H). cbn in Hd.
  wstep H as ? w9 H9. cbn in H9. rewrite lookup_insert_eq in H9. injection H9 as <-.
  apply bind_inv in H as (pa' & w10 & (-> & d' & Hd' & Hpa')%get_port_attr_inv & H).
  cbn in Hd'. simplify_eq.
  wstep H as ? w11 H11. cbn in H11. rewrite lookup_insert_eq in H11. injection H11 as <-.
  wstep H as ? w12 H12.
  set (mtu := negotiated (used_mtu (_adapter_config_ (adapter c))) (port_active_mtu pa)).
  assert (∃ c2, w12 = w <| w_ext := x0 |> <| w_mem := m0 |> <| w_chans ::= <[this := c2]> |> ∧
    c2 = c <| adapter ::= λ a, a <| self_ := self_ a <| gid := g |>
      <| qp_num := u32 (ibv_qp_num q) |> <| link_layer := u8 (port_link_layer pa) |>
      <| active_mtu := mtu |> |> <| _adapter_config_ ::= λ c, c <| used_mtu := mtu |> |> |>)
    as (c2 & -> & ->).
  { unfold mtu, negotiated. destruct (_ <? _); pinv H12; cbn in H12;
      rewrite lookup_insert_eq in H12; injection H12 as <-; cbn;
      rewrite !insert_insert_eq; (eexists; split; [reflexivity|]);
      destruct c as [[? ? [] [] ? ? ? ? ? ? ? ? ? ? ? ?] ? ? ?]; reflexivity. }
  clear H12.
  apply bind_inv in H as (pa' & w13 & (-> & d' & Hd'' & Hpa'')%get_port_attr_inv & H).
  cbn in Hd''. simplify_eq.
  wstep H as ? w14 H14. cbn in H14. rewrite lookup_insert_eq in H14. injection H14 as <-.
  wstep H as i w15 Hi. pose proof (adapter_info_read _ _ _ _ Hi) as ->.
  wstep H as ? w16 H16. apply Nat.ltb_lt in H16.
  wstep H as ? w17 H17. cbn in H17. rewrite lookup_insert_eq in H17. injection H17 as <-.
  pinv H. cbn in H. rewrite lookup_insert_eq in H. injection H as <-. cbn.
  rewrite !insert_insert_eq. exists g, q, d, pa, i, mtu. split_and!; try done.
  - eapply adapter_info_cong; [| | | | |exact Hi].
    1: cbn; apply lookup_insert_eq.
    1: cbn; apply lookup_insert_eq.
    all: done.
Qed.

(** *** Allocation steps *)

Definition with_adapter (c : RDMAChannel) (f : RDMAAdapter → RDMAAdapter) : RDMAChannel :=
  c <| adapter ::= f |>.

Lemma keeps_names_device name adp : keeps (names (X:=X)) (get_device name adp).
Proof.
  intros w p w' H. apply keeps_get_device in H. unfold objects, names in *.
  congruence.
Qed.
Lemma get_device_chans name adp w p w' :
  get_device name adp w = Ok p w' → w_chans w' = w_chans w.
Proof. intros H. apply keeps_get_device in H. unfold objects in H. congruence. Qed.

(** A step of [loading] that only rewrites the adapter at [this]. *)
Definition rewrites (this : Z) (m : W X unit) (R : RDMAAdapter → RDMAAdapter → Prop) : Prop :=
  ∀ w u w' c, m w = Ok u w' → w_chans w !! this = Some c →
    ∃ a', R (adapter c) a' ∧
      w_chans w' = <[this := c <| adapter := a' |>]> (w_chans w) ∧ names w' = names w.

Lemma rewrites_id c this w :
  w_chans w !! this = Some c → w_chans w = <[this := c <| adapter := adapter c |>]> (w_chans w).
Proof. intros H. rewrite insert_id; [done|]. rewrite H. by destruct c. Qed.

Lemma create_pd_rewrites this :
  rewrites this (create_pd this) (λ a a', ∃ pd, pd ≠ 0 ∧ a' = a <| pd_ := pd |>).
Proof.
  intros w u w' c H Hc. unfold create_pd in H. wstep H as a w1 H1. same H1 Hc.
  wstep H as ? w2 H2. apply bind_inv in H as (pd & w3 & H3 & H).
  unfold create_protected_domain in H3. wstep H3 as d w4 H4.
  wstep H3 as pd' w5 H5. wstep H3 as ? w6 H6. pinv H3.
  apply negb_true_iff, Z.eqb_neq in H6. pinv H. cbn in H. same H Hc.
  eexists. split; [by exists pd'|]. done.
Qed.

Lemma create_compt_channel_rewrites this :
  rewrites this (create_compt_channel this) (λ a a', ∃ ec, a' = a <| event_channel := ec |>).
Proof.
  intros w u w' c H Hc. unfold create_compt_channel in H.
  apply bind_inv in H as (i & w0 & ->%adapter_info_read & H).
  wstep H as a w1 H1. same H1 Hc. destruct (use_event_channel _).
  - apply bind_inv in H as (ec & w3 & H3 & H). unfold create_event_channel in H3.
    wstep H3 as d w4 H4. wstep H3 as ec' w5 H5. wstep H3 as ? w6 H6. pinv H3.
    pinv H. cbn in H. same H Hc. eexists. split; [by exists ec'|]. done.
  - pinv H. exists (adapter c). split; [|by rewrite <-(rewrites_id c)].
    exists (event_channel (adapter c)). by destruct (adapter c).
Qed.

Lemma create_completion_queue_frame dev key m cb ch v w cq w' :
  create_completion_queue dev key m cb ch v w = Ok cq w' →
  w_chans w' = w_chans w ∧ names w' = names w.
Proof.
  intros H. assert (∃ d, w_devs w !! dev = Some d) as [d Hd].
  { unfold create_completion_queue in H. wstep H as d w0 H0. eauto. }
  destruct (reg_cqs_ d !! key) as [q|] eqn:Hk.
  - rewrite (create_cq_hit _ _ _ _ _ _ _ _ _ Hd Hk) in H. by injection H as _ <-.
  - by destruct (create_cq_miss _ _ _ _ _ _ _ _ _ _ Hd Hk H) as (_ & x & mm & _ & ->).
Qed.

Lemma create_cq_rewrites this :
  rewrites this (create_cq this) (λ a a', ∃ cq, a' = a <| used_cq_ := cq |>).
Proof.
  intros w u w' c H Hc. unfold create_cq in H.
  apply bind_inv in H as (i & w0 & ->%adapter_info_read & H).
  wstep H as a w1 H1. same H1 Hc. cbv zeta in H. wstep H as ? w2 H2.
  assert (∃ cq w3, create_completion_queue (rdma_device_ (adapter c))
    (cq_key (_adapter_config_ (adapter c))) (i32 (cq_size (_adapter_config_ (adapter c))))
    this (event_channel (adapter c)) 0 w = Ok cq w3 ∧
    upd_adapter this (λ a, a <| used_cq_ := cq |>) w3 = Ok u w')
    as (cq & w3 & H3 & H4).
  { destruct (using_shared_cq _).
    - wstep H as ? w3 H3. apply bind_inv in H as (cq & w3 & H4 & H). eauto.
    - apply bind_inv in H as (b & w3 & Hb & H). unfold has_created_cq in Hb.
      wstep Hb as d w4 H4. pinv Hb. wstep H as ? w5 H5.
      apply bind_inv in H as (cq & w6 & H6 & H). eauto. }
  apply create_completion_queue_frame in H3 as [Hch Hn]. pinv H4.
  rewrite Hch, Hc in H4. injection H4 as <-.
  eexists. split; [by exists cq|]. cbn. by rewrite Hch.
Qed.

Lemma create_qp_rewrites this :
  rewrites this (create_qp this) (λ a a', qp_ a = None ∧ ∃ q ia,
    a' = a <| qp_init_attr := ia |> <| qp_ := Some q |>).
Proof.
  intros w u w' c H Hc. unfold create_qp in H.
  wstep H as ? w1 H1. same H1 Hc.
  apply bind_inv in H as (i & w2 & ->%adapter_info_read & H).
  wstep H as a w3 H3. cbn in H3. rewrite lookup_insert_eq in H3. injection H3 as <-.
  cbv zeta in H. wstep H as ? w4 H4. cbn in H4. rewrite lookup_insert_eq in H4.
  injection H4 as <-. wstep H as ? w5 H5. apply negb_true_iff, bool_decide_eq_false in H5.
  apply bind_inv in H as (q & w6 & H6 & H). unfold create_queue_pair in H6.
  wstep H6 as d w7 H7. wstep H6 as q' w8 H8. wstep H6 as ? w9 H9. pinv H6.
  apply bool_decide_eq_true in H9 as [q0 ->]. pinv H. cbn in H.
  rewrite lookup_insert_eq in H. injection H as <-. cbn. rewrite !insert_insert_eq.
  eexists. split.
  - split; [by apply eq_None_not_Some|]. eexists q0, _. reflexivity.
  - done.
Qed.

Lemma lookup_of_insert {A} {m m' : gmap Z A} {k v} : m' = <[k := v]> m → m' !! k = Some v.
Proof. intros ->. apply lookup_insert_eq. Qed.

(** [loading] begins with the key of a private queue, the adapter's name. *)
Lemma loading_key_inv this w u w1 c :
  (if using_shared_cq (_adapter_config_ (adapter c))
   then check (negb (bool_decide (cq_key (_adapter_config_ (adapter c)) = "")))
          "expected to use shared cq, but the cq_key is not set"
   else i ← adapter_info this; upd_config this (λ c, c <| cq_key := i |>)) w = Ok u w1 →
  w_chans w !! this = Some c →
  ∃ key, w_chans w1 = <[this := c <| adapter ::= λ a, a <| _adapter_config_ ::=
    λ g, g <| cq_key := key |> |> |>]> (w_chans w) ∧ names w1 = names w.
Proof.
  intros H1 Hc. destruct (using_shared_cq _).
  - pinv H1. exists (cq_key (_adapter_config_ (adapter c))). split; [|done].
    rewrite insert_id; [done|]. rewrite Hc. by destruct c as [[? ? [] ? ? ? ? ? ? ? ? ? ? ? ? ?] ? ? ?].
  - apply bind_inv in H1 as (i & w2 & ->%adapter_info_read & H1).
    unfold upd_config in H1. pinv H1. same H1 Hc. exists i. done.
Qed.

(** The whole of [loading] on an adapter without resources. *)
Lemma loading_inv this w info w' c :
  loading this w = Ok info w' → w_chans w !! this = Some c →
  resource_is_allocated (adapter c) = false →
  ∃ a' g q d pa name,
    w_chans w' = <[this := c <| adapter := a' |>]> (w_chans w) ∧
    id_ a' = id_ (adapter c) ∧ owning_buffers a' = owning_buffers (adapter c) ∧
    resource_is_allocated a' = true ∧ vadapt_status_ a' = RESOURCE_ALLOCATED ∧
    pd_ a' ≠ 0 ∧ qp_ a' = Some q ∧ w_devs w' !! rdma_device_ a' = Some d ∧
    port_record d (ib_port (_adapter_config_ (adapter c))) = Some pa ∧
    used_mtu (_adapter_config_ a') =
      negotiated (used_mtu (_adapter_config_ (adapter c))) (port_active_mtu pa) ∧
    info = self_ a' ∧
    self_ a' = own_info g q pa (used_mtu (_adapter_config_ a')) name ∧
    adapter_info this w' = Ok name w' ∧ (String.length name < max_id_length)%nat.
Proof.
  intros H Hc Hres. unfold loading in H. wstep H as a w0 H0. same H0 Hc.
  rewrite Hres in H.
  apply bind_inv in H as (? & w1 & H1 & H).
  destruct (loading_key_inv _ _ _ _ _ H1 Hc) as (key & Hc1 & Hn1).
  clear H1. apply bind_inv in H as (dev & w2 & H2 & H).
  pose proof (keeps_names_device _ _ _ _ _ H2) as Hn2. apply get_device_chans in H2.
  wstep H as ? w3 H3. rewrite H2, Hc1, lookup_insert_eq in H3. injection H3 as <-.
  apply bind_inv in H as (? & w4 & H4 & H).
  destruct (create_pd_rewrites _ _ _ _ _ H4 (lookup_of_insert eq_refl))
    as (a4 & (pd & Hpd & ->) & Hc4 & Hn4).
  apply bind_inv in H as (? & w5 & H5 & H).
  destruct (create_compt_channel_rewrites _ _ _ _ _ H5 (lookup_of_insert Hc4))
    as (a5 & (ec & ->) & Hc5 & Hn5).
  apply bind_inv in H as (? & w6 & H6 & H).
  destruct (create_cq_rewrites _ _ _ _ _ H6 (lookup_of_insert Hc5))
    as (a6 & (cq & ->) & Hc6 & Hn6).
  apply bind_inv in H as (? & w7 & H7 & H).
  destruct (create_qp_rewrites _ _ _ _ _ H7 (lookup_of_insert Hc6))
    as (a7 & (_ & q & ia & ->) & Hc7 & Hn7).
  apply bind_inv in H as (? & w8 & H8 & H).
  destruct (update_my_adapter_info_inv _ _ _ _ _ H8 (lookup_of_insert Hc7))
    as (g & q' & d & pa & name & mtu & Hq & _ & Hd & Hpa & Hmtu & Hname & Hlen & Hc8 & Hd8 & Hn8).
  cbn in Hq. injection Hq as <-.
  wstep H as ? w9 H9. rewrite Hc8, lookup_insert_eq in H9. injection H9 as <-.
  wstep H as ? w10 H10. cbn in H10. rewrite lookup_insert_eq in H10. injection H10 as <-.
  unfold get_adapter_info in H. wstep H as a w11 H11. cbn in H11.
  rewrite lookup_insert_eq in H11. injection H11 as <-. pinv H.
  cbn in Hc4, Hc5, Hc6, Hc7, Hc8, Hd, Hpa, Hmtu |- *.
  rewrite !insert_insert_eq in *.
  eexists _, g, q, d, pa, name. split.
  { rewrite Hc8, Hc7, Hc6, Hc5, Hc4. cbn. rewrite H2, Hc1. rewrite !insert_insert_eq.
    reflexivity. }
  cbn. rewrite Hd8. split_and!; try done.
  eapply adapter_info_cong; [| | | | |exact Hname].
  - rewrite Hc8. apply lookup_insert_eq.
  - cbn. apply lookup_insert_eq.
  - done.
  - done.
  - done.
Qed.
End adapter_lemmas.

(** ** The queue pair state machine *)

(** A request of the verbs for a queue pair: the attributes and which of them it
    carries. *)
Record request := mkRequest { rq_attr : ibv_qp_attr; rq_flags : Z }.

(** A request for the transition [from]-[to] with the attributes it requires. *)
Definition complete_for (from to : ibv_qp_state) (rq : request) : Prop :=
  qp_state (rq_attr rq) = to ∧
  ∃ mask, qp_requires from to = Some mask ∧ has_flags (rq_flags rq) mask = true.

(** The address vector of the transition to RTR. *)
Definition peer_ah (a : RDMAAdapter) : ibv_ah_attr :=
  if link_layer (self_ a) =? IBV_LINK_LAYER_ETHERNET then roce_ah a else ib_ah a.

(** What [connecting] and [reset_hca] ask for. *)
Definition connect_requests (a : RDMAAdapter) : list request :=
  [mkRequest (init_attr a) init_flags; mkRequest (rtr_attr a (peer_ah a)) rtr_flags;
   mkRequest rts_attr rts_flags].
Definition reset_request : request := mkRequest reset_attr reset_flags.

(** The requests [rqs] for [q], one after the other, with the answers [rs]; after
    each one the queue pair is queried. *)
Inductive driven `{!Platform X} (q : ibv_qp) : list request → list Z → X → X → Prop :=
| driven_nil x : driven q [] [] x x
| driven_cons rq rqs r rs ia ans x m x1 m1 x2 m2 x' :
    ibv_modify_qp q (rq_attr rq) (rq_flags rq) x m = (r, (x1, m1)) →
    ibv_query_qp q ia x1 m1 = (ans, (x2, m2)) →
    driven q rqs rs x2 x' → driven q (rq :: rqs) (r :: rs) x x'.

(** The state of a queue pair in [s] after the answers [rs]: a request answered
    with 0 is carried out, every other leaves it as it was. *)
Definition answered (s : ibv_qp_state) (rqr : request * Z) : ibv_qp_state :=
  if rqr.2 =? 0 then qp_state (rq_attr rqr.1) else s.

(** Where the answers to the three requests of [connecting] take it from RESET:
    as far as the requests are granted. *)
Definition reached (rs : list Z) : ibv_qp_state :=
  match rs with
  | 0 :: 0 :: 0 :: _ => IBV_QPS_RTS
  | 0 :: 0 :: _ => IBV_QPS_RTR
  | 0 :: _ => IBV_QPS_INIT
  | _ => IBV_QPS_RESET
  end.

(** The checks [connecting] makes of the peer. *)
Definition peer_acceptable (a : RDMAAdapter) (peer : AdapterInfo) : Prop :=
  (∃ b, head (unique_id peer) = Some b ∧ b ≠ 0) ∧ terminated (unique_id peer) = true ∧
  terminated (unique_id (self_ a)) = true ∧ link_layer (self_ a) ≠ 0 ∧
  (link_layer (self_ a) = IBV_LINK_LAYER_ETHERNET →
     link_layer peer = IBV_LINK_LAYER_ETHERNET ∧ 0 ≤ gid_index (_adapter_config_ a)).

Section qp_lemmas.
Context {X : Type} `{!Platform X}.
Implicit Types w : World X.

(** The objects the queue pair transitions need: the adapter with its queue
    pair, and its device. *)
Definition qp_ready w (this : Z) (c : RDMAChannel) (q : ibv_qp) : Prop :=
  w_chans w !! this = Some c ∧ qp_ (adapter c) = Some q ∧
  is_Some (w_devs w !! rdma_device_ (adapter c)).

Lemma qp_ready_ext w x m this c q :
  qp_ready w this c q → qp_ready (w <| w_ext := x |> <| w_mem := m |>) this c q.
Proof. done. Qed.

Lemma show_qp_info_inv this w u w' :
  show_qp_info this w = Ok u w' →
  ∃ c q ia r attr x m, w_chans w !! this = Some c ∧ qp_ (adapter c) = Some q ∧
    ibv_query_qp q (qp_init_attr (adapter c)) (w_ext w) (w_mem w) = (r, attr, ia, (x, m)) ∧
    w' = w <| w_ext := x |> <| w_mem := m |>
           <| w_chans ::= <[this := c <| adapter ::= λ a, a <| qp_init_attr := ia |> |>]> |>.
Proof.
  intros H. unfold show_qp_info in H. wstep H as a w1 H1. 
  apply bind_inv in H as (r & w2 & H2 & H). unfold get_qp_attr in H2.
  wstep H2 as d w3 H3. destruct (qp_ _) as [q|] eqn:Hq; [|done].
  wstep H2 as [[r0 attr] ia] w4 H4. pinv H2. pinv H. cbn in H. same H H1.
  exists x, q. eauto 12.
Qed.

Lemma show_qp_info_total this w c q :
  qp_ready w this c q →
  ∃ ia w', show_qp_info this w = Ok tt w' ∧
    qp_ready w' this (c <| adapter ::= λ a, a <| qp_init_attr := ia |> |>) q ∧
    names w' = names w.
Proof.
  intros (Hc & Hq & [d Hd]). unfold show_qp_info.
  rewrite (bind_Ok _ _ _ _ _ (adapter_at_eq _ _ _ Hc)).
  unfold get_qp_attr. rewrite bind_assoc, (bind_Ok _ _ _ _ _ (dev_at_eq _ _ _ Hd)), Hq.
  rewrite bind_assoc.
  destruct (ibv_query_qp q (qp_init_attr (adapter c)) (w_ext w) (w_mem w))
    as [[[r attr] ia] [x m]] eqn:E.
  rewrite (bind_Ok _ _ _ _ _ (call_eq _ _ _ _ _ E)), bind_ret.
  exists ia. eexists. split; [by apply upd_adapter_eq|]. split; [|done].
  split; [cbn; apply lookup_insert_eq|]. split; [done|]. cbn. eauto.
Qed.

Lemma modify_init_eq this w c q :
  qp_ready w this c q →
  modify_qp_to_init this w = call (ibv_modify_qp q (init_attr (adapter c)) init_flags) w.
Proof.
  intros (Hc & Hq & _). unfold modify_qp_to_init.
  rewrite (bind_Ok _ _ _ _ _ (adapter_at_eq _ _ _ Hc)). unfold qp_of. by rewrite Hq.
Qed.
Lemma modify_rts_eq this w c q :
  qp_ready w this c q →
  modify_qp_to_rts this w = call (ibv_modify_qp q rts_attr rts_flags) w.
Proof.
  intros (Hc & Hq & _). unfold modify_qp_to_rts.
  rewrite (bind_Ok _ _ _ _ _ (adapter_at_eq _ _ _ Hc)). unfold qp_of. by rewrite Hq.
Qed.
Lemma modify_rtr_eq this w c q :
  qp_ready w this c q → peer_acceptable (adapter c) (remote_ (adapter c)) →
  modify_qp_to_rtr this w =
    call (ibv_modify_qp q (rtr_attr (adapter c)
      (if link_layer (self_ (adapter c)) =? IBV_LINK_LAYER_ETHERNET
       then roce_ah (adapter c) else ib_ah (adapter c))) rtr_flags) w.
Proof.
  intros (Hc & Hq & _) (_ & _ & _ & _ & Hll). unfold modify_qp_to_rtr.
  rewrite (bind_Ok _ _ _ _ _ (adapter_at_eq _ _ _ Hc)). unfold qp_of. rewrite Hq, bind_ret.
  destruct (link_layer (self_ (adapter c)) =? IBV_LINK_LAYER_ETHERNET) eqn:E; [|done].
  apply Z.eqb_eq in E. destruct (Hll E) as [Hp Hg]. rewrite E, Hp, Z.eqb_refl.
  by rewrite (proj2 (Z.leb_le _ _) Hg).
Qed.

Lemma call_total {A} (op : ext_op X A) w :
  ∃ a x m, call op w = Ok a (w <| w_ext := x |> <| w_mem := m |>).
Proof.
  destruct (op (w_ext w) (w_mem w)) as [a [x m]] eqn:E. exists a, x, m. by apply call_eq.
Qed.

(** Whatever the platform answers, the transitions run to the end. *)
Lemma drive_qp_total this w c q :
  qp_ready w this c q → peer_acceptable (adapter c) (remote_ (adapter c)) →
  ∃ w' ia, drive_qp this w = Ok true w' ∧
    w_chans w' !! this = Some (c <| adapter ::= λ a, a <| qp_init_attr := ia |>
      <| vadapt_status_ := CONNECTING |> |>).
Proof.
  intros R0 A0. unfold drive_qp.
  destruct (call_total (ibv_modify_qp q (init_attr (adapter c)) init_flags) w)
    as (r1 & x1 & m1 & E1).
  rewrite <-(modify_init_eq _ _ _ _ R0) in E1. rewrite (bind_Ok _ _ _ _ _ E1).
  destruct (show_qp_info_total _ _ _ _ (qp_ready_ext _ x1 m1 _ _ _ R0))
    as (ia2 & w2 & E2 & R2 & _). rewrite (bind_Ok _ _ _ _ _ E2).
  set (c2 := c <| adapter ::= _ |>) in R2.
  assert (peer_acceptable (adapter c2) (remote_ (adapter c2))) as A2 by done.
  destruct (call_total (ibv_modify_qp q (rtr_attr (adapter c2)
    (if link_layer (self_ (adapter c2)) =? IBV_LINK_LAYER_ETHERNET
     then roce_ah (adapter c2) else ib_ah (adapter c2))) rtr_flags) w2)
    as (r3 & x3 & m3 & E3).
  rewrite <-(modify_rtr_eq _ _ _ _ R2 A2) in E3. rewrite (bind_Ok _ _ _ _ _ E3).
  destruct (show_qp_info_total _ _ _ _ (qp_ready_ext _ x3 m3 _ _ _ R2))
    as (ia4 & w4 & E4 & R4 & _). rewrite (bind_Ok _ _ _ _ _ E4).
  destruct (call_total (ibv_modify_qp q rts_attr rts_flags) w4) as (r5 & x5 & m5 & E5).
  rewrite <-(modify_rts_eq _ _ _ _ R4) in E5. rewrite (bind_Ok _ _ _ _ _ E5).
  destruct (show_qp_info_total _ _ _ _ (qp_ready_ext _ x5 m5 _ _ _ R4))
    as (ia6 & w6 & E6 & R6 & _). rewrite (bind_Ok _ _ _ _ _ E6).
  rewrite (bind_Ok _ _ _ _ _ (upd_adapter_eq _ _ _ _ (proj1 R6))).
  eexists _, ia6. split; [reflexivity|]. cbn. rewrite lookup_insert_eq.
  subst c2. done.
Qed.

(** *** The state of the queue pair under the documented transitions *)

Context `{!QpLaws X}.

Lemma modify_answered q rq x m r x' m' :
  ibv_modify_qp q (rq_attr rq) (rq_flags rq) x m = (r, (x', m')) →
  has_flags (rq_flags rq) IBV_QP_STATE = true →
  qp_st x' (qp_handle q) = answered (qp_st x (qp_handle q)) (rq, r).
Proof.
  intros H Hf. unfold answered. cbn. destruct (Z.eqb_spec r 0) as [->|Hr].
  - by eapply modify_done.
  - by eapply modify_failed.
Qed.
(** A request for which the table has no transition is refused. *)
Lemma modify_refused q rq x m r x' m' :
  ibv_modify_qp q (rq_attr rq) (rq_flags rq) x m = (r, (x', m')) →
  has_flags (rq_flags rq) IBV_QP_STATE = true → tabled (qp_st x (qp_handle q)) = true →
  qp_requires (qp_st x (qp_handle q)) (qp_state (rq_attr rq)) = None → r ≠ 0.
Proof.
  intros H Hf Ht Hn ->. destruct (modify_complete _ _ _ _ _ _ _ H Hf Ht) as (mask & Hm & _).
  congruence.
Qed.

(** The state after a sequence of requests is the one their answers give. *)
Lemma driven_st q rqs rs x x' :
  driven q rqs rs x x' → Forall (λ rq, has_flags (rq_flags rq) IBV_QP_STATE = true) rqs →
  length rs = length rqs ∧
  qp_st x' (qp_handle q) = foldl answered (qp_st x (qp_handle q)) (zip rqs rs).
Proof.
  induction 1 as [x|rq rqs r rs ia ans x m x1 m1 x2 m2 x' Hm Hq _ IH]; [done|].
  intros [Hf Hfs]%Forall_cons_1. destruct (IH Hfs) as [Hl ->]. cbn. split; [by rewrite Hl|].
  by rewrite (query_qp_frame _ _ _ _ _ _ _ Hq), (modify_answered _ _ _ _ _ _ _ Hm Hf).
Qed.
Lemma connect_requests_state a :
  Forall (λ rq, has_flags (rq_flags rq) IBV_QP_STATE = true) (connect_requests a).
Proof. by repeat constructor. Qed.

Lemma driven_three q rq1 rq2 rq3 rs x x' :
  driven q [rq1; rq2; rq3] rs x x' →
  ∃ r1 r2 r3 x1 m1 y1 n1 x2 m2 y2 n2 x3 m3 y3 n3 a1 b1 a2 b2 a3 b3 k1 k2 k3,
    rs = [r1; r2; r3] ∧
    ibv_modify_qp q (rq_attr rq1) (rq_flags rq1) x k1 = (r1, (x1, m1)) ∧
    ibv_query_qp q a1 x1 m1 = (b1, (y1, n1)) ∧
    ibv_modify_qp q (rq_attr rq2) (rq_flags rq2) y1 k2 = (r2, (x2, m2)) ∧
    ibv_query_qp q a2 x2 m2 = (b2, (y2, n2)) ∧
    ibv_modify_qp q (rq_attr rq3) (rq_flags rq3) y2 k3 = (r3, (x3, m3)) ∧
    ibv_query_qp q a3 x3 m3 = (b3, (y3, n3)) ∧ x' = y3.
Proof.
  intros H. inversion H as [|? ? ? ? ? ? ? ? ? ? ? ? ? M1 Q1 H1]; subst.
  inversion H1 as [|? ? ? ? ? ? ? ? ? ? ? ? ? M2 Q2 H2]; subst.
  inversion H2 as [|? ? ? ? ? ? ? ? ? ? ? ? ? M3 Q3 H3]; subst.
  inversion H3; subst. eauto 40.
Qed.
Lemma show_qp_info_adapter this w u w' c :
  show_qp_info this w = Ok u w' → w_chans w !! this = Some c →
  ∃ ia, w_chans w' !! this = Some (c <| adapter ::= λ a, a <| qp_init_attr := ia |> |>).
Proof.
  intros (c' & q & ia & r & attr & x & m & H1 & _ & E & ->)%show_qp_info_inv Hc. same H1 Hc.
  exists ia. apply lookup_insert_eq.
Qed.

Lemma modify_init_call this w r w' c q :
  modify_qp_to_init this w = Ok r w' → w_chans w !! this = Some c → qp_ (adapter c) = Some q →
  call (ibv_modify_qp q (init_attr (adapter c)) init_flags) w = Ok r w'.
Proof.
  intros H Hc Hq. unfold modify_qp_to_init in H. wstep H as a w1 H1. same H1 Hc.
  unfold qp_of in H. by rewrite Hq in H.
Qed.
Lemma modify_rtr_call this w r w' c q :
  modify_qp_to_rtr this w = Ok r w' → w_chans w !! this = Some c → qp_ (adapter c) = Some q →
  call (ibv_modify_qp q (rtr_attr (adapter c) (peer_ah (adapter c))) rtr_flags) w = Ok r w'.
Proof.
  intros H Hc Hq. unfold modify_qp_to_rtr in H. wstep H as a w1 H1. same H1 Hc.
  unfold qp_of in H. rewrite Hq in H. wstep H as q' w2 H2. unfold peer_ah.
  destruct (link_layer (self_ (adapter c)) =? IBV_LINK_LAYER_ETHERNET);
    apply bind_inv in H as (ah & w3 & H3 & H); [|by pinv H3].
  wstep H3 as ? w4 H4. wstep H3 as ? w5 H5. by pinv H3.
Qed.
Lemma modify_rts_call this w r w' c q :
  modify_qp_to_rts this w = Ok r w' → w_chans w !! this = Some c → qp_ (adapter c) = Some q →
  call (ibv_modify_qp q rts_attr rts_flags) w = Ok r w'.
Proof.
  intros H Hc Hq. unfold modify_qp_to_rts in H. wstep H as a w1 H1. same H1 Hc.
  unfold qp_of in H. by rewrite Hq in H.
Qed.

(** The steps of a [connecting] that returns.  Of the channel they change the
    peer, what the queries report and, at the end, the status. *)
Definition with_ia (ia : ibv_qp_init_attr) (c : RDMAChannel) : RDMAChannel :=
  c <| adapter ::= λ a, a <| qp_init_attr := ia |> |>.
Definition with_peer (peer : AdapterInfo) (c : RDMAChannel) : RDMAChannel :=
  c <| adapter ::= λ a, a <| remote_ := peer |> |>.

Lemma keeps_chans_modify this :
  keeps (w_chans (X:=X)) (modify_qp_to_init this) ∧
  keeps (w_chans (X:=X)) (modify_qp_to_rtr this) ∧
  keeps (w_chans (X:=X)) (modify_qp_to_rts this).
Proof.
  unfold modify_qp_to_init, modify_qp_to_rtr, modify_qp_to_rts, qp_of.
  split_and!; solve_keeps.
Qed.

Lemma connecting_steps this peer w b w' c :
  connecting this peer w = Ok b w' → w_chans w !! this = Some c →
  let cp := with_peer peer c in
  b = true ∧ ∃ w1 r1 w2 u2 w3 r3 w4 u4 w5 r5 w6 u6 w7 ia3 ia5 ia7,
    w_ext w1 = w_ext w ∧ w_chans w1 !! this = Some cp ∧
    modify_qp_to_init this w1 = Ok r1 w2 ∧ show_qp_info this w2 = Ok u2 w3 ∧
    w_chans w3 !! this = Some (with_ia ia3 cp) ∧
    modify_qp_to_rtr this w3 = Ok r3 w4 ∧ show_qp_info this w4 = Ok u4 w5 ∧
    w_chans w5 !! this = Some (with_ia ia5 cp) ∧
    modify_qp_to_rts this w5 = Ok r5 w6 ∧ show_qp_info this w6 = Ok u6 w7 ∧
    w_ext w' = w_ext w7 ∧ w_chans w' !! this =
      Some (with_ia ia7 cp <| adapter ::= λ a, a <| vadapt_status_ := CONNECTING |> |>).
Proof.
  destruct (keeps_chans_modify this) as (K1 & K2 & K3). intros H Hc cp. unfold connecting in H.
  wstep H as h w0 H0. wstep H as ? w2 H2.
  apply bind_inv in H as (p' & w3 & H3 & H). unfold update_peer_adapter_info in H3.
  wstep H3 as ? w4 H4. same H4 Hc. wstep H3 as a w5 H5. wstep H3 as ? w6 H6. pinv H3.
  apply bind_inv in H as (i & w7 & ->%adapter_info_read & H). clear H5 H6.
  wstep H as a w8 H8. wstep H as ? w9 H9. wstep H as ? w10 H10. clear H8 H9 H10.
  set (w11 := w <| w_chans ::= <[this := _]> |>) in *.
  assert (w_chans w11 !! this = Some cp) as Hc1 by apply lookup_insert_eq.
  assert (w_ext w11 = w_ext w) as Hx by done. clearbody w11. unfold drive_qp in H.
  apply bind_inv in H as (r1 & w12 & M1 & H). apply bind_inv in H as (u2 & w13 & M2 & H).
  destruct (show_qp_info_adapter _ _ _ _ cp M2) as [ia3 Hc3]; [by rewrite (K1 _ _ _ M1)|].
  apply bind_inv in H as (r3 & w14 & M3 & H). apply bind_inv in H as (u4 & w15 & M4 & H).
  destruct (show_qp_info_adapter _ _ _ _ _ M4 (eq_trans (f_equal _ (K2 _ _ _ M3)) Hc3))
    as [ia5 Hc5].
  apply bind_inv in H as (r5 & w16 & M5 & H). apply bind_inv in H as (u6 & w17 & M6 & H).
  destruct (show_qp_info_adapter _ _ _ _ _ M6 (eq_trans (f_equal _ (K3 _ _ _ M5)) Hc5))
    as [ia7 Hc7].
  wstep H as ? w18 H18. same H18 Hc7. pinv H. split; [done|].
  exists w11, r1, w12, u2, w13, r3, w14, u4, w15, r5, w16, u6, w17, ia3, ia5, ia7.
  split_and!; try done. apply lookup_insert_eq.
Qed.

(** One request of [connecting] and the query that follows it. *)
Lemma driven_step this q c rq rqs r rs w w1 u w2 x' :
  call (ibv_modify_qp q (rq_attr rq) (rq_flags rq)) w = Ok r w1 → w_chans w !! this = Some c →
  qp_ (adapter c) = Some q → show_qp_info this w1 = Ok u w2 →
  driven q rqs rs (w_ext w2) x' → driven q (rq :: rqs) (r :: rs) (w_ext w) x'.
Proof.
  intros (x & m & E & ->)%call_inv Hc Hq (c' & q' & ia & r' & attr & y & n & H1 & H2 & Eq & ->)%show_qp_info_inv.
  cbn in H1. simplify_eq. cbn in Eq |- *. intros Hd. by econstructor.
Qed.

(** A [connecting] that returns has made its three requests of the verbs. *)
Lemma connecting_driven this peer w b w' c q :
  connecting this peer w = Ok b w' → w_chans w !! this = Some c →
  qp_ (adapter c) = Some q →
  b = true ∧
  (∃ rs, driven q (connect_requests (adapter (with_peer peer c))) rs (w_ext w) (w_ext w')) ∧
  ∃ ia, w_chans w' !! this = Some (c <| adapter ::= λ a, a <| remote_ := peer |>
    <| qp_init_attr := ia |> <| vadapt_status_ := CONNECTING |> |>).
Proof.
  intros H Hc Hq. destruct (connecting_steps _ _ _ _ _ _ H Hc) as (-> & w1 & r1 & w2 & u2 &
    w3 & r3 & w4 & u4 & w5 & r5 & w6 & u6 & w7 & ia3 & ia5 & ia7 & <- & Hc1 & M1 & M2 & Hc3 &
    M3 & M4 & Hc5 & M5 & M6 & -> & Hc').
  split; [done|]. split; [|by exists ia7]. exists [r1; r3; r5].
  apply (modify_init_call _ _ _ _ _ _ M1 Hc1) in Hq as E1.
  apply (modify_rtr_call _ _ _ _ _ _ M3 Hc3) in Hq as E3.
  apply (modify_rts_call _ _ _ _ _ _ M5 Hc5) in Hq as E5.
  eapply driven_step; [exact E1|exact Hc1|exact Hq|exact M2|].
  eapply driven_step; [exact E3|exact Hc3|exact Hq|exact M4|].
  eapply driven_step; [exact E5|exact Hc5|exact Hq|exact M6|constructor].
Qed.

(** *** Where the answers take the queue pair *)

Lemma driven_reached q a rs x x' :
  driven q (connect_requests a) rs x x' → qp_st x (qp_handle q) = IBV_QPS_RESET →
  qp_st x' (qp_handle q) = reached rs ∧
  (qp_st x' (qp_handle q) = IBV_QPS_RTS ↔ rs = [0; 0; 0]).
Proof.
  intros H Hr. pose proof (driven_st _ _ _ _ _ H (connect_requests_state a)) as [_ Hst].
  apply driven_three in H as (r1 & r2 & r3 & x1 & m1 & y1 & n1 & x2 & m2 & y2 & n2 & x3 & m3 &
    y3 & n3 & a1 & b1 & a2 & b2 & a3 & b3 & k1 & k2 & k3 & -> & M1 & Q1 & M2 & Q2 & M3 & Q3 & ->).
  pose proof (modify_answered q _ _ _ _ _ _ M1 eq_refl) as S1.
  pose proof (modify_answered q _ _ _ _ _ _ M2 eq_refl) as S2.
  rewrite <-(query_qp_frame _ _ _ _ _ _ _ Q1), Hr in S1.
  rewrite <-(query_qp_frame _ _ _ _ _ _ _ Q2) in S2.
  pose proof (modify_refused q _ _ _ _ _ _ M2 eq_refl) as F2.
  pose proof (modify_refused q _ _ _ _ _ _ M3 eq_refl) as F3.
  rewrite Hst, Hr. rewrite S2, S1 in F3. rewrite S1 in F2. revert F2 F3.
  unfold answered. cbn [foldl zip connect_requests rq_attr fst snd].
  destruct (Z.eqb_spec r1 0) as [->|N1], (Z.eqb_spec r2 0) as [->|N2],
    (Z.eqb_spec r3 0) as [->|N3]; intros F2 F3; cbn in F2, F3 |- *;
    try (exfalso; by apply F2); try (exfalso; by apply F3).
  all: repeat match goal with N : ?r ≠ 0 |- _ => is_var r; destruct r; [done|clear N..] end.
  all: split; [done|split; (done || discriminate)].
Qed.

(** The requests [rqs] for which the state [s] has no transition are refused. *)
Lemma driven_refused q rqs rs x x' s :
  driven q rqs rs x x' → Forall (λ rq, has_flags (rq_flags rq) IBV_QP_STATE = true) rqs →
  Forall (λ rq, qp_requires s (qp_state (rq_attr rq)) = None) rqs → tabled s = true →
  qp_st x (qp_handle q) = s → Forall (λ r, r ≠ 0) rs ∧ qp_st x' (qp_handle q) = s.
Proof.
  intros H Hf Hn Ht. revert Hf Hn.
  induction H as [x|rq rqs r rs ia ans x m x1 m1 x2 m2 x' Hm Hq _ IH]; [done|].
  intros [Hf Hfs]%Forall_cons_1 [Hn Hns]%Forall_cons_1 Hs.
  assert (r ≠ 0) as Hr by (by eapply modify_refused; rewrite ?Hs).
  destruct (IH Hfs Hns); [|by split; [constructor|]].
  by rewrite (query_qp_frame _ _ _ _ _ _ _ Hq), (modify_failed _ _ _ _ _ _ _ _ Hm Hr).
Qed.

(** Once the transition to RTR is granted the queue pair is on the path to the peer. *)
Lemma driven_path `{!PathLaws X} q a r1 r3 x x' :
  driven q (connect_requests a) [r1; 0; r3] x x' →
  qp_path x' (qp_handle q) = path_of (rtr_attr a (peer_ah a)).
Proof.
  intros (? & ? & ? & x1 & m1 & y1 & n1 & x2 & m2 & y2 & n2 & x3 & m3 & y3 & n3 & a1 & b1 & a2 &
    b2 & a3 & b3 & k1 & k2 & k3 & [= <- <- <-] & M1 & Q1 & M2 & Q2 & M3 & Q3 & ->)%driven_three.
  rewrite (query_qp_path _ _ _ _ _ _ _ Q3), (modify_no_path _ _ _ _ _ _ _ _ M3), 
    (query_qp_path _ _ _ _ _ _ _ Q2) by done.
  by apply (modify_path _ _ _ _ _ _ _ _ M2).
Qed.
End qp_lemmas.

(** ** Posting requests *)

(** A local range that lies inside the buffer [b], with its key. *)
Definition sge_within (s : ibv_sge) (b : RDMABuffer) (m : ibv_mr) : Prop :=
  sge_addr s = data_ptr b ∧ 0 ≤ sge_length s ≤ buffer_size b ∧
  sge_lkey s = mr_lkey m ∧ mr_ b = Some m.

(** A buffer the adapter may use. *)
Definition usable (b : RDMABuffer) : Prop :=
  buffer_size b ≠ 0 ∧ data_ptr b ≠ 0 ∧ owned_by_channel b ≠ 0.

(** One request more in flight on the send side, on the receive side. *)
Definition one_more_sqe (c : RDMAChannel) : RDMAChannel :=
  c <| adapter ::= λ a, a <| sq_inflight ::= Z.succ |> |>.
Definition one_more_rqe (c : RDMAChannel) : RDMAChannel :=
  c <| adapter ::= λ a, a <| rq_inflight ::= Z.succ |> |>.

Section request_lemmas.
Context {X : Type} `{!Platform X}.
Implicit Types w : World X.

Lemma security_check_inv p w b w' :
  security_check p w = Ok b w' →
  w' = w ∧ ∃ bf, w_bufs w !! p = Some bf ∧ usable bf.
Proof.
  intros H. unfold security_check in H. wstep H as bf w1 H1.
  wstep H as ? w2 H2. wstep H as ? w3 H3. wstep H as ? w4 H4. pinv H.
  split; [done|]. exists bf. split; [done|].
  by apply negb_true_iff, Z.eqb_neq in H2, H3, H4.
Qed.
Lemma security_check_eq p w b :
  w_bufs w !! p = Some b → usable b → security_check p w = Ok true w.
Proof.
  intros Hb (H1 & H2 & H3). unfold security_check.
  rewrite (bind_Ok _ _ _ _ _ (buf_at_eq _ _ _ Hb)).
  by rewrite !(proj2 (Z.eqb_neq _ 0)) by done.
Qed.
Lemma increase_sqe_inv this w u w' :
  increase_sqe this w = Ok u w' →
  ∃ c, w_chans w !! this = Some c ∧ w' = w <| w_chans ::= <[this := one_more_sqe c]> |>.
Proof.
  intros H. unfold increase_sqe, count64 in H. wstep H as a w1 H1.
  wstep H as n w2 H2. wstep H2 as ? w3 H3. pinv H2. pinv H. same H H1. eauto.
Qed.
Lemma increase_rqe_inv this w u w' :
  increase_rqe this w = Ok u w' →
  ∃ c, w_chans w !! this = Some c ∧ w' = w <| w_chans ::= <[this := one_more_rqe c]> |>.
Proof.
  intros H. unfold increase_rqe, count64 in H. wstep H as a w1 H1.
  wstep H as n w2 H2. wstep H2 as ? w3 H3. pinv H2. pinv H. same H H1. eauto.
Qed.
Lemma post_send_inv qp wr w b w' :
  post_send qp wr w = Ok b w' →
  b = true ∧ ∃ x m, ibv_post_send qp wr (w_ext w) (w_mem w) = (0, (x, m)) ∧
    w' = w <| w_ext := x |> <| w_mem := m |>.
Proof.
  intros H. unfold post_send in H. wstep H as r w1 H1. wstep H as ? w2 H2. pinv H.
  apply Z.eqb_eq in H2 as ->. eauto.
Qed.

(** What a returned call of one of the four operations means: the checks
    passed and exactly one request [wr] was posted. *)
Definition send_posted w w' this buffer (wr : ibv_send_wr) b m c : Prop :=
  w_bufs w !! buffer = Some b ∧ usable b ∧ w_chans w !! this = Some c ∧
  (∃ s, swr_sg_list wr = [s] ∧ sge_within s b m) ∧ swr_wr_id wr = this ∧
  (∃ x mm, ibv_post_send (qp_ (adapter c)) wr (w_ext w) (w_mem w) = (0, (x, mm)) ∧
     w' = w <| w_chans ::= <[this := one_more_sqe c]> |>
            <| w_ext := x |> <| w_mem := mm |>).

Lemma send_posted_intro w this buffer wr b m c x mm s :
  w_bufs w !! buffer = Some b → usable b → w_chans w !! this = Some c →
  ibv_post_send (qp_ (adapter c)) wr (w_ext w) (w_mem w) = (0, (x, mm)) →
  swr_sg_list wr = [s] → swr_wr_id wr = this → sge_within s b m →
  send_posted w (w <| w_chans ::= <[this := one_more_sqe c]> |>
                   <| w_ext := x |> <| w_mem := mm |>) this buffer wr b m c.
Proof. unfold send_posted. eauto 15. Qed.

(** The one request a returned [send_remote] posted. *)
Lemma send_remote_inv this buffer len tag w r w' :
  send_remote this buffer len tag w = Ok r w' →
  ∃ b m c x mm, w_bufs w !! buffer = Some b ∧ usable b ∧ w_chans w !! this = Some c ∧
    mr_ b = Some m ∧ u32 len ≤ buffer_size b ∧ r = true ∧
    ibv_post_send (qp_ (adapter c)) (send_wr (data_ptr b) (u32 len) (mr_lkey m) (u32 tag) this)
      (w_ext w) (w_mem w) = (0, (x, mm)) ∧
    w' = w <| w_chans ::= <[this := one_more_sqe c]> |> <| w_ext := x |> <| w_mem := mm |>.
Proof.
  intros H. unfold send_remote in H. cbv zeta in H. wstep H as ? w1 H1.
  apply bind_inv in H as (? & w2 & (-> & b & Hb & Hu)%security_check_inv & H).
  wstep H as b' w3 H3. same H3 Hb. wstep H as ? w4 H4. apply Z.leb_le in H4.
  apply bind_inv in H as (? & w5 & (c & Hc & ->)%increase_sqe_inv & H).
  wstep H as a w6 H6. cbn in H6. rewrite lookup_insert_eq in H6. injection H6 as <-.
  unfold real_send_ in H. wstep H as m w7 H7.
  apply post_send_inv in H as (-> & y & mm & E & ->).
  exists b, m, c, y, mm. by split_and!.
Qed.
End request_lemmas.

(** ** Properties *)

Section adapter_properties.
Context {X : Type} `{!Platform X}.
Implicit Types w : World X.

(** C10: [loading] leaves an adapter with a protection domain, a queue pair and
    a live device, in state [RESOURCE_ALLOCATED], and publishes exactly: the
    queue pair's number, LID and link layer of the configured port, the
    negotiated MTU (the smaller of the configured and the port's active one,
    also stored for the path), and the adapter's name, NUL-padded to 128 bytes
    and shorter than 108. *)
Theorem loading_publishes this w info w' c :
  loading this w = Ok info w' → w_chans w !! this = Some c →
  resource_is_allocated (adapter c) = false →
  ∃ a' g q d pa name,
    w_chans w' = <[this := c <| adapter := a' |>]> (w_chans w) ∧
    resource_is_allocated a' = true ∧ vadapt_status_ a' = RESOURCE_ALLOCATED ∧
    pd_ a' ≠ 0 ∧ qp_ a' = Some q ∧ w_devs w' !! rdma_device_ a' = Some d ∧
    port_record d (ib_port (_adapter_config_ (adapter c))) = Some pa ∧
    used_mtu (_adapter_config_ a') =
      negotiated (used_mtu (_adapter_config_ (adapter c))) (port_active_mtu pa) ∧
    info = self_ a' ∧
    self_ a' = own_info g q pa (used_mtu (_adapter_config_ a')) name ∧
    adapter_info this w' = Ok name w' ∧ (String.length name < max_id_length)%nat ∧
    length (unique_id info) = 128%nat ∧ terminated (unique_id info) = true ∧
    head (unique_id info) = Some 82.
Proof.
  intros H Hc Hr. destruct (loading_inv _ _ _ _ _ H Hc Hr)
    as (a' & g & q & d & pa & name & H1 & _ & _ & H4 & H5 & H6 & H7 & H8 & H9 & H10 & H11
        & H12 & H13 & H14).
  exists a', g, q, d, pa, name. unfold max_id_length in H14.
  split_and!; try done; rewrite H11, H12; cbn [own_info unique_id].
  - apply sprintf_into_length. lia.
  - apply bool_decide_eq_true, sprintf_into_terminated. lia.
  - by destruct (adapter_info_prefix _ _ _ _ H13) as [t ->].
Qed.

(** [loading] allocates once: a second call returns the same information
    and changes nothing. *)
Theorem loading_idempotent this w info w' c :
  loading this w = Ok info w' → w_chans w !! this = Some c →
  resource_is_allocated (adapter c) = false →
  loading this w' = Ok info w'.
Proof.
  intros H Hc Hr. destruct (loading_inv _ _ _ _ _ H Hc Hr)
    as (a' & g & q & d & pa & name & H1 & _ & _ & H4 & _ & _ & _ & _ & _ & _ & -> & _ & H13 & _).
  unfold loading.
  rewrite (bind_Ok _ _ _ _ _ (adapter_at_eq _ _ _ (lookup_of_insert H1))). cbn [adapter].
  cbn. rewrite H4. by rewrite (bind_Ok _ _ _ _ _ H13).
Qed.

(** the link layers of the two ends are never compared when the peer's
    information arrives: the [CHECK] assigns, so every peer is stored as it
    came as long as the local link layer is set, and the caller's copy is
    overwritten with the local link layer. *)
Theorem peer_link_layer_unchecked this peer w c :
  w_chans w !! this = Some c → link_layer (self_ (adapter c)) ≠ 0 →
  update_peer_adapter_info this peer w =
    Ok (peer <| link_layer := link_layer (self_ (adapter c)) |>)
       (w <| w_chans ::= <[this := c <| adapter ::= λ a, a <| remote_ := peer |> |>]> |>).
Proof.
  intros Hc Hl. unfold update_peer_adapter_info.
  rewrite (bind_Ok _ _ _ _ _ (upd_adapter_eq _ _ _ _ Hc)).
  erewrite bind_Ok by (apply adapter_at_eq; cbn; apply lookup_insert_eq).
  cbn. by rewrite (proj2 (Z.eqb_neq _ _) Hl).
Qed.

(** on every platform, also one where every [ibv_modify_qp] fails,
    [connecting] to an acceptable peer returns true, leaves the adapter in
    state [CONNECTING] and remembers the peer: the results of the three
    transitions are dropped. *)
Theorem connecting_always_succeeds this peer w c q i :
  qp_ready w this c q → peer_acceptable (adapter c) peer → adapter_info this w = Ok i w →
  ∃ w' c', connecting this peer w = Ok true w' ∧ w_chans w' !! this = Some c' ∧
    vadapt_status_ (adapter c') = CONNECTING ∧ remote_ (adapter c') = peer.
Proof.
  intros Hr Hp Hi. pose proof Hr as (Hc & Hq & Hd).
  pose proof Hp as ((b & Hb & Hb0) & Ht & Hts & Hl & Hll).
  unfold connecting. rewrite Hb. cbn [must]. rewrite bind_ret.
  rewrite (proj2 (Z.eqb_neq _ _) Hb0). cbn [negb check]. rewrite bind_ret.
  set (c1 := c <| adapter ::= λ a, a <| remote_ := peer |> |>).
  set (w1 := w <| w_chans ::= <[this := c1]> |>).
  assert (qp_ready w1 this c1 q) as R1 by (split; [apply lookup_insert_eq|done]).
  assert (update_peer_adapter_info this peer w =
    Ok (peer <| link_layer := link_layer (self_ (adapter c)) |>) w1) as Hu.
  { unfold update_peer_adapter_info.
    rewrite (bind_Ok _ _ _ _ _ (upd_adapter_eq _ _ _ _ Hc)).
    erewrite bind_Ok by (apply adapter_at_eq; cbn; apply lookup_insert_eq).
    cbn. by rewrite (proj2 (Z.eqb_neq _ _) Hl). }
  rewrite (bind_Ok _ _ _ _ _ Hu).
  rewrite (bind_Ok _ _ _ _ _ (adapter_info_cong _ _ w1 _ c1 _ Hc (proj1 R1) eq_refl eq_refl
    eq_refl Hi)).
  rewrite (bind_Ok _ _ _ _ _ (adapter_at_eq _ _ _ (proj1 R1))).
  replace (terminated (unique_id (remote_ (adapter c1)))) with true by (symmetry; exact Ht).
  replace (terminated (unique_id (self_ (adapter c1)))) with true by (symmetry; exact Hts).
  cbn [defined]. rewrite !bind_ret.
  destruct (drive_qp_total _ _ _ _ R1 Hp) as (w' & ia & E & Hc').
  rewrite E. eexists w', _. split; [done|]. by split; [exact Hc'|].
Qed.

(** C28: a [send_remote] that returns has posted exactly one signalled
    send-with-immediate whose local range starts at the buffer and stays inside
    it, carries the buffer's key, the 32-bit tag and the adapter as its
    identity, and has counted one more request in flight. *)
Theorem send_remote_posts this buffer len tag w r w' :
  send_remote this buffer len tag w = Ok r w' →
  ∃ wr b m c, send_posted w w' this buffer wr b m c ∧ r = true ∧
    swr_opcode wr = IBV_WR_SEND_WITH_IMM ∧ swr_imm_data wr = Some (u32 tag) ∧
    swr_remote wr = None ∧ swr_send_flags wr = IBV_SEND_SIGNALED.
Proof.
  intros (b & m & c & x & mm & Hb & Hu & Hc & Hm & Hl & -> & E & ->)%send_remote_inv.
  pose proof (u32_range len). eexists _, b, m, c.
  split; [apply (send_posted_intro _ _ _ _ _ _ _ _ _ _ Hb Hu Hc E eq_refl eq_refl);
      unfold sge_within; cbn; split_and!; done || lia|done].
Qed.

(** a [recv_remote] that returns has posted exactly one receive whose
    range starts at the buffer and stays inside it, and has counted one more
    receive in flight. *)
Theorem recv_remote_posts this buffer len w r w' :
  recv_remote this buffer len w = Ok r w' →
  ∃ wr b m c s x mm, w_bufs w !! buffer = Some b ∧ usable b ∧ w_chans w !! this = Some c ∧
    rwr_sg_list wr = [s] ∧ sge_within s b m ∧ rwr_wr_id wr = this ∧ r = true ∧
    ibv_post_recv (qp_ (adapter c)) wr (w_ext w) (w_mem w) = (0, (x, mm)) ∧
    w' = w <| w_chans ::= <[this := one_more_rqe c]> |>
           <| w_ext := x |> <| w_mem := mm |>.
Proof.
  intros H. unfold recv_remote in H. cbv zeta in H. wstep H as ? w1 H1.
  apply bind_inv in H as (? & w2 & (-> & b & Hb & Hu)%security_check_inv & H).
  wstep H as b' w3 H3. same H3 Hb. wstep H as ? w4 H4. apply Z.leb_le in H4.
  apply bind_inv in H as (? & w5 & (c & Hc & ->)%increase_rqe_inv & H).
  wstep H as a w6 H6. cbn in H6. rewrite lookup_insert_eq in H6. injection H6 as <-.
  unfold real_recv_ in H. wstep H as m w7 H7. wstep H as rc w8 H8.
  wstep H as ? w9 H9. pinv H. apply Z.eqb_eq in H9 as ->.
  eexists (recv_wr _ _ _ _), b, m, c, _, _, _. pose proof (u32_range len).
  split_and!; [done|done|done|reflexivity|..|done|done|exact H8|done].
  unfold sge_within; cbn; split_and!; done || lia.
Qed.

(** A [write_remote] that returns has posted one write into the peer's region. *)
Lemma write_remote_posts this buffer len od tag notify w r w' :
  write_remote this buffer len od tag notify w = Ok r w' →
  ∃ wr b m c d, send_posted w w' this buffer wr b m c ∧ r = true ∧ od = Some d ∧
    swr_remote wr = Some (buffer_addr_ d, rkey_ d) ∧ u32 len ≤ buffer_length_ d ∧
    sge_length <$> swr_sg_list wr = [u32 len] ∧
    (swr_opcode wr, swr_imm_data wr) =
      if notify then (IBV_WR_RDMA_WRITE_WITH_IMM, Some (u32 tag))
      else (IBV_WR_RDMA_WRITE, None).
Proof.
  pose proof (u32_range len) as Hlen. intros H.
  unfold write_remote in H. cbv zeta in H. wstep H as ? w1 H1.
  apply bind_inv in H as (? & w2 & (-> & b & Hb & Hu)%security_check_inv & H).
  wstep H as b' w3 H3. same H3 Hb. wstep H as d w4 H4. wstep H as ? w5 H5.
  apply andb_true_iff in H5 as [H5%Z.leb_le H6%Z.leb_le].
  apply bind_inv in H as (? & w6 & (c & Hc & ->)%increase_sqe_inv & H).
  wstep H as a w7 H7. cbn in H7. rewrite lookup_insert_eq in H7. injection H7 as <-.
  wstep H as m w8 H8. destruct notify;
  apply post_send_inv in H as (-> & y & mm & E & ->);
  (eexists _, b, m, c, d; split;
    [apply (send_posted_intro _ _ _ _ _ _ _ _ _ _ Hb Hu Hc E eq_refl eq_refl);
    unfold sge_within; cbn; split_and!; done || lia|done]).
Qed.

Lemma read_remote_posts this buffer len od w r w' :
  read_remote this buffer len od w = Ok r w' →
  ∃ wr b m c d, send_posted w w' this buffer wr b m c ∧ r = true ∧ od = Some d ∧
    swr_remote wr = Some (buffer_addr_ d, rkey_ d) ∧ u32 len ≤ buffer_length_ d ∧
    sge_length <$> swr_sg_list wr = [u32 len] ∧
    (swr_opcode wr, swr_imm_data wr) = (IBV_WR_RDMA_READ, None).
Proof.
  pose proof (u32_range len) as Hlen. intros H.
  unfold read_remote in H. cbv zeta in H. wstep H as ? w1 H1.
  apply bind_inv in H as (? & w2 & (-> & b & Hb & Hu)%security_check_inv & H).
  wstep H as b' w3 H3. same H3 Hb. wstep H as ? w4 H4. wstep H as d w5 H5.
  wstep H as ? w6 H6. apply Z.leb_le in H4, H6.
  apply bind_inv in H as (? & w7 & (c & Hc & ->)%increase_sqe_inv & H).
  wstep H as a w8 H8. cbn in H8. rewrite lookup_insert_eq in H8. injection H8 as <-.
  wstep H as m w9 H9. apply post_send_inv in H as (-> & y & mm & E & ->).
  eexists _, b, m, c, d; split;
    [apply (send_posted_intro _ _ _ _ _ _ _ _ _ _ Hb Hu Hc E eq_refl eq_refl);
    unfold sge_within; cbn; split_and!; done || lia|done].
Qed.

(** C16: a one-sided [write_remote] or [read_remote] that returns has posted
    exactly one request of the right kind whose length fits both the local
    buffer and the peer's descriptor: the local range lies in the buffer and
    the remote range is the first bytes of the peer's region, under its key. *)
Theorem one_sided_within_regions this buffer len od tag notify w r w' :
  (write_remote this buffer len od tag notify w = Ok r w' →
   ∃ wr b m c d, send_posted w w' this buffer wr b m c ∧ r = true ∧ od = Some d ∧
     swr_remote wr = Some (buffer_addr_ d, rkey_ d) ∧ u32 len ≤ buffer_length_ d ∧
     sge_length <$> swr_sg_list wr = [u32 len] ∧
     (swr_opcode wr, swr_imm_data wr) =
       if notify then (IBV_WR_RDMA_WRITE_WITH_IMM, Some (u32 tag))
       else (IBV_WR_RDMA_WRITE, None)) ∧
  (read_remote this buffer len od w = Ok r w' →
   ∃ wr b m c d, send_posted w w' this buffer wr b m c ∧ r = true ∧ od = Some d ∧
     swr_remote wr = Some (buffer_addr_ d, rkey_ d) ∧ u32 len ≤ buffer_length_ d ∧
     sge_length <$> swr_sg_list wr = [u32 len] ∧
     (swr_opcode wr, swr_imm_data wr) = (IBV_WR_RDMA_READ, None)).
Proof. split; [apply write_remote_posts|apply read_remote_posts]. Qed.

(** a request longer than the local buffer ends the process before
    anything is posted or counted, for all four operations. *)
Theorem oversized_request_fatal this buffer len od d tag notify w b :
  w_bufs w !! buffer = Some b → usable b → buffer ≠ 0 → buffer_size b < u32 len →
  send_remote this buffer len tag w = Abort (Fatal "Invalid data length to send") w ∧
  recv_remote this buffer len w = Abort (Fatal "Invalid data length to recv") w ∧
  read_remote this buffer len od w = Abort (Fatal "Invalid data length to read") w ∧
  write_remote this buffer len (Some d) tag notify w =
    Abort (Fatal "Invalid data length to write") w.
Proof.
  intros Hb Hu Hn Hlt.
  assert ((u32 len <=? buffer_size b) = false) as Hle by (apply Z.leb_gt; lia).
  unfold send_remote, recv_remote, read_remote, write_remote. cbv zeta.
  rewrite (proj2 (Z.eqb_neq _ 0) Hn). cbn [negb check]. rewrite !bind_ret.
  rewrite !(bind_Ok _ _ _ _ _ (security_check_eq _ _ _ Hb Hu)).
  rewrite !(bind_Ok _ _ _ _ _ (buf_at_eq _ _ _ Hb)). by rewrite !Hle.
Qed.

Context `{!QpLaws X}.

(** C1: a [connecting] that returns has made the requests for INIT, RTR and RTS,
    in this order, each with the attributes the verbs require for its transition and
    the second for the peer's queue pair.  Whatever the answers, it returns true and
    reports [CONNECTING]; the queue pair is where the answers take it.  From RESET
    that is as far as the requests are granted, and RTS exactly when all three are;
    from the error state all three are refused and it stays in error. *)
Theorem connecting_qp_state this peer w b w' c q :
  connecting this peer w = Ok b w' → w_chans w !! this = Some c →
  qp_ (adapter c) = Some q →
  let rqs := connect_requests (adapter (with_peer peer c)) in
  let st x := qp_st x (qp_handle q) in
  b = true ∧
  (∃ c', w_chans w' !! this = Some c' ∧ vadapt_status_ (adapter c') = CONNECTING ∧
     remote_ (adapter c') = peer) ∧
  Forall2 (λ rq t, complete_for t.1 t.2 rq) rqs
    [(IBV_QPS_RESET, IBV_QPS_INIT); (IBV_QPS_INIT, IBV_QPS_RTR); (IBV_QPS_RTR, IBV_QPS_RTS)] ∧
  (dest_qp_num ∘ rq_attr <$> rqs !! 1%nat) = Some (qp_num peer) ∧
  ∃ rs, driven q rqs rs (w_ext w) (w_ext w') ∧
    st (w_ext w') = foldl answered (st (w_ext w)) (zip rqs rs) ∧
    (st (w_ext w) = IBV_QPS_RESET →
       st (w_ext w') = reached rs ∧ (st (w_ext w') = IBV_QPS_RTS ↔ rs = [0; 0; 0])) ∧
    (st (w_ext w) = IBV_QPS_ERR → Forall (λ r, r ≠ 0) rs ∧ st (w_ext w') = IBV_QPS_ERR).
Proof.
  intros H Hc Hq rqs st. destruct (connecting_driven _ _ _ _ _ _ _ H Hc Hq)
    as (-> & (rs & Hd) & ia & Hc').
  split; [done|]. split; [eauto|]. split; [|split; [done|]].
  { repeat (constructor; [split; [done|by eexists]|]). constructor. }
  exists rs. split; [done|]. pose proof (connect_requests_state (adapter (with_peer peer c))) as Hf.
  split; [apply (driven_st _ _ _ _ _ Hd Hf)|]. split; [exact (driven_reached _ _ _ _ _ Hd)|].
  eapply driven_refused; [exact Hd|exact Hf|by repeat constructor|done].
Qed.

(** C38: [RDMAEndPoint::reset]'s sequence, [reset_hca] and then [connecting],
    first asks for RESET with a request that is complete in every state, the error
    state included.  When it is granted, the queue pair ends where the answers to
    the three requests of [connecting] take it from RESET, in RTS exactly when all
    three are granted; a queue pair in error whose reset is refused stays in
    error although true is returned. *)
Theorem reset_then_connecting this peer w b w' c q :
  (reset_hca this ;; connecting this peer) w = Ok b w' →
  w_chans w !! this = Some c → qp_ (adapter c) = Some q →
  let st x := qp_st x (qp_handle q) in
  b = true ∧ (∀ s, complete_for s IBV_QPS_RESET reset_request) ∧
  ∃ r x m rs,
    ibv_modify_qp q (rq_attr reset_request) (rq_flags reset_request) (w_ext w) (w_mem w) =
      (r, (x, m)) ∧
    driven q (connect_requests (adapter (with_peer peer c))) rs x (w_ext w') ∧
    (r = 0 → st (w_ext w') = reached rs ∧ (st (w_ext w') = IBV_QPS_RTS ↔ rs = [0; 0; 0])) ∧
    (r ≠ 0 → st (w_ext w) = IBV_QPS_ERR → st (w_ext w') = IBV_QPS_ERR).
Proof.
  intros H Hc Hq st. apply bind_inv in H as (b1 & w1 & H1 & H).
  unfold reset_hca in H1. apply bind_inv in H1 as (r & w2 & H2 & H1). pinv H1.
  unfold modify_qp_to_reset in H2. wstep H2 as a w3 H3. same H3 Hc.
  unfold qp_of in H2. rewrite Hq in H2. apply call_inv in H2 as (x & m & E & ->).
  destruct (connecting_driven _ _ _ _ _ _ _ H Hc Hq) as (-> & (rs & Hd) & _).
  cbn in Hd.
  split; [done|]. split.
  { intros s. split; [done|]. exists IBV_QP_STATE. by destruct s. }
  exists r, x, m, rs. split; [exact E|]. split; [exact Hd|]. split.
  - intros ->. apply driven_reached in Hd; [done|]. by apply (modify_done _ _ _ _ _ _ _ E).
  - intros Hr He. eapply driven_refused; [exact Hd|apply connect_requests_state|
      by repeat constructor|done|]. by rewrite (modify_failed _ _ _ _ _ _ _ _ E Hr).
Qed.
End adapter_properties.

(** ** Witnesses *)

(** A channel of an endpoint of a session, with a shared completion queue. *)
Definition ad_chan : RDMAChannel :=
  mkRDMAChannel (init_adapter "DataChannel" <| _adapter_config_ ::= λ c, c <| cq_key := "cq" |> |>)
    default_Config ∅ 400.
Definition ad_sess : RDMASession :=
  mkRDMASession (default_Config <| role := "master" |> <| session_id := "s" |>) [400] false
    DefaultFn DefaultFn DefaultFn DefaultFn DefaultFn DefaultFn.
Definition ad_w0 : World Sim :=
  world0 <| w_chans := {[500 := ad_chan]} |>
    <| w_eps := {[400 := mkRDMAEndPoint "ep" default_Config 300 [500] 200]} |>
    <| w_conns := {[300 := mkTCPConnector 5 "10.0.0.2" 2020 "10.0.0.1" 5005]} |>
    <| w_sess := {[200 := ad_sess]} |>.
Definition ad_w1 : World Sim := state_of (loading 500 ad_w0).
Definition ad_info : AdapterInfo := default default_AdapterInfo (value (loading 500 ad_w0)).
Definition ad_peer : AdapterInfo := ad_info <| qp_num := 77 |>.

Lemma loading_publishes_witness :
  ∃ a', w_chans ad_w1 = <[500 := ad_chan <| adapter := a' |>]> (w_chans ad_w0) ∧
    used_mtu (_adapter_config_ a') = 3 ∧ active_mtu ad_info = 3.
Proof.
  destruct (loading_publishes 500 ad_w0 ad_info ad_w1 ad_chan) as
    (a' & g & q & d & pa & name & H1 & _ & _ & _ & _ & Hd & Hpa & Hm & Hi & Hs & _).
  - vm_compute; reflexivity.
  - reflexivity.
  - reflexivity.
  - exists a'. split; [exact H1|].
    assert (a' = adapter (default ad_chan (w_chans ad_w1 !! 500))) as -> by (by rewrite H1).
    split; vm_compute; reflexivity.
Defined.

Lemma loading_idempotent_witness : loading 500 ad_w1 = Ok ad_info ad_w1.
Proof.
  apply (loading_idempotent 500 ad_w0 ad_info ad_w1 ad_chan).
  - vm_compute; reflexivity.
  - reflexivity.
  - reflexivity.
Defined.

Definition ad_c1 : RDMAChannel := default ad_chan (w_chans ad_w1 !! 500).
Definition ad_q : ibv_qp := default (mkIbvQp 0 0) (qp_ (adapter ad_c1)).

(** The local port is Ethernet; a peer on InfiniBand is stored all the same. *)
Lemma peer_link_layer_unchecked_witness :
  value (update_peer_adapter_info 500 (ad_peer <| link_layer := 1 |>) ad_w1) =
    Some (ad_peer <| link_layer := 2 |>).
Proof.
  rewrite (peer_link_layer_unchecked 500 (ad_peer <| link_layer := 1 |>) ad_w1 ad_c1).
  - vm_compute; reflexivity.
  - vm_compute; reflexivity.
  - vm_compute; discriminate.
Defined.

(** The queue pair is in error, every transition is refused. *)
Definition ad_w_err : World Sim :=
  ad_w1 <| w_ext ::= λ x, x <| sim_qps := {[qp_handle ad_q := IBV_QPS_ERR]} |> |>.

Lemma ad_qp_ready : qp_ready ad_w_err 500 ad_c1 ad_q.
Proof.
  split; [vm_compute; reflexivity|]. split; [vm_compute; reflexivity|].
  eexists. vm_compute. reflexivity.
Defined.

Lemma connecting_always_succeeds_witness :
  ∃ w' c', connecting 500 ad_peer ad_w_err = Ok true w' ∧ w_chans w' !! 500 = Some c' ∧
    vadapt_status_ (adapter c') = CONNECTING ∧ remote_ (adapter c') = ad_peer.
Proof.
  apply (connecting_always_succeeds 500 ad_peer ad_w_err ad_c1 ad_q
    (default "" (value (adapter_info 500 ad_w_err)))).
  - apply ad_qp_ready.
  - split; [exists 82; split; [vm_compute; reflexivity|lia]|].
    split; [vm_compute; reflexivity|]. split; [vm_compute; reflexivity|].
    split; [vm_compute; discriminate|]. split; [vm_compute; reflexivity|vm_compute; discriminate].
  - vm_compute; reflexivity.
Defined.

(** A peer whose queue pair number is too large is refused at the second request. *)
Definition ad_peer_far : AdapterInfo := ad_peer <| qp_num := 2^24 |>.
Definition ad_st (w : World Sim) : ibv_qp_state := qp_st (w_ext w) (qp_handle ad_q).

Lemma connecting_qp_state_witness :
  (∃ rs, driven ad_q (connect_requests (adapter (with_peer ad_peer ad_c1))) rs
     (w_ext ad_w1) (w_ext (state_of (connecting 500 ad_peer ad_w1))) ∧ rs = [0; 0; 0]) ∧
  (∃ rs, ad_st (state_of (connecting 500 ad_peer_far ad_w1)) = reached rs ∧
     reached rs = IBV_QPS_INIT) ∧
  ad_st (state_of (connecting 500 ad_peer ad_w_err)) = IBV_QPS_ERR.
Proof.
  split; [|split].
  - destruct (connecting_qp_state 500 ad_peer ad_w1 true (state_of (connecting 500 ad_peer ad_w1))
      ad_c1 ad_q) as (_ & _ & _ & _ & rs & Hd & _ & Hr & _); [vm_compute; reflexivity..|].
    exists rs. split; [exact Hd|]. destruct Hr as [_ Hr]; [vm_compute; reflexivity|].
    apply Hr. vm_compute. reflexivity.
  - destruct (connecting_qp_state 500 ad_peer_far ad_w1 true
      (state_of (connecting 500 ad_peer_far ad_w1)) ad_c1 ad_q)
      as (_ & _ & _ & _ & rs & _ & _ & Hr & _); [vm_compute; reflexivity..|].
    destruct Hr as [Hr _]; [vm_compute; reflexivity|]. exists rs. split; [exact Hr|].
    rewrite <-Hr. vm_compute. reflexivity.
  - destruct (connecting_qp_state 500 ad_peer ad_w_err true
      (state_of (connecting 500 ad_peer ad_w_err)) ad_c1 ad_q)
      as (_ & _ & _ & _ & rs & _ & _ & _ & He); [vm_compute; reflexivity..|].
    apply He. vm_compute. reflexivity.
Defined.

Lemma reset_then_connecting_witness :
  let w' := state_of ((reset_hca 500 ;; connecting 500 ad_peer) ad_w_err) in
  ∃ rs, ad_st w' = reached rs ∧ ad_st w' = IBV_QPS_RTS ∧ rs = [0; 0; 0].
Proof.
  intros w'. destruct (reset_then_connecting 500 ad_peer ad_w_err true w' ad_c1 ad_q)
    as (_ & _ & r & x & m & rs & E & _ & Hr & _); [vm_compute; reflexivity..|].
  assert (ad_st w' = IBV_QPS_RTS) as Hs by (vm_compute; reflexivity).
  destruct Hr as [Hr Hrts]; [vm_compute in E; congruence|].
  exists rs. split; [exact Hr|]. split; [exact Hs|]. by apply Hrts.
Defined.

(** A registered buffer of 64 bytes at 2^20, and the peer's region of 40. *)
Definition ad_buf : RDMABuffer :=
  mkRDMABuffer "b" 64 (2^20) 500 true (Some (mkIbvMr 9 1009 2009)) (-1) (-1) false (-1) []
    false 1 600.
Definition ad_desc : CommDescriptor := mkCommDescriptor 8192 40 33 0.
Definition ad_w2 : World Sim := ad_w1 <| w_bufs := {[600 := ad_buf]} |>.

Lemma send_remote_posts_witness :
  ∃ wr b m c, send_posted ad_w2 (state_of (send_remote 500 600 24 7 ad_w2)) 500 600 wr b m c ∧
    swr_imm_data wr = Some 7.
Proof.
  destruct (send_remote_posts 500 600 24 7 ad_w2 true (state_of (send_remote 500 600 24 7 ad_w2)))
    as (wr & b & m & c & H & _ & _ & Hi & _).
  - vm_compute; reflexivity.
  - exists wr, b, m, c. split; [exact H|exact Hi].
Defined.

Lemma recv_remote_posts_witness :
  ∃ b, w_bufs ad_w2 !! 600 = Some b ∧ usable b.
Proof.
  destruct (recv_remote_posts 500 600 64 ad_w2 true (state_of (recv_remote 500 600 64 ad_w2)))
    as (wr & b & m & c & s & x & mm & Hb & Hu & _).
  - vm_compute; reflexivity.
  - exists b. split; [exact Hb|exact Hu].
Defined.

Lemma one_sided_within_regions_witness :
  u32 40 ≤ 40 ∧ u32 12 ≤ 40.
Proof.
  split.
  - destruct (proj1 (one_sided_within_regions 500 600 40 (Some ad_desc) 5 true ad_w2 true
      (state_of (write_remote 500 600 40 (Some ad_desc) 5 true ad_w2))))
      as (wr & b & m & c & d & _ & _ & [= <-] & _ & H & _).
    + vm_compute; reflexivity.
    + exact H.
  - destruct (proj2 (one_sided_within_regions 500 600 12 (Some ad_desc) 5 true ad_w2 true
      (state_of (read_remote 500 600 12 (Some ad_desc) ad_w2))))
      as (wr & b & m & c & d & _ & _ & [= <-] & _ & H & _).
    + vm_compute; reflexivity.
    + exact H.
Defined.

Lemma oversized_request_fatal_witness :
  send_remote 500 600 65 0 ad_w2 = Abort (Fatal "Invalid data length to send") ad_w2.
Proof.
  refine (proj1 (oversized_request_fatal 500 600 65 None ad_desc 0 false ad_w2 ad_buf _ _ _ _)).
  - vm_compute; reflexivity.
  - split; [|split]; vm_compute; discriminate.
  - lia.
  - vm_compute; reflexivity.
Defined.
