(* ===== verification/Channel.v ===== *)
(** * RDMAChannel (include/rdma_channel.h, src/rdma_channel.cc)

    The user-level connection: an [RDMAAdapter] with a table of the buffers
    registered in it and a table of the peer's buffer descriptors.  The module
    also gives the implementation of [AdapterOps] that buffers are registered
    through, and discharges its laws. *)
From S2P Require Import Prelude Words Types World Sim Ident Device Buffer Adapter.

Section channel.
Context {X : Type} `{!Platform X}.

(** The constructor and [build_rdma_channel]. *)
Definition build_rdma_channel (con : Config) (id : string) (owned_ep : Z) : W X Z :=
  this ← new_addr;
  set_chan this (mkRDMAChannel (init_adapter id) con ∅ owned_ep) ;;
  mret this.

Definition setup_index_in_session (this index : Z) : W X unit :=
  upd_adapter this (λ a, a <| indexed_by_session := index |>).
Definition get_index_in_session (this : Z) : W X Z :=
  a ← adapter_at this; mret (indexed_by_session a).

(** [std::map::erase] by key. *)
Definition remove_buffer (this buffer : Z) : W X bool :=
  check (negb (buffer =? 0)) "RDMABuffer has not been initialized" ;;
  b ← buf_at buffer;
  a ← adapter_at this;
  match owning_buffers a !! buffer_name b with
  | None => channel_info this ;; mret false
  | Some _ =>
      upd_adapter this (λ a, a <| owning_buffers ::= delete (buffer_name b) |>) ;;
      mret false
  end.

(** Virtual dispatch from [RDMABuffer] to this class. *)
#[export] Instance channel_ops : AdapterOps X := {
  op_register_mem := register_mem;
  op_deregister_mem := deregister_mem;
  op_remove_buffer := remove_buffer
}.

Definition register_buffer (this buffer : Z) : W X bool :=
  check (negb (buffer =? 0)) "RDMABuffer has not been initialized" ;;
  b ← buf_at buffer;
  a ← adapter_at this;
  (match owning_buffers a !! buffer_name b with
   | Some _ => channel_info this ;; log_fatal "already been registered in this channel"
   | None => mret tt
   end) ;;
  register_in_channel buffer this ;;
  b ← buf_at buffer;
  upd_adapter this (λ a, a <| owning_buffers ::= λ m,
    match m !! buffer_name b with
    | Some _ => m
    | None => <[buffer_name b := buffer]> m
    end |>) ;;
  mret true.

(** 0 is a null pointer. *)
Definition find_buffer (this : Z) (key : string) : W X Z :=
  a ← adapter_at this;
  match owning_buffers a !! key with
  | None => mret 0
  | Some p => mret p
  end.

Definition insert_peer_buffer (this : Z) (key : string) (peer : CommDescriptor)
    : W X bool :=
  c ← chan_at this;
  match peer_buffer_mgr_ c !! key with
  | Some _ => channel_info this ;; mret false
  | None => upd_chan this (λ c, c <| peer_buffer_mgr_ ::= <[key := peer]> |>) ;; mret true
  end.

Definition find_peer_buffer (this : Z) (key : string) : W X (option CommDescriptor) :=
  c ← chan_at this; mret (peer_buffer_mgr_ c !! key).

(** ** The destructor

    The range-based loop walks [owning_buffers] in key order while
    [deregister_from_channel] erases from it; going on from an element that
    was erased is undefined. *)

Definition min_key (l : list string) : option string :=
  foldr (λ k o, match o with
                | Some k' => Some (if String.ltb k k' then k else k')
                | None => Some k
                end) None l.
Definition first_key (m : gmap string Z) : option string := min_key (map_to_list m).*1.
Definition next_key (m : gmap string Z) (k : string) : option string :=
  min_key (filter (λ k', String.ltb k k' = true) (map_to_list m).*1).

Fixpoint dtor_loop (fuel : nat) (this : Z) (key : string) : W X unit :=
  match fuel with
  | O => fail OutOfFuel
  | S fuel =>
      a ← adapter_at this;
      buffer ← must (owning_buffers a !! key) "owning_buffers iterator";
      deregister_from_channel buffer this ;;
      a ← adapter_at this;
      defined (bool_decide (is_Some (owning_buffers a !! key)))
        "increment of an erased iterator" ;;
      match next_key (owning_buffers a) key with
      | None => mret tt
      | Some key => dtor_loop fuel this key
      end
  end.

Definition RDMAChannel_dtor (this : Z) : W X unit :=
  a ← adapter_at this;
  match first_key (owning_buffers a) with
  | None => mret tt
  | Some key => dtor_loop (S (size (owning_buffers a))) this key
  end.
End channel.

(** ** Laws *)

Section channel_laws.
Context {X : Type} `{!Platform X}.

Lemma keeps_channel_info {P} (p : World X → P) ch : keeps p (channel_info ch).
Proof. unfold channel_info. solve_keeps. Qed.
#[local] Hint Resolve keeps_channel_info : keeps.

Lemma keeps_real_register_mem {P} (p : World X → P) d pd a n f i :
  (∀ w x m, p (w <| w_ext := x |> <| w_mem := m |>) = p w) →
  keeps p (real_register_mem d pd a n f i).
Proof. intros Hp. unfold real_register_mem. eauto 20 using keeps_call with keeps. Qed.

#[export] Instance channel_laws : AdapterLaws X.
Proof.
  split; intros; cbn; unfold register_mem, deregister_mem, remove_buffer,
    real_register_mem, real_deregister_mem in *.
  1-3: solve_keeps.
  cbn in H. unfold register_mem, real_register_mem in H.
  wstep H as a w1 H1. wstep H as ? w2 H2. wstep H as ? w3 H3. wstep H as ? w4 H4.
  wstep H as ? w5 H5. wstep H as mr w6 H6. wstep H as ? w7 H7. pinv H.
  by apply bool_decide_eq_true in H7.
Qed.

Lemma keeps_chans_register_mem c a n f i :
  keeps (w_chans (X:=X)) (op_register_mem c a n f i).
Proof. cbn. unfold register_mem, real_register_mem. solve_keeps. Qed.
Lemma keeps_chans_deregister_mem c m i :
  keeps (w_chans (X:=X)) (op_deregister_mem c m i).
Proof. cbn. unfold deregister_mem, real_deregister_mem. solve_keeps. Qed.
#[local] Hint Resolve keeps_chans_register_mem keeps_chans_deregister_mem : keeps.
Lemma keeps_chans_register_in_channel p ch :
  keeps (w_chans (X:=X)) (register_in_channel p ch).
Proof. unfold register_in_channel. solve_keeps. Qed.
End channel_laws.

(** ** Lemmas *)

Section channel_lemmas.
Context {X : Type} `{!Platform X}.
Implicit Types w : World X.

Lemma channel_info_read ch w i w' : channel_info ch w = Ok i w' → w' = w.
Proof.
  intros H. unfold channel_info in H.
  apply bind_inv in H as (eid & w2 & ->%channel_get_id_read & H). by pinv H.
Qed.

Lemma elem_of_min_key l k : min_key l = Some k → k ∈ l.
Proof.
  revert k. induction l as [|k0 l IH]; intros k; cbn; [done|].
  fold (min_key l). destruct (min_key l) as [k'|]; [|intros [= ->]; left].
  intros [= <-]. destruct (String.ltb _ _); [left|right; auto].
Qed.
Lemma elem_of_first_key m k : first_key m = Some k → is_Some (m !! k).
Proof.
  intros H%elem_of_min_key. apply list_elem_of_fmap in H as ([k' p] & -> & H).
  apply elem_of_map_to_list in H. eauto.
Qed.

Lemma find_buffer_eq ch w c key :
  w_chans w !! ch = Some c →
  find_buffer ch key w = Ok (default 0 (owning_buffers (adapter c) !! key)) w.
Proof.
  intros Hc. unfold find_buffer. rewrite (bind_Ok _ _ _ _ _ (adapter_at_eq _ _ _ Hc)).
  by destruct (_ !! key).
Qed.

Lemma remove_buffer_inv ch p w u w' b c :
  remove_buffer ch p w = Ok u w' → w_bufs w !! p = Some b → w_chans w !! ch = Some c →
  u = false ∧ w_chans w' = <[ch := c <| adapter ::= λ a,
    a <| owning_buffers ::= delete (buffer_name b) |> |>]> (w_chans w).
Proof.
  intros H Hb Hc. unfold remove_buffer in H. wstep H as ? w1 H1.
  wstep H as b' w2 H2. same H2 Hb. wstep H as a w3 H3. same H3 Hc.
  destruct (owning_buffers _ !! _) eqn:Hk.
  - wstep H as ? w4 H4. same H4 Hc. pinv H. done.
  - apply bind_inv in H as (i & w4 & ->%channel_info_read & H). pinv H.
    split; [done|]. symmetry. apply insert_id. rewrite Hc.
    destruct c as [[] ? ? ?]; cbn in *. do 3 f_equal. by rewrite delete_id.
Qed.

(** Deregistration takes the buffer's name out of the channel. *)
Lemma deregister_owning p ch w v w' b c :
  deregister_from_channel p ch w = Ok v w' → ch ≠ 0 →
  w_bufs w !! p = Some b → w_chans w !! ch = Some c →
  ∃ c', w_chans w' !! ch = Some c' ∧
    owning_buffers (adapter c') = delete (buffer_name b) (owning_buffers (adapter c)).
Proof.
  intros H Hch Hb Hc. unfold deregister_from_channel in H.
  rewrite (proj2 (Z.eqb_neq _ _) Hch) in H.
  wstep H as b1 w1 H1. same H1 Hb. wstep H as ? w2 H2. wstep H as ? w3 H3.
  apply bind_inv in H as (? & w4 & H4 & H).
  pose proof (deregister_mem_bufs _ _ _ _ _ _ H4) as Hb4.
  apply keeps_chans_deregister_mem in H4.
  apply bind_inv in H as (? & w5 & H5 & H).
  eapply remove_buffer_inv in H5 as [_ Hc5]; [|by rewrite Hb4|by rewrite H4].
  wstep H as ? w6 H6. wstep H as ? w7 H7. pinv H. cbn.
  rewrite Hc5, lookup_insert_eq. eexists. split; [done|]. done.
Qed.

Lemma register_buffer_inv ch p r b c w u w' :
  ring_wf (w_bufs w) p r → w_bufs w !! p = Some b → w_chans w !! ch = Some c →
  register_buffer ch p w = Ok u w' →
  ∃ mr, is_Some mr ∧ owning_buffers (adapter c) !! buffer_name b = None ∧
    w_chans w' = <[ch := c <| adapter ::= λ a,
      a <| owning_buffers ::= <[buffer_name b := p]> |> |>]> (w_chans w) ∧
    w_bufs w' !! p = Some (registered ch mr b) ∧
    (∀ s, s ∈ slots r → w_bufs w' !! s = registered ch mr <$> w_bufs w !! s).
Proof.
  intros Hwf Hb Hc H. unfold register_buffer in H. wstep H as ? w1 H1.
  wstep H as b' w2 H2. same H2 Hb. wstep H as a w3 H3. same H3 Hc.
  apply bind_inv in H as (? & w4 & H4 & H).
  destruct (owning_buffers (adapter c) !! buffer_name b) as [q|] eqn:Hk.
  { apply bind_inv in H4 as (i & w5 & _ & H4). done. }
  pinv H4. apply bind_inv in H as (v & w5 & H5 & H).
  destruct (register_in_channel_inv _ _ _ _ _ _ _ Hwf Hb H5)
    as (mr & Hmr & _ & _ & Hp5 & Hs5).
  apply keeps_chans_register_in_channel in H5.
  wstep H as b6 w6 H6. same H6 Hp5. wstep H as ? w7 H7. rewrite H5 in H7. same H7 Hc.
  pinv H. exists mr. cbn. rewrite H5. cbn. rewrite Hk. split_and!; done.
Qed.
End channel_lemmas.

(** ** Properties *)

Section channel_properties.
Context {X : Type} `{!Platform X}.
Implicit Types w : World X.

(** C23: registering a buffer in a channel is only possible under a new name;
    afterwards [find_buffer] finds it under its name and every other name as
    before, and the buffer and all its blocks carry the channel and one
    memory region. *)
Theorem register_buffer_owned ch p r b c w u w' :
  ring_wf (w_bufs w) p r → w_bufs w !! p = Some b → w_chans w !! ch = Some c →
  register_buffer ch p w = Ok u w' →
  (find_buffer ch (buffer_name b) w = Ok 0 w) ∧
  (∀ key, find_buffer ch key w' =
     Ok (if decide (key = buffer_name b) then p
         else default 0 (owning_buffers (adapter c) !! key)) w') ∧
  ∃ mr, is_Some mr ∧ ∀ s, s = p ∨ s ∈ slots r →
    w_bufs w' !! s = registered ch mr <$> w_bufs w !! s.
Proof.
  intros Hwf Hb Hc H. destruct (register_buffer_inv _ _ _ _ _ _ _ _ Hwf Hb Hc H)
    as (mr & Hmr & Hk & Hch & Hp & Hs).
  split; [by rewrite (find_buffer_eq _ _ _ _ Hc), Hk|]. split.
  - intros key. rewrite (find_buffer_eq _ _ _ _ (lookup_of_insert Hch)). cbn.
    destruct (decide (key = buffer_name b)) as [->|Hne].
    + by rewrite lookup_insert_eq.
    + by rewrite lookup_insert_ne.
  - exists mr. split; [done|]. intros s [->|Hin]; [by rewrite Hp, Hb|auto].
Qed.

(** C24: deregistering undoes the registration as far as the channel goes: its
    table of buffers is what it was before, the name is free again, and the
    call returns false although it succeeded. *)
Theorem register_deregister_roundtrip ch p r b c w u w1 v w2 :
  ring_wf (w_bufs w) p r → w_bufs w !! p = Some b → w_chans w !! ch = Some c → ch ≠ 0 →
  register_buffer ch p w = Ok u w1 → deregister_from_channel p ch w1 = Ok v w2 →
  v = false ∧ ∃ c2, w_chans w2 !! ch = Some c2 ∧
    owning_buffers (adapter c2) = owning_buffers (adapter c) ∧
    find_buffer ch (buffer_name b) w2 = Ok 0 w2.
Proof.
  intros Hwf Hb Hc Hch H1 H2. destruct (register_buffer_inv _ _ _ _ _ _ _ _ Hwf Hb Hc H1)
    as (mr & Hmr & Hk & Hch1 & Hp & _).
  destruct (deregister_from_channel_inv _ _ _ _ _ _ H2 Hch Hp) as [-> _].
  destruct (deregister_owning _ _ _ _ _ _ _ H2 Hch Hp (lookup_of_insert Hch1))
    as (c2 & Hc2 & Ho). cbn in Ho. rewrite delete_insert_id in Ho by done.
  split; [done|]. exists c2. split; [done|]. split; [done|].
  by rewrite (find_buffer_eq _ _ _ _ Hc2), Ho, Hk.
Qed.

(** a second buffer under a registered name, or the same buffer again,
    ends the process and leaves the state as it was. *)
Theorem duplicate_registration_aborts ch p q b c w :
  p ≠ 0 → w_bufs w !! p = Some b → w_chans w !! ch = Some c →
  owning_buffers (adapter c) !! buffer_name b = Some q →
  ∃ f w', register_buffer ch p w = Abort f w' ∧
    ∀ i, channel_info ch w = Ok i w →
      f = Fatal "already been registered in this channel" ∧ w' = w.
Proof.
  intros Hp Hb Hc Hk. unfold register_buffer.
  rewrite (proj2 (Z.eqb_neq _ _) Hp). cbn [negb check]. rewrite bind_ret.
  rewrite (bind_Ok _ _ _ _ _ (buf_at_eq _ _ _ Hb)).
  rewrite (bind_Ok _ _ _ _ _ (adapter_at_eq _ _ _ Hc)), Hk, bind_assoc.
  destruct (channel_info ch w) as [i w'|f w'] eqn:Hi.
  - rewrite (bind_Ok _ _ _ _ _ Hi). apply channel_info_read in Hi as ->.
    eexists _, _. split; [reflexivity|]. done.
  - rewrite (bind_Abort _ _ _ _ _ Hi). eexists _, _. split; [reflexivity|]. done.
Qed.

(** the first descriptor inserted for a key wins: it is found from then
    on, and a later insertion under the key returns false and changes
    nothing. *)
Theorem peer_buffer_first_wins ch key d w w1 :
  insert_peer_buffer ch key d w = Ok true w1 →
  find_peer_buffer ch key w = Ok None w ∧ find_peer_buffer ch key w1 = Ok (Some d) w1 ∧
  ∀ d' r w2, insert_peer_buffer ch key d' w1 = Ok r w2 → r = false ∧ w2 = w1.
Proof.
  intros H. unfold insert_peer_buffer in H. wstep H as c w0 H0.
  destruct (peer_buffer_mgr_ c !! key) eqn:Hk.
  { apply bind_inv in H as (i & w3 & _ & H). done. }
  wstep H as ? w3 H3. same H3 H0. injection H as <-.
  set (c1 := c <| peer_buffer_mgr_ ::= <[key := d]> |>).
  set (w1 := w <| w_chans ::= <[ch := c1]> |>).
  assert (w_chans w1 !! ch = Some c1) as Hc1 by apply lookup_insert_eq.
  assert (peer_buffer_mgr_ c1 !! key = Some d) as Hk1 by apply lookup_insert_eq.
  unfold find_peer_buffer, insert_peer_buffer.
  rewrite (bind_Ok _ _ _ _ _ (chan_at_eq _ _ _ H0)), Hk.
  rewrite (bind_Ok _ _ _ _ _ (chan_at_eq _ _ _ Hc1)), Hk1.
  split; [done|]. split; [done|]. intros d' r w2 H.
  rewrite (bind_Ok _ _ _ _ _ (chan_at_eq _ _ _ Hc1)), Hk1 in H.
  apply bind_inv in H as (i & w3 & ->%channel_info_read & H). by pinv H.
Qed.

(** destroying a channel is harmless only when no buffer is registered:
    otherwise the loop over the table deregisters one buffer, which erases the
    element the loop stands on, and advancing from there is undefined. *)
Theorem channel_destructor_undefined ch c w :
  ch ≠ 0 → w_chans w !! ch = Some c →
  (∀ k p, owning_buffers (adapter c) !! k = Some p →
     ∃ b, w_bufs w !! p = Some b ∧ buffer_name b = k) →
  if decide (owning_buffers (adapter c) = ∅) then RDMAChannel_dtor ch w = Ok tt w
  else ∃ k p, owning_buffers (adapter c) !! k = Some p ∧
    RDMAChannel_dtor ch w =
      match deregister_from_channel p ch w with
      | Ok _ w1 => Abort (UB "increment of an erased iterator") w1
      | Abort f w1 => Abort f w1
      end.
Proof.
  intros Hch Hc Hnames. unfold RDMAChannel_dtor.
  rewrite (bind_Ok _ _ _ _ _ (adapter_at_eq _ _ _ Hc)).
  destruct (decide _) as [->|Hne]; [done|].
  destruct (first_key _) as [k|] eqn:Hf; cycle 1.
  { exfalso. apply Hne. unfold first_key in Hf.
    destruct (map_to_list (owning_buffers (adapter c))) as [|[k p] l] eqn:Hl.
    - by apply map_to_list_empty_iff.
    - cbn in Hf. fold (min_key l.*1) in Hf. by destruct (min_key l.*1). }
  assert (is_Some (owning_buffers (adapter c) !! k)) as [p Hp].
  { apply elem_of_first_key in Hf. done. }
  exists k, p. split; [done|]. cbn [dtor_loop].
  rewrite (bind_Ok _ _ _ _ _ (adapter_at_eq _ _ _ Hc)), Hp. cbn [must]. rewrite bind_ret.
  destruct (deregister_from_channel p ch w) as [v w1|f w1] eqn:Hd.
  - rewrite (bind_Ok _ _ _ _ _ Hd). destruct (Hnames _ _ Hp) as (b & Hb & <-).
    destruct (deregister_owning _ _ _ _ _ _ _ Hd Hch Hb Hc) as (c' & Hc' & Ho).
    rewrite (bind_Ok _ _ _ _ _ (adapter_at_eq _ _ _ Hc')), Ho, lookup_delete_eq. done.
  - by rewrite (bind_Abort _ _ _ _ _ Hd).
Qed.
End channel_properties.

(** ** Witnesses *)

(** A loaded channel and a buffer of three blocks of four bytes. *)
Definition ch_w1 : World Sim := state_of (allocate_buffer 4 3 "b" ad_w1).
Definition ch_base : RDMABuffer := base_at 4097 (2^20) 4 3 "b".
Definition ch_w2 : World Sim := state_of (register_buffer 500 4097 ch_w1).
Definition ch_w3 : World Sim := state_of (deregister_from_channel 4097 500 ch_w2).
Definition ch_c2 : RDMAChannel := default ad_c1 (w_chans ch_w2 !! 500).

Lemma ch_w1_ring : ring_wf (w_bufs ch_w1) 4097 (mkRing (seqZ 4098 3) (-1) (-1)).
Proof.
  apply (base_ring_wf _ 4097 (2^20) 4 3 "b"); [lia|vm_compute; reflexivity|].
  intros i Hi. assert (i = 0 ∨ i = 1 ∨ i = 2) as [->|[->| ->]] by lia;
    vm_compute; reflexivity.
Qed.

Lemma register_buffer_owned_witness :
  find_buffer 500 "b" ch_w2 = Ok 4097 ch_w2 ∧ find_buffer 500 "x" ch_w2 = Ok 0 ch_w2.
Proof.
  destruct (register_buffer_owned 500 4097 _ ch_base ad_c1 ch_w1 true ch_w2 ch_w1_ring)
    as (_ & H & _).
  - vm_compute; reflexivity.
  - vm_compute; reflexivity.
  - vm_compute; reflexivity.
  - split; [exact (H "b")|exact (H "x")].
Defined.

Lemma register_deregister_roundtrip_witness :
  ∃ c2, w_chans ch_w3 !! 500 = Some c2 ∧
    owning_buffers (adapter c2) = owning_buffers (adapter ad_c1) ∧
    find_buffer 500 "b" ch_w3 = Ok 0 ch_w3.
Proof.
  refine (proj2 (register_deregister_roundtrip 500 4097 _ ch_base ad_c1 ch_w1 true ch_w2 false
    ch_w3 ch_w1_ring _ _ _ _ _)).
  - vm_compute; reflexivity.
  - vm_compute; reflexivity.
  - lia.
  - vm_compute; reflexivity.
  - vm_compute; reflexivity.
Defined.

Lemma duplicate_registration_aborts_witness :
  register_buffer 500 4097 ch_w2 =
    Abort (Fatal "already been registered in this channel") ch_w2.
Proof.
  destruct (duplicate_registration_aborts 500 4097 4097 (registered 500 (Some (mkIbvMr 4 1004 2004))
    ch_base) ch_c2 ch_w2) as (f & w' & H1 & H2).
  - lia.
  - vm_compute; reflexivity.
  - vm_compute; reflexivity.
  - vm_compute; reflexivity.
  - destruct (H2 (default "" (value (channel_info 500 ch_w2)))) as [-> ->].
    + vm_compute; reflexivity.
    + exact H1.
Defined.

Definition ch_desc : CommDescriptor := mkCommDescriptor 8192 40 33 0.

Lemma peer_buffer_first_wins_witness :
  ∃ w1, insert_peer_buffer 500 "k" ch_desc ch_w1 = Ok true w1 ∧
    find_peer_buffer 500 "k" w1 = Ok (Some ch_desc) w1.
Proof.
  exists (state_of (insert_peer_buffer 500 "k" ch_desc ch_w1)).
  assert (insert_peer_buffer 500 "k" ch_desc ch_w1 =
    Ok true (state_of (insert_peer_buffer 500 "k" ch_desc ch_w1))) as H
    by (vm_compute; reflexivity).
  split; [exact H|]. exact (proj1 (proj2 (peer_buffer_first_wins _ _ _ _ _ H))).
Defined.

Lemma channel_destructor_undefined_witness :
  RDMAChannel_dtor 500 ch_w1 = Ok tt ch_w1 ∧
  ∃ k p, owning_buffers (adapter ch_c2) !! k = Some p ∧
    RDMAChannel_dtor 500 ch_w2 =
      match deregister_from_channel p 500 ch_w2 with
      | Ok _ w1 => Abort (UB "increment of an erased iterator") w1
      | Abort f w1 => Abort f w1
      end.
Proof.
  assert (owning_buffers (adapter ad_c1) = ∅) as E1 by (vm_compute; reflexivity).
  assert (owning_buffers (adapter ch_c2) = {["b" := 4097]}) as E2 by (vm_compute; reflexivity).
  split.
  - pose proof (channel_destructor_undefined 500 ad_c1 ch_w1 ltac:(lia)
      ltac:(vm_compute; reflexivity)) as H.
    rewrite E1, decide_True in H by done. apply H. intros k p Hk. by rewrite lookup_empty in Hk.
  - pose proof (channel_destructor_undefined 500 ch_c2 ch_w2 ltac:(lia)
      ltac:(vm_compute; reflexivity)) as H.
    rewrite E2, decide_False in H by done. rewrite E2. apply H.
    intros k p [<- <-]%lookup_singleton_Some. eexists. split; [vm_compute; reflexivity|].
    reflexivity.
Defined.
