(* ===== verification/Tcp.v ===== *)
(** * TCPConnector (include/tcp_connector.h, src/tcp_connector.cc)

    The TCP connection over which two endpoints exchange their adapter
    information, and the socket options of include/util/ip_qos_helper.h.  The
    byte arrays the callers pass are lists: a receiving call returns the bytes
    it wrote. *)
From S2P Require Import Prelude Words Types World Sim.

Section tcp.
Context {X : Type} `{!Platform X}.

Definition TCPConnector_ctor (sock : Z) (ip : string) (port : Z) : W X Z :=
  this ← new_addr;
  serv ← call (getsockname sock);
  set_conn this {| root_sock := sock; peer_ip := ip; peer_port := port;
                   my_ip := inet_ntop (sin_addr serv);
                   my_port := ntohs (sin_port serv) |} ;;
  mret this.

Definition get_or_build_socket (this : Z) : W X Z :=
  c ← conn_at this;
  if root_sock c =? 0 then
    s ← call socket;
    set_conn this (c <| root_sock := s |>) ;;
    check (0 <? s) "Error of creating socket..." ;;
    mret s
  else mret (root_sock c).

Definition send_data (this msg_size : Z) (data : list Z) : W X Z :=
  sock ← get_or_build_socket this;
  write_ret ← call (send sock (take (Z.to_nat msg_size) data));
  check (negb (write_ret <? msg_size)) "Failed writing data to remote" ;;
  mret write_ret.

(** The loop of [recv_data]: [rc] only ever takes the value 0. *)
Fixpoint recv_loop (fuel : nat) (sock msg_size rc total : Z) (got : list Z)
    : W X (Z * list Z) :=
  match fuel with
  | O => fail OutOfFuel
  | S fuel =>
      if (rc =? 0) && (total <? msg_size) then
        r ← call (recv sock (msg_size - total));
        let '(read_bytes, bs) := r in
        if 0 <? read_bytes then
          recv_loop fuel sock msg_size rc (total + read_bytes) (got ++ bs)
        else if read_bytes <? 0 then log_fatal "read socket failed"
        else recv_loop fuel sock msg_size read_bytes total got
      else mret (rc, got)
  end.
Definition recv_data (fuel : nat) (this msg_size : Z) : W X (Z * list Z) :=
  sock ← get_or_build_socket this;
  recv_loop fuel sock msg_size 0 0 [].

Fixpoint recv_force_loop (fuel : nat) (sock msg_size total : Z) (got : list Z)
    : W X (Z * list Z) :=
  match fuel with
  | O => fail OutOfFuel
  | S fuel =>
      if total <? msg_size then
        r ← call (recv sock (msg_size - total));
        let '(read_bytes, bs) := r in
        if 0 <? read_bytes then
          recv_force_loop fuel sock msg_size (total + read_bytes) (got ++ bs)
        else if read_bytes <? 0 then log_fatal "read socket failed"
        else recv_force_loop fuel sock msg_size total got
      else mret (total, got)
  end.
Definition recv_data_force (fuel : nat) (this msg_size : Z) : W X (Z * list Z) :=
  sock ← get_or_build_socket this;
  recv_force_loop fuel sock msg_size 0 [].

(** The result and the bytes written to [remote_data]. *)
Definition sock_sync_data (fuel : nat) (this xfer_size : Z) (local_data : list Z)
    : W X (Z * list Z) :=
  write_msg ← send_data this xfer_size local_data;
  r ← recv_data_force fuel this xfer_size;
  let '(recv_msg, remote_data) := r in
  mret (recv_msg - write_msg, remote_data).

(** ** IPQoSHelper *)

Definition set_and_check_ip_tos (sock tos : Z) : W X Z :=
  r ← call (getsockopt_tos sock);
  if r.1 <? 0 then mret (-1)
  else
    r ← call (setsockopt_tos sock tos);
    if r <? 0 then mret (-1)
    else
      r ← call (getsockopt_tos sock);
      if r.1 <? 0 then mret (-1)
      else if negb (r.2 =? tos) then mret (-1) else mret 0.

Definition set_and_check_ip_priority (sock prio : Z) : W X Z :=
  if (6 <? prio) || (prio <? 0) then mret (-1)
  else
    r ← call (getsockopt_priority sock);
    if r.1 <? 0 then mret (-1)
    else
      r ← call (setsockopt_priority sock prio);
      if r <? 0 then mret (-1)
      else
        r ← call (getsockopt_priority sock);
        if r.1 <? 0 then mret (-1)
        else if negb (r.2 =? prio) then mret (-1) else mret 0.

Definition set_socket_reuse (sock : Z) : W X Z :=
  r ← call (setsockopt_reuse sock 1);
  if r <? 0 then mret (-1) else mret 0.

Definition allocate_socket (info : string) : W X Z :=
  tmp_socket ← call socket;
  check (0 <? tmp_socket) "Error of creating socket" ;;
  set_and_check_ip_tos tmp_socket 16 ;;
  set_and_check_ip_priority tmp_socket 4 ;;
  set_socket_reuse tmp_socket ;;
  mret tmp_socket.
End tcp.

(** ** The platform's TCP streams *)

(** POSIX stream sockets: [send] writes at most the bytes it is given; [recv]
    delivers the next bytes of the incoming stream in order, at least one as
    long as there are any. *)
Class StreamLaws (X : Type) `{!Platform X} := {
  inbox : X → Z → list Z;
  send_spec fd bs x m r x' m' :
    send fd bs x m = (r, (x', m')) → r ≤ Z.of_nat (length bs);
  send_inbox fd bs x m r x' m' fd' :
    send fd bs x m = (r, (x', m')) → inbox x' fd' = inbox x fd';
  recv_spec fd n x m r bs x' m' :
    0 < n → recv fd n x m = ((r, bs), (x', m')) → 0 ≤ r →
    r ≤ n ∧ Z.of_nat (length bs) = r ∧ inbox x fd = bs ++ inbox x' fd;
  recv_some fd n x m r bs x' m' :
    0 < n → recv fd n x m = ((r, bs), (x', m')) → inbox x fd ≠ [] → r ≠ 0
}.

#[export] Instance sim_stream_laws : StreamLaws Sim.
Proof.
  assert (∀ n chunks got rest, sim_take n chunks = (got, rest) →
    (length got ≤ n)%nat ∧ concat chunks = got ++ concat rest ∧
    ((0 < n)%nat → concat chunks ≠ [] → got ≠ [])) as Htake.
  { intros n chunks. induction chunks as [|[|b bs] rest IH]; intros got rest' H; cbn in H.
    - injection H as <- <-. cbn. split; [lia|done].
    - apply IH in H. done.
    - injection H as <- <-. rewrite length_take. split; [lia|].
      rewrite !concat_cons, app_assoc, take_drop. split; [done|].
      destruct n; [lia|done]. }
  refine {| inbox := λ x _, concat (sim_inbox x) |}; intros fd.
  - intros bs x m r x' m' [= <- _ _]. lia.
  - intros bs x m r x' m' fd' [= _ <- _]. done.
  - intros n x m r bs x' m' Hn H Hr. cbn in H. unfold sim_recv, sim_upd in H.
    destruct (sim_take (Z.to_nat n) (sim_inbox x)) as [got rest] eqn:E.
    injection H as <- <- <- <-. apply Htake in E as (E1 & E2 & _). cbn. split_and!; done || lia.
  - intros n x m r bs x' m' Hn H Hne. cbn in H. unfold sim_recv, sim_upd in H.
    destruct (sim_take (Z.to_nat n) (sim_inbox x)) as [got rest] eqn:E.
    injection H as <- <- <- <-. apply Htake in E as (_ & _ & E3).
    specialize (E3 ltac:(lia) Hne). destruct got; [done|cbn; lia].
Defined.

(** ** Lemmas *)

Section tcp_lemmas.
Context {X : Type} `{!Platform X} `{!StreamLaws X}.
Implicit Types w : World X.

(** The data a connector has not read yet. *)
Definition pending w (sock : Z) : list Z := inbox (w_ext w) sock.

Lemma get_socket_eq this w c :
  w_conns w !! this = Some c → root_sock c ≠ 0 →
  get_or_build_socket this w = Ok (root_sock c) w.
Proof.
  intros Hc Hs. unfold get_or_build_socket.
  rewrite (bind_Ok _ _ _ _ _ (conn_at_eq _ _ _ Hc)). by rewrite (proj2 (Z.eqb_neq _ _) Hs).
Qed.

(** A run that only talked to the platform. *)
Definition only_ext w w' : Prop := ∃ x m, w' = w <| w_ext := x |> <| w_mem := m |>.
Lemma only_ext_refl w : only_ext w w.
Proof. exists (w_ext w), (w_mem w). by destruct w. Qed.
Lemma only_ext_trans w1 w2 w3 : only_ext w1 w2 → only_ext w2 w3 → only_ext w1 w3.
Proof. intros (x & m & ->) (x' & m' & ->). by exists x', m'. Qed.
Lemma only_ext_call {A} (op : ext_op X A) w a w' : call op w = Ok a w' → only_ext w w'.
Proof. intros (x & m & _ & ->)%call_inv. by exists x, m. Qed.

(** One call of [recv] that did not fail. *)
Lemma recv_step sock n w r bs w' :
  0 < n → call (recv sock n) w = Ok (r, bs) w' → 0 ≤ r →
  r ≤ n ∧ Z.of_nat (length bs) = r ∧ pending w sock = bs ++ pending w' sock ∧
  (pending w sock ≠ [] → r ≠ 0).
Proof.
  intros Hn (x & m & E & ->)%call_inv Hr.
  destruct (recv_spec _ _ _ _ _ _ _ _ Hn E Hr) as (H1 & H2 & H3).
  split_and!; [done..|]. intros Hp. by eapply recv_some in E.
Qed.

(** What a loop that returns has read. *)
Lemma recv_force_loop_inv fuel sock size total got w r bs w' :
  recv_force_loop fuel sock size total got w = Ok (r, bs) w' → 0 ≤ total ≤ size →
  r = size ∧ only_ext w w' ∧ ∃ rd, bs = got ++ rd ∧ Z.of_nat (length rd) = size - total ∧
    pending w sock = rd ++ pending w' sock.
Proof.
  revert total got w. induction fuel as [|fuel IH]; intros total got w H Ht; [done|].
  cbn [recv_force_loop] in H. destruct (total <? size) eqn:Hlt.
  - apply Z.ltb_lt in Hlt. apply bind_inv in H as ([n b] & w1 & H1 & H).
    destruct (0 <? n) eqn:Hn; [|destruct (n <? 0) eqn:Hn0; [done|]].
    + apply Z.ltb_lt in Hn.
      destruct (recv_step sock (size - total) w n b w1 ltac:(lia) H1 ltac:(lia)) as (Hle & Hb & Hp & _).
      apply IH in H as (-> & Hext & rd & -> & Hrd & Hp'); [|lia].
      split; [done|]. split; [eapply only_ext_trans; [by eapply only_ext_call|done]|].
      exists (b ++ rd). rewrite length_app, Hp, Hp', !app_assoc. split_and!; done || lia.
    + apply Z.ltb_ge in Hn, Hn0.
      destruct (recv_step sock (size - total) w n b w1 ltac:(lia) H1 ltac:(lia)) as (_ & Hb & Hp & _).
      assert (b = []) as -> by (apply length_zero_iff_nil; lia).
      apply IH in H as (-> & Hext & rd & -> & Hrd & Hp'); [|lia].
      split; [done|]. split; [eapply only_ext_trans; [by eapply only_ext_call|done]|].
      exists rd. by rewrite Hp, Hp'.
  - apply Z.ltb_ge in Hlt. injection H as -> -> ->. split; [lia|].
    split; [apply only_ext_refl|]. exists []. rewrite app_nil_r. cbn. split_and!; done || lia.
Qed.

(** Enough data, enough fuel: the loop does not run on. *)
Lemma recv_force_loop_fuel fuel sock size total got w w' :
  0 ≤ total ≤ size → size - total < Z.of_nat fuel →
  size - total ≤ Z.of_nat (length (pending w sock)) →
  recv_force_loop fuel sock size total got w ≠ Abort OutOfFuel w'.
Proof.
  revert total got w. induction fuel as [|fuel IH]; intros total got w Ht Hf Hp; [lia|].
  cbn [recv_force_loop]. destruct (total <? size) eqn:Hlt; [|done].
  apply Z.ltb_lt in Hlt.
  destruct (call (recv sock (size - total)) w) as [[n b] w1|f w1] eqn:H1.
  - rewrite (bind_Ok _ _ _ _ _ H1). destruct (0 <? n) eqn:Hn.
    + apply Z.ltb_lt in Hn.
      destruct (recv_step sock (size - total) w n b w1 ltac:(lia) H1 ltac:(lia)) as (Hle & Hb & Hpe & _).
      apply IH; [lia|lia|]. rewrite Hpe, length_app in Hp. lia.
    + destruct (n <? 0) eqn:Hn0; [done|]. exfalso. apply Z.ltb_ge in Hn, Hn0.
      destruct (recv_step sock (size - total) w n b w1 ltac:(lia) H1 ltac:(lia)) as (_ & _ & _ & Hsome).
      apply Hsome; [|lia]. destruct (pending w sock); [cbn in Hp; lia|done].
  - exfalso. unfold call in H1. by destruct (recv _ _ _ _) as [? [? ?]].
Qed.

(** [recv_data]'s loop is the other loop with the result 0. *)
Lemma recv_loop_force fuel sock size total got w :
  recv_loop fuel sock size 0 total got w =
    match recv_force_loop fuel sock size total got w with
    | Ok (_, bs) w' => Ok (0, bs) w'
    | Abort f w' => Abort f w'
    end.
Proof.
  revert total got w. induction fuel as [|fuel IH]; intros total got w; [done|].
  cbn [recv_loop recv_force_loop Z.eqb andb]. destruct (total <? size); [|done].
  destruct (call (recv sock (size - total)) w) as [[n b] w1|f w1] eqn:H1.
  - rewrite !(bind_Ok _ _ _ _ _ H1). destruct (0 <? n) eqn:Hn; [apply IH|].
    destruct (n <? 0) eqn:Hn0; [done|]. apply Z.ltb_ge in Hn, Hn0.
    assert (n = 0) as -> by lia. apply IH.
  - by rewrite !(bind_Abort _ _ _ _ _ H1).
Qed.

Lemma send_data_inv this size data w r w' c :
  send_data this size data w = Ok r w' → w_conns w !! this = Some c → root_sock c ≠ 0 →
  0 ≤ size ≤ Z.of_nat (length data) →
  r = size ∧ only_ext w w' ∧ (∀ s, pending w' s = pending w s) ∧
  ∃ x m, send (root_sock c) (take (Z.to_nat size) data) (w_ext w) (w_mem w) =
    (size, (x, m)) ∧ w' = w <| w_ext := x |> <| w_mem := m |>.
Proof.
  intros H Hc Hs Hsz. unfold send_data in H.
  rewrite (bind_Ok _ _ _ _ _ (get_socket_eq _ _ _ Hc Hs)) in H.
  wstep H as n w1 H1. wstep H as ? w2 H2. pinv H. apply negb_true_iff, Z.ltb_ge in H2.
  pose proof (send_spec _ _ _ _ _ _ _ H1) as Hle. rewrite length_take in Hle.
  assert (n = size) as -> by lia.
  split; [done|]. split; [by eexists _, _|]. split; [|eauto].
  intros s. unfold pending. cbn. by eapply send_inbox.
Qed.
End tcp_lemmas.

(** What the sockets' calls leave alone, an exchange over a connected socket does. *)
Section exchange_keeps.
Context {X : Type} `{!Platform X} {P : Type} (p : World X → P).
Context (Hsend : ∀ fd bs, keeps p (call (send fd bs))).
Context (Hrecv : ∀ fd n, keeps p (call (recv fd n))).

Lemma keeps_recv_loop fuel sock size total got :
  keeps p (recv_force_loop fuel sock size total got).
Proof. revert total got. induction fuel; intros; cbn [recv_force_loop]; solve_keeps. Qed.

Lemma sock_sync_keeps fuel this size data (w : World X) r w' c :
  sock_sync_data fuel this size data w = Ok r w' →
  w_conns w !! this = Some c → root_sock c ≠ 0 → p w' = p w.
Proof.
  intros H Hc Hs. unfold sock_sync_data, send_data, recv_data_force in H.
  rewrite bind_assoc, (bind_Ok _ _ _ _ _ (get_socket_eq _ _ _ Hc Hs)), bind_assoc in H.
  apply bind_inv in H as (n & w1 & H1 & H).
  assert (w_conns w1 !! this = Some c) as Hc1 by (by pinv H1).
  apply Hsend in H1. rewrite <-H1.
  rewrite bind_assoc in H. wstep H as ? w2 H2. rewrite bind_ret, bind_assoc in H.
  rewrite (bind_Ok _ _ _ _ _ (get_socket_eq _ _ _ Hc1 Hs)) in H.
  apply bind_inv in H as ([m b] & w3 & H3%keeps_recv_loop & [= _ <-]).
  exact H3.
Qed.
End exchange_keeps.

(** ** Properties *)

Section tcp_properties.
Context {X : Type} `{!Platform X} `{!StreamLaws X}.
Implicit Types w : World X.

(** C27: [recv_data_force] reassembles: when it returns, it has taken exactly
    the requested number of bytes off the front of the incoming stream,
    however the network cut them up, and left the rest unread. *)
Theorem recv_data_force_exact fuel this size w r bs w' c :
  w_conns w !! this = Some c → root_sock c ≠ 0 → 0 ≤ size →
  recv_data_force fuel this size w = Ok (r, bs) w' →
  r = size ∧ Z.of_nat (length bs) = size ∧
  pending w (root_sock c) = bs ++ pending w' (root_sock c) ∧ only_ext w w'.
Proof.
  intros Hc Hs Hsz H. unfold recv_data_force in H.
  rewrite (bind_Ok _ _ _ _ _ (get_socket_eq _ _ _ Hc Hs)) in H.
  apply recv_force_loop_inv in H as (-> & Hext & rd & -> & Hl & Hp); [|lia].
  rewrite Z.sub_0_r in Hl. done.
Qed.

(** when the requested bytes are on their way, [size]+1 rounds are enough
    for [recv_data_force] and for [recv_data]; and [recv_data] does the same as
    [recv_data_force] except that its result is 0 instead of the number of
    bytes. *)
Theorem recv_data_terminates fuel this size w c :
  w_conns w !! this = Some c → root_sock c ≠ 0 →
  0 ≤ size ≤ Z.of_nat (length (pending w (root_sock c))) → size < Z.of_nat fuel →
  (∀ w', recv_data_force fuel this size w ≠ Abort OutOfFuel w') ∧
  recv_data fuel this size w =
    match recv_data_force fuel this size w with
    | Ok (_, bs) w' => Ok (0, bs) w'
    | Abort f w' => Abort f w'
    end.
Proof.
  intros Hc Hs Hsz Hf. unfold recv_data_force, recv_data.
  rewrite !(bind_Ok _ _ _ _ _ (get_socket_eq _ _ _ Hc Hs)). split.
  - intros w'. apply recv_force_loop_fuel; lia.
  - apply recv_loop_force.
Qed.

(** C39: on a connection the peer has closed, where every [recv] returns 0,
    neither receiving function ever returns: [recv_data] treats 0 as "no error
    yet" and [recv_data_force] retries. *)
Theorem closed_peer_spins (closed : X → mem → Prop) fuel this size w c :
  w_conns w !! this = Some c → root_sock c ≠ 0 → 0 < size →
  (∀ n x m, closed x m → ∃ x' m',
     recv (root_sock c) n x m = ((0, []), (x', m')) ∧ closed x' m') →
  closed (w_ext w) (w_mem w) →
  (∃ w', recv_data_force fuel this size w = Abort OutOfFuel w') ∧
  (∃ w', recv_data fuel this size w = Abort OutOfFuel w').
Proof.
  intros Hc Hs Hsz Hrecv Hcl. unfold recv_data, recv_data_force.
  rewrite !(bind_Ok _ _ _ _ _ (get_socket_eq _ _ _ Hc Hs)).
  assert (∃ w', recv_force_loop fuel (root_sock c) size 0 [] w = Abort OutOfFuel w')
    as [w' H].
  { clear Hc. revert w Hcl. induction fuel as [|fuel IH]; intros w Hcl; [by eexists|].
    cbn [recv_force_loop]. rewrite (proj2 (Z.ltb_lt _ _) Hsz).
    destruct (Hrecv (size - 0) _ _ Hcl) as (x' & m' & E & Hcl').
    rewrite (bind_Ok _ _ _ _ _ (call_eq _ _ _ _ _ E)). cbn. by apply IH. }
  rewrite recv_loop_force, H. eauto.
Qed.

(** [sock_sync_data] returns 0 whenever it returns: all of the local data
    was accepted for sending, exactly as many bytes were taken off the incoming
    stream, and the error branches of its callers are never taken. *)
Theorem sock_sync_data_exchanges fuel this size data w r bs w' c :
  w_conns w !! this = Some c → root_sock c ≠ 0 → 0 ≤ size ≤ Z.of_nat (length data) →
  sock_sync_data fuel this size data w = Ok (r, bs) w' →
  r = 0 ∧ Z.of_nat (length bs) = size ∧ only_ext w w' ∧
  pending w (root_sock c) = bs ++ pending w' (root_sock c) ∧
  ∃ x m, send (root_sock c) (take (Z.to_nat size) data) (w_ext w) (w_mem w) = (size, (x, m)).
Proof.
  intros Hc Hs Hsz H. unfold sock_sync_data in H.
  apply bind_inv in H as (n & w1 & H1 & H).
  destruct (send_data_inv _ _ _ _ _ _ _ H1 Hc Hs Hsz) as (-> & Hext & Hp & x & m & E & Hw1).
  assert (w_conns w1 !! this = Some c) as Hc1 by (by rewrite Hw1).
  apply bind_inv in H as ([n' b] & w2 & H2 & H). injection H as <- <- <-.
  unfold recv_data_force in H2.
  rewrite (bind_Ok _ _ _ _ _ (get_socket_eq _ _ _ Hc1 Hs)) in H2.
  apply recv_force_loop_inv in H2 as (-> & Hext2 & rd & -> & Hl & Hp2); [|lia].
  rewrite Z.sub_0_r in Hl. rewrite Hp in Hp2. split; [lia|]. split; [done|].
  split; [by eapply only_ext_trans|]. eauto.
Qed.
End tcp_properties.

(** ** Witnesses *)

(** Six bytes arrive in three pieces, four are asked for. *)
Definition tcp_conn : TCPConnector := mkTCPConnector 5 "10.0.0.2" 2020 "10.0.0.1" 5005.
Definition tcp_w0 : World Sim :=
  world0 <| w_conns := {[300 := tcp_conn]} |>
         <| w_ext ::= λ x, x <| sim_inbox := [[1]; [2; 3]; [4; 5; 6]] |> |>.

Lemma recv_data_force_exact_witness :
  recv_data_force 5 300 4 tcp_w0 = Ok (4, [1; 2; 3; 4]) (state_of (recv_data_force 5 300 4 tcp_w0)) ∧
  pending (state_of (recv_data_force 5 300 4 tcp_w0)) 5 = [5; 6].
Proof.
  assert (recv_data_force 5 300 4 tcp_w0 =
    Ok (4, [1; 2; 3; 4]) (state_of (recv_data_force 5 300 4 tcp_w0))) as H
    by (vm_compute; reflexivity).
  split; [exact H|].
  destruct (recv_data_force_exact 5 300 4 tcp_w0 4 [1; 2; 3; 4] _ tcp_conn eq_refl ltac:(cbn; lia)
    ltac:(lia) H) as (_ & _ & Hp & _).
  vm_compute. reflexivity.
Defined.

Lemma recv_data_terminates_witness :
  value (recv_data 5 300 4 tcp_w0) = Some (0, [1; 2; 3; 4]).
Proof.
  rewrite (proj2 (recv_data_terminates 5 300 4 tcp_w0 tcp_conn eq_refl ltac:(cbn; lia)
    ltac:(vm_compute; split; discriminate) ltac:(lia))).
  vm_compute. reflexivity.
Defined.

Definition tcp_w1 : World Sim := world0 <| w_conns := {[300 := tcp_conn]} |>.

Lemma closed_peer_spins_witness :
  ∃ w', recv_data_force 100 300 4 tcp_w1 = Abort OutOfFuel w'.
Proof.
  refine (proj1 (closed_peer_spins (λ x _, sim_inbox x = []) 100 300 4 tcp_w1 tcp_conn eq_refl
    ltac:(cbn; lia) ltac:(lia) _ eq_refl)).
  intros n x m Hx. cbn in *. unfold sim_recv, sim_upd. rewrite Hx. cbn. eauto.
Defined.

Lemma sock_sync_data_exchanges_witness :
  ∃ w', sock_sync_data 5 300 2 [81; 82] tcp_w0 = Ok (0, [1; 2]) w' ∧ only_ext tcp_w0 w'.
Proof.
  exists (state_of (sock_sync_data 5 300 2 [81; 82] tcp_w0)).
  assert (sock_sync_data 5 300 2 [81; 82] tcp_w0 =
    Ok (0, [1; 2]) (state_of (sock_sync_data 5 300 2 [81; 82] tcp_w0))) as H
    by (vm_compute; reflexivity).
  split; [exact H|].
  exact (proj1 (proj2 (proj2 (sock_sync_data_exchanges 5 300 2 [81; 82] tcp_w0 0 [1; 2] _ tcp_conn
    eq_refl ltac:(cbn; lia) ltac:(cbn; lia) H)))).
Defined.
