(* ===== verification/Endpoint.v ===== *)
(** * RDMAEndPoint (include/rdma_endpoint.h, src/rdma_endpoint.cc)

    One connection to a peer: the TCP connector over which the two ends exchange
    their adapters' information, and the RDMA channel that is then connected.
    [fuel] bounds the rounds of each receiving loop. *)
From S2P Require Import Prelude Words Types Layout World Sim Ident Device Buffer.
From S2P Require Import Adapter Channel Tcp.

Section endpoint.
Context {X : Type} `{!Platform X}.

(** The byte 'Q' both ends exchange to synchronise. *)
Definition sync_byte : list Z := [81].

Definition sync_with_peer (fuel : nat) (this : Z) : W X unit :=
  e ← ep_at this;
  r ← sock_sync_data fuel (pre_connector_ e) 1 sync_byte;
  check (r.1 =? 0) "sync error".

Definition setup_rdma_channel (this : Z) (info : string) : W X unit :=
  e ← ep_at this;
  channel ← build_rdma_channel (ep_work_env_ e) info this;
  upd_ep this (λ e, e <| rdma_channel_mgr_ ::= λ l, l ++ [channel] |>).

(** The constructor and [create_endpoint]. *)
Definition create_endpoint (fuel : nat) (fd : Z) (ip : string) (port : Z) (conf : Config)
    (session : Z) : W X Z :=
  this ← new_addr;
  set_ep this (mkRDMAEndPoint "RDMAEndPoint" conf 0 [] session) ;;
  e ← ep_at this;
  check (pre_connector_ e =? 0) "tcp connector must be null" ;;
  conn ← TCPConnector_ctor fd ip port;
  upd_ep this (λ e, e <| pre_connector_ := conn |>) ;;
  id ← get_unique_id this;
  upd_ep this (λ e, e <| ep_id_ := id |>) ;;
  sync_with_peer fuel this ;;
  setup_rdma_channel this "DataChannel" ;;
  mret this.

(** One turn of the loop of [connecting]. *)
Definition connect_channel (fuel : nat) (conn channel : Z) : W X unit :=
  adapt_info ← loading channel;
  r ← sock_sync_data fuel conn (Z.of_nat sizeof_AdapterInfo) (encode_AdapterInfo adapt_info);
  connecting channel (decode_AdapterInfo r.2) ;;
  r ← sock_sync_data fuel conn 1 sync_byte;
  check (r.1 =? 0) "sync error after QPs are connected".

Definition endpoint_connecting (fuel : nat) (this : Z) : W X unit :=
  e ← ep_at this;
  for_each (rdma_channel_mgr_ e) (connect_channel fuel (pre_connector_ e)).

Definition endpoint_reset (fuel : nat) (this : Z) : W X unit :=
  e ← ep_at this;
  for_each (rdma_channel_mgr_ e) (λ channel, reset_hca channel ;; mret tt) ;;
  endpoint_connecting fuel this.

Definition get_channel (this index : Z) : W X Z :=
  check (u32 index =? 0) "Currently, we only support one channel in a endpoint" ;;
  e ← ep_at this;
  must (rdma_channel_mgr_ e !! Z.to_nat (u32 index)) "rdma_channel_mgr_[]".

Definition endpoint_setup_index (this index : Z) : W X unit :=
  e ← ep_at this;
  channel ← must (rdma_channel_mgr_ e !! 0%nat) "rdma_channel_mgr_[0]";
  setup_index_in_session channel index.
End endpoint.

(** ** Lemmas *)

Section endpoint_lemmas.
Context {X : Type} `{!Platform X}.
Implicit Types w : World X.

Lemma upd_ep_inv p f w u w' :
  upd_ep p f w = Ok u w' →
  ∃ e, w_eps w !! p = Some e ∧ w' = w <| w_eps ::= <[p := f e]> |>.
Proof.
  intros H. apply bind_inv in H as (b & w1 & [H1 ->]%ep_at_inv & H2).
  apply modify_inv in H2. eauto.
Qed.

(** The steps of [loading] and [connecting] keep the endpoints, connectors and
    sessions. *)
Lemma keeps_names_show_qp this : keeps (names (X:=X)) (show_qp_info this).
Proof. unfold show_qp_info, get_qp_attr. solve_keeps. Qed.
Lemma keeps_names_connecting this peer : keeps (names (X:=X)) (connecting this peer).
Proof.
  pose proof keeps_names_show_qp.
  unfold connecting, update_peer_adapter_info, drive_qp, modify_qp_to_init,
    modify_qp_to_rtr, modify_qp_to_rts, qp_of. solve_keeps.
Qed.
Lemma keeps_names_create_pd this : keeps (names (X:=X)) (create_pd this).
Proof. unfold create_pd, create_protected_domain. solve_keeps. Qed.
Lemma keeps_names_create_ec this : keeps (names (X:=X)) (create_compt_channel this).
Proof. unfold create_compt_channel, create_event_channel. solve_keeps. Qed.
Lemma keeps_names_cq dev k m cb ch v :
  keeps (names (X:=X)) (create_completion_queue dev k m cb ch v).
Proof. unfold create_completion_queue. solve_keeps. Qed.
#[local] Hint Resolve keeps_names_cq : keeps.
Lemma keeps_names_create_cq this : keeps (names (X:=X)) (create_cq this).
Proof. unfold create_cq, has_created_cq. solve_keeps. Qed.
Lemma keeps_names_create_qp this : keeps (names (X:=X)) (create_qp this).
Proof. unfold create_qp, create_queue_pair. solve_keeps. Qed.
Lemma keeps_names_port d i : keeps (names (X:=X)) (get_port_attr d i).
Proof. unfold get_port_attr. solve_keeps. Qed.
Lemma keeps_names_gid d i g : keeps (names (X:=X)) (query_gid d i g).
Proof. unfold query_gid. solve_keeps. Qed.
#[local] Hint Resolve keeps_names_device keeps_names_create_pd keeps_names_create_ec
  keeps_names_create_cq keeps_names_create_qp keeps_names_port keeps_names_gid : keeps.
Lemma keeps_names_update_info this : keeps (names (X:=X)) (update_my_adapter_info this).
Proof.
  unfold update_my_adapter_info, upd_self, upd_config. cbv zeta. eauto 100 with keeps.
Qed.
#[local] Hint Resolve keeps_names_update_info : keeps.
Lemma keeps_names_loading this : keeps (names (X:=X)) (loading this).
Proof. unfold loading, get_adapter_info, upd_config. solve_keeps. Qed.

(** What [connecting] leaves in the adapter, whatever the transitions
    answered. *)
Lemma connecting_adapter this peer w b w' c :
  connecting this peer w = Ok b w' → w_chans w !! this = Some c →
  ∃ c', w_chans w' !! this = Some c' ∧ remote_ (adapter c') = peer ∧
    vadapt_status_ (adapter c') = CONNECTING ∧ self_ (adapter c') = self_ (adapter c).
Proof.
  intros H Hc. destruct (connecting_steps _ _ _ _ _ _ H Hc) as (-> & w1 & r1 & w2 & u2 &
    w3 & r3 & w4 & u4 & w5 & r5 & w6 & u6 & w7 & ia3 & ia5 & ia7 & H').
  eexists. split; [apply H'|]. done.
Qed.
Lemma connecting_chan this peer w b w' :
  connecting this peer w = Ok b w' → is_Some (w_chans w !! this).
Proof.
  intros H. unfold connecting in H. wstep H as h w1 H1. wstep H as ? w2 H2.
  apply bind_inv in H as (p & w3 & H & _). unfold update_peer_adapter_info in H.
  apply bind_inv in H as (? & w4 & (c & Hc & _)%upd_adapter_inv & _). eauto.
Qed.
End endpoint_lemmas.

Section endpoint_exchange.
Context {X : Type} `{!Platform X} `{!StreamLaws X}.
Implicit Types w : World X.

(** The endpoint a successful constructor leaves. *)
Definition new_endpoint (id : string) (conf : Config) (ep session : Z) : RDMAEndPoint :=
  mkRDMAEndPoint id conf (ep + 1) [ep + 2] session.
Definition new_channel (conf : Config) (ep : Z) : RDMAChannel :=
  mkRDMAChannel (init_adapter "DataChannel") conf ∅ ep.

Lemma sock_sync_frame fuel this size data w r w' c :
  w_conns w !! this = Some c → root_sock c ≠ 0 → 0 ≤ size ≤ Z.of_nat (length data) →
  sock_sync_data fuel this size data w = Ok r w' →
  r.1 = 0 ∧ Z.of_nat (length r.2) = size ∧ only_ext w w' ∧
  pending w (root_sock c) = r.2 ++ pending w' (root_sock c) ∧
  ∃ x m, send (root_sock c) (take (Z.to_nat size) data) (w_ext w) (w_mem w) = (size, (x, m)).
Proof.
  intros Hc Hs Hsz H. unfold sock_sync_data in H.
  apply bind_inv in H as (n & w1 & H1 & H).
  destruct (send_data_inv _ _ _ _ _ _ _ H1 Hc Hs Hsz) as (-> & Hext & Hp & x & m & E & Hw1).
  assert (w_conns w1 !! this = Some c) as Hc1 by (by rewrite Hw1).
  apply bind_inv in H as ([n' b] & w2 & H2 & H). injection H as <- <-.
  unfold recv_data_force in H2.
  rewrite (bind_Ok _ _ _ _ _ (get_socket_eq _ _ _ Hc1 Hs)) in H2.
  apply recv_force_loop_inv in H2 as (-> & Hext2 & rd & -> & Hl & Hp2); [|lia].
  rewrite Z.sub_0_r in Hl. rewrite Hp in Hp2. cbn. split; [lia|]. split; [done|].
  split; [by eapply only_ext_trans|]. eauto.
Qed.

(** The heaps of objects and the allocation mark. *)
Definition heaps w := (w_next w, w_chans w, w_conns w, w_eps w, w_sess w).

Lemma heaps_only_ext w w' : only_ext w w' → heaps w' = heaps w.
Proof. by intros (x & m & ->). Qed.

Lemma TCPConnector_ctor_inv sock ip port w p w' :
  TCPConnector_ctor sock ip port w = Ok p w' →
  p = w_next w ∧ ∃ c, root_sock c = sock ∧ peer_ip c = ip ∧ peer_port c = port ∧
    heaps w' = (Z.succ (w_next w), w_chans w, <[p := c]> (w_conns w), w_eps w, w_sess w).
Proof.
  intros H. unfold TCPConnector_ctor in H. apply bind_inv in H as (q & w1 & [= <- <-] & H).
  wstep H as serv w2 H2. wstep H as ? w3 H3. pinv H. split; [done|].
  eexists. split; [|split; [|split; [|reflexivity]]]; reflexivity.
Qed.

Lemma setup_rdma_channel_inv this info w u w' e :
  setup_rdma_channel this info w = Ok u w' → w_eps w !! this = Some e →
  heaps w' = (Z.succ (w_next w),
    <[w_next w := mkRDMAChannel (init_adapter info) (ep_work_env_ e) ∅ this]> (w_chans w),
    w_conns w, <[this := e <| rdma_channel_mgr_ ::= λ l, l ++ [w_next w] |>]> (w_eps w),
    w_sess w).
Proof.
  intros H He. unfold setup_rdma_channel in H. wstep H as e' w1 H1. same H1 He.
  apply bind_inv in H as (ch & w2 & H2 & H). unfold build_rdma_channel in H2.
  apply bind_inv in H2 as (q & w3 & [= <- <-] & H2). wstep H2 as ? w4 H4. pinv H2.
  apply upd_ep_inv in H as (e' & He' & ->). cbn in He'. same He' He. done.
Qed.

Lemma sync_with_peer_inv fuel this w u w' e c :
  sync_with_peer fuel this w = Ok u w' → w_eps w !! this = Some e →
  w_conns w !! pre_connector_ e = Some c → root_sock c ≠ 0 → only_ext w w'.
Proof.
  intros H He Hc Hs. unfold sync_with_peer in H. wstep H as e' w1 H1. same H1 He.
  apply bind_inv in H as (r & w2 & H2 & H). pinv H.
  eapply sock_sync_frame in H2 as (_ & _ & Hx & _); [done|exact Hc|done|cbn; lia].
Qed.

Lemma create_endpoint_inv fuel fd ip port conf session w ep w' :
  create_endpoint fuel fd ip port conf session w = Ok ep w' → fd ≠ 0 →
  ep = w_next w ∧ ∃ id c, root_sock c = fd ∧ peer_ip c = ip ∧ peer_port c = port ∧
    heaps w' = (w_next w + 3, <[ep + 2 := new_channel conf ep]> (w_chans w),
      <[ep + 1 := c]> (w_conns w), <[ep := new_endpoint id conf ep session]> (w_eps w),
      w_sess w).
Proof.
  intros H Hfd. unfold create_endpoint in H.
  apply bind_inv in H as (p & w1 & [= <- <-] & H).
  apply bind_inv in H as (? & w2 & H2 & H).
  set (a0 := w_next w) in *. set (e0 := mkRDMAEndPoint "RDMAEndPoint" conf 0 [] session) in *.
  assert (heaps w2 = (a0 + 1, w_chans w, w_conns w, <[a0 := e0]> (w_eps w), w_sess w)) as Hh2.
  { unfold set_ep in H2. apply modify_inv in H2 as ->. done. }
  clear H2. unfold heaps in Hh2. injection Hh2 as N2 C2 T2 E2 S2.
  wstep H as e3 w3 H3. clear H3. wstep H as ? w4 H4. clear H4.
  apply bind_inv in H as (conn & w5 & H5 & H).
  apply TCPConnector_ctor_inv in H5 as (-> & c & Hfd' & Hip & Hport & Hh5).
  unfold heaps in Hh5. injection Hh5 as N5 C5 T5 E5 S5. rewrite N2 in T5.
  apply bind_inv in H as (? & w6 & (e1 & He1 & ->)%upd_ep_inv & H).
  rewrite E5, E2, lookup_insert_eq in He1. injection He1 as <-.
  apply bind_inv in H as (id & w7 & H7 & H).
  assert (heaps w7 = (a0 + 2, w_chans w, <[a0 + 1 := c]> (w_conns w),
    <[a0 := e0 <| pre_connector_ := a0 + 1 |>]> (w_eps w), w_sess w)) as Hh7.
  { unfold get_unique_id in H7. wstep H7 as e7 w8 H8. wstep H7 as ? w9 H9.
    wstep H7 as cc w10 H10. pinv H7. unfold heaps. cbn.
    rewrite N5, C5, T5, E5, S5, N2, C2, T2, E2, S2, insert_insert_eq.
    do 4 f_equal. lia. }
  clear H7. unfold heaps in Hh7. injection Hh7 as N7 C7 T7 E7 S7.
  apply bind_inv in H as (? & w8 & (e2 & He2 & ->)%upd_ep_inv & H).
  rewrite E7, lookup_insert_eq in He2. injection He2 as <-.
  apply bind_inv in H as (? & w9 & H9 & H).
  eapply sync_with_peer_inv in H9; [|cbn; apply lookup_insert_eq|
    cbn; rewrite T7; apply lookup_insert_eq|by rewrite Hfd'].
  apply heaps_only_ext in H9. unfold heaps in H9. cbn in H9.
  injection H9 as N9 C9 T9 E9 S9. rewrite N7 in N9. rewrite C7 in C9.
  rewrite T7 in T9. rewrite E7, insert_insert_eq in E9. rewrite S7 in S9.
  apply bind_inv in H as (? & w10 & H10 & H). injection H as <-. subst w10.
  eapply setup_rdma_channel_inv in H10; [|rewrite E9; apply lookup_insert_eq].
  split; [done|]. exists id, c. split; [done|]. split; [done|]. split; [done|].
  rewrite H10, N9, C9, T9, E9, S9, insert_insert_eq. do 4 f_equal. lia.
Qed.

(** A turn of [connecting] whose socket carries the information [peer]. *)
Lemma connect_channel_steps fuel conn ch w u w' c info w1 peer rest :
  w_conns w !! conn = Some c → root_sock c ≠ 0 → loading ch w = Ok info w1 →
  AdapterInfo_wf info → AdapterInfo_wf peer →
  pending w1 (root_sock c) = encode_AdapterInfo peer ++ rest →
  connect_channel fuel conn ch w = Ok u w' →
  (∃ x m, send (root_sock c) (encode_AdapterInfo info) (w_ext w1) (w_mem w1) =
     (Z.of_nat sizeof_AdapterInfo, (x, m))) ∧
  ∃ r2 w2 b w3 r4, w_conns w1 !! conn = Some c ∧ w_conns w3 !! conn = Some c ∧
    sock_sync_data fuel conn (Z.of_nat sizeof_AdapterInfo) (encode_AdapterInfo info) w1 =
      Ok r2 w2 ∧ only_ext w1 w2 ∧
    connecting ch peer w2 = Ok b w3 ∧
    sock_sync_data fuel conn 1 sync_byte w3 = Ok r4 w' ∧ only_ext w3 w'.
Proof.
  intros Hc Hs Hl Hi Hp Hpend H. unfold connect_channel in H.
  rewrite (bind_Ok _ _ _ _ _ Hl) in H. apply keeps_names_loading in Hl as Hn.
  unfold names in Hn. injection Hn as _ Hn _. rewrite <-Hn in Hc.
  pose proof (encode_AdapterInfo_length _ Hi) as Hli.
  pose proof (encode_AdapterInfo_length _ Hp) as Hlp.
  apply bind_inv in H as (r & w2 & H2 & H).
  pose proof H2 as (_ & Hlen & Hw2 & Hpe & y & my & Hsend)%(sock_sync_frame _ _ _ _ _ _ _ c);
    [|done|done|rewrite Hli; lia].
  rewrite Nat2Z.id, take_ge in Hsend by lia. split; [eauto|].
  rewrite Hpend in Hpe. apply app_inj_1 in Hpe as [Hr _]; [|lia].
  rewrite <-Hr, (AdapterInfo_decode_encode _ Hp) in H.
  apply bind_inv in H as (b & w3 & H3 & H).
  pose proof H3 as Hn3%keeps_names_connecting. unfold names in Hn3. injection Hn3 as _ Hn3 _.
  apply bind_inv in H as (r' & w4 & H4 & H). pinv H.
  assert (w_conns w3 !! conn = Some c) as Hc3 by (by destruct Hw2 as (? & ? & ->); rewrite Hn3).
  exists r, w2, b, w3, r'. split_and!; try done.
  eapply sock_sync_frame in H4 as (_ & _ & Hw4 & _); [done|exact Hc3|done|cbn; lia].
Qed.
End endpoint_exchange.

(** ** Both ends of a connection *)

Section handshake.
Context {X : Type} `{!Platform X} `{!StreamLaws X} `{!QpLaws X} `{!PathLaws X}.
Implicit Types w : World X.

(** An end about to be connected: it has a socket and a channel, not loaded before;
    [loading] creates the queue pair [q] in RESET and publishes [info]. *)
Definition end_ready (ch conn : Z) w (sock : Z) (info : AdapterInfo) w1 (q : ibv_qp) : Prop :=
  (∃ c, w_conns w !! conn = Some c ∧ root_sock c = sock ∧ sock ≠ 0) ∧
  (∃ c, w_chans w !! ch = Some c ∧ resource_is_allocated (adapter c) = false) ∧
  loading ch w = Ok info w1 ∧ AdapterInfo_wf info ∧
  (∃ c, w_chans w1 !! ch = Some c ∧ qp_ (adapter c) = Some q) ∧
  qp_st (w_ext w1) (qp_handle q) = IBV_QPS_RESET.

(** An end that is connected to a peer which published [peer] for its queue pair
    number [peer_qp].  It asked the verbs to take its queue pair from RESET to RTS,
    and the queue pair is as far as they granted it: ready to send exactly when all
    three requests were granted, and on a path to that one with the end's own MTU
    when the second was. *)
Definition joined (ch : Z) w (q : ibv_qp) (info peer : AdapterInfo) (peer_qp : Z) : Prop :=
  ∃ c ah x x' rs, w_chans w !! ch = Some c ∧ vadapt_status_ (adapter c) = CONNECTING ∧
    self_ (adapter c) = info ∧ remote_ (adapter c) = peer ∧
    driven q (connect_requests (adapter c)) rs x x' ∧
    qp_st x (qp_handle q) = IBV_QPS_RESET ∧
    qp_st (w_ext w) (qp_handle q) = reached rs ∧
    (qp_st (w_ext w) (qp_handle q) = IBV_QPS_RTS ↔ rs = [0; 0; 0]) ∧
    (rs !! 1%nat = Some 0 → qp_path (w_ext w) (qp_handle q) = (peer_qp, active_mtu info, ah)) ∧
    dlid ah = lid peer ∧ (link_layer info = IBV_LINK_LAYER_ETHERNET → dgid ah = gid peer).

Definition sends w (sock : Z) (bs : list Z) : Prop :=
  ∃ x m, send sock bs (w_ext w) (w_mem w) = (Z.of_nat (length bs), (x, m)).

Lemma end_ready_info ch conn w sock info w1 q :
  end_ready ch conn w sock info w1 q →
  ∃ c, w_chans w1 !! ch = Some c ∧ qp_ (adapter c) = Some q ∧ self_ (adapter c) = info ∧
    used_mtu (_adapter_config_ (adapter c)) = active_mtu info ∧
    qp_num info = u32 (ibv_qp_num q).
Proof.
  intros (_ & (c & Hc & Hr) & Hl & _ & (c1 & Hc1 & Hq) & _).
  destruct (loading_inv _ _ _ _ _ Hl Hc Hr)
    as (a' & g & q' & d & pa & name & Hw1 & _ & _ & _ & _ & _ & Hq' & _ & _ & _ & -> & Hs & _).
  rewrite Hw1, lookup_insert_eq in Hc1. injection Hc1 as <-. cbn in Hq. simplify_eq.
  eexists. rewrite Hw1, lookup_insert_eq. split_and!; [done..| |]; cbn; by rewrite Hs.
Qed.

(** One end, whose socket carries what the peer published. *)
Lemma end_joined fuel ch conn w u w' sock info w1 q peer rest :
  end_ready ch conn w sock info w1 q → AdapterInfo_wf peer →
  pending w1 sock = encode_AdapterInfo peer ++ rest →
  connect_channel fuel conn ch w = Ok u w' →
  sends w1 sock (encode_AdapterInfo info) ∧ joined ch w' q info peer (qp_num peer).
Proof.
  intros He Hp Hpend H. destruct (end_ready_info _ _ _ _ _ _ _ He) as (c1 & Hc1 & Hq & Hs & Hm & _).
  destruct He as ((t & Ht & <- & Hsock) & _ & Hl & Hi & _ & Hr).
  destruct (connect_channel_steps _ _ _ _ _ _ _ _ _ _ _ Ht Hsock Hl Hi Hp Hpend H) as
    (Hsend & r2 & w2 & b & w3 & r4 & Ht1 & Ht3 & S2 & (x2 & m2 & Hw2) & H3 & S4 & (x4 & m4 & Hw4)).
  split. { unfold sends. by rewrite (encode_AdapterInfo_length _ Hi). }
  assert (∀ fd bs, keeps (qp_view (X:=X) (qp_handle q)) (call (send fd bs))) as Hsd by solve_keeps.
  assert (∀ fd n, keeps (qp_view (X:=X) (qp_handle q)) (call (recv fd n))) as Hrv by solve_keeps.
  apply (sock_sync_keeps _ Hsd Hrv) with (c := t) in S2; [|done..].
  apply (sock_sync_keeps _ Hsd Hrv) with (c := t) in S4; [|done..].
  unfold qp_view in S2. rewrite Hr in S2. injection S2 as Hr2 _.
  assert (w_chans w2 !! ch = Some c1) as Hc2 by (by rewrite Hw2).
  destruct (connecting_driven _ _ _ _ _ _ _ H3 Hc2 Hq) as (_ & (rs & Hd) & ia & Hc3).
  destruct (driven_reached _ _ _ _ _ Hd Hr2) as [Hst Hrts]. injection S4 as Hst4 Hpath. rewrite <-Hst4 in Hst, Hrts.
  exists (with_peer peer c1 <| adapter ::= λ a, a <| qp_init_attr := ia |>
    <| vadapt_status_ := CONNECTING |> |>), (peer_ah (adapter (with_peer peer c1))),
    (w_ext w2), (w_ext w3), rs.
  split; [by rewrite Hw4|]. do 3 (split; [done|]). split; [exact Hd|]. do 3 (split; [done|]).
  split.
  { intros Hs2. assert (∃ r1 r3, rs = [r1; 0; r3]) as (r1 & r3 & ->).
    { destruct (driven_st _ _ _ _ _ Hd (connect_requests_state _)) as [Hlen _].
      destruct rs as [|? [|? [|? [|]]]]; try discriminate. injection Hs2 as ->. eauto. }
    rewrite Hpath, (driven_path _ _ _ _ _ _ Hd). unfold path_of. cbn. by rewrite Hm. }
  destruct Hp as (_ & _ & _ & Hlid & _). unfold peer_ah. cbn. rewrite Hs. split; [|by intros ->].
  destruct (link_layer info =? _); cbn; by apply u16_small.
Qed.
End handshake.

(** ** Properties *)

Section endpoint_properties.
Context {X : Type} `{!Platform X} `{!StreamLaws X}.
Implicit Types w : World X.

(** a new endpoint is complete: its connector carries the given socket and
    peer, it has exactly one channel, which points back to it and is not yet
    connected, and [get_channel] returns that channel for index 0 and ends the
    process for every other index.  No other endpoint or channel changes. *)
Theorem create_endpoint_complete fuel fd ip port conf session w ep w' :
  create_endpoint fuel fd ip port conf session w = Ok ep w' → fd ≠ 0 →
  ∃ e c ch cc, w_eps w' !! ep = Some e ∧ registered_session_ e = session ∧
    w_conns w' !! pre_connector_ e = Some c ∧
    (root_sock c, peer_ip c, peer_port c) = (fd, ip, port) ∧
    w_chans w' !! ch = Some cc ∧ registered_endpoint_ cc = ep ∧
    vadapt_status_ (adapter cc) = RESET ∧ resource_is_allocated (adapter cc) = false ∧
    (∀ i, 0 ≤ i < 2^32 → get_channel ep i w' =
       if decide (i = 0) then Ok ch w'
       else Abort (Fatal "Currently, we only support one channel in a endpoint") w') ∧
    (∀ q, q ≠ ep → w_eps w' !! q = w_eps w !! q) ∧
    (∀ q, q ≠ ch → w_chans w' !! q = w_chans w !! q).
Proof.
  intros H Hfd. destruct (create_endpoint_inv _ _ _ _ _ _ _ _ _ H Hfd)
    as (Hep & id & c & <- & <- & <- & Hh).
  unfold heaps in Hh. injection Hh as _ Hch Hc He _.
  exists (new_endpoint id conf ep session), c, (ep + 2), (new_channel conf ep).
  pose proof (lookup_of_insert He) as He1.
  split; [done|]. split; [done|]. split; [apply (lookup_of_insert Hc)|]. split; [done|].
  split; [apply (lookup_of_insert Hch)|]. split; [done|]. split; [done|]. split; [done|].
  split; [|split].
  - intros i Hi. unfold get_channel. rewrite u32_small by done. destruct (decide (i = 0)) as [->|Hne].
    + cbn [Z.eqb check]. rewrite bind_ret. by rewrite (bind_Ok _ _ _ _ _ (ep_at_eq _ _ _ He1)).
    + by rewrite (proj2 (Z.eqb_neq _ _) Hne).
  - intros q Hq. rewrite He. by rewrite lookup_insert_ne.
  - intros q Hq. rewrite Hch. by rewrite lookup_insert_ne.
Qed.

(** the connection set-up exchanges the adapters' information: the local
    channel's own information is what is sent to the peer, and what the peer
    sent, decoded, is what the channel records as its peer when it is
    [CONNECTING]. *)
Theorem connect_channel_exchange fuel conn ch w u w' c info w1 peer rest :
  w_conns w !! conn = Some c → root_sock c ≠ 0 → loading ch w = Ok info w1 →
  AdapterInfo_wf info → AdapterInfo_wf peer →
  pending w1 (root_sock c) = encode_AdapterInfo peer ++ rest →
  connect_channel fuel conn ch w = Ok u w' →
  (∃ x m, send (root_sock c) (encode_AdapterInfo info) (w_ext w1) (w_mem w1) =
     (Z.of_nat sizeof_AdapterInfo, (x, m))) ∧
  ∃ c', w_chans w' !! ch = Some c' ∧ remote_ (adapter c') = peer ∧
    vadapt_status_ (adapter c') = CONNECTING.
Proof.
  intros Hc Hs Hl Hi Hp Hpend H.
  destruct (connect_channel_steps _ _ _ _ _ _ _ _ _ _ _ Hc Hs Hl Hi Hp Hpend H) as
    (Hsend & r2 & w2 & b & w3 & r4 & _ & _ & _ & _ & H3 & _ & (x4 & m4 & ->)).
  split; [done|]. cbn. destruct (connecting_chan _ _ _ _ _ H3) as [c2 Hc2].
  destruct (connecting_adapter _ _ _ _ _ _ H3 Hc2) as (c3 & Hc3 & Hrem & Hst & _). eauto.
Qed.

Context `{!QpLaws X} `{!PathLaws X}.

(** C2: the handshake joins two ends: when each one's socket carries what the
    other sends and both turns of [connecting] return, each has sent what it
    published and holds what the other published.  Each has asked the verbs for the
    three transitions of its queue pair, which is in RTS exactly when all three were
    granted, and, when the one to RTR was, on a path to the other's: its number, its
    LID and on RoCE its GID.  The MTUs of the two paths are each end's own; they are
    not compared. *)
Theorem handshake_joins f1 ch1 conn1 w1 u1 w1' s1 info1 l1 q1 rest1
    f2 ch2 conn2 w2 u2 w2' s2 info2 l2 q2 rest2 :
  end_ready ch1 conn1 w1 s1 info1 l1 q1 → end_ready ch2 conn2 w2 s2 info2 l2 q2 →
  pending l1 s1 = encode_AdapterInfo info2 ++ rest1 →
  pending l2 s2 = encode_AdapterInfo info1 ++ rest2 →
  connect_channel f1 conn1 ch1 w1 = Ok u1 w1' → connect_channel f2 conn2 ch2 w2 = Ok u2 w2' →
  sends l1 s1 (encode_AdapterInfo info1) ∧ sends l2 s2 (encode_AdapterInfo info2) ∧
  joined ch1 w1' q1 info1 info2 (u32 (ibv_qp_num q2)) ∧
  joined ch2 w2' q2 info2 info1 (u32 (ibv_qp_num q1)).
Proof.
  intros E1 E2 P1 P2 H1 H2.
  destruct (end_ready_info _ _ _ _ _ _ _ E1) as (_ & _ & _ & _ & _ & <-).
  destruct (end_ready_info _ _ _ _ _ _ _ E2) as (_ & _ & _ & _ & _ & <-).
  pose proof E1 as (_ & _ & _ & W1 & _). pose proof E2 as (_ & _ & _ & W2 & _).
  destruct (end_joined _ _ _ _ _ _ _ _ _ _ _ _ E1 W2 P1 H1).
  destruct (end_joined _ _ _ _ _ _ _ _ _ _ _ _ E2 W1 P2 H2). done.
Qed.
End endpoint_properties.

(** ** Witnesses *)

(** A peer that answers the synchronisation byte. *)
Definition ep_w0 : World Sim :=
  world0 <| w_sess := {[200 := ad_sess]} |>
         <| w_ext ::= λ x, x <| sim_inbox := [[81]] |> |>.
Definition ep_w1 : World Sim :=
  state_of (create_endpoint 5 9 "10.0.0.2" 2020 default_Config 200 ep_w0).

Lemma create_endpoint_complete_witness :
  ∃ e ch, w_eps ep_w1 !! 4096 = Some e ∧ get_channel 4096 0 ep_w1 = Ok ch ep_w1 ∧
    get_channel 4096 1 ep_w1 =
      Abort (Fatal "Currently, we only support one channel in a endpoint") ep_w1.
Proof.
  destruct (create_endpoint_complete 5 9 "10.0.0.2" 2020 default_Config 200 ep_w0 4096 ep_w1)
    as (e & c & ch & cc & He & _ & _ & _ & _ & _ & _ & _ & Hg & _).
  - vm_compute; reflexivity.
  - lia.
  - exists e, ch. split; [exact He|]. split; [exact (Hg 0 ltac:(lia))|exact (Hg 1 ltac:(lia))].
Defined.

(** The peer's 155 bytes arrive in two pieces, then its synchronisation byte. *)
Definition ep_w2 : World Sim :=
  ad_w0 <| w_ext ::= λ x, x <| sim_inbox :=
    [take 100 (encode_AdapterInfo ad_peer); drop 100 (encode_AdapterInfo ad_peer); [81]] |> |>.
Definition ep_w3 : World Sim := state_of (loading 500 ep_w2).
Definition ep_w4 : World Sim := state_of (connect_channel 200 300 500 ep_w2).

Lemma connect_channel_exchange_witness :
  ∃ c', w_chans ep_w4 !! 500 = Some c' ∧ remote_ (adapter c') = ad_peer ∧
    vadapt_status_ (adapter c') = CONNECTING.
Proof.
  refine (proj2 (connect_channel_exchange 200 300 500 ep_w2 tt ep_w4
    (mkTCPConnector 5 "10.0.0.2" 2020 "10.0.0.1" 5005) ad_info ep_w3 ad_peer [81] _ _ _ _ _ _ _)).
  - vm_compute; reflexivity.
  - cbn. lia.
  - vm_compute; reflexivity.
  - apply (bool_decide_unpack _). vm_compute. exact I.
  - apply (bool_decide_unpack _). vm_compute. exact I.
  - vm_compute; reflexivity.
  - vm_compute; reflexivity.
Defined.

(** Two hosts, the second on a port with another LID and a smaller MTU. *)
Definition hs_start (lid mtu handle : Z) : World Sim :=
  ad_w0 <| w_ext ::= λ x, x <| sim_handle := handle |>
    <| sim_ports := [mkPortAttr 4 5 mtu lid 0 2] |> |>.
Definition hs_info (w : World Sim) : AdapterInfo := default default_AdapterInfo (value (loading 500 w)).
Definition hs_hears (w : World Sim) (peer : AdapterInfo) : World Sim :=
  w <| w_ext ::= λ x, x <| sim_inbox :=
    [take 100 (encode_AdapterInfo peer); drop 100 (encode_AdapterInfo peer); [81]] |> |>.
Definition hs_info1 : AdapterInfo := Eval vm_compute in hs_info (hs_start 7 3 1).
Definition hs_info2 : AdapterInfo := Eval vm_compute in hs_info (hs_start 9 2 50).
Definition hs_w1 : World Sim := hs_hears (hs_start 7 3 1) hs_info2.
Definition hs_w2 : World Sim := hs_hears (hs_start 9 2 50) hs_info1.
Definition hs_qp (w : World Sim) : ibv_qp :=
  default (mkIbvQp 0 0) (w_chans (state_of (loading 500 w)) !! 500 ≫= λ c, qp_ (adapter c)).

Ltac solve_end_ready :=
  split; [eexists; split; [vm_compute; reflexivity|]; by split|];
  split; [eexists; split; vm_compute; reflexivity|];
  split; [vm_compute; reflexivity|];
  split; [apply (bool_decide_unpack _); vm_compute; exact I|];
  split; [eexists; split; vm_compute; reflexivity|vm_compute; reflexivity].
Lemma hs_ready1 :
  end_ready 500 300 hs_w1 5 hs_info1 (state_of (loading 500 hs_w1)) (hs_qp hs_w1).
Proof. solve_end_ready. Qed.
Lemma hs_ready2 :
  end_ready 500 300 hs_w2 5 hs_info2 (state_of (loading 500 hs_w2)) (hs_qp hs_w2).
Proof. solve_end_ready. Qed.

Lemma handshake_joins_witness :
  ibv_qp_num (hs_qp hs_w1) = 103 ∧ ibv_qp_num (hs_qp hs_w2) = 152 ∧
  qp_st (w_ext (state_of (connect_channel 200 300 500 hs_w1))) (qp_handle (hs_qp hs_w1)) =
    IBV_QPS_RTS ∧
  joined 500 (state_of (connect_channel 200 300 500 hs_w1)) (hs_qp hs_w1) hs_info1 hs_info2 152 ∧
  joined 500 (state_of (connect_channel 200 300 500 hs_w2)) (hs_qp hs_w2) hs_info2 hs_info1 103.
Proof.
  do 3 (split; [vm_compute; reflexivity|]).
  refine (proj2 (proj2 (handshake_joins 200 500 300 hs_w1 tt _ 5 hs_info1 _ _ [81]
    200 500 300 hs_w2 tt _ 5 hs_info2 _ _ [81] hs_ready1 hs_ready2 _ _ _ _))).
  all: vm_compute; reflexivity.
Defined.
