(* ===== verification/Session.v ===== *)
(** * RDMASession (include/rdma_session.h, src/rdma_session.cc)

    The workflow of one process: accepting endpoints, connecting them, grouping
    their channels by completion queue, and dispatching completions to the
    registered or the default callbacks.  [fuel] bounds the rounds of each
    receiving loop of the TCP exchange. *)
From S2P Require Import Prelude Words Types Layout World Sim Ident Device Buffer.
From S2P Require Import Adapter Channel Tcp Endpoint.

(** The functions an application may register, by the number of its
    [std::function]. *)
Class Application (X : Type) := {
  user_established : Z → list Z → W X unit;
  user_completion : Z → ibv_wc → W X unit
}.

(** ** Message names *)

(** [static_cast<MessageType>] of an immediate value: one of the enumerators or
    none of them. *)
Definition msg_of_code (z : Z) : option MessageType :=
  if z =? 0 then Some UNSET
  else if z =? 1 then Some RAW_DATA_BLOCK
  else if z =? 2 then Some TEST_FOR_CONNECTION
  else if z =? 3 then Some TEST_FOR_SYNC_DATA
  else if z =? 127 then Some SAY_HELLO
  else if z =? 2^31 + 1 then Some REQUEST_EXCHANGE_KEY
  else if z =? 2^31 + 2 then Some RESPONSE_EXCHANGE_KEY
  else None.

Definition MsgToStr (t : option MessageType) : string :=
  match t with
  | Some UNSET => "UNSET"
  | Some RAW_DATA_BLOCK => "RAW_DATA_BLOCK"
  | Some TEST_FOR_CONNECTION => "TEST_FOR_CONNECTION"
  | Some TEST_FOR_SYNC_DATA => "TEST_FOR_SYNC_DATA"
  | Some SAY_HELLO => "SAY_HELLO"
  | Some REQUEST_EXCHANGE_KEY => "REQUEST_EXCHANGE_KEY"
  | Some RESPONSE_EXCHANGE_KEY => "RESPONSE_EXCHANGE_KEY"
  | None => "Unknown MessageType"
  end.

(** ** Grouping channels by completion queue *)

(** [all_channel[cq].push_back(channel)], as an association list. *)
Fixpoint add_to_group (cq ch : Z) (groups : list (Z * list Z)) : list (Z * list Z) :=
  match groups with
  | [] => [(cq, [ch])]
  | (cq', chs) :: rest =>
      if cq' =? cq then (cq', chs ++ [ch]) :: rest else (cq', chs) :: add_to_group cq ch rest
  end.
Definition group_channels (l : list (Z * Z)) : list (Z * list Z) :=
  foldl (λ groups p, add_to_group p.1 p.2 groups) [] l.

Section session.
Context {X : Type} `{!Platform X} `{!Application X}.
(** The value of an uninitialised [uint32_t] member. *)
Context (uninit : Z).

(** ** Construction and registration *)

Definition RDMASession_ctor (conf : Config) : W X Z :=
  this ← new_addr;
  set_sess this (mkRDMASession conf [] false DefaultFn DefaultFn DefaultFn DefaultFn
                   DefaultFn DefaultFn) ;;
  mret this.

Definition allocate_resources (this : Z) : W X unit :=
  log_fatal "allocate_resources is not implemented yet".

(** A null function leaves the member as it is. *)
Definition register_event_callback (this : Z)
    (established_done process_send_done process_recv_done
     process_recv_write_with_imm_done process_write_done process_read_done : option Z)
    : W X bool :=
  upd_sess this (λ s, s
    <| established_done_ ::= λ f, default f (UserFn <$> established_done) |>
    <| process_send_done_ ::= λ f, default f (UserFn <$> process_send_done) |>
    <| process_recv_done_ ::= λ f, default f (UserFn <$> process_recv_done) |>
    <| process_recv_write_with_imm_done_ ::= λ f, default f (UserFn <$> process_recv_write_with_imm_done) |>
    <| process_write_done_ ::= λ f, default f (UserFn <$> process_write_done) |>
    <| process_read_done_ ::= λ f, default f (UserFn <$> process_read_done) |>) ;;
  mret true.

Definition accept_new_connection (fuel : nat) (this sock_fd : Z) (cin : sockaddr_in)
    : W X Z :=
  let peer_ip := inet_ntop (sin_addr cin) in
  let peer_port := htons (sin_port cin) in
  s ← sess_at this;
  new_EndPoint ← create_endpoint fuel sock_fd peer_ip peer_port (work_env_ s) this;
  upd_sess this (λ s, s <| end_point_mgr_ ::= λ l, l ++ [new_EndPoint] |>) ;;
  channel ← get_channel new_EndPoint 0;
  s ← sess_at this;
  setup_index_in_session channel (i32 (Z.of_nat (length (end_point_mgr_ s)) - 1)) ;;
  mret 1.

(** ** Default callbacks *)

(** [find_buffer(prefix + get_id())] *)
Definition named_buffer (ch : Z) (prefix : string) : W X Z :=
  id ← channel_get_id ch;
  find_buffer ch (prefix +:+ id).

Definition allocate_named (ch size n : Z) (prefix : string) : W X Z :=
  id ← channel_get_id ch;
  allocate_buffer size n (prefix +:+ id).

Definition msg_len (s : string) : Z := u32 (Z.of_nat (String.length s)).
Definition fill_string (buffer : Z) (s : string) : W X bool :=
  fill_in buffer (string_bytes s) (msg_len s).

Definition recv_whole (ch buffer : Z) : W X bool :=
  b ← buf_at buffer;
  recv_remote ch buffer (buffer_size b).

(** [std::string((char * )p)] reads up to the first NUL. *)
Fixpoint c_str_ok (fuel : nat) (p : Z) (m : mem) : bool :=
  match fuel with
  | O => false
  | S fuel =>
      match m !! p with
      | None => false
      | Some b => if b =? 0 then true else c_str_ok fuel (p + 1) m
      end
  end.
Definition read_c_str (buffer : Z) : W X unit :=
  b ← buf_at buffer;
  m ← gets w_mem;
  defined (c_str_ok (S (size m)) (data_ptr b) m) "string is not terminated".

(** One turn of the loop of [default_established_fn]. *)
Definition establish_channel (fuel : nat) (a_channel : Z) : W X unit :=
  recv_buffer ← allocate_named a_channel 256 10 "recv_buffer_for_test@";
  send_buffer ← allocate_named a_channel 256 10 "send_buffer_for_test@";
  read_buffer ← allocate_named a_channel 1000 10 "read_buffer_for_test@";
  write_buffer ← allocate_named a_channel 1000 10 "write_buffer_for_test@";
  rw_sink_buffer ← allocate_named a_channel 1000 10 "read_write_sink_buffer_for_test@";
  register_buffer a_channel recv_buffer ;;
  register_buffer a_channel send_buffer ;;
  register_buffer a_channel read_buffer ;;
  register_buffer a_channel write_buffer ;;
  register_buffer a_channel rw_sink_buffer ;;
  clear recv_buffer ;;
  recv_whole a_channel recv_buffer ;;
  recv_whole a_channel recv_buffer ;;
  c ← chan_at a_channel;
  sync_with_peer fuel (registered_endpoint_ c) ;;
  info ← channel_info a_channel;
  let tmp_send_buf :=
    "Greetings from " +:+ info +:+ " for 'RDMA connection test', count: " in
  fill_string send_buffer tmp_send_buf ;;
  send_remote a_channel send_buffer (msg_len tmp_send_buf) (msg_code TEST_FOR_SYNC_DATA) ;;
  mret tt.
Definition default_established_fn (fuel : nat) (g_channels : list Z) : W X unit :=
  for_each g_channels (establish_channel fuel).

Definition default_process_send_done (wc : ibv_wc) : W X unit := mret tt.

Definition greeting (info : string) : string :=
  "Greetings from " +:+ info +:+ " for 'RDMA connection test'".

(** The descriptor at the start of a received message: [fd_] is not copied. *)
Definition received_descriptor (bs : list Z) : CommDescriptor :=
  {| buffer_addr_ := le_val (take 8 bs);
     buffer_length_ := le_val (take 8 (drop 8 bs));
     rkey_ := le_val (take 4 (drop 16 bs));
     fd_ := uninit |}.

Definition default_process_recv_done (wc : ibv_wc) : W X unit :=
  let active_channel := wc_wr_id wc in
  recv_buffer ← named_buffer active_channel "recv_buffer_for_test@";
  send_buffer ← named_buffer active_channel "send_buffer_for_test@";
  write_buffer ← named_buffer active_channel "write_buffer_for_test@";
  check (negb (recv_buffer =? 0) && negb (send_buffer =? 0)) "Invalid buffer query" ;;
  info ← channel_info active_channel;
  let base_to_send_data := greeting info in
  check (negb (Z.land (wc_flags wc) IBV_WC_WITH_IMM =? 0))
    "detected imm data failed to check for IBV_WC_RECV" ;;
  let val := wc_imm_data wc in
  if val =? msg_code REQUEST_EXCHANGE_KEY then
    rb ← buf_at recv_buffer;
    bs ← load (data_ptr rb) 20;
    let remote_comm_descritor := received_descriptor bs in
    insert_peer_buffer active_channel "rw_sink_buffer_for_test" remote_comm_descritor ;;
    recv_whole active_channel recv_buffer ;;
    send_remote active_channel send_buffer (msg_len base_to_send_data)
      (msg_code RESPONSE_EXCHANGE_KEY) ;;
    let tmp_send_buf := "[RDMA write/read test]: " +:+ base_to_send_data in
    fill_string write_buffer tmp_send_buf ;;
    write_remote active_channel write_buffer (msg_len tmp_send_buf)
      (Some remote_comm_descritor) (msg_code RESPONSE_EXCHANGE_KEY) true ;;
    mret tt
  else if val =? msg_code TEST_FOR_SYNC_DATA then
    read_c_str recv_buffer ;;
    recv_whole active_channel recv_buffer ;;
    rw_sink_buffer ← named_buffer active_channel "read_write_sink_buffer_for_test@";
    sb ← buf_at rw_sink_buffer;
    m ← must (mr_ sb) "rw_sink_buffer->mr_->rkey";
    let local_comm_descritor :=
      mkCommDescriptor (data_ptr sb) (buffer_size sb) (mr_rkey m) uninit in
    fill_in send_buffer (encode_CommDescriptor local_comm_descritor)
      (Z.of_nat sizeof_CommDescriptor) ;;
    send_remote active_channel send_buffer (Z.of_nat sizeof_CommDescriptor)
      (msg_code REQUEST_EXCHANGE_KEY) ;;
    mret tt
  else
    read_c_str recv_buffer ;;
    recv_whole active_channel recv_buffer ;;
    fill_string send_buffer base_to_send_data ;;
    send_remote active_channel send_buffer (msg_len base_to_send_data) (msg_code UNSET) ;;
    mret tt.

Definition default_process_write_done (wc : ibv_wc) : W X unit :=
  let active_channel := wc_wr_id wc in
  recv_buffer ← named_buffer active_channel "recv_buffer_for_test@";
  read_buffer ← named_buffer active_channel "read_buffer_for_test@";
  desc ← find_peer_buffer active_channel "rw_sink_buffer_for_test";
  check (bool_decide (is_Some desc)) "Cannot find the remote buffer info" ;;
  check (negb (recv_buffer =? 0) && negb (read_buffer =? 0)) "Invalid buffer query" ;;
  channel_info active_channel ;;
  clear read_buffer ;;
  rb ← buf_at read_buffer;
  read_remote active_channel read_buffer (buffer_size rb) desc ;;
  mret tt.

Definition default_process_read_done (wc : ibv_wc) : W X unit :=
  let active_channel := wc_wr_id wc in
  write_buffer ← named_buffer active_channel "write_buffer_for_test@";
  read_buffer ← named_buffer active_channel "read_buffer_for_test@";
  check (negb (write_buffer =? 0) && negb (read_buffer =? 0)) "Invalid buffer query" ;;
  desc ← find_peer_buffer active_channel "rw_sink_buffer_for_test";
  check (bool_decide (is_Some desc)) "Cannot find the remote buffer info" ;;
  info ← channel_info active_channel;
  read_c_str read_buffer ;;
  let tmp_send_buf := "[RDMA write/read test]: " +:+ greeting info in
  fill_string write_buffer tmp_send_buf ;;
  write_remote active_channel write_buffer (msg_len tmp_send_buf) desc (msg_code UNSET) false ;;
  mret tt.

Definition default_process_recv_write_with_imm_done (wc : ibv_wc) : W X unit :=
  let active_channel := wc_wr_id wc in
  recv_buffer ← named_buffer active_channel "recv_buffer_for_test@";
  check (negb (recv_buffer =? 0)) "Invalid buffer query" ;;
  channel_info active_channel ;;
  check (negb (Z.land (wc_flags wc) IBV_WC_WITH_IMM =? 0))
    "detected imm data failed to check for IBV_WC_RECV_RDMA_WITH_IMM" ;;
  recv_whole active_channel recv_buffer ;;
  mret tt.

(** ** The completion loop *)

(** Call a [std::function] member. *)
Definition on_completion (f : callback) (default_fn : ibv_wc → W X unit) (wc : ibv_wc)
    : W X unit :=
  match f with DefaultFn => default_fn wc | UserFn k => user_completion k wc end.

(** One completion: the body of the inner loop of [process_CQ]. *)
Definition process_wc (this each_channel : Z) (wc : ibv_wc) : W X unit :=
  if negb (wc_status wc =? IBV_WC_SUCCESS) then
    show_qp_info each_channel ;;
    log_fatal "[WARNING]: Encounting unsuccess wqe"
  else
    s ← sess_at this;
    match wc_opcode wc with
    | IBV_WC_SEND => on_completion (process_send_done_ s) default_process_send_done wc
    | IBV_WC_RECV => on_completion (process_recv_done_ s) default_process_recv_done wc
    | IBV_WC_RDMA_WRITE => on_completion (process_write_done_ s) default_process_write_done wc
    | IBV_WC_RDMA_READ => on_completion (process_read_done_ s) default_process_read_done wc
    | IBV_WC_RECV_RDMA_WITH_IMM =>
        on_completion (process_recv_write_with_imm_done_ s)
          default_process_recv_write_with_imm_done wc
    | IBV_WC_OTHER _ => channel_info (wc_wr_id wc) ;; log_fatal "Unknown opcode"
    end.

(** [struct ibv_wc global_wc[128]] *)
Definition WC_BATCH : Z := 128.

(** One poll of one channel. *)
Definition poll_channel (this each_channel : Z) : W X unit :=
  r ← poll_cq_batch each_channel WC_BATCH;
  let '(num_wqe, global_wc) := r in
  if num_wqe =? 0 then mret tt
  else for_each (take (Z.to_nat num_wqe) global_wc) (process_wc this each_channel).

(** The first [rounds] turns of the endless loop. *)
Fixpoint process_rounds (rounds : nat) (this : Z) (aggregated_channels : list Z) : W X unit :=
  match rounds with
  | O => mret tt
  | S rounds =>
      for_each aggregated_channels (poll_channel this) ;;
      process_rounds rounds this aggregated_channels
  end.
Definition process_CQ (fuel rounds : nat) (this : Z) (aggregated_channels : list Z)
    : W X unit :=
  s ← sess_at this;
  (match established_done_ s with
   | DefaultFn => default_established_fn fuel aggregated_channels
   | UserFn k => user_established k aggregated_channels
   end) ;;
  process_rounds rounds this aggregated_channels.

(** The groups [running] starts one [process_CQ] thread for. *)
Fixpoint collect_channels (eps : list Z) : W X (list (Z * Z)) :=
  match eps with
  | [] => mret []
  | ep :: eps =>
      channel ← get_channel ep 0;
      a ← adapter_at channel;
      rest ← collect_channels eps;
      mret ((used_cq_ a, channel) :: rest)
  end.
Definition running (this : Z) : W X (list (Z * list Z)) :=
  s ← sess_at this;
  l ← collect_channels (end_point_mgr_ s);
  mret (group_channels l).

(** ** Connecting

    The helper threads of [real_connecting] are run one after the other, in
    the order of the endpoints. *)
Definition real_connecting (fuel : nat) (this : Z) : W X unit :=
  s ← sess_at this;
  for_each (end_point_mgr_ s) (endpoint_connecting fuel).

(** [lazy_config_hca] and [post_connecting] are the hooks of the subclass. *)
Definition session_connecting (fuel : nat) (lazy_config_hca post_connecting : Z → W X unit)
    (this : Z) : W X unit :=
  lazy_config_hca this ;;
  real_connecting fuel this ;;
  post_connecting this.
End session.

(** ** Lemmas on groups *)

(** The channels of one queue. *)
Definition group_of (groups : list (Z * list Z)) (cq : Z) : list Z :=
  foldr (λ g acc, if g.1 =? cq then g.2 else acc) [] groups.

Lemma add_to_group_keys cq ch groups k :
  k ∈ (add_to_group cq ch groups).*1 ↔ k = cq ∨ k ∈ groups.*1.
Proof.
  induction groups as [|[q chs] groups IH]; cbn.
  - rewrite elem_of_cons, elem_of_nil. tauto.
  - destruct (q =? cq) eqn:E; cbn; rewrite !elem_of_cons.
    + apply Z.eqb_eq in E as ->. tauto.
    + rewrite IH. tauto.
Qed.

Lemma add_to_group_NoDup cq ch groups : NoDup groups.*1 → NoDup (add_to_group cq ch groups).*1.
Proof.
  induction groups as [|[q chs] groups IH]; cbn; intros H.
  - by apply NoDup_singleton.
  - apply NoDup_cons in H as [Hq H]. destruct (q =? cq) eqn:E; cbn.
    + by apply NoDup_cons.
    + apply NoDup_cons. split; [|auto]. rewrite add_to_group_keys. apply Z.eqb_neq in E.
      intros [?|?]; [congruence|done].
Qed.

Lemma add_to_group_of cq ch groups k :
  group_of (add_to_group cq ch groups) k =
    group_of groups k ++ if k =? cq then [ch] else [].
Proof.
  induction groups as [|[q chs] groups IH]; cbn.
  - rewrite (Z.eqb_sym cq k). by destruct (k =? cq).
  - destruct (q =? cq) eqn:E; cbn.
    + apply Z.eqb_eq in E as ->. rewrite (Z.eqb_sym cq k). destruct (k =? cq) eqn:E2; [done|].
      by rewrite app_nil_r.
    + destruct (q =? k) eqn:E2; [|done]. apply Z.eqb_eq in E2 as ->. rewrite E.
      by rewrite app_nil_r.
Qed.

Lemma group_channels_inv l groups :
  NoDup groups.*1 →
  NoDup (foldl (λ groups p, add_to_group p.1 p.2 groups) groups l).*1 ∧
  (∀ k, k ∈ (foldl (λ groups p, add_to_group p.1 p.2 groups) groups l).*1 ↔
        k ∈ groups.*1 ∨ k ∈ l.*1) ∧
  ∀ k, group_of (foldl (λ groups p, add_to_group p.1 p.2 groups) groups l) k =
       group_of groups k ++ (filter (λ p, p.1 = k) l).*2.
Proof.
  revert groups. induction l as [|[q c] l IH]; intros groups H; cbn [foldl].
  - split; [done|]. split; [intros; cbn; rewrite elem_of_nil; tauto|].
    intros. cbn. by rewrite app_nil_r.
  - destruct (IH (add_to_group q c groups)) as (H1 & H2 & H3); [by apply add_to_group_NoDup|].
    cbn [fst snd] in *. split; [done|]. split.
    + intros k. rewrite H2, add_to_group_keys. cbn. rewrite elem_of_cons. tauto.
    + intros k. rewrite H3, add_to_group_of, <-app_assoc. f_equal.
      rewrite filter_cons. cbn [fst]. destruct (k =? q) eqn:E.
      * apply Z.eqb_eq in E as ->. by rewrite decide_True.
      * apply Z.eqb_neq in E. by rewrite decide_False.
Qed.

(** ** Lemmas on handlers *)

Section session_lemmas.
Context {X : Type} `{!Platform X}.
Implicit Types w : World X.

(** The receives and the sends an adapter counts as in flight. *)
Definition inflight w (ch : Z) : option (Z * Z) :=
  (λ c, (rq_inflight (adapter c), sq_inflight (adapter c))) <$> w_chans w !! ch.

Lemma inflight_same w w' ch : w_chans w' = w_chans w → inflight w' ch = inflight w ch.
Proof. unfold inflight. by intros ->. Qed.

Lemma keeps_chans_named ch p : keeps (w_chans (X:=X)) (named_buffer ch p).
Proof. unfold named_buffer, find_buffer. solve_keeps. Qed.
Lemma keeps_chans_info ch : keeps (w_chans (X:=X)) (channel_info ch).
Proof. apply keeps_channel_info. Qed.
Lemma keeps_chans_fill p bs n : keeps (w_chans (X:=X)) (fill_in p bs n).
Proof. unfold fill_in, clear. solve_keeps. Qed.
Lemma keeps_chans_c_str p : keeps (w_chans (X:=X)) (read_c_str p).
Proof. unfold read_c_str. solve_keeps. Qed.
Lemma keeps_chans_post q wr : keeps (w_chans (X:=X)) (post_send q wr).
Proof. unfold post_send. solve_keeps. Qed.

Lemma recv_remote_inflight ch p n w r w' a b :
  recv_remote ch p n w = Ok r w' → inflight w ch = Some (a, b) →
  inflight w' ch = Some (a + 1, b).
Proof.
  intros H Hi. unfold recv_remote in H. cbv zeta in H. wstep H as ? w2 H2.
  apply bind_inv in H as (? & w3 & (-> & _)%security_check_inv & H).
  wstep H as b' w4 H4. wstep H as ? w5 H5.
  apply bind_inv in H as (? & w6 & (c & Hc & ->)%increase_rqe_inv & H).
  wstep H as ad w7 H7. unfold real_recv_ in H. wstep H as m w8 H8.
  wstep H as rc w9 H9. wstep H as ? w10 H10. pinv H.
  unfold inflight in *. cbn. rewrite Hc in Hi. injection Hi as <- <-.
  by rewrite lookup_insert_eq.
Qed.
Lemma recv_whole_inflight ch p w r w' a b :
  recv_whole ch p w = Ok r w' → inflight w ch = Some (a, b) →
  inflight w' ch = Some (a + 1, b).
Proof.
  intros H. unfold recv_whole in H. wstep H as bf w1 H1. by eapply recv_remote_inflight.
Qed.

Lemma send_remote_inflight ch p n tag w r w' a b :
  send_remote ch p n tag w = Ok r w' → inflight w ch = Some (a, b) →
  inflight w' ch = Some (a, b + 1).
Proof.
  intros H Hi. unfold send_remote in H. cbv zeta in H. wstep H as ? w2 H2.
  apply bind_inv in H as (? & w3 & (-> & _)%security_check_inv & H).
  wstep H as b' w4 H4. wstep H as ? w5 H5.
  apply bind_inv in H as (? & w6 & (c & Hc & ->)%increase_sqe_inv & H).
  wstep H as ad w7 H7. unfold real_send_ in H. wstep H as m w8 H8.
  apply keeps_chans_post in H. rewrite (inflight_same _ _ _ H).
  unfold inflight in *. cbn. rewrite Hc in Hi. injection Hi as <- <-.
  by rewrite lookup_insert_eq.
Qed.

Lemma write_remote_inflight ch p n d tag nf w r w' a b :
  write_remote ch p n d tag nf w = Ok r w' → inflight w ch = Some (a, b) →
  inflight w' ch = Some (a, b + 1).
Proof.
  intros H Hi. unfold write_remote in H. cbv zeta in H. wstep H as ? w2 H2.
  apply bind_inv in H as (? & w3 & (-> & _)%security_check_inv & H).
  wstep H as b' w4 H4. wstep H as d' w5 H5. wstep H as ? w6 H6.
  apply bind_inv in H as (? & w7 & (c & Hc & ->)%increase_sqe_inv & H).
  wstep H as ad w8 H8. wstep H as m w9 H9.
  assert (w_chans w' = <[ch := one_more_sqe c]> (w_chans w)) as Hw'
    by (destruct nf; by apply keeps_chans_post in H).
  unfold inflight in *. rewrite Hw', lookup_insert_eq. rewrite Hc in Hi.
  by injection Hi as <- <-.
Qed.

Lemma insert_peer_inflight ch k d w r w' a b :
  insert_peer_buffer ch k d w = Ok r w' → inflight w ch = Some (a, b) →
  inflight w' ch = Some (a, b).
Proof.
  intros H Hi. unfold insert_peer_buffer in H. wstep H as c w1 H1.
  destruct (_ !! k).
  - apply bind_inv in H as (i & w2 & H2 & H). pinv H.
    by rewrite (inflight_same _ _ _ (keeps_chans_info _ _ _ _ H2)).
  - wstep H as ? w2 H2. same H2 H1. injection H as <- <-.
    unfold inflight in *. cbn. rewrite lookup_insert_eq. rewrite H1 in Hi.
    by injection Hi as <- <-.
Qed.

(** A step that keeps the channels keeps the counters. *)
Lemma keeps_step {A B} (m : W X A) (k : A → W X B) w b w' ch i :
  keeps w_chans m → (m ≫= k) w = Ok b w' → inflight w ch = i →
  ∃ a w1, k a w1 = Ok b w' ∧ inflight w1 ch = i.
Proof.
  intros Hk H Hi. apply bind_inv in H as (a & w1 & H1%Hk & H).
  exists a, w1. split; [done|]. by rewrite (inflight_same _ _ _ H1).
Qed.
End session_lemmas.

#[export] Hint Resolve keeps_chans_named keeps_chans_info keeps_chans_fill keeps_chans_c_str : keeps.

(** [skip H Hi] passes over a step that keeps the channels. *)
Ltac skip H Hi :=
  let Hn := fresh in
  eapply keeps_step in H as (? & ? & H & Hn); [|solve_keeps|exact Hi];
  clear Hi; rename Hn into Hi; cbv zeta in H.
(** [counted H Hi] passes over a step with a lemma on the counters. *)
Ltac counted H Hi :=
  let H0 := fresh in
  apply bind_inv in H as (? & ? & H0 & H);
  first [eapply insert_peer_inflight in H0 | eapply recv_whole_inflight in H0
        | eapply send_remote_inflight in H0 | eapply write_remote_inflight in H0];
  [|exact Hi]; clear Hi; rename H0 into Hi; cbv zeta in H.

(** ** Properties *)

Section session_properties.
Context {X : Type} `{!Platform X} `{!Application X}.
Context (uninit : Z).
Implicit Types w : World X.

(** the default receive handler keeps the receive queue filled: each
    handled receive posts exactly one new receive, and answers with one send,
    or with a send and a write when the peer asked for the key exchange.  The
    handler of a write with immediate also posts exactly one receive.  No
    handler takes a finished request off the counters, the send handler does
    nothing at all. *)
Theorem handlers_replenish_receives wc w u w' r s :
  inflight w (wc_wr_id wc) = Some (r, s) →
  (default_process_recv_done uninit wc w = Ok u w' →
     inflight w' (wc_wr_id wc) =
       Some (r + 1, s + if wc_imm_data wc =? msg_code REQUEST_EXCHANGE_KEY then 2 else 1)) ∧
  (default_process_recv_write_with_imm_done wc w = Ok u w' →
     inflight w' (wc_wr_id wc) = Some (r + 1, s)) ∧
  (default_process_send_done wc w = Ok u w' → w' = w).
Proof.
  intros Hi0. split; [|split]; intros H; pose proof Hi0 as Hi.
  - unfold default_process_recv_done in H. cbv zeta in H.
    skip H Hi. skip H Hi. skip H Hi. skip H Hi. skip H Hi. skip H Hi.
    destruct (_ =? _).
    + skip H Hi. skip H Hi. counted H Hi.
      counted H Hi. counted H Hi.
      unfold fill_string in H. skip H Hi. counted H Hi. pinv H.
      rewrite Hi. do 2 f_equal. lia.
    + destruct (_ =? msg_code TEST_FOR_SYNC_DATA).
      * skip H Hi. counted H Hi. skip H Hi. skip H Hi. skip H Hi.
        skip H Hi. counted H Hi. by pinv H.
      * skip H Hi. counted H Hi. unfold fill_string in H. skip H Hi.
        counted H Hi. by pinv H.
  - unfold default_process_recv_write_with_imm_done in H. cbv zeta in H.
    skip H Hi. skip H Hi. skip H Hi. skip H Hi. counted H Hi. by pinv H.
  - unfold default_process_send_done in H. by pinv H.
Qed.

(** no completion with an error status or an unknown opcode gets past the
    loop: when one poll of a channel returns, every completion it took (at
    most 128) was successful and of a known kind. *)
Theorem poll_channel_only_success this ch w u w' :
  poll_channel uninit this ch w = Ok u w' →
  ∃ c n wcs x m, w_chans w !! ch = Some c ∧
    ibv_poll_cq (used_cq_ (adapter c)) 128 (w_ext w) (w_mem w) = ((n, wcs), (x, m)) ∧
    Forall (λ wc, wc_status wc = IBV_WC_SUCCESS ∧ ∀ k, wc_opcode wc ≠ IBV_WC_OTHER k)
      (take (Z.to_nat n) wcs).
Proof.
  intros H. unfold poll_channel in H. apply bind_inv in H as ([n wcs] & w1 & H1 & H).
  unfold poll_cq_batch in H1. wstep H1 as a w2 H2. unfold real_poll_completion_queue in H1.
  wstep H1 as ? w3 H3. wstep H1 as ? w4 H4. pinv H1.
  eexists _, n, wcs, _, _. split; [exact H2|]. split; [exact H1|].
  destruct (n =? 0) eqn:Hn; [apply Z.eqb_eq in Hn as ->; constructor|]. clear H1 H2 Hn.
  revert H. generalize (take (Z.to_nat n) wcs) as l.
  match goal with |- ∀ l, for_each l _ ?s = _ → _ => generalize s end.
  intros s l. revert s. induction l as [|wc l IH]; intros s H; [constructor|].
  cbn [for_each] in H. apply bind_inv in H as (v & s1 & H1 & H). constructor; [|by eapply IH].
  unfold process_wc in H1.
  destruct (negb (wc_status wc =? IBV_WC_SUCCESS)) eqn:Hs.
  { apply bind_inv in H1 as (i & s2 & _ & H1). done. }
  apply negb_false_iff, Z.eqb_eq in Hs. split; [done|]. intros k Hk.
  apply bind_inv in H1 as (se & s2 & _ & H1). rewrite Hk in H1.
  apply bind_inv in H1 as (i & s3 & _ & H1). done.
Qed.

Lemma collect_channels_inv eps w l w' :
  collect_channels eps w = Ok l w' →
  w' = w ∧ Forall2 (λ ep p, ∃ e c, w_eps w !! ep = Some e ∧
    rdma_channel_mgr_ e !! 0%nat = Some p.2 ∧ w_chans w !! p.2 = Some c ∧
    p.1 = used_cq_ (adapter c)) eps l.
Proof.
  revert l w'. induction eps as [|ep eps IH]; intros l w' H; cbn in H.
  - pinv H. split; [done|constructor].
  - apply bind_inv in H as (ch & w1 & H1 & H). unfold get_channel in H1.
    wstep H1 as ? w2 H2. wstep H1 as e w3 H3. pinv H1.
    wstep H as a w4 H4. apply bind_inv in H as (rest & w5 & (-> & Hf)%IH & H). pinv H.
    split; [done|]. constructor; [|done]. eauto 10.
Qed.

(** C35: [running] starts one completion thread per completion queue: the
    groups have distinct queues, no channel is dropped or polled by two
    groups, and every endpoint's channel is in the group of its own queue, in
    the order of the endpoints. *)
Theorem running_groups_by_queue this w groups w' s :
  running this w = Ok groups w' → w_sess w !! this = Some s →
  ∃ l, Forall2 (λ ep p, ∃ e c, w_eps w !! ep = Some e ∧
      rdma_channel_mgr_ e !! 0%nat = Some p.2 ∧ w_chans w !! p.2 = Some c ∧
      p.1 = used_cq_ (adapter c)) (end_point_mgr_ s) l ∧
    NoDup groups.*1 ∧ (∀ cq, cq ∈ groups.*1 ↔ cq ∈ l.*1) ∧
    (∀ cq, group_of groups cq = (filter (λ p, p.1 = cq) l).*2).
Proof.
  intros H Hs. unfold running in H. wstep H as s' w1 H1. same H1 Hs.
  apply bind_inv in H as (l & w2 & (-> & Hf)%collect_channels_inv & H). pinv H.
  exists l. split; [done|]. destruct (group_channels_inv l [] ltac:(constructor)) as (H1 & H2 & H3).
  split; [done|]. split; [|done]. intros cq. unfold group_channels. rewrite H2. cbn.
  rewrite elem_of_nil. tauto.
Qed.
End session_properties.

(** ** Accepting connections *)

Section session_accept.
Context {X : Type} `{!Platform X} `{!StreamLaws X}.
Implicit Types w : World X.

(** Endpoint number [i] of a session has a channel that knows this number and
    its endpoint. *)
Definition indexed w (eps : list Z) : Prop :=
  ∀ i ep, eps !! i = Some ep →
    ∃ e ch c, w_eps w !! ep = Some e ∧ rdma_channel_mgr_ e !! 0%nat = Some ch ∧
      w_chans w !! ch = Some c ∧ registered_endpoint_ c = ep ∧
      indexed_by_session (adapter c) = Z.of_nat i ∧ ep < w_next w ∧ ch < w_next w.

Lemma accept_inv fuel this fd cin w r w' s :
  accept_new_connection fuel this fd cin w = Ok r w' → fd ≠ 0 →
  w_sess w !! this = Some s → Z.of_nat (length (end_point_mgr_ s)) < 2^31 - 1 →
  r = 1 ∧ ∃ e c cc, let ep := w_next w in
    w_next w' = ep + 3 ∧ rdma_channel_mgr_ e = [ep + 2] ∧
    w_eps w' = <[ep := e]> (w_eps w) ∧ w_conns w' = <[ep + 1 := c]> (w_conns w) ∧
    w_chans w' = <[ep + 2 := cc]> (w_chans w) ∧ registered_endpoint_ cc = ep ∧
    indexed_by_session (adapter cc) = Z.of_nat (length (end_point_mgr_ s)) ∧
    registered_session_ e = this ∧ pre_connector_ e = ep + 1 ∧ root_sock c = fd ∧
    w_sess w' = <[this := s <| end_point_mgr_ ::= λ l, l ++ [ep] |>]> (w_sess w).
Proof.
  intros H Hfd Hs Hlen. unfold accept_new_connection in H. cbv zeta in H.
  wstep H as s' w1 H1. same H1 Hs. apply bind_inv in H as (ep & w2 & H2 & H).
  destruct (create_endpoint_inv _ _ _ _ _ _ _ _ _ H2 Hfd) as (-> & id & c & Hf & _ & _ & Hh).
  unfold heaps in Hh. injection Hh as N2 C2 T2 E2 S2.
  apply bind_inv in H as (? & w3 & H3 & H). unfold upd_sess in H3.
  wstep H3 as s3 w4 H4. rewrite S2 in H4. same H4 Hs. pinv H3.
  apply bind_inv in H as (ch & w5 & H5 & H). unfold get_channel in H5.
  wstep H5 as ? w6 H6. clear H6. wstep H5 as e w7 H7. cbn in H7.
  rewrite E2, lookup_insert_eq in H7. injection H7 as <-. pinv H5. cbn in H5.
  injection H5 as <-. wstep H as s5 w8 H8. cbn in H8. rewrite lookup_insert_eq in H8.
  injection H8 as <-. apply bind_inv in H as (? & w9 & H9 & H). injection H as <- <-.
  unfold setup_index_in_session in H9. pinv H9. cbn in H9.
  rewrite C2, lookup_insert_eq in H9. injection H9 as <-. split; [done|].
  eexists _, c, _. cbn. rewrite C2, T2, E2, S2, insert_insert_eq.
  split; [done|]. split; [|split; [reflexivity|]]; [done|]. split; [done|].
  split; [reflexivity|]. split; [done|]. split; [|done].
  cbn. rewrite length_app. cbn. rewrite i32_small; lia.
Qed.

(** C25: every endpoint a session accepts gets the index of its place in the
    session's table, and the indices of the endpoints accepted before stay
    right; the session's table grows by exactly the new endpoint. *)
Theorem accept_keeps_indices fuel this fd cin w r w' s :
  accept_new_connection fuel this fd cin w = Ok r w' → fd ≠ 0 →
  w_sess w !! this = Some s → Z.of_nat (length (end_point_mgr_ s)) < 2^31 - 1 →
  indexed w (end_point_mgr_ s) →
  ∃ ep s', w_sess w' !! this = Some s' ∧ end_point_mgr_ s' = end_point_mgr_ s ++ [ep] ∧
    (ep ∉ end_point_mgr_ s) ∧ indexed w' (end_point_mgr_ s') ∧ r = 1.
Proof.
  intros H Hfd Hs Hlen Hix.
  destruct (accept_inv _ _ _ _ _ _ _ _ H Hfd Hs Hlen) as (-> & e & c & cc & N & Hm & E & _ &
    C & Hep & Hi & _ & _ & _ & S).
  exists (w_next w). eexists. split; [rewrite S; apply lookup_insert_eq|]. cbn.
  split; [done|]. split.
  { intros [i Hin]%list_elem_of_lookup. destruct (Hix _ _ Hin) as (?&?&?&_&_&_&_&_&?&_). lia. }
  split; [|done]. intros i ep Hl. rewrite E, C, N.
  destruct (decide (i < length (end_point_mgr_ s))%nat) as [Hlt|Hge].
  - rewrite lookup_app_l in Hl by done.
    destruct (Hix _ _ Hl) as (e1 & ch & c1 & He & Hch & Hc & Hr & Hx & Hn1 & Hn2).
    exists e1, ch, c1. rewrite lookup_insert_ne by lia. rewrite lookup_insert_ne by lia.
    split_and!; try done; try lia.
  - rewrite lookup_app_r in Hl by lia.
    destruct (i - length (end_point_mgr_ s))%nat as [|k] eqn:Hk; [|by destruct k].
    injection Hl as <-. exists e, (w_next w + 2), cc. rewrite Hm, !lookup_insert_eq.
    split_and!; try done; try lia.
Qed.
End session_accept.

(** ** Witnesses *)

#[local] Instance no_application : Application Sim := {
  user_established _ _ := mret tt;
  user_completion _ _ := mret tt
}.

(** A loaded channel with small test buffers for the default handlers. *)
Definition se_buffer (p : string * Z) : W Sim unit :=
  b ← allocate_named 500 p.2 1 p.1; register_buffer 500 b ;; mret tt.
Definition se_w0 : World Sim :=
  state_of (for_each [("recv_buffer_for_test@", 8); ("send_buffer_for_test@", 128);
    ("write_buffer_for_test@", 8); ("read_write_sink_buffer_for_test@", 8)] se_buffer ad_w1).
Definition se_wc (imm : Z) : ibv_wc := mkWc 500 IBV_WC_SUCCESS IBV_WC_RECV 24 imm IBV_WC_WITH_IMM.
Definition se_recv (imm : Z) : World Sim :=
  state_of (default_process_recv_done 0 (se_wc imm) se_w0).

Lemma handlers_replenish_receives_witness :
  inflight (se_recv (msg_code TEST_FOR_SYNC_DATA)) 500 = Some (1, 1) ∧
  inflight (se_recv (msg_code SAY_HELLO)) 500 = Some (1, 1).
Proof.
  assert (inflight se_w0 500 = Some (0, 0)) as H0 by (vm_compute; reflexivity).
  split.
  - refine (proj1 (handlers_replenish_receives 0 (se_wc (msg_code TEST_FOR_SYNC_DATA)) se_w0 tt
      _ 0 0 H0) _).
    vm_compute; reflexivity.
  - refine (proj1 (handlers_replenish_receives 0 (se_wc (msg_code SAY_HELLO)) se_w0 tt
      _ 0 0 H0) _).
    vm_compute; reflexivity.
Defined.

Definition se_poll_w : World Sim :=
  ad_w1 <| w_ext ::= λ x, x <| sim_completions :=
    [[mkWc 500 IBV_WC_SUCCESS IBV_WC_SEND 8 0 0; mkWc 500 IBV_WC_SUCCESS IBV_WC_SEND 9 0 0]] |> |>
  .

Lemma poll_channel_only_success_witness :
  ∃ c n wcs x m, w_chans se_poll_w !! 500 = Some c ∧
    ibv_poll_cq (used_cq_ (adapter c)) 128 (w_ext se_poll_w) (w_mem se_poll_w) =
      ((n, wcs), (x, m)) ∧
    Forall (λ wc, wc_status wc = IBV_WC_SUCCESS ∧ ∀ k, wc_opcode wc ≠ IBV_WC_OTHER k)
      (take (Z.to_nat n) wcs).
Proof.
  apply (poll_channel_only_success 0 200 500 se_poll_w tt
    (state_of (poll_channel 0 200 500 se_poll_w))).
  vm_compute; reflexivity.
Defined.

(** The session of [ad_w1] has one endpoint, and its channel a queue. *)
Lemma running_groups_by_queue_witness :
  ∃ groups, running 200 ad_w1 = Ok groups ad_w1 ∧ NoDup groups.*1.
Proof.
  eexists. assert (running 200 ad_w1 = Ok [(used_cq_ (adapter ad_c1), [500])] ad_w1) as H
    by (vm_compute; reflexivity).
  split; [exact H|].
  destruct (running_groups_by_queue 200 ad_w1 _ ad_w1 ad_sess H) as (l & _ & Hn & _).
  - vm_compute; reflexivity.
  - exact Hn.
Defined.

Definition se_acc_w : World Sim :=
  world0 <| w_sess := {[200 := ad_sess <| end_point_mgr_ := [] |>]} |>
         <| w_ext ::= λ x, x <| sim_inbox := [[81]] |> |>.

Lemma accept_keeps_indices_witness :
  ∃ ep s', w_sess (state_of (accept_new_connection 5 200 9 (mkSockaddrIn 7 2) se_acc_w)) !! 200 =
      Some s' ∧ end_point_mgr_ s' = [ep].
Proof.
  destruct (accept_keeps_indices 5 200 9 (mkSockaddrIn 7 2) se_acc_w 1
    (state_of (accept_new_connection 5 200 9 (mkSockaddrIn 7 2) se_acc_w))
    (ad_sess <| end_point_mgr_ := [] |>)) as (ep & s' & H1 & H2 & _).
  - vm_compute; reflexivity.
  - lia.
  - vm_compute; reflexivity.
  - cbn. lia.
  - intros i ep H. cbn in H. by destruct i.
  - exists ep, s'. split; [exact H1|exact H2].
Defined.
