(* ===== verification/Threads.v ===== *)
(** * Threads that share the state

    A thread is a sequence of atomic actions, each a critical section or a step
    on data no other thread writes.  A schedule gives turns to the threads of a
    pool in any order.  The rely/guarantee rules prove what a thread ends with,
    whatever the schedule, from what its own actions do and what it relies on the
    others to leave alone. *)
From S2P Require Import Prelude.

Inductive thread (S A : Type) : Type :=
  | Return (a : A)
  | Atomic (B : Set) (m : M S B) (k : B → thread S A).
Arguments Return {S A} a.
Arguments Atomic {S A B} m k.

Definition atomic {S : Type} {B : Set} (m : M S B) : thread S B := Atomic m Return.
Fixpoint thread_bind {S A B : Type} (f : A → thread S B) (t : thread S A) : thread S B :=
  match t with
  | Return a => f a
  | Atomic m k => Atomic m (λ b, thread_bind f (k b))
  end.
#[export] Instance thread_ret S : MRet (thread S) := λ A a, Return a.
#[export] Instance thread_mbind S : MBind (thread S) := λ A B f t, thread_bind f t.

Fixpoint each_thread {S A : Type} (l : list A) (f : A → thread S unit) : thread S unit :=
  match l with
  | [] => mret tt
  | a :: l => f a ;; each_thread l f
  end.

(** The thread by itself. *)
Fixpoint alone {S A : Type} (t : thread S A) : M S A :=
  match t with
  | Return a => mret a
  | Atomic m k => b ← m; alone (k b)
  end.

(** One action of the thread number [i], if there is one to do; a schedule. *)
Definition turn {S A : Type} (ts : list (thread S A)) (i : nat) : M S (list (thread S A)) :=
  match ts !! i with
  | Some (Atomic m k) => b ← m; mret (<[i := k b]> ts)
  | _ => mret ts
  end.
Definition run_schedule {S A : Type} (l : list nat) (ts : list (thread S A))
    : M S (list (thread S A)) := fold_each turn ts l.

(** ** Running alone is one of the schedules *)

Section schedules.
Context {S A : Type}.
Implicit Types (t : thread S A) (s : S).

Lemma alone_bind {B : Type} (t : thread S B) (f : B → thread S A) s :
  alone (t ≫= f) s = (alone t ≫= λ b, alone (f b)) s.
Proof.
  revert s. induction t as [b|C m k IH]; intros s; [done|]. cbn [alone].
  change (Atomic m k ≫= f) with (Atomic m (λ c, k c ≫= f)). cbn [alone].
  rewrite bind_assoc. destruct (m s) as [c s1|f1 s1] eqn:E.
  - rewrite !(bind_Ok _ _ _ _ _ E). apply IH.
  - by rewrite !(bind_Abort _ _ _ _ _ E).
Qed.
Lemma alone_atomic {B : Set} (m : M S B) s : alone (atomic m) s = m s.
Proof. cbn. unfold mbind, M_bind. by destruct (m s). Qed.

Lemma run_schedule_app l1 l2 (ts : list (thread S A)) s :
  run_schedule (l1 ++ l2) ts s = (run_schedule l1 ts ≫= run_schedule l2) s.
Proof.
  revert ts s. induction l1 as [|i l1 IH]; intros ts s; [done|].
  change (run_schedule ((i :: l1) ++ l2) ts) with (turn ts i ≫= run_schedule (l1 ++ l2)).
  change (run_schedule (i :: l1) ts) with (turn ts i ≫= run_schedule l1).
  rewrite bind_assoc. destruct (turn ts i s) as [c s1|f1 s1] eqn:E.
  - rewrite !(bind_Ok _ _ _ _ _ E). apply IH.
  - by rewrite !(bind_Abort _ _ _ _ _ E).
Qed.

Lemma alone_schedule t ts i s a s' :
  alone t s = Ok a s' → ts !! i = Some t →
  ∃ l, run_schedule l ts s = Ok (<[i := Return a]> ts) s'.
Proof.
  revert ts s. induction t as [b|B m k IH]; intros ts s H Hi; cbn [alone] in H.
  - injection H as <- <-. exists []. cbn. by rewrite list_insert_id.
  - apply bind_inv in H as (b & s1 & H1 & H).
    destruct (IH b (<[i := k b]> ts) s1 H) as [l Hl].
    { apply list_lookup_insert_eq. by eapply lookup_lt_Some. }
    exists (i :: l). change (run_schedule (i :: l) ts) with (turn ts i ≫= run_schedule l).
    assert (turn ts i s = Ok (<[i := k b]> ts) s1) as E.
    { unfold turn. rewrite Hi. by rewrite (bind_Ok _ _ _ _ _ H1). }
    rewrite (bind_Ok _ _ _ _ _ E), Hl. by rewrite list_insert_insert_eq.
Qed.

(** One thread after the other is a schedule. *)
Lemma for_each_schedule {B : Type} (f : B → thread S A) (g : B → M S unit) l pre s u s' a :
  (∀ b s u s', g b s = Ok u s' → alone (f b) s = Ok a s') →
  for_each l g s = Ok u s' →
  ∃ sched, run_schedule sched (pre ++ (f <$> l)) s = Ok (pre ++ replicate (length l) (Return a)) s'.
Proof.
  intros Hf. revert pre s. induction l as [|b l IH]; intros pre s H; cbn in H.
  - injection H as _ <-. by exists [].
  - apply bind_inv in H as (u1 & s1 & H1 & H). apply Hf in H1.
    destruct (alone_schedule (f b) (pre ++ f b :: (f <$> l)) (length pre) s a s1 H1) as [l1 E1].
    { by apply list_lookup_middle. }
    rewrite insert_app_r_alt, Nat.sub_diag in E1 by done. cbn in E1.
    destruct (IH (pre ++ [Return a]) s1 H) as [l2 E2]. rewrite <-!(assoc_L (++)) in E2. cbn in E2.
    exists (l1 ++ l2). rewrite run_schedule_app, (bind_Ok _ _ _ _ _ E1). exact E2.
Qed.
End schedules.

(** ** Rely and guarantee *)

(** [wp R G t Q s]: from [s], with other threads changing the state as [R] allows
    between the actions of [t], each action changes it as [G] says, and if [t]
    ends, it ends in [Q]. *)
Fixpoint wp {S A : Type} (R G : S → S → Prop) (t : thread S A) (Q : A → S → Prop) (s : S)
    : Prop :=
  match t with
  | Return a => ∀ s', R s s' → Q a s'
  | Atomic m k => ∀ s' b s'', R s s' → m s' = Ok b s'' → G s' s'' ∧ wp R G (k b) Q s''
  end.

Definition stable {S : Type} (R : S → S → Prop) (P : S → Prop) : Prop :=
  ∀ s s', R s s' → P s → P s'.

Section rely.
Context {S : Type} (R G : S → S → Prop) `{!PreOrder R}.
Implicit Types (P : S → Prop) (s : S).

Definition triple {A} P (t : thread S A) (Q : A → S → Prop) : Prop :=
  ∀ s, P s → wp R G t Q s.

Lemma wp_rely {A} (t : thread S A) Q s s' : R s s' → wp R G t Q s → wp R G t Q s'.
Proof.
  destruct t as [a|B m k]; cbn; intros Hr H.
  - intros s'' Hr'. apply H. by etrans.
  - intros s1 b s2 Hr'. apply H. by etrans.
Qed.

Lemma wp_bind {A B} (t : thread S A) (f : A → thread S B) Q s :
  wp R G t (λ a, wp R G (f a) Q) s → wp R G (t ≫= f) Q s.
Proof.
  revert s. induction t as [a|C m k IH]; intros s H.
  - by apply H.
  - intros s' b s'' Hr Hm. destruct (H _ _ _ Hr Hm) as [HG Hk]. split; [done|]. by apply IH.
Qed.

Lemma wp_mono {A} (t : thread S A) (Q Q' : A → S → Prop) s :
  (∀ a s', Q a s' → Q' a s') → wp R G t Q s → wp R G t Q' s.
Proof.
  intros HQ. revert s. induction t as [a|C m k IH]; cbn; intros s H; [auto|].
  intros s' b s'' Hr Hm. destruct (H _ _ _ Hr Hm). auto.
Qed.

Lemma wp_weaken (R' G' : S → S → Prop) {A} (t : thread S A) Q s :
  (∀ s s', R' s s' → R s s') → (∀ s s', G s s' → G' s s') → wp R G t Q s → wp R' G' t Q s.
Proof.
  intros HR HG. revert s. induction t as [a|C m k IH]; cbn; intros s H; [auto|].
  intros s' b s'' Hr Hm. destruct (H s' b s'' (HR _ _ Hr) Hm). auto.
Qed.

Lemma triple_ret {A} P (a : A) (Q : A → S → Prop) :
  stable R (Q a) → (∀ s, P s → Q a s) → triple P (mret a) Q.
Proof. intros Hst HP s Hs s' Hr. eapply Hst; eauto. Qed.

Lemma triple_bind {A B} P (t : thread S A) Q (f : A → thread S B) Q' :
  triple P t Q → (∀ a, triple (Q a) (f a) Q') → triple P (t ≫= f) Q'.
Proof. intros Ht Hf s Hs. apply wp_bind. eapply wp_mono; [|by apply Ht]. intros a. apply Hf. Qed.

Lemma triple_atomic {B : Set} P (m : M S B) (Q : B → S → Prop) :
  stable R P → (∀ b, stable R (Q b)) →
  (∀ s b s', P s → m s = Ok b s' → G s s' ∧ Q b s') → triple P (atomic m) Q.
Proof.
  intros HP HQ Hm s Hs s' b s'' Hr E. destruct (Hm _ _ _ (HP _ _ Hr Hs) E) as [HG Hq].
  split; [done|]. intros s3 Hr'. by eapply HQ.
Qed.

Lemma triple_each {A} (l : list A) (f : A → thread S unit) P :
  stable R P → (∀ a, a ∈ l → triple P (f a) (λ _, P)) → triple P (each_thread l f) (λ _, P).
Proof.
  intros Hst Hf. induction l as [|a l IH]; cbn; [by apply triple_ret|].
  eapply triple_bind; [apply Hf; set_solver|]. intros []. apply IH. set_solver.
Qed.
End rely.

(** ** The parallel rule *)

Section pool.
Context {S A : Type} (R G : nat → S → S → Prop) {order : ∀ i, PreOrder (R i)}.
Context (others : ∀ i j s s', i ≠ j → G i s s' → R j s s').
Context (Q : nat → A → S → Prop).

Definition pool_safe (ts : list (thread S A)) (s : S) : Prop :=
  ∀ i t, ts !! i = Some t → wp (R i) (G i) t (Q i) s.

Lemma turn_safe ts i s ts' s' : turn ts i s = Ok ts' s' → pool_safe ts s → pool_safe ts' s'.
Proof.
  intros H Hs. unfold turn in H. destruct (ts !! i) as [[a|B m k]|] eqn:Hi;
    [by injection H as <- <-| |by injection H as <- <-].
  apply bind_inv in H as (b & s1 & H1 & H). injection H as <- <-.
  destruct (Hs _ _ Hi s b s1 ltac:(reflexivity) H1) as [HG Hk].
  intros j t Hj. destruct (decide (j = i)) as [->|Hne].
  - rewrite list_lookup_insert_eq in Hj by (by eapply lookup_lt_Some). by injection Hj as <-.
  - rewrite list_lookup_insert_ne in Hj by done. eapply wp_rely; [typeclasses eauto| |by apply Hs].
    eapply others; [|exact HG]. done.
Qed.

Lemma schedule_safe l ts s ts' s' :
  run_schedule l ts s = Ok ts' s' → pool_safe ts s → pool_safe ts' s'.
Proof.
  revert ts s. induction l as [|i l IH]; intros ts s H Hs; cbn in H.
  - by injection H as <- <-.
  - apply bind_inv in H as (ts1 & s1 & H1 & H). eapply IH; [exact H|]. by eapply turn_safe.
Qed.

(** What every action guarantees, the schedule does. *)
Lemma schedule_guarantees (T : S → S → Prop) `{!PreOrder T} l ts s ts' s' :
  (∀ i s s', G i s s' → T s s') →
  run_schedule l ts s = Ok ts' s' → pool_safe ts s → T s s'.
Proof.
  intros HT. revert ts s. induction l as [|i l IH]; intros ts s H Hs; cbn in H.
  - by injection H as <- <-.
  - apply bind_inv in H as (ts1 & s1 & H1 & H). trans s1; [|by eapply IH, turn_safe].
    unfold turn in H1. destruct (ts !! i) as [[a|B m k]|] eqn:Hi;
      [by injection H1 as <- <-| |by injection H1 as <- <-].
    apply bind_inv in H1 as (b & s2 & H2 & H1). injection H1 as _ <-. eapply HT.
    by apply (Hs _ _ Hi s b s2).
Qed.

(** Whatever the schedule, a thread that has ended is in its postcondition. *)
Lemma schedule_post l ts s ts' s' i a :
  run_schedule l ts s = Ok ts' s' → pool_safe ts s → ts' !! i = Some (Return a) → Q i a s'.
Proof.
  intros H Hs Hi. by apply (schedule_safe _ _ _ _ _ H Hs _ _ Hi s').
Qed.
End pool.
