(* ===== verification/Helpers.v ===== *)
(** * The helper threads of RDMASession::real_connecting

    One thread per endpoint loads and connects its channel.  The threads share
    the registry of devices and, in each device, the set of adapters and the
    table of completion queues; every access to them is a critical section of
    its own, and an action of the thread here.  A channel and its connector are
    written by the thread of their endpoint alone. *)
From S2P Require Import Prelude Words Types Layout World Sim Ident Device Buffer.
From S2P Require Import Adapter Channel Tcp Endpoint Session Threads.

Section helpers.
Context {X : Type} `{!Platform X}.

(** [get_device] under [device_global_lock_], before the adapter is registered
    under the device's own lock. *)
Definition find_or_open (name : string) (adp : Z) : W X Z :=
  check (negb (adp =? 0)) "Adapter cannot be empty" ;;
  found ← gets (λ w, device_map_ w !! name);
  match found with
  | None =>
      dev ← RDMADevice_ctor name;
      modify (λ w, w <| device_map_ ::= <[name := dev]> |>) ;;
      mret dev
  | Some dev => mret dev
  end.
Definition get_device_t (name : string) (adp : Z) : thread (World X) Z :=
  dev_handler ← atomic (find_or_open name adp);
  atomic (register_adapter dev_handler adp) ;;
  mret dev_handler.

(** The test for a private queue and its creation lock the device one after the
    other. *)
Definition cq_config (this : Z) : W X RDMAAdapter :=
  adapter_info this ;;
  a ← adapter_at this;
  check (negb (bool_decide (cq_key (_adapter_config_ a) = "")))
    "please explicitly speficy the cq_key" ;;
  mret a.
Definition take_cq (this : Z) (a : RDMAAdapter) : W X unit :=
  let c := _adapter_config_ a in
  cq ← create_completion_queue (rdma_device_ a) (cq_key c) (i32 (cq_size c)) this
         (event_channel a) 0;
  upd_adapter this (λ a, a <| used_cq_ := cq |>).
Definition create_cq_t (this : Z) : thread (World X) unit :=
  a ← atomic (cq_config this);
  let c := _adapter_config_ a in
  if using_shared_cq c then
    atomic (check (negb (bool_decide (cq_key c = ""))) "detected the shared_cq is empty" ;;
            take_cq this a)
  else
    atomic (has ← has_created_cq (rdma_device_ a) (cq_key c);
            check (negb has) "detect previous one") ;;
    atomic (take_cq this a).

(** The key of the completion queue, a private one's the adapter's name. *)
Definition choose_cq_key (this : Z) (a : RDMAAdapter) : W X unit :=
  if using_shared_cq (_adapter_config_ a)
  then check (negb (bool_decide (cq_key (_adapter_config_ a) = "")))
         "expected to use shared cq, but the cq_key is not set"
  else i ← adapter_info this; upd_config this (λ c, c <| cq_key := i |>).

Definition loading_t (this : Z) : thread (World X) AdapterInfo :=
  a ← atomic (adapter_at this);
  if resource_is_allocated a then atomic (adapter_info this ;; mret (self_ a))
  else
    atomic (choose_cq_key this a) ;;
    dev ← get_device_t (dev_name (_adapter_config_ a)) this;
    atomic (upd_adapter this (λ a, a <| rdma_device_ := dev |>)) ;;
    atomic (create_pd this) ;;
    atomic (create_compt_channel this) ;;
    create_cq_t this ;;
    atomic (create_qp this) ;;
    atomic (update_my_adapter_info this) ;;
    atomic (upd_adapter this (λ a, a <| vadapt_status_ := RESOURCE_ALLOCATED |>) ;;
            upd_adapter this (λ a, a <| resource_is_allocated := true |>) ;;
            get_adapter_info this true).

Definition connect_channel_t (fuel : nat) (conn channel : Z) : thread (World X) unit :=
  adapt_info ← loading_t channel;
  r ← atomic (sock_sync_data fuel conn (Z.of_nat sizeof_AdapterInfo)
                (encode_AdapterInfo adapt_info));
  atomic (connecting channel (decode_AdapterInfo r.2)) ;;
  atomic (r ← sock_sync_data fuel conn 1 sync_byte;
          check (r.1 =? 0) "sync error after QPs are connected").

(** A helper thread, once [ready] is set. *)
Definition connecting_helper (fuel : nat) (end_point : Z) : thread (World X) unit :=
  e ← atomic (ep_at end_point);
  each_thread (rdma_channel_mgr_ e) (connect_channel_t fuel (pre_connector_ e)).
End helpers.

(** ** A helper by itself does what the sequential model does *)

Section alone.
Context {X : Type} `{!Platform X}.
Implicit Types w : World X.

Ltac alone_step :=
  rewrite alone_bind; apply bind_ext; [try apply alone_atomic|intros].

Lemma get_device_alone name adp w : alone (get_device_t name adp) w = get_device name adp w.
Proof.
  unfold get_device_t, get_device. rewrite alone_bind.
  rewrite (bind_ext _ (find_or_open name adp) _
    (λ dev, register_adapter dev adp ;; mret dev)).
  - unfold find_or_open. rewrite bind_assoc. apply bind_ext; [done|]. intros [] w1.
    by rewrite bind_assoc.
  - apply alone_atomic.
  - intros dev w1. by alone_step.
Qed.

Lemma create_cq_alone this w : alone (create_cq_t this) w = create_cq this w.
Proof.
  unfold create_cq_t, create_cq. rewrite alone_bind.
  rewrite (bind_ext _ (cq_config this) _ _ w (alone_atomic _ _) (λ _ _, eq_refl)).
  unfold cq_config. rewrite bind_assoc. apply bind_ext; [done|]. intros i w1.
  rewrite bind_assoc. apply bind_ext; [done|]. intros a w2. rewrite bind_assoc. cbv zeta.
  apply bind_ext; [done|]. intros [] w3. rewrite bind_ret. destruct (using_shared_cq _).
  - by rewrite alone_atomic.
  - rewrite alone_bind. etrans; [apply bind_ext; [apply alone_atomic|intros; apply alone_atomic]|].
    by rewrite bind_assoc.
Qed.

Lemma loading_alone this w : alone (loading_t this) w = loading this w.
Proof.
  unfold loading_t, loading. alone_step. destruct (resource_is_allocated a);
    [by rewrite alone_atomic|].
  alone_step. alone_step; [apply get_device_alone|]. do 3 alone_step.
  alone_step; [apply create_cq_alone|]. do 2 alone_step. apply alone_atomic.
Qed.

Lemma connect_channel_alone fuel conn ch w :
  alone (connect_channel_t fuel conn ch) w = connect_channel fuel conn ch w.
Proof.
  unfold connect_channel_t, connect_channel. alone_step; [apply loading_alone|].
  do 2 alone_step. apply alone_atomic.
Qed.

Lemma each_alone {A} (l : list A) (f : A → thread (World X) unit) (g : A → W X unit) w :
  (∀ a w, alone (f a) w = g a w) → alone (each_thread l f) w = for_each l g w.
Proof.
  intros Hf. revert w. induction l as [|a l IH]; intros w; [done|]. cbn.
  alone_step; [apply Hf|apply IH].
Qed.

Lemma helper_alone fuel ep w : alone (connecting_helper fuel ep) w = endpoint_connecting fuel ep w.
Proof.
  unfold connecting_helper, endpoint_connecting. alone_step.
  apply each_alone. intros. apply connect_channel_alone.
Qed.
End alone.

(** ** What helpers rely on and guarantee *)

Section rely.
Context {X : Type} `{!Platform X}.
Implicit Types w : World X.

(** A device keeps what its constructor found; its tables only grow. *)
Definition dev_grows (d d' : RDMADevice) : Prop :=
  dev_name_ d' = dev_name_ d ∧ ib_ctx_ d' = ib_ctx_ d ∧
  phys_port_cnt d' = phys_port_cnt d ∧ ports_attrs_ d' = ports_attrs_ d ∧
  adapter_set_ d ⊆ adapter_set_ d' ∧ reg_cqs_ d ⊆ reg_cqs_ d'.
Definition grows w w' : Prop :=
  registry_wf w → registry_wf w' ∧ device_map_ w ⊆ device_map_ w' ∧
  ∀ p d, w_devs w !! p = Some d → ∃ d', w_devs w' !! p = Some d' ∧ dev_grows d d'.

Definition helper_rely (ch : Z) w w' : Prop :=
  grows w w' ∧ names w' = names w ∧ w_chans w' !! ch = w_chans w !! ch.
Definition helper_guarantee (ch : Z) w w' : Prop :=
  grows w w' ∧ names w' = names w ∧ ∀ q, q ≠ ch → w_chans w' !! q = w_chans w !! q.

#[export] Instance dev_grows_order : PreOrder dev_grows.
Proof.
  split; [by intros d|]. intros d1 d2 d3 (? & ? & ? & ? & ? & ?) (? & ? & ? & ? & ? & ?).
  split_and!; try congruence; by etrans.
Qed.
#[export] Instance grows_order : PreOrder grows.
Proof.
  split.
  - intros w Hwf. split_and!; [done..|]. intros p d Hd. by exists d.
  - intros w1 w2 w3 H12 H23 Hwf. destruct (H12 Hwf) as (Hwf2 & Hm & Hd).
    destruct (H23 Hwf2) as (Hwf3 & Hm' & Hd'). split; [done|]. split; [by etrans|].
    intros p d Hp. destruct (Hd _ _ Hp) as (d2 & Hp2 & G2).
    destruct (Hd' _ _ Hp2) as (d3 & Hp3 & G3). exists d3. split; [done|]. by etrans.
Qed.
#[export] Instance helper_rely_order ch : PreOrder (helper_rely ch).
Proof.
  split; [by intros w|]. intros w1 w2 w3 (? & ? & ?) (? & ? & ?).
  split_and!; [by etrans|congruence..].
Qed.

(** A helper of another channel keeps its guarantee. *)
Lemma helpers_compatible ch ch' w w' :
  ch ≠ ch' → helper_guarantee ch w w' → helper_rely ch' w w'.
Proof. intros Hne (Hg & Hn & Hc). split_and!; [done..|]. by apply Hc. Qed.

Lemma grows_same w w' :
  w_devs w' = w_devs w → device_map_ w' = device_map_ w → w_next w' = w_next w → grows w w'.
Proof.
  intros Hd Hm Hn [Hwf Hfr]. split; [split|split].
  - rewrite Hm, Hd. exact Hwf.
  - rewrite Hd, Hn. exact Hfr.
  - by rewrite Hm.
  - intros p d Hp. exists d. by rewrite Hd.
Qed.

(** Writing a device that grows. *)
Lemma grows_dev w w' p d d' :
  w_devs w !! p = Some d → w_devs w' = <[p := d']> (w_devs w) → dev_grows d d' →
  device_map_ w' = device_map_ w → w_next w' = w_next w → grows w w'.
Proof.
  intros Hp Hd Hg Hm Hn [Hwf Hfr]. rewrite Hm. split; [split|split; [done|]].
  - intros name q Hq. rewrite Hm in Hq. destruct (Hwf _ _ Hq) as (dq & Hdq & Hok & Hname).
    rewrite Hd. destruct (decide (q = p)) as [->|Hne].
    + rewrite lookup_insert_eq. exists d'. simplify_eq.
      destruct Hg as (E1 & E2 & E3 & E4 & _). split; [done|].
      unfold device_ok in *. rewrite E1, E2, E3, E4. done.
    + rewrite lookup_insert_ne by done. eauto.
  - intros q Hq. rewrite Hn. rewrite Hd in Hq. apply Hfr.
    destruct (decide (q = p)) as [->|Hne]; [eauto|]. by rewrite lookup_insert_ne in Hq.
  - intros q dq Hdq. rewrite Hd. destruct (decide (q = p)) as [->|Hne].
    + exists d'. rewrite lookup_insert_eq. by simplify_eq.
    + exists dq. by rewrite lookup_insert_ne.
Qed.

Lemma register_adapter_grows p adp w d b w' :
  adp ≠ 0 → w_devs w !! p = Some d → register_adapter p adp w = Ok b w' → grows w w'.
Proof.
  intros Ha Hd H. rewrite (register_adapter_inv _ _ _ _ _ _ Ha Hd H).
  eapply grows_dev; [exact Hd|reflexivity| |done..]. split_and!; [done..|cbn; set_solver|done].
Qed.

Lemma create_completion_queue_grows dev key m cb ch v w cq w' :
  create_completion_queue dev key m cb ch v w = Ok cq w' →
  grows w w' ∧ ∃ d, w_devs w' !! dev = Some d ∧ reg_cqs_ d !! key = Some cq.
Proof.
  intros H. assert (∃ d, w_devs w !! dev = Some d) as [d Hd].
  { unfold create_completion_queue in H. wstep H as d w0 H0. eauto. }
  destruct (reg_cqs_ d !! key) as [q|] eqn:Hk.
  - rewrite (create_cq_hit _ _ _ _ _ _ _ _ _ Hd Hk) in H. injection H as <- <-.
    split; [reflexivity|eauto].
  - destruct (create_cq_miss _ _ _ _ _ _ _ _ _ _ Hd Hk H) as (_ & x & mm & _ & ->). split.
    + eapply grows_dev; [exact Hd|reflexivity| |done..].
      split_and!; [done..|]. cbn. by apply insert_subseteq.
    + eexists. cbn. rewrite lookup_insert_eq. split; [done|]. apply lookup_insert_eq.
Qed.

Lemma find_or_open_inv name adp w p w' :
  find_or_open name adp w = Ok p w' → registry_wf w →
  adp ≠ 0 ∧ grows w w' ∧ objects w' = objects w ∧ device_map_ w' !! name = Some p.
Proof.
  intros H Hwf. unfold find_or_open in H. wstep H as ? w1 H1.
  apply negb_true_iff, Z.eqb_neq in H1. wstep H as ? w2 H2. split; [done|].
  destruct (device_map_ w !! name) as [q|] eqn:Hm; [pinv H; split; [reflexivity|done]|].
  apply bind_inv in H as (dev & w3 & H3 & H). pose proof (keeps_RDMADevice_ctor _ _ _ _ H3) as Ho.
  apply RDMADevice_ctor_inv in H3 as (-> & Hn & Hmap & d & Hd & Hok & _ & _ & Hname).
  wstep H as ? w4 H4. pinv H. cbn. rewrite lookup_insert_eq. split; [|done].
  assert (∀ q d0, w_devs w !! q = Some d0 → q ≠ w_next w) as Hfresh.
  { intros q d0 Hq ->. destruct Hwf as [_ Hfr]. specialize (Hfr (w_next w) ltac:(eauto)). lia. }
  intros [Hw Hfr]. split; [split|split].
  - intros n q Hq. cbn in *. rewrite Hmap in Hq. rewrite Hd.
    apply lookup_insert_Some in Hq as [[<- <-]|[Hne Hq]]; [exists d; by rewrite lookup_insert_eq|].
    destruct (Hw _ _ Hq) as (d1 & Hd1 & ?). exists d1.
    rewrite lookup_insert_ne; [done|]. intros E. by eapply (Hfresh q).
  - intros q Hq. cbn in *. rewrite Hd in Hq. rewrite Hn.
    destruct (decide (q = w_next w)) as [->|Hne]; [lia|].
    rewrite lookup_insert_ne in Hq by done. specialize (Hfr _ Hq). lia.
  - cbn. rewrite Hmap. by apply insert_subseteq.
  - intros q d0 Hq. exists d0. cbn. rewrite Hd, lookup_insert_ne; [done|].
    intros E. by eapply (Hfresh q).
Qed.
End rely.

(** ** One helper *)

Section helper.
Context {X : Type} `{!Platform X}.
Implicit Types w : World X.
(** The channel, its object when the helpers start, and the names of the
    endpoints, connectors and sessions. *)
Context (ch : Z) (c0 : RDMAChannel).
Context (n0 : gmap Z RDMAEndPoint * gmap Z TCPConnector * gmap Z RDMASession).

Definition helper_triple {A} (P : World X → Prop) (t : thread (World X) A)
    (Q : A → World X → Prop) : Prop := triple (helper_rely ch) (helper_guarantee ch) P t Q.

Lemma helper_bind {A B} P (t : thread (World X) A) Q (f : A → thread (World X) B) Q' :
  helper_triple P t Q → (∀ a, helper_triple (Q a) (f a) Q') → helper_triple P (t ≫= f) Q'.
Proof. apply triple_bind, _. Qed.

(** The channel with the adapter [a], and what is known of the devices. *)
Definition holds (a : RDMAAdapter) (Ψ : World X → Prop) w : Prop :=
  registry_wf w ∧ names w = n0 ∧ w_chans w !! ch = Some (c0 <| adapter := a |>) ∧ Ψ w.
Definition monotone (Ψ : World X → Prop) : Prop :=
  ∀ w w', registry_wf w → grows w w' → Ψ w → Ψ w'.

Lemma holds_stable a Ψ : monotone Ψ → stable (helper_rely ch) (holds a Ψ).
Proof.
  intros HΨ w w' (Hg & Hn & Hc) (Hwf & Hn0 & Hc0 & Hw). split_and!; [by apply Hg|congruence..|].
  by eapply HΨ.
Qed.

Definition registered (name : string) (dev : Z) w : Prop :=
  device_map_ w !! name = Some dev ∧ ∃ d, w_devs w !! dev = Some d ∧ ch ∈ adapter_set_ d.
Definition queue_of (dev : Z) (key : string) (cq : Z) w : Prop :=
  ∃ d, w_devs w !! dev = Some d ∧ reg_cqs_ d !! key = Some cq.
Definition port_of (dev i : Z) (pa : ibv_port_attr) w : Prop :=
  ∃ d, w_devs w !! dev = Some d ∧ port_record d i = Some pa.

Lemma monotone_and Ψ Ψ' : monotone Ψ → monotone Ψ' → monotone (λ w, Ψ w ∧ Ψ' w).
Proof. intros H H' w w' Hwf Hg [? ?]. split; eauto. Qed.
Lemma monotone_true : monotone (λ _, True).
Proof. done. Qed.
Lemma monotone_map name dev : monotone (λ w, device_map_ w !! name = Some dev).
Proof. intros w w' Hwf Hg Hm. destruct (Hg Hwf) as (_ & Hs & _). by eapply lookup_weaken. Qed.
Lemma monotone_registered name dev : monotone (registered name dev).
Proof.
  intros w w' Hwf Hg [Hm (d & Hd & Hin)]. split; [by eapply monotone_map|].
  destruct (Hg Hwf) as (_ & _ & Hds). destruct (Hds _ _ Hd) as (d' & Hd' & G).
  exists d'. split; [done|]. by apply G.
Qed.
Lemma monotone_queue dev key cq : monotone (queue_of dev key cq).
Proof.
  intros w w' Hwf Hg (d & Hd & Hk). destruct (Hg Hwf) as (_ & _ & Hds).
  destruct (Hds _ _ Hd) as (d' & Hd' & G). exists d'. split; [done|].
  eapply lookup_weaken; [exact Hk|]. apply G.
Qed.
Lemma monotone_port dev i pa : monotone (port_of dev i pa).
Proof.
  intros w w' Hwf Hg (d & Hd & Hk). destruct (Hg Hwf) as (_ & _ & Hds).
  destruct (Hds _ _ Hd) as (d' & Hd' & _ & _ & _ & Hp & _). exists d'. split; [done|].
  unfold port_record in *. by rewrite Hp.
Qed.

(** The registry and the marks of allocation. *)
Definition registry w := (w_devs w, device_map_ w, w_next w).

(** A step that writes the adapter only. *)
Lemma triple_rewrites (m : W X unit) (Ra : RDMAAdapter → RDMAAdapter → Prop) a Ψ :
  rewrites ch m Ra → keeps registry m → monotone Ψ →
  helper_triple (holds a Ψ) (atomic m) (λ _ w, ∃ a', Ra a a' ∧ holds a' Ψ w).
Proof.
  intros Hm Hr HΨ. apply triple_atomic; [by apply holds_stable|..].
  { intros _ w w' Hrel (a' & Ha & Hh). exists a'. split; [done|]. by eapply holds_stable. }
  intros w u w' (Hwf & Hn & Hc & Hw) H. apply Hr in H as Hreg. unfold registry in Hreg.
  injection Hreg as Hd Hmap Hnext. pose proof (grows_same _ _ Hd Hmap Hnext) as Hg.
  destruct (Hm _ _ _ _ H Hc) as (a' & Ha & Hc' & Hn'). split.
  - split_and!; [done..|]. intros q Hq. by rewrite Hc', lookup_insert_ne.
  - exists a'. split; [done|]. split; [by apply Hg|]. rewrite Hn', Hc', lookup_insert_eq.
    split_and!; [done..|]. by eapply HΨ.
Qed.

(** A step that only reads. *)
Lemma triple_read {B : Set} (m : W X B) (φ : B → Prop) a Ψ :
  monotone Ψ → (∀ w b w', holds a Ψ w → m w = Ok b w' → w' = w ∧ φ b) →
  helper_triple (holds a Ψ) (atomic m) (λ b w, φ b ∧ holds a Ψ w).
Proof.
  intros HΨ Hm. apply triple_atomic; [by apply holds_stable|..].
  { intros b w w' Hr [Hb Hh]. split; [done|]. by eapply holds_stable. }
  intros w b w' Hh H. destruct (Hm _ _ _ Hh H) as [-> Hb]. split; [|done].
  split_and!; [reflexivity|done..].
Qed.

(** A step that shares a device and leaves the other objects alone. *)
Lemma triple_shared {B : Set} (m : W X B) a Ψ (Ψ' : B → World X → Prop) :
  monotone Ψ → (∀ b, monotone (Ψ' b)) →
  (∀ w b w', holds a Ψ w → m w = Ok b w' →
     grows w w' ∧ names w' = names w ∧ w_chans w' = w_chans w ∧ Ψ' b w') →
  helper_triple (holds a Ψ) (atomic m) (λ b, holds a (λ w, Ψ w ∧ Ψ' b w)).
Proof.
  intros HΨ HΨ' Hm. apply triple_atomic; [by apply holds_stable|..].
  { intros b. by apply holds_stable, monotone_and. }
  intros w b w' Hh H. destruct (Hm _ _ _ Hh H) as (Hg & Hn & Hc & Hb).
  destruct Hh as (Hwf & Hn0 & Hc0 & Hw). split.
  - split_and!; [done..|]. intros q _. by rewrite Hc.
  - split; [by apply Hg|]. rewrite Hn, Hc. split_and!; [done..| |done]. by eapply HΨ.
Qed.

(** A step that leaves the objects and the registry as they are. *)
Lemma triple_frame {B : Set} (m : W X B) a Ψ :
  (∀ w b w', holds a Ψ w → m w = Ok b w' →
     registry w' = registry w ∧ names w' = names w ∧ w_chans w' = w_chans w) → monotone Ψ →
  helper_triple (holds a Ψ) (atomic m) (λ _, holds a Ψ).
Proof.
  intros Hm HΨ w Hw. eapply wp_mono; [|apply (triple_shared m a Ψ (λ _ _, True)); [done..| |done]].
  - intros b w' (? & ? & ? & ? & _). by split_and!.
  - intros w1 b w' Hh H. destruct (Hm _ _ _ Hh H) as (Hr & Hn & Hc). unfold registry in Hr.
    injection Hr as Hd Hmap Hnext. split_and!; [by apply grows_same|done..].
Qed.

(** *** The steps of [loading] *)

Lemma triple_get_device name a Ψ :
  monotone Ψ →
  helper_triple (holds a Ψ) (get_device_t name ch)
    (λ dev, holds a (λ w, Ψ w ∧ registered name dev w)).
Proof.
  intros HΨ. unfold get_device_t. eapply helper_bind.
  - apply (triple_shared _ _ _ (λ dev w, ch ≠ 0 ∧ device_map_ w !! name = Some dev)); [done|..].
    { intros dev w w' Hwf Hg [? ?]. split; [done|]. by eapply monotone_map. }
    intros w dev w' (Hwf & _) H. apply find_or_open_inv in H as (Ha & Hg & Ho & Hm); [|done].
    unfold objects in Ho. injection Ho as _ Hc Ht He Hs. unfold names.
    rewrite Hc, Ht, He, Hs. done.
  - intros dev. cbv beta. eapply helper_bind.
    + apply (triple_shared _ _ _ (λ _, registered name dev)).
      { apply monotone_and; [done|]. intros w w' Hwf Hg [? ?]. split; [done|]. by eapply monotone_map. }
      { intros _. apply monotone_registered. }
      intros w b w' (Hwf & _ & _ & _ & Hch & Hm) H.
      destruct Hwf as [Hwf Hfr]. destruct (Hwf _ _ Hm) as (d & Hd & _).
      split; [by eapply register_adapter_grows|].
      rewrite (register_adapter_inv _ _ _ _ _ _ Hch Hd H).
      split; [done|]. split; [done|]. split; [exact Hm|]. exists (add_adapter ch d). cbn.
      rewrite lookup_insert_eq. split; [done|set_solver].
    + intros b. apply triple_ret.
      * apply holds_stable, monotone_and; [done|apply monotone_registered].
      * intros w (? & ? & ? & [[? _] ?]). by split_and!.
Qed.

Lemma take_cq_triple a Ψ :
  monotone Ψ →
  helper_triple (holds a Ψ) (atomic (take_cq ch a)) (λ _ w, ∃ cq, holds (a <| used_cq_ := cq |>)
    (λ w, Ψ w ∧ queue_of (rdma_device_ a) (cq_key (_adapter_config_ a)) cq w) w).
Proof.
  intros HΨ. apply triple_atomic; [by apply holds_stable|..].
  { intros _ w w' Hr (cq & Hh). exists cq. eapply holds_stable; [|exact Hr|exact Hh].
    apply monotone_and; [done|apply monotone_queue]. }
  intros w u w' (Hwf & Hn & Hc & Hw) H. unfold take_cq in H. cbv zeta in H.
  apply bind_inv in H as (cq & w1 & H1 & H).
  destruct (create_completion_queue_frame _ _ _ _ _ _ _ _ _ H1) as [Hc1 Hn1].
  apply create_completion_queue_grows in H1 as [Hg Hq].
  pinv H. rewrite Hc1, Hc in H. injection H as <-.
  assert (grows w (w1 <| w_chans ::= <[ch := c0 <| adapter := a <| used_cq_ := cq |> |>]> |>)) as Hg'.
  { etrans; [exact Hg|]. by apply grows_same. }
  split.
  - split_and!; [done..|]. intros q Hq'. cbn. by rewrite lookup_insert_ne, Hc1.
  - exists cq. split; [by apply Hg'|]. cbn. rewrite lookup_insert_eq. split_and!; [|done|by eapply HΨ|done].
    by rewrite <-Hn, <-Hn1.
Qed.

Lemma triple_create_cq a Ψ :
  monotone Ψ →
  helper_triple (holds a Ψ) (create_cq_t ch) (λ _ w, ∃ cq, holds (a <| used_cq_ := cq |>)
    (λ w, Ψ w ∧ queue_of (rdma_device_ a) (cq_key (_adapter_config_ a)) cq w) w).
Proof.
  intros HΨ. unfold create_cq_t. eapply helper_bind.
  - apply (triple_read _ (λ b, b = a)); [done|]. intros w b w' (_ & _ & Hc & _) H.
    unfold cq_config in H. apply bind_inv in H as (i & w1 & ->%adapter_info_read & H).
    wstep H as a' w2 H2. same H2 Hc. wstep H as ? w3 H3. by pinv H.
  - intros b. intros w [-> Hh]. revert w Hh. change (helper_triple (holds a Ψ)
      (if using_shared_cq (_adapter_config_ a) then
         atomic (check (negb (bool_decide (cq_key (_adapter_config_ a) = "")))
                   "detected the shared_cq is empty" ;; take_cq ch a)
       else atomic (has ← has_created_cq (rdma_device_ a) (cq_key (_adapter_config_ a));
                    check (negb has) "detect previous one") ;; atomic (take_cq ch a))
      (λ _ w, ∃ cq, holds (a <| used_cq_ := cq |>)
        (λ w, Ψ w ∧ queue_of (rdma_device_ a) (cq_key (_adapter_config_ a)) cq w) w)).
    destruct (using_shared_cq _).
    + destruct (negb _); [by apply take_cq_triple|].
      intros w Hh s' b s'' _ H. done.
    + eapply helper_bind; [|intros; by apply take_cq_triple].
      apply triple_frame; [|done]. intros w u w' _ H. apply bind_inv in H as (has & w1 & H1 & H).
      unfold has_created_cq in H1. wstep H1 as d w2 H2. pinv H1. by pinv H.
Qed.
(** The adapter's name, as long as the objects it is made of stay. *)
Definition is_name (name : string) : Prop :=
  ∀ w c, w_chans w !! ch = Some c → id_ (adapter c) = id_ (adapter c0) →
    registered_endpoint_ c = registered_endpoint_ c0 → names w = n0 →
    adapter_info ch w = Ok name w.

Lemma is_name_intro w a Ψ name w' :
  holds a Ψ w → id_ a = id_ (adapter c0) → adapter_info ch w = Ok name w' → is_name name.
Proof.
  intros (_ & Hn & Hc & _) Hid H w2 c2 Hc2 Hid2 Hep Hn2.
  rewrite (adapter_info_read _ _ _ _ H) in H.
  eapply adapter_info_cong; [exact Hc|exact Hc2| |done|congruence|exact H].
  by rewrite Hid2.
Qed.

(** The key of the adapter's queue. *)
Definition is_key (key : string) : Prop :=
  if using_shared_cq (_adapter_config_ (adapter c0))
  then key = cq_key (_adapter_config_ (adapter c0)) else is_name key.
Definition with_key (key : string) (a : RDMAAdapter) : RDMAAdapter :=
  a <| _adapter_config_ ::= λ g, g <| cq_key := key |> |>.

Lemma triple_choose_key :
  helper_triple (holds (adapter c0) (λ _, True)) (atomic (choose_cq_key ch (adapter c0)))
    (λ _ w, ∃ key, is_key key ∧ holds (with_key key (adapter c0)) (λ _, True) w).
Proof.
  unfold choose_cq_key, is_key. destruct (using_shared_cq _) eqn:Hsh.
  - intros w Hw. eapply wp_mono; [|apply (triple_read _ (λ _, True) (adapter c0) (λ _, True)); [done| |exact Hw]].
    + intros u w' [_ Hh]. eexists. split; [done|]. unfold with_key.
      by destruct (adapter c0) as [? ? [] ? ? ? ? ? ? ? ? ? ? ? ? ?].
    + intros w1 u w2 _ H. by pinv H.
  - apply triple_atomic; [by apply holds_stable|..].
    { intros _ w w' Hr (key & Hk & Hh). exists key. split; [done|].
      by eapply holds_stable; [apply monotone_true|..]. }
    intros w u w' Hh H. apply bind_inv in H as (i & w1 & Hi & H).
    pose proof (adapter_info_read _ _ _ _ Hi) as ->.
    pose proof (is_name_intro _ _ _ _ _ Hh eq_refl Hi) as Hname.
    destruct Hh as (Hwf & Hn & Hc & _). unfold upd_config in H. pinv H. rewrite Hc in H.
    injection H as <-. assert (grows w (w <| w_chans ::= <[ch := c0 <| adapter :=
      with_key i (adapter c0) |>]> |>)) as Hg by (by apply grows_same).
    split.
    + split_and!; [done..|]. intros q Hq. cbn. by rewrite lookup_insert_ne.
    + exists i. split; [done|]. split; [by apply Hg|]. cbn. by rewrite lookup_insert_eq.
Qed.

(** What [loading] leaves in the adapter. *)
Definition loaded (a : RDMAAdapter) (pa : ibv_port_attr) : Prop :=
  let cfg0 := _adapter_config_ (adapter c0) in
  let cfg := _adapter_config_ a in
  id_ a = id_ (adapter c0) ∧ resource_is_allocated a = true ∧ pd_ a ≠ 0 ∧
  dev_name cfg = dev_name cfg0 ∧ ib_port cfg = ib_port cfg0 ∧ is_key (cq_key cfg) ∧
  used_mtu cfg = negotiated (used_mtu cfg0) (port_active_mtu pa) ∧
  ∃ g q name, qp_ a = Some q ∧ is_name name ∧ (String.length name < max_id_length)%nat ∧
    self_ a = own_info g q pa (used_mtu cfg) name.
Definition sharing (a : RDMAAdapter) (pa : ibv_port_attr) w : Prop :=
  registered (dev_name (_adapter_config_ a)) (rdma_device_ a) w ∧
  queue_of (rdma_device_ a) (cq_key (_adapter_config_ a)) (used_cq_ a) w ∧
  port_of (rdma_device_ a) (ib_port (_adapter_config_ a)) pa w.
Lemma monotone_sharing a pa : monotone (sharing a pa).
Proof.
  apply monotone_and; [apply monotone_registered|].
  apply monotone_and; [apply monotone_queue|apply monotone_port].
Qed.

Lemma keeps_registry_update : keeps registry (update_my_adapter_info ch).
Proof.
  unfold update_my_adapter_info, upd_self, upd_config, query_gid, get_port_attr. cbv zeta.
  eauto 100 with keeps.
Qed.

Lemma triple_update_info a Ψ :
  monotone Ψ →
  helper_triple (holds a Ψ) (atomic (update_my_adapter_info ch)) (λ _ w, ∃ g q pa name mtu,
    qp_ a = Some q ∧ (id_ a = id_ (adapter c0) → is_name name) ∧
    (String.length name < max_id_length)%nat ∧
    mtu = negotiated (used_mtu (_adapter_config_ a)) (port_active_mtu pa) ∧
    holds (loaded_adapter a (own_info g q pa mtu name) mtu)
      (λ w, Ψ w ∧ port_of (rdma_device_ a) (ib_port (_adapter_config_ a)) pa w) w).
Proof.
  intros HΨ. apply triple_atomic; [by apply holds_stable|..].
  { intros _ w w' Hr (g & q & pa & name & mtu & Hq & Hna & Hl & Hm & Hh).
    exists g, q, pa, name, mtu. split_and!; [done..|]. eapply holds_stable; [|exact Hr|exact Hh].
    apply monotone_and; [done|apply monotone_port]. }
  intros w u w' (Hwf & Hn & Hc & Hw) H. apply keeps_registry_update in H as Hreg.
  unfold registry in Hreg. injection Hreg as Hd Hmap Hnext.
  pose proof (grows_same _ _ Hd Hmap Hnext) as Hg.
  destruct (update_my_adapter_info_inv _ _ _ _ _ H Hc)
    as (g & q & d & pa & i & mtu & Hq & _ & Hdev & Hpa & Hmtu & Hi & Hlen & Hc' & _ & Hn').
  split.
  - split_and!; [done..|]. intros p Hp. by rewrite Hc', lookup_insert_ne.
  - exists g, q, pa, i, mtu. split; [done|].
    assert (holds (loaded_adapter a (own_info g q pa mtu i) mtu)
      (λ w, Ψ w ∧ port_of (rdma_device_ a) (ib_port (_adapter_config_ a)) pa w) w') as Hh.
    { split; [by apply Hg|]. rewrite Hn', Hc', lookup_insert_eq. split_and!; [done..|by eapply HΨ|].
      exists d. by rewrite Hd. }
    split_and!; [|done..]. intros Hid. by eapply is_name_intro.
Qed.
Lemma helper_ex {A B} (P : B → World X → Prop) (t : thread (World X) A) Q :
  (∀ b, helper_triple (P b) t Q) → helper_triple (λ w, ∃ b, P b w) t Q.
Proof. intros H w [b Hb]. by eapply H. Qed.
Lemma helper_pure {A} (φ : Prop) P (t : thread (World X) A) Q :
  (φ → helper_triple P t Q) → helper_triple (λ w, φ ∧ P w) t Q.
Proof. intros H w [Hφ Hw]. by eapply H. Qed.

Lemma upd_adapter_rewrites f : rewrites (X:=X) ch (upd_adapter ch f) (λ a a', a' = f a).
Proof.
  intros w u w' c H Hc. pinv H. same H Hc. by eexists.
Qed.

(** [create_qp], with what the queue pair is made of forgotten. *)
Definition with_qp (q : ibv_qp) (ia : ibv_qp_init_attr) (a : RDMAAdapter) : RDMAAdapter :=
  a <| qp_init_attr := ia |> <| qp_ := Some q |>.

Lemma triple_finish a Ψ :
  monotone Ψ →
  helper_triple (holds a Ψ)
    (atomic (upd_adapter ch (λ a, a <| vadapt_status_ := RESOURCE_ALLOCATED |>) ;;
             upd_adapter ch (λ a, a <| resource_is_allocated := true |>) ;;
             get_adapter_info ch true))
    (λ info w, info = self_ a ∧ holds (a <| vadapt_status_ := RESOURCE_ALLOCATED |>
       <| resource_is_allocated := true |>) Ψ w).
Proof.
  intros HΨ. apply triple_atomic; [by apply holds_stable|..].
  { intros b w w' Hr [-> Hh]. split; [done|]. by eapply holds_stable. }
  intros w info w' (Hwf & Hn & Hc & Hw) H. wstep H as ? w1 H1. same H1 Hc.
  wstep H as ? w2 H2. cbn in H2. rewrite lookup_insert_eq in H2. injection H2 as <-.
  unfold get_adapter_info in H. wstep H as a' w3 H3. cbn in H3.
  rewrite lookup_insert_eq in H3. injection H3 as <-. pinv H.
  match goal with |- helper_guarantee _ _ ?w' ∧ _ => assert (grows w w') as Hg by (by apply grows_same) end.
  split.
  - split_and!; [done..|]. intros q Hq. cbn. by rewrite !lookup_insert_ne.
  - split; [done|]. split; [by apply Hg|]. cbn. rewrite !lookup_insert_eq.
    split_and!; [done..|]. by eapply HΨ.
Qed.

Lemma keeps_registry_pd : keeps registry (create_pd ch).
Proof. unfold create_pd, create_protected_domain. solve_keeps. Qed.
Lemma keeps_registry_ec : keeps registry (create_compt_channel ch).
Proof. unfold create_compt_channel, create_event_channel. solve_keeps. Qed.
Lemma keeps_registry_qp : keeps registry (create_qp ch).
Proof. unfold create_qp, create_queue_pair. solve_keeps. Qed.

Lemma triple_loading :
  resource_is_allocated (adapter c0) = false →
  helper_triple (holds (adapter c0) (λ _, True)) (loading_t ch)
    (λ info w, ∃ a pa, loaded a pa ∧ info = self_ a ∧ holds a (sharing a pa) w).
Proof.
  intros Hres. unfold loading_t. eapply helper_bind.
  { apply (triple_read _ (λ b, b = adapter c0)); [done|]. intros w b w' (_ & _ & Hc & _) H.
    pinv H. same H Hc. done. }
  intros a. apply helper_pure. intros ->. rewrite Hres.
  eapply helper_bind; [apply triple_choose_key|]. intros [].
  apply helper_ex. intros key. apply helper_pure. intros Hkey.
  eapply helper_bind; [by apply triple_get_device|]. intros dev. cbv beta.
  assert (monotone (λ w, True ∧ registered (dev_name (_adapter_config_ (adapter c0))) dev w)) as HΨ
    by (apply monotone_and; [done|apply monotone_registered]).
  eapply helper_bind; [apply triple_rewrites; [apply upd_adapter_rewrites|solve_keeps|exact HΨ]|].
  intros []. apply helper_ex. intros a1. apply helper_pure. intros ->.
  eapply helper_bind; [apply triple_rewrites; [apply create_pd_rewrites|apply keeps_registry_pd|exact HΨ]|].
  intros []. apply helper_ex. intros a1. apply helper_pure. intros (pd & Hpd & ->).
  eapply helper_bind; [apply triple_rewrites; [apply create_compt_channel_rewrites|apply keeps_registry_ec|exact HΨ]|].
  intros []. apply helper_ex. intros a1. apply helper_pure. intros (ec & ->).
  eapply helper_bind; [by apply triple_create_cq|]. intros []. apply helper_ex. intros cq. cbv beta.
  lazymatch goal with |- helper_triple (λ w, holds _ ?Φ w) _ _ => assert (monotone Φ) as HΨ' by
    (apply monotone_and; [exact HΨ|apply monotone_queue]) end.
  eapply helper_bind; [apply triple_rewrites; [apply create_qp_rewrites|apply keeps_registry_qp|exact HΨ']|].
  intros []. apply helper_ex. intros a1. apply helper_pure. intros (_ & q & ia & ->).
  eapply helper_bind; [by apply triple_update_info|]. intros []. cbv beta.
  apply helper_ex. intros g. apply helper_ex. intros q'. apply helper_ex. intros pa.
  apply helper_ex. intros name. apply helper_ex. intros mtu.
  apply helper_pure. intros [= <-]. apply helper_pure. intros Hname.
  apply helper_pure. intros Hlen. apply helper_pure. intros ->.
  lazymatch goal with |- helper_triple (holds _ ?Φ) _ _ => assert (monotone Φ) as HΨ2 by
    (apply monotone_and; [exact HΨ'|apply monotone_port]) end.
  intros w Hw. eapply wp_mono; [|by apply triple_finish].
  intros info w' [-> (Hwf & Hn & Hc & ((_ & Hreg) & Hcq) & Hport)].
  eexists _, pa. split; [|split; [|split; [exact Hwf|split; [exact Hn|split; [exact Hc|]]]]].
  - split_and!; try done. exists g, q, name. split_and!; try done. by apply Hname.
  - reflexivity.
  - clear -Hreg Hcq Hport. unfold sharing. cbn in Hreg, Hcq, Hport |- *. split_and!; [exact Hreg|exact Hcq|exact Hport].
Qed.
(** *** The exchange and the queue pair *)

Section keeps_connecting.
Context {P : Type} (p : World X → P).
Context (Hupd : ∀ f, keeps p (upd_adapter ch f)).
Context (Hcall : ∀ (B : Type) (op : ext_op X B), keeps p (call op)).

Lemma keeps_qp_steps :
  keeps p (modify_qp_to_init ch) ∧ keeps p (modify_qp_to_rtr ch) ∧
  keeps p (modify_qp_to_rts ch) ∧ keeps p (show_qp_info ch).
Proof.
  unfold modify_qp_to_init, modify_qp_to_rtr, modify_qp_to_rts, show_qp_info, get_qp_attr, qp_of.
  split_and!; solve_keeps.
Qed.
Lemma keeps_connecting peer : keeps p (connecting ch peer).
Proof.
  destruct keeps_qp_steps as (? & ? & ? & ?). unfold connecting, update_peer_adapter_info, drive_qp.
  solve_keeps.
Qed.
End keeps_connecting.

Lemma keeps_others_connecting q peer :
  q ≠ ch → keeps (λ w, w_chans w !! q) (connecting (X:=X) ch peer).
Proof.
  intros Hq. apply keeps_connecting; [|solve_keeps].
  intros f w u w' H. pinv H. cbn. by rewrite lookup_insert_ne.
Qed.
Lemma keeps_registry_connecting peer : keeps registry (connecting ch peer).
Proof. apply keeps_connecting; solve_keeps. Qed.

(** The adapter after [connecting] to [peer]. *)
Definition connected (a : RDMAAdapter) (peer : AdapterInfo) (ia : ibv_qp_init_attr)
    : RDMAAdapter :=
  a <| remote_ := peer |> <| qp_init_attr := ia |> <| vadapt_status_ := CONNECTING |>.

Lemma triple_connecting a Ψ peer :
  monotone Ψ →
  helper_triple (holds a Ψ) (atomic (connecting ch peer))
    (λ _ w, ∃ ia, holds (connected a peer ia) Ψ w).
Proof.
  intros HΨ. apply triple_atomic; [by apply holds_stable|..].
  { intros _ w w' Hr (ia & Hh). exists ia. by eapply holds_stable. }
  intros w b w' (Hwf & Hn & Hc & Hw) H. apply keeps_registry_connecting in H as Hreg.
  unfold registry in Hreg. injection Hreg as Hd Hmap Hnext.
  pose proof (grows_same _ _ Hd Hmap Hnext) as Hg. apply keeps_names_connecting in H as Hn'.
  split.
  - split_and!; [done..|]. intros q Hq. by eapply keeps_others_connecting in H.
  - destruct (connecting_steps _ _ _ _ _ _ H Hc) as (_ & w1 & r1 & w2 & u2 &
      w3 & r3 & w4 & u4 & w5 & r5 & w6 & u6 & w7 & ia3 & ia5 & ia7 & H').
    exists ia7. split; [by apply Hg|]. split; [congruence|]. split; [apply H'|]. by eapply HΨ.
Qed.

Lemma triple_sync fuel conn t size data {B : Set} (k : Z * list Z → W X B) a Ψ :
  n0.1.2 !! conn = Some t → root_sock t ≠ 0 → monotone Ψ →
  (∀ r w b w', k r w = Ok b w' → w' = w) →
  helper_triple (holds a Ψ) (atomic (sock_sync_data fuel conn size data ≫= k)) (λ _, holds a Ψ).
Proof.
  intros Ht Hs HΨ Hk. apply triple_frame; [|done]. intros w b w' (_ & Hn & _) H.
  apply bind_inv in H as (r & w1 & H & ->%Hk).
  assert (w_conns w !! conn = Some t) as Hconn by (rewrite <-Hn in Ht; exact Ht).
  assert (registry w1 = registry w ∧ names w1 = names w ∧ w_chans w1 = w_chans w) as Hall.
  { split_and!; (eapply sock_sync_keeps; [| |exact H|exact Hconn|exact Hs]; solve_keeps). }
  exact Hall.
Qed.

(** A helper's channel at the end. *)
Definition set_up w : Prop :=
  ∃ a pa peer ia, loaded a pa ∧ holds (connected a peer ia) (sharing a pa) w.

Lemma set_up_stable : stable (helper_rely ch) set_up.
Proof.
  intros w w' Hr (a & pa & peer & ia & Hl & Hh). exists a, pa, peer, ia. split; [done|].
  eapply holds_stable; [apply monotone_sharing|done..].
Qed.

Lemma triple_connect_channel fuel conn t :
  n0.1.2 !! conn = Some t → root_sock t ≠ 0 → resource_is_allocated (adapter c0) = false →
  helper_triple (holds (adapter c0) (λ _, True)) (connect_channel_t fuel conn ch) (λ _, set_up).
Proof.
  intros Ht Hs Hres. unfold connect_channel_t. eapply helper_bind; [by apply triple_loading|].
  intros info. apply helper_ex. intros a. apply helper_ex. intros pa.
  apply helper_pure. intros Hl. apply helper_pure. intros _.
  pose proof (monotone_sharing a pa) as Hm.
  eapply helper_bind.
  { apply triple_frame; [|exact Hm]. intros w b w' (_ & Hn & _) H.
    assert (w_conns w !! conn = Some t) as Hconn by (rewrite <-Hn in Ht; exact Ht).
    split_and!; (eapply sock_sync_keeps; [| |exact H|exact Hconn|exact Hs]; solve_keeps). }
  intros r. eapply helper_bind; [by apply triple_connecting|]. intros b. cbv beta.
  apply helper_ex. intros ia. intros w Hw.
  eapply wp_mono; [|refine (triple_sync fuel conn t 1 sync_byte _ _ _ Ht Hs Hm _ w Hw)].
  - intros u w' Hh. by exists a, pa, (decode_AdapterInfo r.2), ia.
  - intros r' w1 u w2 H. by pinv H.
Qed.
End helper.

(** ** All helpers *)

Section pool.
Context {X : Type} `{!Platform X}.
Implicit Types w : World X.

(** An endpoint a session has accepted or connected: it has a socket and one
    channel, without resources yet. *)
Definition helper_ready w (ep ch : Z) : Prop :=
  ∃ e t c, w_eps w !! ep = Some e ∧ rdma_channel_mgr_ e = [ch] ∧
    w_conns w !! pre_connector_ e = Some t ∧ root_sock t ≠ 0 ∧
    w_chans w !! ch = Some c ∧ resource_is_allocated (adapter c) = false.

(** The channel as its helper leaves it; the names and the configuration are
    those before the helpers ran. *)
Definition channel_set_up w w' (ch : Z) : Prop :=
  ∃ c0, w_chans w !! ch = Some c0 ∧ set_up ch c0 (names w) w'.

Lemma triple_helper fuel w ep ch c0 :
  helper_ready w ep ch → w_chans w !! ch = Some c0 →
  helper_triple ch (holds ch c0 (names w) (adapter c0) (λ _, True)) (connecting_helper fuel ep)
    (λ _, set_up ch c0 (names w)).
Proof.
  intros (e & t & c & He & Hl & Ht & Hs & Hc & Hr) Hc0. simplify_eq.
  unfold connecting_helper. eapply helper_bind.
  { apply (triple_read _ _ _ _ (λ b, b = e)); [by apply monotone_true|].
    intros w1 b w2 (_ & Hn & _) H. pinv H. unfold names in Hn. injection Hn as Hn _ _. split; congruence. }
  intros a. apply helper_pure. intros ->. rewrite Hl. cbn [each_thread].
  eapply helper_bind; [by eapply triple_connect_channel|].
  intros []. apply triple_ret; [by apply set_up_stable|done].
Qed.

(** What the helper number [i] may rely on and guarantees. *)
Definition pool_rely (chs : list Z) (i : nat) w w' : Prop :=
  ∀ ch, chs !! i = Some ch → helper_rely ch w w'.
Definition pool_guarantee (chs : list Z) (i : nat) w w' : Prop :=
  ∃ ch, chs !! i = Some ch ∧ helper_guarantee ch w w'.
#[export] Instance pool_rely_order chs i : PreOrder (pool_rely chs i).
Proof.
  split.
  - intros w ch _. reflexivity.
  - intros w1 w2 w3 H1 H2 ch Hch. etrans; eauto.
Qed.
Lemma pool_compatible chs i j w w' :
  NoDup chs → i ≠ j → pool_guarantee chs i w w' → pool_rely chs j w w'.
Proof.
  intros Hnd Hne (ch & Hi & HG) ch' Hj. apply (helpers_compatible ch); [|done].
  intros ->. by eapply Hne, NoDup_lookup.
Qed.

Lemma helpers_safe fuel eps chs w :
  registry_wf w → Forall2 (helper_ready w) eps chs →
  pool_safe (pool_rely chs) (pool_guarantee chs)
    (λ i _ w', ∀ ch, chs !! i = Some ch → channel_set_up w w' ch)
    (connecting_helper fuel <$> eps) w.
Proof.
  intros Hwf Hall i t Ht. apply list_lookup_fmap_Some in Ht as (ep & -> & Hep).
  destruct (Forall2_lookup_l _ _ _ _ _ Hall Hep) as (ch & Hch & Hr).
  pose proof Hr as (_ & _ & c0 & _ & _ & _ & _ & Hc0 & _).
  apply (wp_mono _ _ _ (λ _, set_up ch c0 (names w))); [|eapply (wp_weaken (helper_rely ch) (helper_guarantee ch))].
  - intros [] w' Hset ch' Hch'. simplify_eq. exists c0. split; [done|exact Hset].
  - intros w1 w2 H. by apply H.
  - intros w1 w2 H. by exists ch.
  - apply (triple_helper fuel w ep ch c0 Hr Hc0). split; [done|]. split; [done|].
    split; [|done]. rewrite Hc0. by destruct c0.
Qed.
End pool.

(** ** Properties *)

Section helper_properties.
Context {X : Type} `{!Platform X}.
Implicit Types w : World X.

(** C3: connecting in parallel is safe: whatever the order in which the helper
    threads enter their critical sections, and however far each of them has come,
    the registry of devices stays well formed, and the channel of each helper that
    has ended is connected, owns its resources and publishes its own queue pair,
    port, MTU and name, is in the set of its device, and uses the completion queue the device
    has under its key.  So the channels of one device with one key share one
    queue. *)
Theorem helpers_any_order fuel sched eps chs w ts w' :
  registry_wf w → Forall2 (helper_ready w) eps chs → NoDup chs →
  run_schedule sched (connecting_helper fuel <$> eps) w = Ok ts w' →
  registry_wf w' ∧
  (∀ i ch, ts !! i = Some (Return tt) → chs !! i = Some ch → channel_set_up w w' ch) ∧
  (∀ ch1 ch2 c1 c2, channel_set_up w w' ch1 → channel_set_up w w' ch2 →
    w_chans w' !! ch1 = Some c1 → w_chans w' !! ch2 = Some c2 →
    dev_name (_adapter_config_ (adapter c1)) = dev_name (_adapter_config_ (adapter c2)) →
    cq_key (_adapter_config_ (adapter c1)) = cq_key (_adapter_config_ (adapter c2)) →
    rdma_device_ (adapter c1) = rdma_device_ (adapter c2) ∧
    used_cq_ (adapter c1) = used_cq_ (adapter c2)).
Proof.
  intros Hwf Hall Hnd H. pose proof (helpers_safe fuel _ _ _ Hwf Hall) as Hsafe.
  assert (∀ i j w1 w2, i ≠ j → pool_guarantee chs i w1 w2 → pool_rely chs j w1 w2) as Hpar
    by (intros; by eapply pool_compatible).
  split; [|split].
  - apply (schedule_guarantees _ _ Hpar _ grows sched _ _ _ _ ) with (2 := H) (3 := Hsafe); [|done].
    by intros i w1 w2 (ch & _ & Hg & _).
  - intros i ch Hi Hch. by apply (schedule_post _ _ Hpar _ _ _ _ _ _ _ _ H Hsafe Hi).
  - intros ch1 ch2 c1 c2 (k1 & _ & a1 & pa1 & p1 & i1 & _ & _ & _ & Hc1 & (Hm1 & _) & Hq1 & _)
      (k2 & _ & a2 & pa2 & p2 & i2 & _ & _ & _ & Hc2 & (Hm2 & _) & Hq2 & _) E1 E2 Hdev Hkey.
    rewrite Hc1 in E1. rewrite Hc2 in E2. injection E1 as <-. injection E2 as <-. cbn in *.
    rewrite <-Hdev, Hm1 in Hm2. injection Hm2 as Hd. split; [done|].
    destruct Hq1 as (d1 & Hd1 & Hk1), Hq2 as (d2 & Hd2 & Hk2). rewrite <-Hd, Hd1 in Hd2.
    injection Hd2 as <-. congruence.
Qed.

(** the sequential model is one of the schedules: when [real_connecting]
    returns, running one helper after the other, some schedule of the threads
    ends in the same state with all of them done. *)
Theorem sequential_schedule fuel this w u w' s :
  real_connecting fuel this w = Ok u w' → w_sess w !! this = Some s →
  ∃ sched, run_schedule sched (connecting_helper fuel <$> end_point_mgr_ s) w =
    Ok (replicate (length (end_point_mgr_ s)) (Return tt)) w'.
Proof.
  intros H Hs. unfold real_connecting in H. wstep H as s' w1 H1. same H1 Hs.
  eapply (for_each_schedule (connecting_helper fuel) _ _ [] w u w' tt); [|exact H].
  intros ep w1 [] w2 H1. by rewrite helper_alone.
Qed.
End helper_properties.

(** ** Witnesses *)

(** Two endpoints whose channels are to share the queue "cq". *)
Definition hp_chan (ep : Z) : RDMAChannel :=
  mkRDMAChannel (init_adapter "DataChannel" <| _adapter_config_ ::= λ c,
    c <| cq_key := "cq" |> <| using_shared_cq := true |> |>) default_Config ∅ ep.
Definition hp_sess : RDMASession := ad_sess <| end_point_mgr_ := [400; 401] |>.
Definition hp_w : World Sim :=
  world0 <| w_chans := {[500 := hp_chan 400; 501 := hp_chan 401]} |>
    <| w_eps := {[400 := mkRDMAEndPoint "ep" default_Config 300 [500] 200;
                  401 := mkRDMAEndPoint "ep2" default_Config 301 [501] 200]} |>
    <| w_conns := {[300 := mkTCPConnector 5 "10.0.0.2" 2020 "10.0.0.1" 5005;
                    301 := mkTCPConnector 6 "10.0.0.3" 2020 "10.0.0.1" 5006]} |>
    <| w_sess := {[200 := hp_sess]} |>
    <| w_ext ::= λ x, x <| sim_inbox :=
         [encode_AdapterInfo ad_peer; encode_AdapterInfo ad_peer; [81]; [81]] |> |>.
(** The threads take turns. *)
Definition hp_schedule : list nat := concat (replicate 16 [0%nat; 1%nat]).
Definition hp_run := run_schedule hp_schedule (connecting_helper 200 <$> [400; 401]) hp_w.

Lemma hp_ready : Forall2 (helper_ready hp_w) [400; 401] [500; 501].
Proof.
  repeat constructor; do 3 eexists;
    (split; [vm_compute; reflexivity|]; split; [vm_compute; reflexivity|];
     split; [vm_compute; reflexivity|]; split; [vm_compute; discriminate|];
     split; vm_compute; reflexivity).
Qed.
Lemma hp_registry : registry_wf hp_w.
Proof.
  split; cbn.
  - intros name p H. by rewrite lookup_empty in H.
  - intros p H. rewrite lookup_empty in H. by destruct H.
Qed.

Lemma helpers_any_order_witness :
  channel_set_up hp_w (state_of hp_run) 500 ∧ channel_set_up hp_w (state_of hp_run) 501.
Proof.
  assert (hp_run = Ok [Return tt; Return tt] (state_of hp_run)) as E
    by (vm_compute; reflexivity).
  destruct (helpers_any_order 200 hp_schedule [400; 401] [500; 501] hp_w _ _
    hp_registry hp_ready ltac:(apply (bool_decide_unpack _); vm_compute; exact I) E) as (_ & H & _).
  split; [exact (H 0%nat 500 eq_refl eq_refl)|exact (H 1%nat 501 eq_refl eq_refl)].
Defined.

(** One after the other: the answers come in that order, too. *)
Definition hp_w2 : World Sim :=
  hp_w <| w_ext ::= λ x, x <| sim_inbox :=
    [encode_AdapterInfo ad_peer; [81]; encode_AdapterInfo ad_peer; [81]] |> |>.
Definition hp_connected : World Sim := state_of (real_connecting 200 200 hp_w2).
Lemma sequential_schedule_witness :
  length (end_point_mgr_ hp_sess) = 2%nat ∧
  ∃ sched, run_schedule sched (connecting_helper 200 <$> end_point_mgr_ hp_sess) hp_w2 =
    Ok (replicate (length (end_point_mgr_ hp_sess)) (Return tt)) hp_connected.
Proof.
  split; [reflexivity|]. apply (sequential_schedule 200 200 hp_w2 tt hp_connected hp_sess).
  - vm_compute; reflexivity.
  - reflexivity.
Defined.
