(* ===== verification/ClientServer.v ===== *)
(** * RDMAClientSession and RDMAServerSession

    (include/rdma_client_sess.h, src/rdma_client_sess.cc,
    include/rdma_server_sess.h, src/rdma_server_sess.cc)

    The two roles of a session: how each gets its endpoints and how it configures
    their adapters before they are loaded.  [rfuel] bounds the rounds of each
    receiving loop of the TCP exchange. *)
From S2P Require Import Prelude Words Types Layout World Sim Ident Device Buffer.
From S2P Require Import Adapter Channel Tcp Endpoint Session.

Section client.
Context {X : Type} `{!Platform X}.

(** [int count_try = 10 * 300] *)
Definition COUNT_TRY : Z := 3000.

(** The do-while loop of [init_session]. *)
Fixpoint connect_loop (fuel : nat) (this con_fd : Z) (addr : sockaddr_in) (count_try : Z)
    : W X unit :=
  match fuel with
  | O => fail OutOfFuel
  | S fuel =>
      r ← call (connect con_fd addr);
      if r =? 0 then upd_sess this (λ s, s <| is_connected_ := true |>)
      else if 0 <? count_try then connect_loop fuel this con_fd addr (count_try - 1)
      else mret tt
  end.
(** One turn more than [COUNT_TRY]. *)
Definition connect_fuel : nat := 3001.

Definition client_init_session (rfuel : nat) (this : Z) : W X unit :=
  con_fd ← allocate_socket "RDMAClientSession";
  s ← sess_at this;
  let c_to_server :=
    mkSockaddrIn (htons (tcp_port (work_env_ s))) (inet_addr (master_ip (work_env_ s))) in
  connect_loop connect_fuel this con_fd c_to_server COUNT_TRY ;;
  accept_new_connection rfuel this con_fd c_to_server ;;
  mret tt.

Definition client_configure (ep : Z) : W X unit :=
  channel ← get_channel ep 0;
  upd_config channel (λ c, c <| using_shared_cq := false |>).
Definition client_lazy_config_hca (this : Z) : W X unit :=
  s ← sess_at this;
  for_each (end_point_mgr_ s) client_configure.

Definition client_post_connecting (this : Z) : W X unit := mret tt.
End client.

Section server.
Context {X : Type} `{!Platform X}.

(** The accept loop of [init_session]; [connected] is a [uint32_t]. *)
Fixpoint accept_loop (fuel rfuel : nat) (this listen_fd connected : Z) : W X unit :=
  match fuel with
  | O => fail OutOfFuel
  | S fuel =>
      r ← call (accept listen_fd);
      let '(client_fd, cin) := r in
      check (negb (client_fd =? -1)) "Error of accepting new connection" ;;
      accept_new_connection rfuel this client_fd cin ;;
      let connected := u32 (connected + 1) in
      s ← sess_at this;
      if Z.of_nat (length (cluster (work_env_ s))) <=? connected then mret tt
      else accept_loop fuel rfuel this listen_fd connected
  end.

Definition server_init_session (rfuel : nat) (this : Z) : W X unit :=
  listen_fd ← allocate_socket "RDMAServerSession";
  s ← sess_at this;
  let sin := mkSockaddrIn (htons (tcp_port (work_env_ s))) (inet_addr "0.0.0.0") in
  r ← call (bind_ listen_fd sin);
  check (negb (r <? 0)) "Error when binding to socket" ;;
  r ← call (listen listen_fd 1024);
  check (negb (r <? 0)) "Error when listen on socket" ;;
  accept_loop (S (length (cluster (work_env_ s)))) rfuel this listen_fd 0 ;;
  upd_sess this (λ s, s <| is_connected_ := true |>).

Definition server_configure (this ep : Z) : W X unit :=
  channel ← get_channel ep 0;
  upd_config channel (λ c, c <| using_shared_cq := true |>) ;;
  info ← session_get_id this;
  upd_config channel (λ c, c <| cq_key := "SharedCQ@" +:+ info |>).
Definition server_lazy_config_hca (this : Z) : W X unit :=
  s ← sess_at this;
  for_each (end_point_mgr_ s) (server_configure this).

Definition server_post_connecting (this : Z) : W X unit := mret tt.
End server.

(** ** Lemmas *)

Section client_server_lemmas.
Context {X : Type} `{!Platform X}.
Implicit Types w : World X.

Lemma keeps_sess_recv_force fuel s size t g :
  keeps (w_sess (X:=X)) (recv_force_loop fuel s size t g).
Proof. revert t g. induction fuel; intros; cbn; solve_keeps. Qed.
#[local] Hint Resolve keeps_sess_recv_force : keeps.
Lemma keeps_sess_create_endpoint fuel fd ip port conf s :
  keeps (w_sess (X:=X)) (create_endpoint fuel fd ip port conf s).
Proof.
  unfold create_endpoint, TCPConnector_ctor, get_unique_id, sync_with_peer, sock_sync_data,
    send_data, recv_data_force, get_or_build_socket, setup_rdma_channel, build_rdma_channel.
  eauto 100 with keeps.
Qed.
Lemma keeps_sess_allocate_socket info : keeps (w_sess (X:=X)) (allocate_socket info).
Proof.
  unfold allocate_socket, set_and_check_ip_tos, set_and_check_ip_priority, set_socket_reuse.
  eauto 60 with keeps.
Qed.

(** Accepting adds one endpoint to the session. *)
Definition add_endpoint (ep : Z) (s : RDMASession) : RDMASession :=
  s <| end_point_mgr_ ::= λ l, l ++ [ep] |>.

Lemma accept_sess fuel this fd cin w r w' s :
  accept_new_connection fuel this fd cin w = Ok r w' → w_sess w !! this = Some s →
  ∃ ep, w_sess w' !! this = Some (add_endpoint ep s).
Proof.
  intros H Hs. unfold accept_new_connection in H. cbv zeta in H.
  wstep H as s1 w1 H1. same H1 Hs.
  apply bind_inv in H as (ep & w2 & H2%keeps_sess_create_endpoint & H).
  apply bind_inv in H as (? & w3 & H3 & H). unfold upd_sess in H3. wstep H3 as s3 w4 H4.
  rewrite H2 in H4. same H4 Hs. pinv H3.
  apply bind_inv in H as (ch & w5 & H5 & H). unfold get_channel in H5.
  wstep H5 as ? w6 H6. wstep H5 as e w7 H7. pinv H5.
  wstep H as s8 w8 H8. apply bind_inv in H as (? & w9 & H9 & H).
  unfold setup_index_in_session in H9. pinv H9. pinv H.
  exists ep. cbn. apply lookup_insert_eq.
Qed.
(** The accept loop, entered with [j] clients connected, adds the others. *)
Lemma accept_loop_adds fuel rfuel this fd j w s u w' :
  let n := length (cluster (work_env_ s)) in
  accept_loop fuel rfuel this fd (Z.of_nat j) w = Ok u w' →
  w_sess w !! this = Some s → Z.of_nat n < 2^32 → (j < Nat.max 1 n)%nat →
  ∃ s', w_sess w' !! this = Some s' ∧
    length (end_point_mgr_ s') = (length (end_point_mgr_ s) + (Nat.max 1 n - j))%nat.
Proof.
  intros n. subst n.
  revert j w s. induction fuel as [|fuel IH]; intros j w s H Hs Hn Hj; [done|].
  cbn [accept_loop] in H. apply bind_inv in H as ([cfd cin] & wa & Ha & H). pinv Ha.
  apply bind_inv in H as (? & wb & Hb & H). pinv Hb.
  apply bind_inv in H as (r & wc & Hacc & H).
  eapply accept_sess in Hacc as [ep Hs1]; [|exact Hs]. cbv zeta in H.
  wstep H as s2 wd Hd. same Hd Hs1. cbn [work_env_ add_endpoint] in H. cbn in H.
  rewrite u32_small in H by lia.
  replace (Z.of_nat j + 1) with (Z.of_nat (S j)) in H by lia.
  destruct (_ <=? Z.of_nat (S j)) eqn:Hle.
  - apply Z.leb_le in Hle. pinv H. eexists. split; [exact Hs1|]. cbn.
    rewrite length_app. cbn. lia.
  - apply Z.leb_gt in Hle.
    apply (IH (S j) wc (add_endpoint ep s)) in H as (s1 & H1 & H2); [|exact Hs1|cbn; lia..].
    exists s1. split; [done|]. rewrite H2. cbn. rewrite length_app. cbn. lia.
Qed.

(** Fuel beyond the number of clients still to come makes no difference. *)
Lemma accept_loop_fuel fuel k rfuel this fd j w s :
  let n := length (cluster (work_env_ s)) in
  w_sess w !! this = Some s → Z.of_nat n < 2^32 →
  (j < Nat.max 1 n)%nat → (Nat.max 1 n - j ≤ fuel)%nat →
  accept_loop (fuel + k) rfuel this fd (Z.of_nat j) w =
  accept_loop fuel rfuel this fd (Z.of_nat j) w.
Proof.
  intros n. subst n.
  revert j w s. induction fuel as [|fuel IH]; intros j w s Hs Hn Hj Hf; [lia|].
  cbn [accept_loop Nat.add]. unfold mbind, M_bind.
  destruct (call (accept fd) w) as [[cfd cin] wa|] eqn:Ha; [|done]. pinv Ha.
  destruct (check _ _ _) as [? wb|] eqn:Hb; [|done]. pinv Hb.
  destruct (accept_new_connection _ _ _ _ _) as [r wc|] eqn:Hacc; [|done].
  eapply accept_sess in Hacc as [ep Hs1]; [|exact Hs].
  rewrite (sess_at_eq _ _ _ Hs1). cbn. rewrite u32_small by lia.
  replace (Z.of_nat j + 1) with (Z.of_nat (S j)) by lia.
  destruct (_ <=? Z.of_nat (S j)) eqn:Hle; [done|]. apply Z.leb_gt in Hle.
  apply (IH _ _ (add_endpoint ep s)); [exact Hs1|cbn; lia..].
Qed.
End client_server_lemmas.

Section configure_lemmas.
Context {X : Type} `{!Platform X}.
Implicit Types w : World X.

(** The configuration of channel [ch] satisfies [P]. *)
Definition configured w (P : AdapterConfig → Prop) (ch : Z) : Prop :=
  ∃ c, w_chans w !! ch = Some c ∧ P (_adapter_config_ (adapter c)).

Lemma get_channel_inv ep w ch w' :
  get_channel ep 0 w = Ok ch w' →
  w' = w ∧ ∃ e, w_eps w !! ep = Some e ∧ rdma_channel_mgr_ e !! 0%nat = Some ch.
Proof.
  intros H. unfold get_channel in H. wstep H as ? w1 H1. wstep H as e w2 H2. pinv H. eauto.
Qed.

Lemma upd_config_inv ch f w u w' :
  upd_config ch f w = Ok u w' →
  ∃ c, w_chans w !! ch = Some c ∧
    w' = w <| w_chans ::= <[ch := c <| adapter ::= λ a, a <| _adapter_config_ ::= f |> |>]> |>.
Proof. intros H. unfold upd_config in H. pinv H. eauto. Qed.

(** A configuring step sets [P] for its channel and keeps it for the others. *)
Lemma for_each_configure (Q : World X → Prop) P (step : Z → W X unit) eps w u w' :
  (∀ ep w0 v w1, Q w0 → step ep w0 = Ok v w1 →
     Q w1 ∧ w_eps w1 = w_eps w0 ∧ (∀ ch, configured w0 P ch → configured w1 P ch) ∧
     ∃ e ch, w_eps w0 !! ep = Some e ∧ rdma_channel_mgr_ e !! 0%nat = Some ch ∧
       configured w1 P ch) →
  Q w → for_each eps step w = Ok u w' →
  w_eps w' = w_eps w ∧ (∀ ch, configured w P ch → configured w' P ch) ∧
  ∀ ep, ep ∈ eps → ∃ e ch, w_eps w !! ep = Some e ∧ rdma_channel_mgr_ e !! 0%nat = Some ch ∧
    configured w' P ch.
Proof.
  intros Hstep. revert w. induction eps as [|ep eps IH]; intros w HQ H; cbn in H.
  - pinv H. split; [done|]. split; [done|]. intros ep Hep. by apply elem_of_nil in Hep.
  - apply bind_inv in H as (v & w1 & H1 & H).
    destruct (Hstep _ _ _ _ HQ H1) as (Q1 & E1 & K1 & e & ch & He & Hch & Hp).
    destruct (IH _ Q1 H) as (E2 & K2 & Hall). split; [congruence|]. split; [auto|].
    intros ep' [->|Hin]%elem_of_cons; [eauto 10|].
    destruct (Hall _ Hin) as (e' & ch' & He' & Hr). rewrite E1 in He'. eauto.
Qed.

Lemma configured_insert w P ch ch' c :
  P (_adapter_config_ (adapter c)) → configured w P ch' →
  configured (w <| w_chans ::= <[ch := c]> |>) P ch'.
Proof.
  intros Hp (c' & Hc' & Hp'). unfold configured. cbn. destruct (decide (ch' = ch)) as [->|Hne].
  - rewrite lookup_insert_eq. eauto.
  - rewrite lookup_insert_ne by done. eauto.
Qed.
Lemma configured_self w (P : AdapterConfig → Prop) ch c :
  P (_adapter_config_ (adapter c)) → configured (w <| w_chans ::= <[ch := c]> |>) P ch.
Proof. intros Hp. exists c. split; [apply lookup_insert_eq|done]. Qed.
End configure_lemmas.

(** ** Properties *)

Section client_server_properties.
Context {X : Type} `{!Platform X}.
Implicit Types w : World X.

Lemma server_init_adds rfuel this w u w' s :
  server_init_session rfuel this w = Ok u w' → w_sess w !! this = Some s →
  Z.of_nat (length (cluster (work_env_ s))) < 2^32 →
  ∃ s', w_sess w' !! this = Some s' ∧ is_connected_ s' = true ∧
    length (end_point_mgr_ s') =
      (length (end_point_mgr_ s) + Nat.max 1 (length (cluster (work_env_ s))))%nat.
Proof.
  intros H Hs Hn. unfold server_init_session in H.
  apply bind_inv in H as (lfd & w1 & H1%keeps_sess_allocate_socket & H).
  rewrite <-H1 in Hs. wstep H as s2 w2 H2. same H2 Hs. cbv zeta in H.
  wstep H as r w3 H3. wstep H as ? w4 H4. wstep H as r' w5 H5. wstep H as ? w6 H6.
  apply bind_inv in H as (? & w7 & H7 & H).
  apply (accept_loop_adds _ _ _ _ 0%nat _ s) in H7 as (s1 & Hs1 & Hl); [|exact Hs|done|lia].
  unfold upd_sess in H. wstep H as s8 w8 H8. same H8 Hs1. pinv H. cbn.
  rewrite lookup_insert_eq. eexists. split; [done|]. split; [done|]. cbn. lia.
Qed.

(** C26: the server waits for as many clients as its cluster lists, and for one
    when the list is empty: when [init_session] returns, exactly that many
    endpoints were added and the session is connected.  More fuel for the
    accept loop changes nothing. *)
Theorem server_accepts_cluster rfuel this w u w' s :
  server_init_session rfuel this w = Ok u w' → w_sess w !! this = Some s →
  Z.of_nat (length (cluster (work_env_ s))) < 2^32 →
  (∃ s', w_sess w' !! this = Some s' ∧ is_connected_ s' = true ∧
    length (end_point_mgr_ s') =
      (length (end_point_mgr_ s) + Nat.max 1 (length (cluster (work_env_ s))))%nat) ∧
  (∀ k fd w0, w_sess w0 !! this = Some s →
    accept_loop (S (length (cluster (work_env_ s))) + k) rfuel this fd 0 w0 =
    accept_loop (S (length (cluster (work_env_ s)))) rfuel this fd 0 w0).
Proof.
  intros H Hs Hn. split.
  - by eapply server_init_adds.
  - intros k fd w0 Hs0. apply (accept_loop_fuel _ _ _ _ _ 0%nat _ s); [done|done|lia|lia].
Qed.

(** the client's connection loop ends within 3001 attempts; when all of
    them fail, [init_session] goes on all the same and builds an endpoint on the
    socket that was never connected. *)
Theorem client_gives_up_and_goes_on (refused : X → mem → Prop) rfuel this w s fd w0 :
  allocate_socket "RDMAClientSession" w = Ok fd w0 → w_sess w !! this = Some s →
  (∀ addr x m, refused x m →
     ∃ r x' m', connect fd addr x m = (r, (x', m')) ∧ r ≠ 0 ∧ refused x' m') →
  refused (w_ext w0) (w_mem w0) →
  ∃ w1 addr, w_sess w1 = w_sess w ∧
    client_init_session rfuel this w =
      (accept_new_connection rfuel this fd addr ;; mret tt) w1.
Proof.
  intros Ha Hs Hfail Hr0. apply keeps_sess_allocate_socket in Ha as Hk. rewrite <-Hk in Hs.
  set (addr := mkSockaddrIn (htons (tcp_port (work_env_ s))) (inet_addr (master_ip (work_env_ s)))).
  assert (∀ fuel n w2, n < Z.of_nat fuel → 0 ≤ n → refused (w_ext w2) (w_mem w2) → ∃ w3,
    connect_loop fuel this fd addr n w2 = Ok tt w3 ∧ w_sess w3 = w_sess w2) as Hloop.
  { induction fuel as [|fuel IH]; intros n w2 Hn Hn0 Hr2; [lia|]. cbn [connect_loop].
    destruct (Hfail addr (w_ext w2) (w_mem w2) Hr2) as (r & x & m & E & Hr & Hr').
    rewrite (bind_Ok _ _ _ _ _ (call_eq _ _ _ _ _ E)), (proj2 (Z.eqb_neq _ _) Hr).
    destruct (0 <? n) eqn:Hp; [|by eexists]. apply Z.ltb_lt in Hp.
    destruct (IH (n - 1) (w2 <| w_ext := x |> <| w_mem := m |>) ltac:(lia) ltac:(lia))
      as (w3 & H3 & E3); [exact Hr'|]. by exists w3. }
  destruct (Hloop connect_fuel COUNT_TRY w0) as (w1 & H1 & E1).
  { by vm_compute. }
  { by vm_compute. }
  { done. }
  exists w1, addr. split; [congruence|]. unfold client_init_session.
  rewrite (bind_Ok _ _ _ _ _ Ha), (bind_Ok _ _ _ _ _ (sess_at_eq _ _ _ Hs)). cbv zeta.
  fold addr. by rewrite (bind_Ok _ _ _ _ _ H1).
Qed.

(** before connecting, the server makes all its endpoints share one
    completion queue, named after the session; the client gives every endpoint
    a private one. *)
Theorem lazy_config_by_role this w u w' s :
  w_sess w !! this = Some s →
  (server_lazy_config_hca this w = Ok u w' →
   ∀ ep, ep ∈ end_point_mgr_ s → ∃ e ch, w_eps w !! ep = Some e ∧
     rdma_channel_mgr_ e !! 0%nat = Some ch ∧
     configured w' (λ c, using_shared_cq c = true ∧
       cq_key c = "SharedCQ@" +:+ role (work_env_ s) +:+ "@" +:+ session_id (work_env_ s)) ch) ∧
  (client_lazy_config_hca this w = Ok u w' →
   ∀ ep, ep ∈ end_point_mgr_ s → ∃ e ch, w_eps w !! ep = Some e ∧
     rdma_channel_mgr_ e !! 0%nat = Some ch ∧
     configured w' (λ c, using_shared_cq c = false) ch).
Proof.
  intros Hs. split; intros H.
  - unfold server_lazy_config_hca in H. wstep H as s1 w1 H1. same H1 Hs.
    eapply (for_each_configure (λ w0, w_sess w0 = w_sess w)) in H as (_ & _ & H);
      [exact H| |done].
    clear H. intros ep w0 v w1 Hq H. unfold server_configure in H.
    apply bind_inv in H as (ch & w2 & (-> & e & He & Hch)%get_channel_inv & H).
    apply bind_inv in H as (? & w3 & (c & Hc & ->)%upd_config_inv & H).
    apply bind_inv in H as (i & w4 & H4 & H). unfold session_get_id in H4.
    wstep H4 as s4 w5 H5. cbn in H5. rewrite Hq in H5. same H5 Hs. pinv H4.
    apply upd_config_inv in H as (c' & Hc' & ->). cbn in Hc'.
    rewrite lookup_insert_eq in Hc'. injection Hc' as <-. split; [done|]. split; [done|].
    split; [|exists e, ch; split; [done|]; split; [done|by apply configured_self]].
    intros ch' (c' & Hc' & Hp'). unfold configured. cbn. rewrite insert_insert_eq.
    destruct (decide (ch' = ch)) as [->|Hne].
    + rewrite lookup_insert_eq. eexists. split; [reflexivity|]. done.
    + rewrite lookup_insert_ne by done. eauto.
  - unfold client_lazy_config_hca in H. wstep H as s1 w1 H1. same H1 Hs.
    eapply (for_each_configure (λ _, True)) in H as (_ & _ & H); [exact H| |done].
    clear H. intros ep w0 v w1 _ H. unfold client_configure in H.
    apply bind_inv in H as (ch & w2 & (-> & e & He & Hch)%get_channel_inv & H).
    apply upd_config_inv in H as (c & Hc & ->). split; [done|]. split; [done|].
    split; [|exists e, ch; split; [done|]; split; [done|by apply configured_self]].
    intros ch' Hp. by apply configured_insert.
Qed.
End client_server_properties.

(** ** Witnesses *)

(** A server whose cluster lists two clients, both of which answer. *)
Definition cs_conf : Config :=
  default_Config <| cluster := ["10.0.0.2"; "10.0.0.3"] |> <| role := "master" |>
    <| session_id := "s" |> <| master_ip := "10.0.0.1" |>.
Definition cs_sess : RDMASession :=
  mkRDMASession cs_conf [] false DefaultFn DefaultFn DefaultFn DefaultFn DefaultFn DefaultFn.
Definition cs_w0 : World Sim :=
  world0 <| w_sess := {[200 := cs_sess]} |>
    <| w_ext ::= λ x, x <| sim_inbox := [[81]; [81]] |>
         <| sim_accept := [(10, mkSockaddrIn (htons 7000) 2); (11, mkSockaddrIn (htons 7001) 3)] |> |>.
Definition cs_w1 : World Sim := state_of (server_init_session 5 200 cs_w0).

Lemma server_accepts_cluster_witness :
  ∃ s', w_sess cs_w1 !! 200 = Some s' ∧ length (end_point_mgr_ s') = 2%nat.
Proof.
  destruct (server_accepts_cluster 5 200 cs_w0 tt cs_w1 cs_sess) as [(s' & H1 & _ & H2) _].
  - vm_compute; reflexivity.
  - reflexivity.
  - cbn. lia.
  - exists s'. split; [exact H1|exact H2].
Defined.

(** No connection attempt succeeds: the scripted list of answers is empty. *)
Lemma client_gives_up_and_goes_on_witness :
  ∃ w1 addr, w_sess w1 = w_sess cs_w0 ∧
    client_init_session 5 200 cs_w0 =
      (accept_new_connection 5 200 1 addr ;; mret tt) w1.
Proof.
  apply (client_gives_up_and_goes_on (λ x _, sim_connect x = []) 5 200 cs_w0 cs_sess 1
    (state_of (allocate_socket "RDMAClientSession" cs_w0))).
  - vm_compute; reflexivity.
  - reflexivity.
  - intros addr x m Hx. cbn. unfold sim_upd. rewrite Hx. eexists (-1), _, _.
    split; [reflexivity|]. split; [lia|exact Hx].
  - vm_compute; reflexivity.
Defined.

Definition cs_s1 : RDMASession := default cs_sess (w_sess cs_w1 !! 200).
Definition cs_w2 : World Sim := state_of (server_lazy_config_hca 200 cs_w1).
Definition cs_w3 : World Sim := state_of (client_lazy_config_hca 200 cs_w1).

Lemma lazy_config_by_role_witness :
  (∃ ch, configured cs_w2 (λ c, using_shared_cq c = true ∧ cq_key c = "SharedCQ@master@s") ch) ∧
  (∃ ch, configured cs_w3 (λ c, using_shared_cq c = false) ch).
Proof.
  assert (w_sess cs_w1 !! 200 = Some cs_s1) as Hs by (vm_compute; reflexivity).
  assert (4096 ∈ end_point_mgr_ cs_s1) as Hin
    by (apply (bool_decide_unpack _); vm_compute; exact I).
  split.
  - destruct (proj1 (lazy_config_by_role 200 cs_w1 tt cs_w2 cs_s1 Hs)
      ltac:(vm_compute; reflexivity) 4096 Hin) as (e & ch & _ & _ & H).
    exists ch. exact H.
  - destruct (proj2 (lazy_config_by_role 200 cs_w1 tt cs_w3 cs_s1 Hs)
      ltac:(vm_compute; reflexivity) 4096 Hin) as (e & ch & _ & _ & H).
    exists ch. exact H.
Defined.
