(* ===== verification/Flow.v ===== *)
(** * Flow of blocks and requests

    What the clients of a channel's block rings share: how the cursors and the
    counters of requests in flight move under the operations of a channel, and
    what those operations leave alone. *)
From S2P Require Import Prelude Words Types Layout World Sim Ident Device Buffer.
From S2P Require Import Adapter Channel Tcp Endpoint Session ClientServer.

(** What a ring sees of a buffer. *)
Definition geom (b : RDMABuffer) : Z * Z * ring := (base_buffer_ b, blocks_ b, ring_of b).

Lemma ring_wf_ext bufs bufs' p r :
  ring_wf bufs p r →
  geom <$> bufs' !! p = geom <$> bufs !! p →
  (∀ t, base_buffer_ <$> bufs' !! t = base_buffer_ <$> bufs !! t) →
  ring_wf bufs' p r.
Proof.
  intros (bb & Hbb & Hr & Hbase & Hn & Hsz & Hh & Hret & Hnd & Hp & Hs) Hg Hb.
  rewrite Hbb in Hg. cbn in Hg. destruct (bufs' !! p) as [bb'|] eqn:Hbb'; [|done].
  injection Hg as H1 H2 H3. exists bb'. unfold geom, ring_of in *.
  split_and!; try done; try congruence; [lia..|].
  intros t Ht. destruct (Hs _ Ht) as (sb & Hsb & Hsbase). specialize (Hb t).
  rewrite Hsb in Hb. destruct (bufs' !! t) as [sb'|]; [|done].
  injection Hb as Hb. exists sb'. split; [done|congruence].
Qed.

Section ring_frame.
Context {X : Type} `{!Platform X}.
Implicit Types w : World X.

(** An update of one buffer that keeps a projection keeps it everywhere. *)
Lemma upd_buf_proj {A} (g : RDMABuffer → A) q f w u w' t :
  upd_buf q f w = Ok u w' → (t = q → ∀ b, g (f b) = g b) →
  g <$> w_bufs w' !! t = g <$> w_bufs w !! t.
Proof.
  intros (b & Hb & ->)%upd_buf_inv Hg. cbn. destruct (decide (t = q)) as [->|Hne].
  - rewrite lookup_insert_eq, Hb. cbn. f_equal. by apply Hg.
  - by rewrite lookup_insert_ne.
Qed.

(** [next] and [last] move one cursor of one base buffer. *)
Lemma next_frame q b w s w' t :
  w_bufs w !! q = Some b → next q w = Ok s w' →
  base_buffer_ <$> w_bufs w' !! t = base_buffer_ <$> w_bufs w !! t ∧
  (t ≠ base_buffer_ b → geom <$> w_bufs w' !! t = geom <$> w_bufs w !! t).
Proof.
  intros Hb H. unfold next in H. wstep H as ? w1 H1. same H1 Hb. wstep H as bb w2 H2.
  wstep H as ? w3 H3. cbv zeta in H. apply bind_inv in H as (? & w4 & H4 & H).
  unfold slot in H. apply bind_inv in H as (s' & w5 & H5 & H). wstep H5 as ? w6 H6. pinv H5.
  apply bind_inv in H as (? & w7 & H7 & H). pinv H. split.
  - rewrite (upd_buf_proj base_buffer_ _ _ _ _ _ _ H7) by done.
    by apply (upd_buf_proj base_buffer_ _ _ _ _ _ _ H4).
  - intros Hne. rewrite (upd_buf_proj geom _ _ _ _ _ _ H7) by done.
    by apply (upd_buf_proj geom _ _ _ _ _ _ H4).
Qed.
Lemma last_frame q b w s w' t :
  w_bufs w !! q = Some b → last q w = Ok s w' →
  base_buffer_ <$> w_bufs w' !! t = base_buffer_ <$> w_bufs w !! t ∧
  (t ≠ base_buffer_ b → geom <$> w_bufs w' !! t = geom <$> w_bufs w !! t).
Proof.
  intros Hb H. unfold last in H. wstep H as ? w1 H1. same H1 Hb. wstep H as bb w2 H2.
  wstep H as ? w3 H3. cbv zeta in H. apply bind_inv in H as (? & w4 & H4 & H).
  unfold slot in H. apply bind_inv in H as (s' & w5 & H5 & H). wstep H5 as ? w6 H6. pinv H5.
  apply bind_inv in H as (? & w7 & H7 & H). pinv H. split.
  - rewrite (upd_buf_proj base_buffer_ _ _ _ _ _ _ H7) by done.
    by apply (upd_buf_proj base_buffer_ _ _ _ _ _ _ H4).
  - intros Hne. rewrite (upd_buf_proj geom _ _ _ _ _ _ H7) by done.
    by apply (upd_buf_proj geom _ _ _ _ _ _ H4).
Qed.

(** A returned [next] or [last] on the base of a ring takes the abstract step
    there, and leaves every other ring as it is. *)
Lemma next_step p r w s w' :
  ring_wf (w_bufs w) p r → next p w = Ok s w' →
  (ring_next r).1 = Some s ∧ ring_wf (w_bufs w') p (ring_next r).2 ∧
  w_mem w' = w_mem w ∧
  ∀ p2 r2, p2 ≠ p → ring_wf (w_bufs w) p2 r2 → ring_wf (w_bufs w') p2 r2.
Proof.
  intros Hwf H. assert (handed r < INT_MAX) as Hlt.
  { pose proof Hwf as (?&_&_&_&_&_&Hh&_).
    destruct (decide (handed r = INT_MAX)) as [E|]; [|lia].
    by rewrite (next_overflow p p r w Hwf (or_introl eq_refl) E) in H. }
  destruct (next_refines p p r w Hwf (or_introl eq_refl) Hlt)
    as (s' & w2 & H2 & Hs & _ & Hwf' & _ & Hm). rewrite H in H2. injection H2 as <- <-.
  split; [done|]. split; [done|]. split; [done|]. intros p2 r2 Hne Hwf2.
  destruct (ring_handle _ _ _ p Hwf (or_introl eq_refl)) as (b & Hb & Hbase).
  apply (ring_wf_ext (w_bufs w)); [done| |].
  - eapply next_frame; [done..|congruence].
  - intros t. by eapply next_frame.
Qed.
Lemma last_step p r w s w' :
  ring_wf (w_bufs w) p r → last p w = Ok s w' →
  (ring_last r).1 = Some s ∧ ring_wf (w_bufs w') p (ring_last r).2 ∧
  w_mem w' = w_mem w ∧
  ∀ p2 r2, p2 ≠ p → ring_wf (w_bufs w) p2 r2 → ring_wf (w_bufs w') p2 r2.
Proof.
  intros Hwf H. assert (returned r < INT_MAX) as Hlt.
  { pose proof Hwf as (bb & Hbb & Hr & Hbase & _ & _ & _ & Hret & _).
    destruct (decide (returned r = INT_MAX)) as [E|]; [|lia]. exfalso.
    unfold last in H. wstep H as ? w1 H1. same H1 Hbb. rewrite Hbase in H.
    wstep H as ? w2 H2. same H2 Hbb. wstep H as ? w3 H3. subst r. cbn in E.
    apply Z.ltb_lt in H3. lia. }
  destruct (last_refines p p r w Hwf (or_introl eq_refl) Hlt)
    as (s' & w2 & H2 & Hs & _ & Hwf' & _ & Hm). rewrite H in H2. injection H2 as <- <-.
  split; [done|]. split; [done|]. split; [done|]. intros p2 r2 Hne Hwf2.
  destruct (ring_handle _ _ _ p Hwf (or_introl eq_refl)) as (b & Hb & Hbase).
  apply (ring_wf_ext (w_bufs w)); [done| |].
  - eapply last_frame; [done..|congruence].
  - intros t. by eapply last_frame.
Qed.
End ring_frame.

Section tower_lemmas.
Context {X : Type} `{!Platform X}.
Implicit Types w : World X.

Lemma decrease_sqe_inflight ch w u w' a b :
  decrease_sqe ch w = Ok u w' → inflight w ch = Some (a, b) →
  inflight w' ch = Some (a, b - 1).
Proof.
  intros H Hi. unfold decrease_sqe, count64 in H. wstep H as ad w1 H1.
  wstep H as n w2 H2. wstep H2 as ? w3 H3. pinv H2. pinv H. same H H1.
  unfold inflight in *. cbn. rewrite H1 in Hi. injection Hi as <- <-.
  by rewrite lookup_insert_eq.
Qed.
Lemma decrease_rqe_inflight ch w u w' a b :
  decrease_rqe ch w = Ok u w' → inflight w ch = Some (a, b) →
  inflight w' ch = Some (a - 1, b).
Proof.
  intros H Hi. unfold decrease_rqe, count64 in H. wstep H as ad w1 H1.
  wstep H as n w2 H2. wstep H2 as ? w3 H3. pinv H2. pinv H. same H H1.
  unfold inflight in *. cbn. rewrite H1 in Hi. injection Hi as <- <-.
  by rewrite lookup_insert_eq.
Qed.

(** The index a session gave to a channel. *)
Definition index_of (ch : Z) (w : World X) : option Z :=
  (λ c, indexed_by_session (adapter c)) <$> w_chans w !! ch.

Lemma keeps_index_upd ch p f :
  (∀ a, indexed_by_session (f a) = indexed_by_session a) →
  keeps (index_of ch) (upd_adapter (X:=X) p f).
Proof.
  intros Hf w u w' (c & Hc & ->)%upd_adapter_inv. unfold index_of. cbn.
  destruct (decide (ch = p)) as [->|Hne].
  - rewrite lookup_insert_eq, Hc. cbn. by rewrite Hf.
  - by rewrite lookup_insert_ne.
Qed.
#[local] Hint Extern 1 (keeps (index_of _) (upd_adapter _ _)) =>
  apply keeps_index_upd; reflexivity : keeps.

(** The operations of the towers that keep all buffers and indices. *)
Definition quiet {A} (m : W X A) : Prop := keeps w_bufs m ∧ ∀ ch, keeps (index_of ch) m.

Lemma quiet_decrease_sqe ch : quiet (decrease_sqe ch).
Proof. split; intros; unfold decrease_sqe, count64; solve_keeps. Qed.
Lemma quiet_decrease_rqe ch : quiet (decrease_rqe ch).
Proof. split; intros; unfold decrease_rqe, count64; solve_keeps. Qed.
Lemma quiet_send_remote ch p n tag : quiet (send_remote ch p n tag).
Proof.
  split; intros; unfold send_remote, security_check, increase_sqe, count64, real_send_,
    post_send; cbv zeta; solve_keeps.
Qed.
Lemma quiet_recv_remote ch p n : quiet (recv_remote ch p n).
Proof.
  split; intros; unfold recv_remote, security_check, increase_rqe, count64, real_recv_;
    cbv zeta; solve_keeps.
Qed.
Lemma quiet_write_remote ch p n d tag nf : quiet (write_remote ch p n d tag nf).
Proof.
  split; intros; unfold write_remote, security_check, increase_sqe, count64,
    real_write_remote_, real_write_remote_with_notify_, post_send; cbv zeta; solve_keeps.
Qed.
Lemma quiet_read_remote ch p n d : quiet (read_remote ch p n d).
Proof.
  split; intros; unfold read_remote, security_check, increase_sqe, count64,
    real_read_remote_, post_send; cbv zeta; solve_keeps.
Qed.
Lemma read_remote_inflight ch p n d w r w' a b :
  read_remote ch p n d w = Ok r w' → inflight w ch = Some (a, b) →
  inflight w' ch = Some (a, b + 1).
Proof.
  intros H Hi. unfold read_remote in H. cbv zeta in H. wstep H as ? w1 H1.
  apply bind_inv in H as (? & w2 & (-> & bf & Hb & Hu)%security_check_inv & H).
  wstep H as b' w3 H3. wstep H as ? w4 H4. wstep H as d' w5 H5. wstep H as ? w6 H6.
  apply bind_inv in H as (? & w7 & (c & Hc & ->)%increase_sqe_inv & H).
  wstep H as a' w8 H8. wstep H as m w9 H9. unfold real_read_remote_ in H.
  apply keeps_chans_post in H. rewrite (inflight_same _ _ _ H).
  unfold inflight in *. cbn. rewrite Hc in Hi. injection Hi as <- <-.
  by rewrite lookup_insert_eq.
Qed.
Lemma keeps_chans_next q : keeps (w_chans (X:=X)) (next q).
Proof. unfold next, slot. cbv zeta. solve_keeps. Qed.
Lemma keeps_chans_last q : keeps (w_chans (X:=X)) (last q).
Proof. unfold last, slot. cbv zeta. solve_keeps. Qed.
End tower_lemmas.

(** ** Moving along a ring *)

(** [n] more blocks handed out, [m] more given back. *)
Definition moved (r : ring) (n m : Z) : ring := mkRing (slots r) (handed r + n) (returned r + m).

Lemma moved_0 r : moved r 0 0 = r.
Proof. destruct r. unfold moved. cbn. f_equal; lia. Qed.
Lemma moved_moved r n m n' m' : moved (moved r n m) n' m' = moved r (n + n') (m + m').
Proof. unfold moved. cbn. f_equal; lia. Qed.
Lemma ring_next_moved r : (ring_next r).2 = moved r 1 0.
Proof. destruct r. unfold moved. cbn. f_equal. lia. Qed.
Lemma ring_last_moved r : (ring_last r).2 = moved r 0 1.
Proof. destruct r. unfold moved. cbn. f_equal. lia. Qed.

(** No slot is outstanding twice while no more are out than there are. *)
Lemma outstanding_NoDup r :
  NoDup (slots r) → 0 < ring_size r → handed r - returned r ≤ ring_size r →
  NoDup (outstanding r).
Proof.
  intros Hnd Hn Hle. apply NoDup_fmap_2_strong; [|apply NoDup_seqZ].
  intros i j Hi Hj E. apply elem_of_seqZ in Hi, Hj.
  destruct (ring_slot_total r i Hn) as (s & Hs & _).
  destruct (Z.lt_trichotomy i j) as [Hlt|[->|Hlt]]; [exfalso|done|exfalso].
  - apply (ring_slot_inj r i j s); [done|done|lia|done|congruence].
  - apply (ring_slot_inj r j i s); [done|done|lia|congruence|done].
Qed.

(** ** What allocation, registration and synchronisation keep *)

Section start_lemmas.
Context {X : Type} `{!Platform X}.
Implicit Types w : World X.

(** What start-up must not disturb: the rings and the request counters. *)
Definition geoms (t : Z) (w : World X) : option (Z * Z * ring) := geom <$> w_bufs w !! t.

Lemma keeps_geoms_bufs {A} (m : W X A) t : keeps w_bufs m → keeps (geoms t) m.
Proof. intros Hm w a w' H. unfold geoms. by rewrite (Hm _ _ _ H). Qed.
Lemma keeps_geoms_upd t q f : (∀ b, geom (f b) = geom b) → keeps (geoms t) (upd_buf (X:=X) q f).
Proof. intros Hf w u w' H. by eapply upd_buf_proj. Qed.
#[local] Hint Extern 1 (keeps (geoms _) (upd_buf _ _)) => apply keeps_geoms_upd; reflexivity : keeps.
#[local] Hint Extern 1 (keeps (geoms _) (op_register_mem _ _ _ _ _)) =>
  apply keeps_geoms_bufs, register_mem_bufs : keeps.

Lemma keeps_geoms_register_buffer t ch p : keeps (geoms t) (register_buffer (X:=X) ch p).
Proof.
  unfold register_buffer, register_in_channel, channel_info.
  eauto 60 using keeps_channel_get_id with keeps.
Qed.

(** Allocating leaves older buffers alone. *)
Lemma allocate_ring `{!MemalignLaws X} size n info w p w' :
  0 ≤ size → 0 ≤ n < 2^31 → size * n < 2^64 → 0 < w_next w →
  allocate_buffer size n info w = Ok p w' →
  p = w_next w ∧ w_next w' = p + 1 + n ∧
  ring_wf (w_bufs w') p (mkRing (seqZ (p + 1) n) (-1) (-1)) ∧
  ∀ q r, q < p → (∀ s, s ∈ slots r → s < p) → ring_wf (w_bufs w) q r → ring_wf (w_bufs w') q r.
Proof.
  intros Hs Hn Hov Hnx H.
  destruct (allocate_inv _ _ _ _ _ _ Hs Hn Hov Hnx H)
    as (-> & Hnx' & Hpos & ptr & x & m & x1 & m1 & pg & _ & _ & _ & _ & Hbb & Hblk & Hfr).
  split; [done|]. split; [done|]. split.
  { apply (base_ring_wf _ _ ptr size n info); [nia|done..]. }
  intros q r Hq Hsl (bb & Hb & Hr & Hbase & Hbl & Hsz & Hh & Hret & Hnd & Hp & Hall).
  exists bb. rewrite Hfr by lia. split_and!; try done; [lia..|].
  intros s Hin. pose proof (Hsl _ Hin). rewrite Hfr by lia. auto.
Qed.

Lemma keeps_chans_allocate size n info : keeps (w_chans (X:=X)) (allocate_buffer size n info).
Proof.
  unfold allocate_buffer, RDMABuffer_base, split_block, RDMABuffer_sub. cbv zeta.
  eauto 60 with keeps.
Qed.
Lemma keeps_next_register ch p : keeps (w_next (X:=X)) (register_buffer ch p).
Proof.
  unfold register_buffer, register_in_channel, channel_info. cbn.
  unfold register_mem, real_register_mem. eauto 60 using keeps_channel_get_id with keeps.
Qed.
Lemma register_buffer_counters ch p r w u w' k :
  ring_wf (w_bufs w) p r → register_buffer ch p w = Ok u w' →
  inflight w ch = Some k → inflight w' ch = Some k.
Proof.
  intros Hwf H Hk. pose proof Hwf as (b & Hb & _).
  destruct (w_chans w !! ch) as [c|] eqn:Hc; [|by unfold inflight in Hk; rewrite Hc in Hk].
  destruct (register_buffer_inv _ _ _ _ _ _ _ _ Hwf Hb Hc H) as (mr & _ & _ & Hw' & _).
  unfold inflight in *. rewrite Hw', lookup_insert_eq. by rewrite Hc in Hk.
Qed.

(** The exchange of the synchronisation byte touches the platform and the
    connector only. *)
Lemma keeps_sync {P} (p : World X → P) fuel ep :
  (∀ w x m, p (w <| w_ext := x |> <| w_mem := m |>) = p w) →
  (∀ w f, p (w <| w_conns ::= f |>) = p w) →
  keeps p (sync_with_peer (X:=X) fuel ep).
Proof.
  intros Hx Hc.
  assert (∀ fuel s n t g, keeps p (recv_force_loop (X:=X) fuel s n t g)).
  { intros fuel'. induction fuel'; intros; cbn; eauto 20 using keeps_call with keeps. }
  assert (∀ q c, keeps p (set_conn (X:=X) q c)) by (intros; apply keeps_modify; auto).
  unfold sync_with_peer, sock_sync_data, send_data, recv_data_force, get_or_build_socket.
  eauto 60 using keeps_call with keeps.
Qed.
Lemma register_ring ch p q r w u w' :
  register_buffer ch p w = Ok u w' → ring_wf (w_bufs w) q r → ring_wf (w_bufs w') q r.
Proof.
  intros H Hwf. apply (ring_wf_ext (w_bufs w)); [done|by eapply keeps_geoms_register_buffer|].
  intros t. apply (keeps_geoms_register_buffer t) in H. unfold geoms in H.
  apply (f_equal (fmap (λ g, g.1.1))) in H. by rewrite <-!option_fmap_compose in H.
Qed.

End start_lemmas.

(** ** The contents of blocks *)

Section message_lemmas.
Context {X : Type} `{!Platform X}.
Implicit Types w : World X.

(** The parts of a buffer a completion handler does not touch. *)
Definition stable (b : RDMABuffer) : Z * Z * option ibv_mr * Z :=
  (data_ptr b, buffer_size b, mr_ b, owned_by_channel b).
Definition stables (t : Z) (w : World X) := stable <$> w_bufs w !! t.

Lemma keeps_stables_upd t q f :
  (∀ b, stable (f b) = stable b) → keeps (stables t) (upd_buf (X:=X) q f).
Proof. intros Hf w u w' H. by eapply upd_buf_proj. Qed.
#[local] Hint Extern 1 (keeps (stables _) (upd_buf _ _)) =>
  apply keeps_stables_upd; reflexivity : keeps.
Lemma keeps_stables_next t q : keeps (stables t) (next (X:=X) q).
Proof. unfold next, slot. cbv zeta. solve_keeps. Qed.
Lemma keeps_stables_last t q : keeps (stables t) (last (X:=X) q).
Proof. unfold last, slot. cbv zeta. solve_keeps. Qed.
Lemma keeps_ext_next q : keeps (w_ext (X:=X)) (next q).
Proof. unfold next, slot. cbv zeta. solve_keeps. Qed.
Lemma keeps_ext_last q : keeps (w_ext (X:=X)) (last q).
Proof. unfold last, slot. cbv zeta. solve_keeps. Qed.
Lemma keeps_mem_decrease_rqe ch : keeps (λ w : World X, (w_bufs w, w_mem w)) (decrease_rqe ch).
Proof. unfold decrease_rqe, count64. solve_keeps. Qed.

Lemma stables_inv t w w' b :
  stables t w' = stables t w → w_bufs w !! t = Some b →
  ∃ b', w_bufs w' !! t = Some b' ∧ stable b' = stable b.
Proof.
  unfold stables. intros H Hb. rewrite Hb in H. destruct (w_bufs w' !! t) as [b'|]; [|done].
  injection H as H1 H2 H3 H4. exists b'. unfold stable. split; [done|congruence].
Qed.
End message_lemmas.

