(* ===== verification/Mesh.v ===== *)
(** * The full-mesh service (example/mesh_comm_service.cc)

    The two sessions of the mesh service and the flow control they build from
    the block rings of [RDMABuffer] and the counters of [RDMAAdapter]: the
    server answers buffer requests, the client keeps a window of writes in
    flight.  [fuel] bounds the rounds of each receiving loop of the TCP
    exchange, [rounds] the turns of the endless polling loops. *)
From S2P Require Import Prelude Words Types Layout World Sim Ident Device Buffer.
From S2P Require Import Adapter Channel Tcp Endpoint Session ClientServer.
From S2P Require Import Flow.

Definition KB : Z := 1024.
Definition NUM_BLOCK : Z := 128.
Definition BLOCK_SIZE : Z := 16 * KB.
Definition TRAFFIC_CLASS : Z := 0.

Inductive MsgDataChannel :=
  | REQUEST_BUFFER | RESPONSE_TO_REQUEST_BUFFER | SEND_TEST_REQUEST
  | RESPONSE_TO_SEND_TEST_REQUEST | WRITE_TEST_REQUEST | RESPONSE_TO_WRITE_TEST_REQUEST
  | READ_TEST_REQUEST | RESPONSE_TO_READ_TEST_REQUEST | BYEBYE | TRANSFER_RAW_DATA.

(** The enumerators' values, [static_cast<uint32_t>]. *)
Definition data_code (m : MsgDataChannel) : Z :=
  match m with
  | REQUEST_BUFFER => 1
  | RESPONSE_TO_REQUEST_BUFFER => 2
  | SEND_TEST_REQUEST => 3
  | RESPONSE_TO_SEND_TEST_REQUEST => 4
  | WRITE_TEST_REQUEST => 5
  | RESPONSE_TO_WRITE_TEST_REQUEST => 6
  | READ_TEST_REQUEST => 7
  | RESPONSE_TO_READ_TEST_REQUEST => 8
  | BYEBYE => 255
  | TRANSFER_RAW_DATA => 299
  end.

Section mesh.
Context {X : Type} `{!Platform X}.

(** ** Configuration hooks *)

(** The fields both towers set; [n] is the number of endpoints. *)
Definition tower_config (n : Z) (c : AdapterConfig) : AdapterConfig :=
  let c := c <| max_recv_wr := NUM_BLOCK |> <| max_send_wr := NUM_BLOCK |>
             <| traffic_class := TRAFFIC_CLASS |> in
  c <| cq_size := u32 (u64 (u32 (max_recv_wr c + max_send_wr c) * n)) |>.

Definition ServerTower_configure (n ep : Z) : W X unit :=
  channel ← get_channel ep 0;
  upd_config channel (λ c,
    tower_config n (c <| using_shared_cq := true |>) <| cq_key := "GlobalSharedCQForRecv" |>).
Definition ServerTower_lazy_config_hca (this : Z) : W X unit :=
  s ← sess_at this;
  for_each (end_point_mgr_ s) (ServerTower_configure (Z.of_nat (length (end_point_mgr_ s)))).

Definition ClientTower_configure (n ep : Z) : W X unit :=
  channel ← get_channel ep 0;
  upd_config channel (λ c, tower_config n (c <| using_shared_cq := false |>)).
Definition ClientTower_lazy_config_hca (this : Z) : W X unit :=
  s ← sess_at this;
  check (Z.of_nat (length (end_point_mgr_ s)) =? 1) "Invalid configuration for your test" ;;
  for_each (end_point_mgr_ s) (ClientTower_configure (Z.of_nat (length (end_point_mgr_ s)))).

(** ** Start-up, the same in both towers

    [tensor_buffer_send] and [tensor_buffer_recv], as lists of buffers. *)
Record tensors := mkTensors { tensor_buffer_send : list Z; tensor_buffer_recv : list Z }.

(** One turn of the allocation loop. *)
Definition tower_allocate (t : tensors) (channel chan_index : Z) : W X tensors :=
  send_buf ← allocate_buffer BLOCK_SIZE NUM_BLOCK "datachannel_write_placeholder";
  register_buffer channel send_buf ;;
  recv_buf ← allocate_buffer BLOCK_SIZE NUM_BLOCK "datachannel_recv_placeholder";
  register_buffer channel recv_buf ;;
  setup_index_in_session channel (i32 chan_index) ;;
  mret (mkTensors (tensor_buffer_send t ++ [send_buf]) (tensor_buffer_recv t ++ [recv_buf])).

Fixpoint tower_buffers (t : tensors) (channels : list Z) (chan_index : Z) : W X tensors :=
  match channels with
  | [] => mret t
  | ch :: channels =>
      t ← tower_allocate t ch chan_index;
      tower_buffers t channels (chan_index + 1)
  end.

(** One turn of the loop that posts the receives of a channel. *)
Definition post_block (channel recv_base : Z) : W X unit :=
  recv_buf ← next recv_base;
  recv_remote channel recv_buf BLOCK_SIZE ;;
  mret tt.
Definition tower_post_receives (t : tensors) (channels : list Z) : W X unit :=
  for_each (zip channels (tensor_buffer_recv t)) (λ p,
    for_each (seqZ 0 NUM_BLOCK) (λ _, post_block p.1 p.2)).

Definition tower_sync (fuel : nat) (channels : list Z) : W X unit :=
  for_each channels (λ ch,
    c ← chan_at ch; sync_with_peer fuel (registered_endpoint_ c)).

Definition tower_start (fuel : nat) (channels : list Z) : W X tensors :=
  t ← tower_buffers (mkTensors [] []) channels 0;
  tower_post_receives t channels ;;
  tower_sync fuel channels ;;
  mret t.

(** [tensor_buffer_*[channel_index]]: out of range is undefined. *)
Definition tensor (l : list Z) (channel_index : Z) : W X Z :=
  must (l !! Z.to_nat channel_index) "tensor_buffer[]".

(** The start of both completion handlers: the channel and its index. *)
Definition completion_of (each_channel : Z) (wc : ibv_wc) : W X (Z * Z) :=
  (if wc_status wc =? IBV_WC_SUCCESS then mret tt
   else show_qp_info each_channel ;; channel_info each_channel ;;
        log_fatal "[ERROR]: Encounting unsuccess wqe") ;;
  let active_channel := wc_wr_id wc in
  index ← get_index_in_session active_channel;
  mret (active_channel, u32 index).

(** IBV_WC_SEND, in both towers. *)
Definition tower_send_done (t : tensors) (active_channel channel_index : Z) : W X unit :=
  decrease_sqe active_channel ;;
  s ← tensor (tensor_buffer_send t) channel_index;
  last s ;;
  mret tt.

(** ** ServerTower *)

(** The descriptor of the whole send buffer, written into one of its blocks. *)
Definition server_answer (t : tensors) (active_channel channel_index : Z) : W X unit :=
  s ← tensor (tensor_buffer_send t) channel_index;
  active_send_buf ← next s;
  lb ← buf_at active_send_buf;
  sb ← buf_at s;
  m ← must (mr_ sb) "tensor_buffer_send[channel_index]->mr_->rkey";
  let local_comm := mkCommDescriptor (data_ptr sb) (buffer_size sb) (mr_rkey m) 0 in
  memcpy_in (data_ptr lb) (encode_CommDescriptor local_comm)
    (Z.of_nat sizeof_CommDescriptor) ;;
  send_remote active_channel active_send_buf (Z.of_nat sizeof_CommDescriptor)
    (data_code RESPONSE_TO_REQUEST_BUFFER) ;;
  mret tt.

Definition server_recv_done (t : tensors) (active_channel channel_index : Z) (wc : ibv_wc)
    : W X unit :=
  r ← tensor (tensor_buffer_recv t) channel_index;
  last r ;;
  decrease_rqe active_channel ;;
  (if wc_imm_data wc =? data_code REQUEST_BUFFER
   then server_answer t active_channel channel_index
   else log_fatal "process_CQ is not implemented yet") ;;
  r ← tensor (tensor_buffer_recv t) channel_index;
  post_block active_channel r.

Definition server_process_wc (t : tensors) (each_channel : Z) (wc : ibv_wc) : W X unit :=
  p ← completion_of each_channel wc;
  let '(active_channel, channel_index) := p in
  match wc_opcode wc with
  | IBV_WC_SEND => tower_send_done t active_channel channel_index
  | IBV_WC_RECV => server_recv_done t active_channel channel_index wc
  | IBV_WC_RECV_RDMA_WITH_IMM => log_fatal "process_CQ is not implemented yet"
  | _ => channel_info active_channel ;; log_fatal "Unknown opcode"
  end.

Definition server_poll_channel (t : tensors) (each_channel : Z) : W X unit :=
  r ← poll_cq_batch each_channel WC_BATCH;
  let '(num_wqe, global_wc) := r in
  if num_wqe =? 0 then mret tt
  else for_each (take (Z.to_nat num_wqe) global_wc) (server_process_wc t each_channel).

Fixpoint server_rounds (rounds : nat) (t : tensors) (channels : list Z) : W X unit :=
  match rounds with
  | O => mret tt
  | S rounds =>
      for_each channels (server_poll_channel t) ;; server_rounds rounds t channels
  end.

Definition ServerTower_process_CQ (fuel rounds : nat) (channels : list Z) : W X unit :=
  check (Z.of_nat (length channels) <=? 64)
    "Currently, one thread only support <=64 connection" ;;
  t ← tower_start fuel channels;
  server_rounds rounds t channels.

(** ** ClientTower

    [peer_comm_fd_mgr] is passed from completion to completion. *)

Definition client_write (t : tensors) (peers : list CommDescriptor)
    (active_channel channel_index : Z) : W X unit :=
  s ← tensor (tensor_buffer_send t) channel_index;
  next_send_buf ← next s;
  b ← buf_at next_send_buf;
  peer ← must (peers !! Z.to_nat channel_index) "peer_comm_fd_mgr[]";
  write_remote active_channel next_send_buf (u32 (buffer_size b)) (Some peer)
    (data_code TRANSFER_RAW_DATA) false ;;
  mret tt.

(** Receiving the answer: the descriptor is read from the block [next] of the
    receive ring names. *)
Definition client_answer (t : tensors) (peers : list CommDescriptor) (channel_index : Z)
    : W X (list CommDescriptor) :=
  r ← tensor (tensor_buffer_recv t) channel_index;
  active_recv_buf ← next r;
  rb ← buf_at active_recv_buf;
  bs ← load (data_ptr rb) sizeof_CommDescriptor;
  defined (channel_index <? Z.of_nat (length peers)) "peer_comm_fd_mgr[]" ;;
  mret (<[Z.to_nat channel_index := decode_CommDescriptor bs]> peers).

Definition client_recv_done (t : tensors) (peers : list CommDescriptor)
    (active_channel channel_index : Z) (wc : ibv_wc) : W X (list CommDescriptor) :=
  decrease_rqe active_channel ;;
  r ← tensor (tensor_buffer_recv t) channel_index;
  last r ;;
  peers ← (if wc_imm_data wc =? data_code RESPONSE_TO_REQUEST_BUFFER
           then client_answer t peers channel_index
           else log_fatal "process_CQ is not implemented yet");
  for_each (seqZ 0 (NUM_BLOCK - 1)) (λ _, client_write t peers active_channel channel_index) ;;
  mret peers.

Definition client_write_done (t : tensors) (peers : list CommDescriptor)
    (active_channel channel_index : Z) : W X unit :=
  decrease_sqe active_channel ;;
  s ← tensor (tensor_buffer_send t) channel_index;
  last s ;;
  client_write t peers active_channel channel_index.

Definition client_process_wc (t : tensors) (each_channel : Z)
    (peers : list CommDescriptor) (wc : ibv_wc) : W X (list CommDescriptor) :=
  p ← completion_of each_channel wc;
  let '(active_channel, channel_index) := p in
  match wc_opcode wc with
  | IBV_WC_SEND => tower_send_done t active_channel channel_index ;; mret peers
  | IBV_WC_RECV => client_recv_done t peers active_channel channel_index wc
  | IBV_WC_RECV_RDMA_WITH_IMM => log_fatal "process_CQ is not implemented yet"
  | IBV_WC_RDMA_WRITE => client_write_done t peers active_channel channel_index ;; mret peers
  | _ => channel_info active_channel ;; log_fatal "Unknown opcode"
  end.

Definition client_poll_channel (t : tensors) (peers : list CommDescriptor) (each_channel : Z)
    : W X (list CommDescriptor) :=
  r ← poll_cq_batch each_channel WC_BATCH;
  let '(num_wqe, global_wc) := r in
  if num_wqe =? 0 then mret peers
  else fold_each (client_process_wc t each_channel) peers (take (Z.to_nat num_wqe) global_wc).

Fixpoint client_rounds (rounds : nat) (t : tensors) (peers : list CommDescriptor)
    (channels : list Z) : W X (list CommDescriptor) :=
  match rounds with
  | O => mret peers
  | S rounds =>
      peers ← fold_each (client_poll_channel t) peers channels;
      client_rounds rounds t peers channels
  end.

(** The request for the peer's buffer. *)
Definition client_request (t : tensors) (active_channel : Z) : W X unit :=
  channel_index ← get_index_in_session active_channel;
  s ← tensor (tensor_buffer_send t) (u64 channel_index);
  active_send_buf ← next s;
  send_remote active_channel active_send_buf 1 (data_code REQUEST_BUFFER) ;;
  mret tt.

Definition ClientTower_process_CQ (fuel rounds : nat) (channels : list Z)
    : W X (list CommDescriptor) :=
  check (Z.of_nat (length channels) =? 1)
    "Currently, one thread only place 1 connection at client side" ;;
  t ← tower_start fuel channels;
  for_each channels (client_request t) ;;
  client_rounds rounds t (replicate (length channels) (mkCommDescriptor 0 0 0 0)) channels.

(** ** The services *)

(** The constructor takes [conf] by reference: the base class copies it before
    the body assigns to it.  Returns the session and the caller's [conf]. *)
Definition ServerTower_ctor (conf : Config) : W X (Z * Config) :=
  this ← RDMASession_ctor conf;
  mret (this, conf <| session_id := "FullMeshService" |>).
Definition ClientTower_ctor (conf : Config) : W X Z := RDMASession_ctor conf.

(** Up to the completion threads: the groups of channels they are started for. *)
Definition start_server_service (rfuel : nat) (conf : Config) : W X (list (Z * list Z)) :=
  let conf := conf <| role := "master" |> <| master_ip := "" |> <| serve_as_client := false |> in
  p ← ServerTower_ctor conf;
  let server_sess_mgr_ := p.1 in
  server_init_session rfuel server_sess_mgr_ ;;
  session_connecting rfuel ServerTower_lazy_config_hca (λ _, mret tt) server_sess_mgr_ ;;
  running server_sess_mgr_.

Definition start_client_service (rfuel : nat) (conf : Config) (server_ip : string)
    : W X (list (Z * list Z)) :=
  let conf := conf <| role := "slaver" |> <| master_ip := server_ip |> <| cluster := [] |>
                   <| serve_as_client := true |> in
  client_sess_mgr_ ← ClientTower_ctor conf;
  client_init_session rfuel client_sess_mgr_ ;;
  session_connecting rfuel ClientTower_lazy_config_hca (λ _, mret tt) client_sess_mgr_ ;;
  running client_sess_mgr_.
End mesh.

(** ** Lemmas *)

(** ** The flow control of one channel *)

Section window_lemmas.
Context {X : Type} `{!Platform X}.
Implicit Types w : World X.
Context (t : tensors) (ch idx ps pr : Z).
Hypothesis Hts : tensor_buffer_send t !! Z.to_nat (u32 idx) = Some ps.
Hypothesis Htr : tensor_buffer_recv t !! Z.to_nat (u32 idx) = Some pr.

(** A channel with index [idx], its send ring at [ps] and its receive ring at
    [pr], and the counters of its adapter. *)
Record tower_state w (rs rr : ring) (rq sq : Z) : Prop := {
  ts_send : ring_wf (w_bufs w) ps rs;
  ts_recv : ring_wf (w_bufs w) pr rr;
  ts_ne : ps ≠ pr;
  ts_count : inflight w ch = Some (rq, sq);
  ts_index : index_of ch w = Some idx
}.

Lemma ts_quiet {A} (m : W X A) w a w' rs rr rq sq rq' sq' :
  quiet m → m w = Ok a w' → tower_state w rs rr rq sq →
  inflight w' ch = Some (rq', sq') → tower_state w' rs rr rq' sq'.
Proof.
  intros [Hb Hi] H [H1 H2 H3 H4 H5] Hc. apply Hb in H as Hb'. apply (Hi ch) in H.
  split; [congruence..|done|congruence].
Qed.
(** A step that keeps the channels and moves the rings. *)
Lemma ts_rings w w' rs rr rs' rr' rq sq :
  tower_state w rs rr rq sq → w_chans w' = w_chans w →
  ring_wf (w_bufs w') ps rs' → ring_wf (w_bufs w') pr rr' →
  tower_state w' rs' rr' rq sq.
Proof.
  intros [H1 H2 H3 H4 H5] Hc Hs Hr. split; [done..| |].
  - by rewrite (inflight_same _ _ _ Hc).
  - unfold index_of. by rewrite Hc.
Qed.
Lemma ts_next_send w s w' rs rr rq sq :
  next ps w = Ok s w' → tower_state w rs rr rq sq →
  tower_state w' (ring_next rs).2 rr rq sq ∧ (ring_next rs).1 = Some s.
Proof.
  intros H Hw. destruct (next_step _ _ _ _ _ (ts_send _ _ _ _ _ Hw) H) as (Hs & Hr & _ & Ho).
  split; [|done]. eapply ts_rings; [done|by eapply keeps_chans_next|done|].
  destruct Hw. auto.
Qed.
Lemma ts_next_recv w s w' rs rr rq sq :
  next pr w = Ok s w' → tower_state w rs rr rq sq →
  tower_state w' rs (ring_next rr).2 rq sq ∧ (ring_next rr).1 = Some s.
Proof.
  intros H Hw. destruct (next_step _ _ _ _ _ (ts_recv _ _ _ _ _ Hw) H) as (Hs & Hr & _ & Ho).
  split; [|done]. eapply ts_rings; [done|by eapply keeps_chans_next| |done].
  destruct Hw. auto.
Qed.
Lemma ts_last_send w s w' rs rr rq sq :
  last ps w = Ok s w' → tower_state w rs rr rq sq → tower_state w' (ring_last rs).2 rr rq sq.
Proof.
  intros H Hw. destruct (last_step _ _ _ _ _ (ts_send _ _ _ _ _ Hw) H) as (Hs & Hr & _ & Ho).
  eapply ts_rings; [done|by eapply keeps_chans_last|done|]. destruct Hw. auto.
Qed.
Lemma ts_last_recv w s w' rs rr rq sq :
  last pr w = Ok s w' → tower_state w rs rr rq sq → tower_state w' rs (ring_last rr).2 rq sq.
Proof.
  intros H Hw. destruct (last_step _ _ _ _ _ (ts_recv _ _ _ _ _ Hw) H) as (Hs & Hr & _ & Ho).
  eapply ts_rings; [done|by eapply keeps_chans_last| |done]. destruct Hw. auto.
Qed.

Lemma ts_decrease_sqe w u w' rs rr rq sq :
  decrease_sqe ch w = Ok u w' → tower_state w rs rr rq sq → tower_state w' rs rr rq (sq - 1).
Proof.
  intros H Hw. eapply ts_quiet; [apply quiet_decrease_sqe|done..|].
  eapply decrease_sqe_inflight; [done|by destruct Hw].
Qed.
Lemma ts_decrease_rqe w u w' rs rr rq sq :
  decrease_rqe ch w = Ok u w' → tower_state w rs rr rq sq → tower_state w' rs rr (rq - 1) sq.
Proof.
  intros H Hw. eapply ts_quiet; [apply quiet_decrease_rqe|done..|].
  eapply decrease_rqe_inflight; [done|by destruct Hw].
Qed.
Lemma ts_send_remote p n tag w u w' rs rr rq sq :
  send_remote ch p n tag w = Ok u w' → tower_state w rs rr rq sq →
  tower_state w' rs rr rq (sq + 1).
Proof.
  intros H Hw. eapply ts_quiet; [apply quiet_send_remote|done..|].
  eapply send_remote_inflight; [done|by destruct Hw].
Qed.
Lemma ts_recv_remote p n w u w' rs rr rq sq :
  recv_remote ch p n w = Ok u w' → tower_state w rs rr rq sq →
  tower_state w' rs rr (rq + 1) sq.
Proof.
  intros H Hw. eapply ts_quiet; [apply quiet_recv_remote|done..|].
  eapply recv_remote_inflight; [done|by destruct Hw].
Qed.
Lemma ts_write_remote p n d tag nf w u w' rs rr rq sq :
  write_remote ch p n d tag nf w = Ok u w' → tower_state w rs rr rq sq →
  tower_state w' rs rr rq (sq + 1).
Proof.
  intros H Hw. eapply ts_quiet; [apply quiet_write_remote|done..|].
  eapply write_remote_inflight; [done|by destruct Hw].
Qed.

(** Equal counts, whatever way they were added up. *)
Lemma ts_counts w rs rr n m n' m' rq sq a b c d e f :
  tower_state w (moved rs n m) (moved rr n' m') rq sq →
  a = n → b = m → c = n' → d = m' → e = rq → f = sq →
  tower_state w (moved rs a b) (moved rr c d) e f.
Proof. by intros ? -> -> -> -> -> ->. Qed.

Lemma client_write_step peers w u w' rs rr rq sq :
  client_write t peers ch (u32 idx) w = Ok u w' → tower_state w rs rr rq sq →
  tower_state w' (moved rs 1 0) rr rq (sq + 1).
Proof.
  intros H Hw. unfold client_write, tensor in H. rewrite Hts in H. cbn in H. rewrite bind_ret in H.
  apply bind_inv in H as (s & w1 & H1 & H).
  apply (ts_next_send _ _ _ _ _ _ _ H1) in Hw as [Hw _]. rewrite ring_next_moved in Hw.
  wstep H as b w2 H2. wstep H as d w3 H3.
  apply bind_inv in H as (? & w4 & H4 & H). pinv H. by eapply ts_write_remote.
Qed.
Lemma client_writes_step peers (l : list Z) w u w' rs rr rq sq :
  for_each l (λ _, client_write t peers ch (u32 idx)) w = Ok u w' →
  tower_state w rs rr rq sq →
  tower_state w' (moved rs (Z.of_nat (length l)) 0) rr rq (sq + Z.of_nat (length l)).
Proof.
  revert w rs sq. induction l as [|x l IH]; intros w rs sq H Hw; cbn [for_each length] in *.
  - pinv H. by rewrite moved_0, Z.add_0_r.
  - apply bind_inv in H as (? & w1 & H1 & H).
    eapply client_write_step in H1; [|exact Hw]. eapply IH in H; [|exact H1].
    rewrite moved_moved in H. rewrite Nat2Z.inj_succ.
    replace (Z.succ _) with (1 + Z.of_nat (length l)) by lia. by rewrite Z.add_assoc.
Qed.
Lemma post_block_step w u w' rs rr rq sq :
  post_block ch pr w = Ok u w' → tower_state w rs rr rq sq →
  tower_state w' rs (moved rr 1 0) (rq + 1) sq.
Proof.
  intros H Hw. unfold post_block in H. apply bind_inv in H as (s & w1 & H1 & H).
  apply (ts_next_recv _ _ _ _ _ _ _ H1) in Hw as [Hw _]. rewrite ring_next_moved in Hw.
  apply bind_inv in H as (? & w2 & H2 & H). pinv H. by eapply ts_recv_remote.
Qed.
Lemma post_blocks_step (l : list Z) w u w' rs rr rq sq :
  for_each l (λ _, post_block ch pr) w = Ok u w' → tower_state w rs rr rq sq →
  tower_state w' rs (moved rr (Z.of_nat (length l)) 0) (rq + Z.of_nat (length l)) sq.
Proof.
  revert w rr rq. induction l as [|x l IH]; intros w rr rq H Hw; cbn [for_each length] in *.
  - pinv H. by rewrite moved_0, Z.add_0_r.
  - apply bind_inv in H as (? & w1 & H1 & H).
    eapply post_block_step in H1; [|exact Hw]. eapply IH in H; [|exact H1].
    rewrite moved_moved in H. rewrite Nat2Z.inj_succ.
    replace (Z.succ _) with (1 + Z.of_nat (length l)) by lia. by rewrite Z.add_assoc.
Qed.
Lemma tower_send_done_step w u w' rs rr rq sq :
  tower_send_done t ch (u32 idx) w = Ok u w' → tower_state w rs rr rq sq →
  tower_state w' (moved rs 0 1) rr rq (sq - 1).
Proof.
  intros H Hw. unfold tower_send_done, tensor in H. rewrite Hts in H.
  apply bind_inv in H as (? & w1 & H1 & H). apply (ts_decrease_sqe _ _ _ _ _ _ _ H1) in Hw.
  cbn in H. rewrite bind_ret in H. apply bind_inv in H as (? & w2 & H2 & H). pinv H.
  apply (ts_last_send _ _ _ _ _ _ _ H2) in Hw. by rewrite ring_last_moved in Hw.
Qed.

(** ** Completions *)

Definition is_send (wc : ibv_wc) : bool :=
  match wc_opcode wc with IBV_WC_SEND => true | _ => false end.
Definition is_recv (wc : ibv_wc) : bool :=
  match wc_opcode wc with IBV_WC_RECV => true | _ => false end.
Definition is_write (wc : ibv_wc) : bool :=
  match wc_opcode wc with IBV_WC_RDMA_WRITE => true | _ => false end.

(** How many completions of a list are of a kind. *)
Fixpoint count (f : ibv_wc → bool) (l : list ibv_wc) : Z :=
  match l with [] => 0 | wc :: l => Z.b2z (f wc) + count f l end.

Lemma count_nonneg f l : 0 ≤ count f l.
Proof. induction l as [|wc l IH]; cbn [count]; [done|]. destruct (f wc); cbn [Z.b2z]; lia. Qed.

Lemma completion_of_inv each wc w p w' rs rr rq sq :
  completion_of each wc w = Ok p w' → wc_wr_id wc = ch → tower_state w rs rr rq sq →
  w' = w ∧ p = (ch, u32 idx).
Proof.
  intros H Hid Hw. unfold completion_of in H. apply bind_inv in H as (? & w1 & H1 & H).
  destruct (_ =? _).
  - pinv H1. rewrite Hid in H. wstep H as i w2 H2. unfold get_index_in_session in H2.
    wstep H2 as a w3 H3. pinv H2. pinv H. split; [done|].
    destruct Hw as [_ _ _ _ Hi]. unfold index_of in Hi. rewrite H3 in Hi. cbn in Hi.
    by injection Hi as ->.
  - apply bind_inv in H1 as (? & w2 & _ & H1). by apply bind_inv in H1 as (? & w3 & _ & H1).
Qed.

Lemma client_answer_step peers w peers' w' rs rr rq sq :
  client_answer t peers (u32 idx) w = Ok peers' w' → tower_state w rs rr rq sq →
  tower_state w' rs (moved rr 1 0) rq sq.
Proof.
  intros H Hw. unfold client_answer, tensor in H. rewrite Htr in H. cbn in H.
  rewrite bind_ret in H. apply bind_inv in H as (s & w1 & H1 & H).
  apply (ts_next_recv _ _ _ _ _ _ _ H1) in Hw as [Hw _]. rewrite ring_next_moved in Hw.
  wstep H as b w2 H2. apply bind_inv in H as (bs & w3 & H3%must_inv & H).
  destruct H3 as [_ ->]. wstep H as ? w4 H4. by pinv H.
Qed.

Lemma client_process_wc_step each peers wc w peers' w' rs rr rq sq :
  client_process_wc t each peers wc w = Ok peers' w' → wc_wr_id wc = ch →
  tower_state w rs rr rq sq →
  let s := Z.b2z (is_send wc) in let r := Z.b2z (is_recv wc) in let k := Z.b2z (is_write wc) in
  tower_state w' (moved rs (127 * r + k) (s + k)) (moved rr r r) (rq - r) (sq - s + 127 * r).
Proof.
  intros H Hid Hw. unfold client_process_wc in H.
  apply bind_inv in H as (p & w1 & H1 & H).
  eapply completion_of_inv in H1 as [-> ->]; [|done|exact Hw].
  unfold is_send, is_recv, is_write. destruct (wc_opcode wc); cbv zeta; cbn [Z.b2z].
  - apply bind_inv in H as (? & w2 & H2 & H). pinv H.
    eapply tower_send_done_step in H2; [|exact Hw]. rewrite <-(moved_0 rr) in H2.
    eapply ts_counts; [exact H2|lia..].
  - apply bind_inv in H as (? & w2 & H2 & H). pinv H. unfold client_write_done, tensor in H2.
    apply bind_inv in H2 as (? & w3 & H3 & H2). apply (ts_decrease_sqe _ _ _ _ _ _ _ H3) in Hw.
    rewrite Hts in H2. cbn in H2. rewrite bind_ret in H2.
    apply bind_inv in H2 as (? & w4 & H4 & H2). apply (ts_last_send _ _ _ _ _ _ _ H4) in Hw.
    rewrite ring_last_moved in Hw. eapply client_write_step in H2; [|exact Hw].
    rewrite moved_moved, <-(moved_0 rr) in H2. eapply ts_counts; [exact H2|lia..].
  - apply bind_inv in H as (? & w2 & _ & H). done.
  - unfold client_recv_done in H. apply bind_inv in H as (? & w2 & H2 & H).
    apply (ts_decrease_rqe _ _ _ _ _ _ _ H2) in Hw. unfold tensor in H. rewrite Htr in H.
    cbn in H. rewrite bind_ret in H. apply bind_inv in H as (? & w3 & H3 & H).
    apply (ts_last_recv _ _ _ _ _ _ _ H3) in Hw. rewrite ring_last_moved in Hw.
    apply bind_inv in H as (ps' & w4 & H4 & H). destruct (_ =? _); [|done].
    eapply client_answer_step in H4; [|exact Hw]. rewrite moved_moved in H4.
    apply bind_inv in H as (? & w5 & H5 & H). pinv H.
    eapply client_writes_step in H5; [|exact H4]. rewrite length_seqZ, <-(moved_0 rs), moved_moved in H5.
    eapply ts_counts; [exact H5|unfold NUM_BLOCK; lia..].
  - done.
  - apply bind_inv in H as (? & w2 & _ & H). done.
Qed.

Lemma server_answer_step w u w' rs rr rq sq :
  server_answer t ch (u32 idx) w = Ok u w' → tower_state w rs rr rq sq →
  tower_state w' (moved rs 1 0) rr rq (sq + 1).
Proof.
  intros H Hw. unfold server_answer, tensor in H. rewrite Hts in H. cbn [must] in H.
  rewrite bind_ret in H. apply bind_inv in H as (s & w1 & H1 & H).
  apply (ts_next_send _ _ _ _ _ _ _ H1) in Hw as [Hw _]. rewrite ring_next_moved in Hw.
  wstep H as b w2 H2. wstep H as sb w3 H3. wstep H as m w4 H4. cbv zeta in H.
  apply bind_inv in H as (? & w5 & H5 & H). apply bind_inv in H as (? & w6 & H6 & H). pinv H.
  assert (tower_state w5 (moved rs 1 0) rr rq sq) as Hw5; [|by eapply ts_send_remote].
  eapply (keeps_memcpy_in (λ w, (w_bufs w, w_chans w)) _ _ _ (λ _ _, eq_refl)) in H5.
  injection H5 as Hb Hc. eapply ts_rings; [exact Hw|exact Hc|..]; rewrite Hb; by destruct Hw.
Qed.

Lemma server_process_wc_step each wc w u w' rs rr rq sq :
  server_process_wc t each wc w = Ok u w' → wc_wr_id wc = ch →
  tower_state w rs rr rq sq →
  let s := Z.b2z (is_send wc) in let r := Z.b2z (is_recv wc) in
  tower_state w' (moved rs r s) (moved rr r r) rq (sq - s + r).
Proof.
  intros H Hid Hw. unfold server_process_wc in H.
  apply bind_inv in H as (p & w1 & H1 & H).
  eapply completion_of_inv in H1 as [-> ->]; [|done|exact Hw].
  unfold is_send, is_recv. destruct (wc_opcode wc); cbv zeta; cbn [Z.b2z].
  - eapply tower_send_done_step in H; [|exact Hw]. rewrite <-(moved_0 rr) in H.
    eapply ts_counts; [exact H|lia..].
  - apply bind_inv in H as (? & w2 & _ & H). done.
  - apply bind_inv in H as (? & w2 & _ & H). done.
  - unfold server_recv_done, tensor in H. rewrite Htr in H. cbn [must] in H.
    rewrite bind_ret in H. apply bind_inv in H as (? & w2 & H2 & H).
    apply (ts_last_recv _ _ _ _ _ _ _ H2) in Hw. rewrite ring_last_moved in Hw.
    apply bind_inv in H as (? & w3 & H3 & H). apply (ts_decrease_rqe _ _ _ _ _ _ _ H3) in Hw.
    apply bind_inv in H as (? & w4 & H4 & H). destruct (_ =? _); [|done].
    eapply server_answer_step in H4; [|exact Hw]. rewrite bind_ret in H.
    eapply post_block_step in H; [|exact H4]. rewrite moved_moved in H.
    eapply ts_counts; [exact H|lia..].
  - done.
  - apply bind_inv in H as (? & w2 & _ & H). done.
Qed.
End window_lemmas.

(** ** Start-up *)

Section tower_start.
Context {X : Type} `{!Platform X} `{!MemalignLaws X}.
Implicit Types w : World X.

(** A buffer of [NUM_BLOCK] blocks at [p] with nothing handed out. *)
Definition fresh_ring (p : Z) : ring := mkRing (seqZ (p + 1) NUM_BLOCK) (-1) (-1).

Lemma tower_allocate_start t0 ch i w t w' rq sq :
  tower_allocate t0 ch i w = Ok t w' →
  inflight w ch = Some (rq, sq) → 0 < w_next w → 0 ≤ i < 2^31 →
  ∃ ps pr, t = mkTensors (tensor_buffer_send t0 ++ [ps]) (tensor_buffer_recv t0 ++ [pr]) ∧
    tower_state ch i ps pr w' (fresh_ring ps) (fresh_ring pr) rq sq.
Proof.
  intros H Hc Hnx Hi. unfold tower_allocate in H.
  apply bind_inv in H as (ps & w1 & H1 & H). pose proof (keeps_chans_allocate _ _ _ _ _ _ H1) as C1.
  apply allocate_ring in H1 as (Hps & Hn1 & R1 & _); [|by vm_compute|by vm_compute|by vm_compute|done].
  apply bind_inv in H as (? & w2 & H2 & H). pose proof (register_ring _ _ _ _ _ _ _ H2 R1) as R2.
  rewrite <-(inflight_same _ _ ch C1) in Hc.
  pose proof (register_buffer_counters _ _ _ _ _ _ _ R1 H2 Hc) as C2.
  apply keeps_next_register in H2.
  apply bind_inv in H as (pr & w3 & H3 & H). pose proof (keeps_chans_allocate _ _ _ _ _ _ H3) as C3.
  apply allocate_ring in H3 as (Hpr & Hn3 & R3 & Hold);
    [|by vm_compute|by vm_compute|by vm_compute|unfold NUM_BLOCK in *; lia].
  assert (ring_wf (w_bufs w3) ps (fresh_ring ps)) as R3'.
  { apply Hold; [unfold NUM_BLOCK in *; lia| |done]. intros s Hs. cbn in Hs.
    apply elem_of_seqZ in Hs. unfold NUM_BLOCK in *. lia. }
  apply bind_inv in H as (? & w4 & H4 & H).
  pose proof (register_ring _ _ _ _ _ _ _ H4 R3) as R4.
  pose proof (register_ring _ _ _ _ _ _ _ H4 R3') as R4'.
  rewrite <-(inflight_same _ _ ch C3) in C2.
  pose proof (register_buffer_counters _ _ _ _ _ _ _ R3 H4 C2) as C4.
  apply bind_inv in H as (? & w5 & H5 & H). pinv H. unfold setup_index_in_session in H5.
  rewrite i32_small in H5 by lia. pinv H5. exists ps, pr. split; [done|]. split; cbn.
  - exact R4'.
  - exact R4.
  - unfold NUM_BLOCK in *. lia.
  - unfold inflight in *. cbn. rewrite lookup_insert_eq, <-C4. cbn. by rewrite H5.
  - unfold index_of. cbn. by rewrite lookup_insert_eq.
Qed.

Lemma post_receives_one t ch idx ps pr w u w' rs rr rq sq :
  tensor_buffer_recv t = [pr] → tower_post_receives t [ch] w = Ok u w' →
  tower_state ch idx ps pr w rs rr rq sq →
  tower_state ch idx ps pr w' rs (moved rr NUM_BLOCK 0) (rq + NUM_BLOCK) sq.
Proof.
  intros Ht H Hw. unfold tower_post_receives in H. rewrite Ht in H.
  cbn [zip zip_with for_each fst snd] in H. apply bind_inv in H as (? & w1 & H & H'). pinv H'.
  eapply post_blocks_step in H; [|exact Hw]. by rewrite length_seqZ in H.
Qed.

Lemma tower_start_one fuel ch w t w' rq sq :
  tower_start fuel [ch] w = Ok t w' →
  inflight w ch = Some (rq, sq) → 0 < w_next w →
  ∃ ps pr, t = mkTensors [ps] [pr] ∧
    tower_state ch 0 ps pr w' (fresh_ring ps) (moved (fresh_ring pr) NUM_BLOCK 0)
      (rq + NUM_BLOCK) sq.
Proof.
  intros H Hc Hnx. unfold tower_start in H. cbn [tower_buffers] in H.
  rewrite bind_assoc in H. apply bind_inv in H as (t1 & w1 & H1 & H). rewrite bind_ret in H.
  apply (tower_allocate_start _ _ _ _ _ _ rq sq) in H1 as (ps & pr & -> & Hw); [|done|done|lia].
  cbn [tensor_buffer_send tensor_buffer_recv app] in H.
  apply bind_inv in H as (? & w2 & H2 & H).
  eapply post_receives_one in H2; [|reflexivity|exact Hw].
  apply bind_inv in H as (? & w3 & H3 & H). pinv H. unfold tower_sync in H3. cbn [for_each] in H3.
  apply bind_inv in H3 as (? & w3' & H3 & H3'). pinv H3'. wstep H3 as c w4 H4.
  eapply (keeps_sync (λ w, (w_bufs w, w_chans w))) in H3; [|done|done]. injection H3 as Hb Hch.
  exists ps, pr. split; [done|].
  eapply ts_rings; [exact H2|exact Hch|..]; rewrite Hb; by destruct H2.
Qed.
End tower_start.

(** ** Properties *)

Section mesh_lemmas.
Context {X : Type} `{!Platform X}.
Implicit Types w : World X.

Lemma tower_state_mem f ch idx ps pr w rs rr rq sq :
  tower_state ch idx ps pr w rs rr rq sq →
  tower_state ch idx ps pr (w <| w_mem ::= f |>) rs rr rq sq.
Proof. intros [H1 H2 H3 H4 H5]. by split. Qed.

Lemma client_request_step ch idx ps pr t w u w' rs rr rq sq :
  tensor_buffer_send t !! Z.to_nat (u64 idx) = Some ps →
  client_request t ch w = Ok u w' → tower_state ch idx ps pr w rs rr rq sq →
  tower_state ch idx ps pr w' (moved rs 1 0) rr rq (sq + 1).
Proof.
  intros Ht H Hw. unfold client_request, get_index_in_session, tensor in H.
  apply bind_inv in H as (i & w1 & H1 & H). wstep H1 as a w2 H2. pinv H1.
  pose proof (ts_index _ _ _ _ _ _ _ _ _ Hw) as Hi. unfold index_of in Hi.
  rewrite H2 in Hi. cbn in Hi. injection Hi as Hi. rewrite Hi, Ht in H. cbn [must] in H.
  rewrite bind_ret in H. apply bind_inv in H as (s & w3 & H3 & H).
  apply (ts_next_send _ _ _ _ _ _ _ _ _ _ _ H3) in Hw as [Hw _]. rewrite ring_next_moved in Hw.
  apply bind_inv in H as (? & w4 & H4 & H). pinv H. by eapply ts_send_remote.
Qed.

(** A run of completions of one channel, in any order. *)
Lemma client_fold ch idx ps pr t each wcs peers w peers' w' rs rr rq sq :
  tensor_buffer_send t !! Z.to_nat (u32 idx) = Some ps →
  tensor_buffer_recv t !! Z.to_nat (u32 idx) = Some pr →
  fold_each (client_process_wc t each) peers wcs w = Ok peers' w' →
  Forall (λ wc, wc_wr_id wc = ch) wcs → tower_state ch idx ps pr w rs rr rq sq →
  let s := count is_send wcs in let r := count is_recv wcs in let k := count is_write wcs in
  tower_state ch idx ps pr w' (moved rs (127 * r + k) (s + k)) (moved rr r r)
    (rq - r) (sq - s + 127 * r).
Proof.
  intros Hts Htr H Hall Hw. revert peers w rs rr rq sq H Hw.
  induction Hall as [|wc wcs Hid _ IH]; intros peers w rs rr rq sq H Hw; cbn [fold_each count] in *.
  - pinv H. rewrite <-(moved_0 rs), <-(moved_0 rr) in Hw. eapply ts_counts; [exact Hw|lia..].
  - apply bind_inv in H as (p1 & w1 & H1 & H).
    eapply client_process_wc_step in H1; [|exact Hts|exact Htr|exact Hid|exact Hw]. eapply IH in H; [|exact H1].
    cbv zeta in H |- *. rewrite !moved_moved in H. eapply ts_counts; [exact H|lia..].
Qed.
Lemma server_fold ch idx ps pr t each wcs w u w' rs rr rq sq :
  tensor_buffer_send t !! Z.to_nat (u32 idx) = Some ps →
  tensor_buffer_recv t !! Z.to_nat (u32 idx) = Some pr →
  for_each wcs (server_process_wc t each) w = Ok u w' →
  Forall (λ wc, wc_wr_id wc = ch) wcs → tower_state ch idx ps pr w rs rr rq sq →
  let s := count is_send wcs in let r := count is_recv wcs in
  tower_state ch idx ps pr w' (moved rs r s) (moved rr r r) rq (sq - s + r).
Proof.
  intros Hts Htr H Hall Hw. revert w rs rr rq sq H Hw.
  induction Hall as [|wc wcs Hid _ IH]; intros w rs rr rq sq H Hw; cbn [for_each count] in *.
  - pinv H. rewrite <-(moved_0 rs), <-(moved_0 rr) in Hw. eapply ts_counts; [exact Hw|lia..].
  - apply bind_inv in H as (p1 & w1 & H1 & H).
    eapply server_process_wc_step in H1; [|exact Hts|exact Htr|exact Hid|exact Hw]. eapply IH in H; [|exact H1].
    cbv zeta in H |- *. rewrite !moved_moved in H. eapply ts_counts; [exact H|lia..].
Qed.

(** The server answers with the descriptor of its whole send buffer, written into
    the block [next] hands out. *)
Lemma server_answer_sends ch idx ps t w u w' rs sb :
  tensor_buffer_send t !! Z.to_nat (u32 idx) = Some ps →
  ring_wf (w_bufs w) ps rs → w_bufs w !! ps = Some sb →
  server_answer t ch (u32 idx) w = Ok u w' →
  ∃ s w1 b m, next ps w = Ok s w1 ∧ (ring_next rs).1 = Some s ∧ w_bufs w !! s = Some b ∧
    stables s w1 = Some (stable b) ∧ mr_ sb = Some m ∧
    let bs := encode_CommDescriptor
      (mkCommDescriptor (data_ptr sb) (buffer_size sb) (mr_rkey m) 0) in
    send_remote ch s 24 2 (w1 <| w_mem ::= mem_write (data_ptr b) bs |>) = Ok true w'.
Proof.
  intros Hts Hwf Hsb H. unfold server_answer, tensor in H. rewrite Hts in H. cbn [must] in H.
  rewrite bind_ret in H. apply bind_inv in H as (s & w1 & H1 & H).
  pose proof (keeps_stables_next s _ _ _ _ H1) as Hst. pose proof (keeps_stables_next ps _ _ _ _ H1) as Hps.
  destruct (next_step _ _ _ _ _ Hwf H1) as (Hs & _).
  wstep H as lb w2 H2. wstep H as sb' w3 H3.
  destruct (stables_inv ps _ _ sb Hps Hsb) as (sb1 & Hsb1 & Esb). same Hsb1 H3.
  injection Esb as Ea El Em _. wstep H as m w4 H4. cbv zeta in H. rewrite Ea, El in H.
  set (bs := encode_CommDescriptor _) in *.
  apply bind_inv in H as (? & w5 & H5 & H). apply bind_inv in H as (r & w6 & H6 & H). pinv H.
  apply memcpy_in_inv in H5. rewrite take_ge in H5 by
    (subst bs; rewrite encode_CommDescriptor_length; lia). rewrite H5 in H6. clear H5.
  destruct (w_bufs w !! s) as [b|] eqn:Hb; [|by unfold stables in Hst; rewrite Hb, H2 in Hst].
  destruct (stables_inv s _ _ b Hst Hb) as (b1 & Hb1 & E1). same Hb1 H2.
  injection E1 as E1 _ _ _. exists s, w1, b, m. rewrite <-E1, <-Em.
  split; [done|]. split; [done|]. split; [done|]. split; [unfold stables in *; by rewrite Hst, Hb|].
  split; [done|]. cbv zeta. subst bs.
  destruct (send_remote_inv _ _ _ _ _ _ _ H6) as (? & ? & ? & ? & ? & _ & _ & _ & _ & _ & -> & _).
  exact H6.
Qed.
Lemma server_answer_describes ch idx ps t w u w' rs sb :
  tensor_buffer_send t !! Z.to_nat (u32 idx) = Some ps →
  ring_wf (w_bufs w) ps rs → w_bufs w !! ps = Some sb →
  server_answer t ch (u32 idx) w = Ok u w' →
  ∃ s b m lm qp x mm r, (ring_next rs).1 = Some s ∧ w_bufs w !! s = Some b ∧
    mr_ sb = Some m ∧ mr_ b = Some lm ∧
    ibv_post_send qp (send_wr (data_ptr b) 24 (mr_lkey lm) 2 ch) x mm = (0, r) ∧
    mem_read (data_ptr b) sizeof_CommDescriptor mm =
      Some (encode_CommDescriptor
        (mkCommDescriptor (data_ptr sb) (buffer_size sb) (mr_rkey m) 0)).
Proof.
  intros Hts Hwf Hsb H.
  destruct (server_answer_sends _ _ _ _ _ _ _ _ _ Hts Hwf Hsb H)
    as (s & w1 & b & m & _ & Hs & Hb & Hst & Hm & Hsend). cbv zeta in Hsend.
  apply send_remote_inv in Hsend as (b' & lm & c & y & mm & Hb' & _ & _ & Hlm & _ & _ & E & _).
  unfold stables in Hst. cbn in Hb'. rewrite Hb' in Hst. injection Hst as E1 _ E3 _.
  rewrite E1 in E. rewrite E3 in Hlm. exists s, b, m, lm. do 4 eexists.
  do 4 (split; [done|]). split; [exact E|].
  match goal with |- context [encode_CommDescriptor ?d] =>
    rewrite <-(encode_CommDescriptor_length d) end. apply mem_read_write.
Qed.
(** The client takes the peer's descriptor from the right block: when every
    block of the receive ring is posted, the block [next] names in the receive
    handler is the oldest posted one, whose receive has just completed, and the
    descriptor found there is stored for the channel unchanged. *)
Lemma client_stores_oldest ch idx ps pr t peers wc w peers' w' rs rr rq sq s b d :
  tensor_buffer_recv t !! Z.to_nat (u32 idx) = Some pr →
  tower_state ch idx ps pr w rs rr rq sq → handed rr - returned rr = ring_size rr →
  ring_slot rr (returned rr + 1) = Some s → w_bufs w !! s = Some b →
  mem_read (data_ptr b) sizeof_CommDescriptor (w_mem w) = Some (encode_CommDescriptor d) →
  CommDescriptor_wf d →
  client_recv_done t peers ch (u32 idx) wc w = Ok peers' w' →
  peers' = <[Z.to_nat (u32 idx) := d]> peers ∧ peers' !! Z.to_nat (u32 idx) = Some d.
Proof.
  intros Htr Hw Hfull Hs Hb Hm Hd H. unfold client_recv_done in H.
  apply bind_inv in H as (? & w1 & H1 & H). apply keeps_mem_decrease_rqe in H1 as H1'.
  injection H1' as Hb1 Hm1. eapply ts_decrease_rqe in H1; [|exact Hw].
  unfold tensor in H. rewrite Htr in H. cbn [must] in H. rewrite bind_ret in H.
  apply bind_inv in H as (? & w2 & H2 & H). apply (keeps_stables_last s) in H2 as Hst2.
  destruct (last_step _ _ _ _ _ (ts_recv _ _ _ _ _ _ _ _ _ H1) H2) as (_ & Hwf2 & Hm2 & _).
  apply bind_inv in H as (p1 & w3 & H3 & H). destruct (_ =? _); [|done].
  apply bind_inv in H as (? & w4 & _ & H). pinv H.
  unfold client_answer, tensor in H3. rewrite Htr in H3. cbn [must] in H3. rewrite bind_ret in H3.
  apply bind_inv in H3 as (s' & w5 & H5 & H3). apply (keeps_stables_next s) in H5 as Hst5.
  destruct (next_step _ _ _ _ _ Hwf2 H5) as (Hs' & _ & Hm5 & _).
  assert (s' = s) as ->.
  { cbn in Hs'. unfold ring_slot, ring_size in *. cbn in Hs'.
    replace (handed rr + 1) with (returned rr + 1 + 1 * Z.of_nat (length (slots rr))) in Hs' by lia.
    rewrite Z_mod_plus_full in Hs'. congruence. }
  rewrite <-Hb1 in Hb. destruct (stables_inv s w1 w5 b) as (b' & Hb' & E); [congruence|done|].
  rewrite (bind_Ok _ _ _ _ _ (buf_at_eq _ _ _ Hb')) in H3. injection E as E _ _ _.
  apply bind_inv in H3 as (bs & w6 & [H6 ->]%must_inv & H3). rewrite E, Hm5, Hm2, Hm1, Hm in H6. injection H6 as <-.
  wstep H3 as ? w7 H7. pinv H3.
  apply Z.ltb_lt in H7. pose proof (u32_range idx). rewrite decode_encode_CommDescriptor by done.
  split; [done|]. apply list_lookup_insert_eq. lia.
Qed.

(** A write of the client goes to the region its table holds for the channel. *)
Lemma client_write_target ch idx ps t peers w u w' d :
  tensor_buffer_send t !! Z.to_nat (u32 idx) = Some ps →
  peers !! Z.to_nat (u32 idx) = Some d →
  client_write t peers ch (u32 idx) w = Ok u w' →
  ∃ s w1 wr b m c, next ps w = Ok s w1 ∧ send_posted w1 w' ch s wr b m c ∧
    (swr_opcode wr, swr_imm_data wr) = (IBV_WR_RDMA_WRITE, None) ∧
    swr_remote wr = Some (buffer_addr_ d, rkey_ d) ∧
    sge_length <$> swr_sg_list wr = [u32 (buffer_size b)] ∧
    u32 (buffer_size b) ≤ buffer_length_ d.
Proof.
  intros Hts Hd H. unfold client_write, tensor in H. rewrite Hts in H. cbn [must] in H.
  rewrite bind_ret in H. apply bind_inv in H as (s & w1 & H1 & H). wstep H as b w2 H2.
  rewrite Hd in H. cbn [must] in H. rewrite bind_ret in H.
  apply bind_inv in H as (r & w3 & H3 & H). pinv H.
  apply write_remote_posts in H3 as (wr & b' & m & c & d' & Hp & _ & [= <-] & Hr & Hle & Hl & Ho).
  pose proof Hp as (Hb & _). same Hb H2.
  rewrite (u32_small (u32 _)) in Hle, Hl by apply u32_range. eauto 15.
Qed.
End mesh_lemmas.

Section mesh_properties.
Context {X : Type} `{!Platform X}.
Implicit Types w : World X.

(** C17: the client's window: from fresh rings, after posting its receives and
    its request, the client handles any sequence of completions of its channel so
    that the requests its adapter counts are exactly the blocks handed out and not
    given back: one for its request, 127 more for each answer, one fewer for each
    send completed; and each completed receive leaves one fewer posted.  As long as
    these are at most [NUM_BLOCK] no block is out twice.  That is so when at most one
    answer is among the completions; a second answer can take the count to 255
    on the 128 blocks. *)
Theorem client_window ch ps pr each wcs peers peers' w u w1 v w2 w3 :
  let t := mkTensors [ps] [pr] in
  tower_state ch 0 ps pr w (fresh_ring ps) (fresh_ring pr) 0 0 →
  tower_post_receives t [ch] w = Ok u w1 → client_request t ch w1 = Ok v w2 →
  Forall (λ wc, wc_wr_id wc = ch) wcs →
  fold_each (client_process_wc t each) peers wcs w2 = Ok peers' w3 →
  ∃ rs rr rq sq, tower_state ch 0 ps pr w3 rs rr rq sq ∧
    sq = handed rs - returned rs ∧
    sq = 1 - count is_send wcs + 127 * count is_recv wcs ∧
    rq = NUM_BLOCK - count is_recv wcs ∧
    (sq ≤ NUM_BLOCK → NoDup (outstanding rs)) ∧ (count is_recv wcs ≤ 1 → sq ≤ NUM_BLOCK).
Proof.
  intros t Hw H1 H2 Hall H3.
  eapply (post_receives_one t ch 0 ps pr) in H1; [|reflexivity|exact Hw].
  eapply (client_request_step ch 0 ps pr) in H2; [|reflexivity|exact H1].
  eapply (client_fold ch 0 ps pr) in H3; [|reflexivity|reflexivity|exact Hall|exact H2].
  cbv zeta in H3.
  rewrite !moved_moved in H3. eexists _, _, _, _. split; [exact H3|].
  pose proof (count_nonneg is_send wcs). unfold NUM_BLOCK in *.
  cbn [handed returned moved fresh_ring]. split; [lia|]. split; [lia|]. split; [lia|].
  split; [|lia]. intros Hle.
  pose proof (ts_send _ _ _ _ _ _ _ _ _ H3) as (?&_&_&_&_&Hsz&_&_&Hnd&_).
  apply outstanding_NoDup; [done|lia|]. unfold ring_size. cbn [moved slots handed returned fresh_ring].
  rewrite length_seqZ. unfold NUM_BLOCK. lia.
Qed.

(** C32: the server's window: whatever completions of a channel it handles, the
    number of posted receives stays the same, the two rings move together with
    the counters, and one answer is sent for each request received. *)
Theorem server_window ch idx ps pr t each wcs w u w' rs rr rq sq :
  tensor_buffer_send t !! Z.to_nat (u32 idx) = Some ps →
  tensor_buffer_recv t !! Z.to_nat (u32 idx) = Some pr →
  tower_state ch idx ps pr w rs rr rq sq → Forall (λ wc, wc_wr_id wc = ch) wcs →
  for_each wcs (server_process_wc t each) w = Ok u w' →
  ∃ rs' rr' sq', tower_state ch idx ps pr w' rs' rr' rq sq' ∧
    sq' = sq - count is_send wcs + count is_recv wcs ∧
    handed rs' - returned rs' - sq' = handed rs - returned rs - sq ∧
    handed rr' - returned rr' = handed rr - returned rr ∧
    count is_send wcs + count is_recv wcs = Z.of_nat (length wcs).
Proof.
  intros Hts Htr Hw Hall H. eexists _, _, _.
  split; [by eapply server_fold|]. cbn [moved handed returned].
  split; [done|]. split; [lia|]. split; [lia|]. clear Hw.
  revert w H. induction Hall as [|wc wcs _ _ IH]; intros w H; cbn [for_each count length] in *; [done|].
  apply bind_inv in H as (? & w1 & H1 & H). apply IH in H. unfold server_process_wc in H1.
  apply bind_inv in H1 as ([a ci] & w2 & _ & H1). unfold is_send, is_recv in *.
  destruct (wc_opcode wc); cbn [Z.b2z]; try lia; try done;
    by apply bind_inv in H1 as (? & ? & _ & H1).
Qed.

(** C33: a request is answered: the bytes the server posts describe its whole
    send buffer; when a client finds these bytes in its oldest posted block as
    the receive completes, it stores exactly this description for the channel,
    and each write it posts afterwards goes to the server's buffer, under its key
    and inside its bounds. *)
Theorem request_answered chs idxs pss ts w u w' rss sb
    ch idx ps pr t peers wc v peers' v' rs rr rq sq s b :
  tensor_buffer_send ts !! Z.to_nat (u32 idxs) = Some pss →
  ring_wf (w_bufs w) pss rss → w_bufs w !! pss = Some sb →
  (∀ m, mr_ sb = Some m →
   CommDescriptor_wf (mkCommDescriptor (data_ptr sb) (buffer_size sb) (mr_rkey m) 0)) →
  server_answer ts chs (u32 idxs) w = Ok u w' →
  tensor_buffer_send t !! Z.to_nat (u32 idx) = Some ps →
  tensor_buffer_recv t !! Z.to_nat (u32 idx) = Some pr →
  tower_state ch idx ps pr v rs rr rq sq → handed rr - returned rr = ring_size rr →
  ring_slot rr (returned rr + 1) = Some s → w_bufs v !! s = Some b →
  client_recv_done t peers ch (u32 idx) wc v = Ok peers' v' →
  ∃ ss bs m lm qp x mm r, (ring_next rss).1 = Some ss ∧ w_bufs w !! ss = Some bs ∧
    mr_ sb = Some m ∧ mr_ bs = Some lm ∧
    ibv_post_send qp (send_wr (data_ptr bs) 24 (mr_lkey lm) 2 chs) x mm = (0, r) ∧
    let d := mkCommDescriptor (data_ptr sb) (buffer_size sb) (mr_rkey m) 0 in
    mem_read (data_ptr bs) 24 mm = Some (encode_CommDescriptor d) ∧
    (mem_read (data_ptr b) 24 (w_mem v) = mem_read (data_ptr bs) 24 mm →
     peers' = <[Z.to_nat (u32 idx) := d]> peers ∧
     ∀ v1 u1 v2, client_write t peers' ch (u32 idx) v1 = Ok u1 v2 →
       ∃ s1 v1' wr b1 m1 c, next ps v1 = Ok s1 v1' ∧ send_posted v1' v2 ch s1 wr b1 m1 c ∧
         (swr_opcode wr, swr_imm_data wr) = (IBV_WR_RDMA_WRITE, None) ∧
         swr_remote wr = Some (data_ptr sb, mr_rkey m) ∧
         sge_length <$> swr_sg_list wr = [u32 (buffer_size b1)] ∧
         u32 (buffer_size b1) ≤ buffer_size sb).
Proof.
  intros Htss Hwfs Hsb Hd Hs Hts Htr Hw Hfull Hslot Hb Hc.
  destruct (server_answer_describes _ _ _ _ _ _ _ _ _ Htss Hwfs Hsb Hs)
    as (ss & bs & m & lm & qp & x & mm & r & H1 & H2 & H3 & H4 & H5 & H6).
  exists ss, bs, m, lm, qp, x, mm, r. do 5 (split; [done|]).
  intros d. change 24%nat with sizeof_CommDescriptor. rewrite H6. split; [done|]. intros Hm.
  assert (peers' = <[Z.to_nat (u32 idx) := d]> peers ∧ peers' !! Z.to_nat (u32 idx) = Some d)
    as [Hp Hlk] by (eapply client_stores_oldest; eauto).
  split; [exact Hp|]. intros v1 u1 v2 Hwr.
  exact (client_write_target _ _ _ _ _ _ _ _ _ Hts Hlk Hwr).
Qed.

(** C19: before connecting, the mesh server puts all its endpoints on one shared
    completion queue that has room for every request they can have in flight
    together, 128 sends and 128 receives each; the mesh client insists on
    exactly one endpoint and gives it a private queue of the same room. *)
Theorem tower_queue_capacity this w u w' s :
  w_sess w !! this = Some s → Z.of_nat (length (end_point_mgr_ s)) < 2^23 →
  (ServerTower_lazy_config_hca this w = Ok u w' →
   ∀ ep, ep ∈ end_point_mgr_ s → ∃ e ch, w_eps w !! ep = Some e ∧
     rdma_channel_mgr_ e !! 0%nat = Some ch ∧
     configured w' (λ c, using_shared_cq c = true ∧ cq_key c = "GlobalSharedCQForRecv" ∧
       max_send_wr c = NUM_BLOCK ∧ max_recv_wr c = NUM_BLOCK ∧
       i32 (cq_size c) =
         Z.of_nat (length (end_point_mgr_ s)) * (max_send_wr c + max_recv_wr c)) ch) ∧
  (ClientTower_lazy_config_hca this w = Ok u w' →
   ∃ ep e ch, end_point_mgr_ s = [ep] ∧ w_eps w !! ep = Some e ∧
     rdma_channel_mgr_ e !! 0%nat = Some ch ∧
     configured w' (λ c, using_shared_cq c = false ∧
       max_send_wr c = NUM_BLOCK ∧ max_recv_wr c = NUM_BLOCK ∧
       i32 (cq_size c) = max_send_wr c + max_recv_wr c) ch).
Proof.
  intros Hs Hn. set (n := Z.of_nat (length (end_point_mgr_ s))) in *.
  assert (i32 (u32 (u64 (u32 (NUM_BLOCK + NUM_BLOCK) * n))) = n * (NUM_BLOCK + NUM_BLOCK)) as Hcap.
  { unfold NUM_BLOCK. rewrite (u32_small (128 + 128)) by lia.
    rewrite u64_small, u32_small, i32_small by lia. lia. }
  split; intros H.
  - unfold ServerTower_lazy_config_hca in H. wstep H as s1 w1 H1. same H1 Hs.
    eapply (for_each_configure (λ _, True)) in H as (_ & _ & H); [exact H| |done].
    clear H. intros ep w0 v w1 _ H. unfold ServerTower_configure in H.
    apply bind_inv in H as (ch & w2 & (-> & e & He & Hch)%get_channel_inv & H).
    apply upd_config_inv in H as (c & Hc & ->). split; [done|]. split; [done|].
    split; [|exists e, ch; split; [done|]; split; [done|by apply configured_self]].
    intros ch' Hp. by apply configured_insert.
  - unfold ClientTower_lazy_config_hca in H. wstep H as s1 w1 H1. same H1 Hs.
    wstep H as ? w2 H2. apply Z.eqb_eq in H2. fold n in H2. rewrite H2 in Hcap.
    destruct (end_point_mgr_ s) as [|ep [|]] eqn:Heps; try done; [|subst n; cbn in H2; lia].
    cbn [for_each] in H. apply bind_inv in H as (? & w3 & H3 & H). pinv H.
    unfold ClientTower_configure in H3.
    apply bind_inv in H3 as (ch & w4 & (-> & e & He & Hch)%get_channel_inv & H3).
    apply upd_config_inv in H3 as (c & Hc & ->). exists ep, e, ch.
    split; [done|]. split; [done|]. split; [done|]. apply configured_self.
    split_and!; [reflexivity..|]. exact Hcap.
Qed.

(** the identity [ServerTower]'s constructor assigns arrives too late: it goes
    to the caller's configuration, the session keeps the one it was given. *)
Theorem server_tower_id conf w :
  ∃ this conf' w', ServerTower_ctor conf w = Ok (this, conf') w' ∧
    session_id conf' = "FullMeshService" ∧
    session_get_id this w' = Ok (role conf +:+ "@" +:+ session_id conf) w'.
Proof.
  eexists _, _, _. split; [reflexivity|]. split; [reflexivity|].
  unfold session_get_id. erewrite bind_Ok; [|apply sess_at_eq; cbn; apply lookup_insert_eq].
  reflexivity.
Qed.
End mesh_properties.

(** ** Witnesses *)

(** A loaded channel with a send buffer at 10000 and a receive buffer at 20000,
    the peer's answer in the first block of the latter. *)
Definition me_mr : ibv_mr := mkIbvMr 7 1007 2007.
Definition me_ring (p ptr : Z) : gmap Z RDMABuffer :=
  let base := base_at p ptr BLOCK_SIZE NUM_BLOCK "b" in
  <[p := registered 500 (Some me_mr) base]> (list_to_map
    ((λ i, (p + 1 + i, registered 500 (Some me_mr) (block_at base p BLOCK_SIZE "b" i)))
       <$> seqZ 0 NUM_BLOCK)).
Definition me_desc : CommDescriptor := mkCommDescriptor (2^40) (2^21) 9 0.
Definition me_w0 : World Sim :=
  state_of (setup_index_in_session 500 0
    (ad_w1 <| w_bufs := me_ring 10000 (2^20) ∪ me_ring 20000 (2^24) |>
           <| w_mem := mem_write (2^24) (encode_CommDescriptor me_desc)
                         (mem_write (2^20) (zeros 64) ∅) |>)).
Definition me_t : tensors := mkTensors [10000] [20000].

Lemma me_ring_wf w p ptr (r := fresh_ring p) :
  w_bufs w !! p = Some (registered 500 (Some me_mr) (base_at p ptr BLOCK_SIZE NUM_BLOCK "b")) →
  Forall (λ s, base_buffer_ <$> w_bufs (X:=Sim) w !! s = Some p) (slots r) →
  ring_wf (w_bufs w) p r.
Proof.
  intros Hp Hs. eexists. split; [exact Hp|]. unfold ring_size, INT_MAX. subst r. cbn [slots fresh_ring].
  rewrite length_seqZ. cbn. split_and!; try done; try lia.
  - apply NoDup_seqZ.
  - rewrite elem_of_seqZ. lia.
  - intros s Hin. rewrite Forall_forall in Hs. specialize (Hs s Hin). cbn in Hs.
    destruct (w_bufs w !! s) as [sb|]; [|done]. injection Hs as Hs. eauto.
Defined.

Lemma me_state : tower_state 500 0 10000 20000 me_w0 (fresh_ring 10000) (fresh_ring 20000) 0 0.
Proof.
  split; [| |lia|vm_compute; reflexivity|vm_compute; reflexivity].
  - apply (me_ring_wf _ _ (2^20)); [vm_compute; reflexivity|].
    apply (bool_decide_unpack _). vm_compute; exact I.
  - apply (me_ring_wf _ _ (2^24)); [vm_compute; reflexivity|].
    apply (bool_decide_unpack _). vm_compute; exact I.
Defined.

Definition me_wc (op : ibv_wc_opcode) : ibv_wc := mkWc 500 IBV_WC_SUCCESS op 24 2 0.
Definition me_wcs : list ibv_wc := me_wc <$> [IBV_WC_RECV; IBV_WC_SEND; IBV_WC_RDMA_WRITE].
Definition me_w1 : World Sim := state_of (tower_post_receives me_t [500] me_w0).
Definition me_w2 : World Sim := state_of (client_request me_t 500 me_w1).
Definition me_peers : list CommDescriptor := [mkCommDescriptor 0 0 0 0].
Definition me_w3 : World Sim :=
  state_of (fold_each (client_process_wc me_t 500) me_peers me_wcs me_w2).

Lemma client_window_witness :
  ∃ rs rr rq, tower_state 500 0 10000 20000 me_w3 rs rr rq 127 ∧ NoDup (outstanding rs).
Proof.
  destruct (client_window 500 10000 20000 500 me_wcs me_peers [me_desc] me_w0 tt me_w1 tt me_w2
    me_w3) as (rs & rr & rq & sq & H1 & _ & H2 & _ & H3 & H4).
  - exact me_state.
  - vm_compute; reflexivity.
  - vm_compute; reflexivity.
  - repeat constructor.
  - vm_compute; reflexivity.
  - exists rs, rr, rq. assert (NoDup (outstanding rs)) as Hnd by (apply H3, H4; vm_compute; discriminate).
    vm_compute in H2. rewrite H2 in H1. by split.
Defined.

Definition me_req : ibv_wc := mkWc 500 IBV_WC_SUCCESS IBV_WC_RECV 1 1 0.

Lemma server_window_witness :
  ∃ rs rr, tower_state 500 0 10000 20000
    (state_of (for_each [me_req] (server_process_wc me_t 500) me_w0)) rs rr 0 1.
Proof.
  destruct (server_window 500 0 10000 20000 me_t 500 [me_req] me_w0 tt
    (state_of (for_each [me_req] (server_process_wc me_t 500) me_w0))
    (fresh_ring 10000) (fresh_ring 20000) 0 0) as (rs & rr & sq & H & -> & _).
  - reflexivity.
  - reflexivity.
  - exact me_state.
  - repeat constructor.
  - vm_compute; reflexivity.
  - exists rs, rr. exact H.
Defined.

Lemma me_state1 :
  tower_state 500 0 10000 20000 me_w1 (fresh_ring 10000) (moved (fresh_ring 20000) NUM_BLOCK 0)
    NUM_BLOCK 0.
Proof.
  apply (post_receives_one me_t 500 0 10000 20000 me_w0 tt me_w1 (fresh_ring 10000)
    (fresh_ring 20000) 0 0); [reflexivity|vm_compute; reflexivity|exact me_state].
Qed.

(** The client world once the server's answer has arrived in its first block. *)
Definition me_sb : RDMABuffer :=
  registered 500 (Some me_mr) (base_at 10000 (2^20) BLOCK_SIZE NUM_BLOCK "b").
Definition me_sdesc : CommDescriptor := mkCommDescriptor (2^20) (2^21) 2007 0.
Definition me_v : World Sim :=
  me_w1 <| w_mem ::= mem_write (2^24) (encode_CommDescriptor me_sdesc) |>.
Lemma request_answered_witness :
  ∃ s qp x mm r, ibv_post_send qp (send_wr (2^20) 24 1007 2 500) x mm = (0, r) ∧
    (ring_next (fresh_ring 10000)).1 = Some s ∧
    mem_read (2^20) 24 mm = Some (encode_CommDescriptor me_sdesc) ∧
    [me_sdesc] = <[0%nat := me_sdesc]> me_peers.
Proof.
  destruct (request_answered 500 0 10000 me_t me_w0 tt (state_of (server_answer me_t 500 0 me_w0))
    (fresh_ring 10000) me_sb
    500 0 10000 20000 me_t me_peers (me_wc IBV_WC_RECV) me_v [me_sdesc]
    (state_of (client_recv_done me_t me_peers 500 0 (me_wc IBV_WC_RECV) me_v))
    (fresh_ring 10000) (moved (fresh_ring 20000) NUM_BLOCK 0) NUM_BLOCK 0 20001
    (default (base_at 0 0 0 0 "") (w_bufs me_w1 !! 20001)))
    as (s & b & m & lm & qp & x & mm & r & Hs & Hb & Hm & Hlm & Hp & Hr & Hc).
  - reflexivity.
  - exact (ts_send _ _ _ _ _ _ _ _ _ me_state).
  - vm_compute; reflexivity.
  - intros m [= <-]. apply (bool_decide_unpack _). vm_compute; exact I.
  - vm_compute; reflexivity.
  - reflexivity.
  - reflexivity.
  - exact (tower_state_mem _ _ _ _ _ _ _ _ _ _ me_state1).
  - reflexivity.
  - vm_compute; reflexivity.
  - vm_compute; reflexivity.
  - vm_compute; reflexivity.
  - assert (s = 10001) as -> by (vm_compute in Hs; congruence).
    assert (w_bufs me_w0 !! 10001 = Some (registered 500 (Some me_mr)
      (block_at (base_at 10000 (2^20) BLOCK_SIZE NUM_BLOCK "b") 10000 BLOCK_SIZE "b" 0)))
      as E by (vm_compute; reflexivity).
    rewrite E in Hb. injection Hb as <-. injection Hm as <-. injection Hlm as <-.
    exists 10001, qp, x, mm, r. split; [exact Hp|]. split; [exact Hs|]. split; [exact Hr|].
    apply Hc. transitivity (Some (encode_CommDescriptor me_sdesc)); [vm_compute; reflexivity|].
    symmetry. exact Hr.
Defined.

Lemma tower_queue_capacity_witness :
  ∃ ep e ch, end_point_mgr_ ad_sess = [ep] ∧ w_eps ad_w1 !! ep = Some e ∧
    rdma_channel_mgr_ e !! 0%nat = Some ch ∧
    configured (state_of (ClientTower_lazy_config_hca 200 ad_w1)) (λ c,
      using_shared_cq c = false ∧ max_send_wr c = NUM_BLOCK ∧ max_recv_wr c = NUM_BLOCK ∧
      i32 (cq_size c) = max_send_wr c + max_recv_wr c) ch.
Proof.
  apply (proj2 (tower_queue_capacity 200 ad_w1 tt
    (state_of (ClientTower_lazy_config_hca 200 ad_w1)) ad_sess
    ltac:(vm_compute; reflexivity) ltac:(vm_compute; reflexivity))).
  vm_compute; reflexivity.
Defined.
