(* ===== verification/Lanes.v ===== *)
(** * The completion loops of a mesh process in parallel

    A process of the mesh runs a server tower and one client tower per peer, each
    in a thread of its own (example/mesh_comm_service.cc, [process_CQ] of both
    towers).  A lane is one channel of such a loop with the completions that
    arrive for it; each completion is handled in one action.  The lanes of one
    server thread run here as if they were threads themselves, which allows every
    order in which that thread may take their completions. *)
From S2P Require Import Prelude Words Types Layout World Sim Ident Device Buffer.
From S2P Require Import Adapter Channel Tcp Endpoint Session ClientServer.
From S2P Require Import Threads Flow Mesh.

Section lanes.
Context {X : Type} `{!Platform X}.

(** The inner loops of [process_CQ]. *)
Fixpoint client_loop (t : tensors) (each_channel : Z) (peers : list CommDescriptor)
    (wcs : list ibv_wc) : thread (World X) (list CommDescriptor) :=
  match wcs with
  | [] => mret peers
  | wc :: wcs =>
      peers ← atomic (client_process_wc t each_channel peers wc);
      client_loop t each_channel peers wcs
  end.
Fixpoint server_loop (t : tensors) (each_channel : Z) (wcs : list ibv_wc)
    : thread (World X) (list CommDescriptor) :=
  match wcs with
  | [] => mret []
  | wc :: wcs => atomic (server_process_wc t each_channel wc) ;; server_loop t each_channel wcs
  end.

(** One channel, with its index, its tower's buffers and its own two rings. *)
Record lane := mkLane {
  lane_server : bool;
  lane_tensors : tensors;
  lane_each : Z;
  lane_channel : Z;
  lane_index : Z;
  lane_send : Z;
  lane_recv : Z;
  lane_peers : list CommDescriptor;
  lane_wcs : list ibv_wc
}.
Definition lane_thread (l : lane) : thread (World X) (list CommDescriptor) :=
  if lane_server l then server_loop (lane_tensors l) (lane_each l) (lane_wcs l)
  else client_loop (lane_tensors l) (lane_each l) (lane_peers l) (lane_wcs l).

Definition lane_state (l : lane) (w : World X) : ring → ring → Z → Z → Prop :=
  tower_state (lane_channel l) (lane_index l) (lane_send l) (lane_recv l) w.
(** The tower's tables name the lane's rings, and the completions are its own. *)
Definition lane_wf (l : lane) : Prop :=
  tensor_buffer_send (lane_tensors l) !! Z.to_nat (u32 (lane_index l)) = Some (lane_send l) ∧
  tensor_buffer_recv (lane_tensors l) !! Z.to_nat (u32 (lane_index l)) = Some (lane_recv l) ∧
  Forall (λ wc, wc_wr_id wc = lane_channel l) (lane_wcs l).
(** Two lanes have nothing in common. *)
Definition apart (l l' : lane) : Prop :=
  lane_channel l ≠ lane_channel l' ∧
  lane_send l' ≠ lane_send l ∧ lane_send l' ≠ lane_recv l ∧
  lane_recv l' ≠ lane_send l ∧ lane_recv l' ≠ lane_recv l.
End lanes.

(** By itself, a lane is the loop of the sequential model. *)
Section loop_alone.
Context {X : Type} `{!Platform X}.
Implicit Types w : World X.

Lemma client_loop_alone t each peers wcs w :
  alone (client_loop t each peers wcs) w = fold_each (client_process_wc t each) peers wcs w.
Proof.
  revert peers w. induction wcs as [|wc wcs IH]; intros peers w; [done|].
  cbn [client_loop fold_each]. rewrite alone_bind.
  destruct (client_process_wc t each peers wc w) as [p w1|f w1] eqn:E.
  - rewrite !(bind_Ok _ _ _ _ _ E), (bind_Ok _ _ _ p w1); [apply IH|]. by rewrite alone_atomic.
  - rewrite !(bind_Abort _ _ _ _ _ E), (bind_Abort _ _ _ f w1); [done|]. by rewrite alone_atomic.
Qed.
End loop_alone.

(** ** What the handlers of a lane leave alone *)

Section spares.
Context {X : Type} `{!Platform X}.
Implicit Types w : World X.
Context (ch ps pr : Z).

(** The rings of other buffers, the counters and indices of other channels, and
    the grouping of the buffers stay. *)
Definition spares w w' : Prop :=
  (∀ q, base_buffer_ <$> w_bufs w' !! q = base_buffer_ <$> w_bufs w !! q) ∧
  (∀ q, q ≠ ps → q ≠ pr → geom <$> w_bufs w' !! q = geom <$> w_bufs w !! q) ∧
  (∀ q, q ≠ ch → inflight w' q = inflight w q ∧ index_of q w' = index_of q w).
Definition bases w : Prop :=
  base_buffer_ <$> w_bufs w !! ps = Some ps ∧ base_buffer_ <$> w_bufs w !! pr = Some pr.
Definition frames {A} (m : W X A) : Prop :=
  ∀ w a w', bases w → m w = Ok a w' → spares w w'.

#[export] Instance spares_order : PreOrder spares.
Proof.
  split; [done|]. intros w1 w2 w3 (B1 & G1 & C1) (B2 & G2 & C2). split; [|split].
  - intros q. by rewrite B2.
  - intros q Hs Hr. by rewrite G2, G1.
  - intros q Hq. destruct (C1 q Hq) as [<- <-]. auto.
Qed.
Lemma bases_spares w w' : spares w w' → bases w → bases w'.
Proof. intros (B & _) [? ?]. split; by rewrite B. Qed.

(** Another lane keeps its state. *)
Lemma spares_state w w' ch' idx ps' pr' rs rr rq sq :
  spares w w' → ch' ≠ ch → ps' ≠ ps → ps' ≠ pr → pr' ≠ ps → pr' ≠ pr →
  tower_state ch' idx ps' pr' w rs rr rq sq → tower_state ch' idx ps' pr' w' rs rr rq sq.
Proof.
  intros (B & G & C) Hc ? ? ? ? [H1 H2 H3 H4 H5]. destruct (C ch' Hc) as [Ci Cx]. split.
  - eapply ring_wf_ext; [exact H1|by apply G|exact B].
  - eapply ring_wf_ext; [exact H2|by apply G|exact B].
  - done.
  - by rewrite Ci.
  - by rewrite Cx.
Qed.
Lemma state_bases idx w rs rr rq sq : tower_state ch idx ps pr w rs rr rq sq → bases w.
Proof.
  intros [(b1 & E1 & _ & F1 & _) (b2 & E2 & _ & F2 & _) _ _ _].
  unfold bases. rewrite E1, E2. cbn. by rewrite F1, F2.
Qed.

(** *** The rules *)

Lemma frames_bind {A B} (m : W X A) (k : A → W X B) :
  frames m → (∀ a, frames (k a)) → frames (m ≫= k).
Proof.
  intros Hm Hk w b w'' Hb H. apply bind_inv in H as (a & w' & H1 & H2).
  apply Hm in H1; [|done]. trans w'; [done|]. eapply Hk; [|exact H2]. by eapply bases_spares.
Qed.
(** The channels' counters and indices other than [ch]'s. *)
Definition others (q : Z) w := (inflight w q, index_of q w).
Lemma frames_keeps {A} (m : W X A) :
  keeps w_bufs m → (∀ q, q ≠ ch → keeps (others q) m) → frames m.
Proof.
  intros Hb Hc w a w' _ H. apply Hb in H as Hb'. unfold spares. rewrite Hb'. split; [done|]. split; [done|].
  intros q Hq. pose proof (Hc q Hq _ _ _ H) as E. by injection E.
Qed.
Lemma frames_never {A} (m : W X A) : (∀ w a w', m w ≠ Ok a w') → frames m.
Proof. intros Hm w a w' _ H. by apply Hm in H. Qed.
Lemma frames_ret {A} (a : A) : frames (mret a).
Proof. apply frames_keeps; intros; solve_keeps. Qed.

Lemma frames_ring q : q = ps ∨ q = pr → frames (next (X:=X) q) ∧ frames (last (X:=X) q).
Proof.
  intros Hq. split; intros w s w' [Hs Hr] H;
    (assert (∃ b, w_bufs w !! q = Some b ∧ (base_buffer_ b = ps ∨ base_buffer_ b = pr)) as (b & Hb & Hbase);
     [destruct Hq as [-> | ->]; [apply fmap_Some in Hs as (b & Hb & Hs)|apply fmap_Some in Hr as (b & Hb & Hr)];
      exists b; auto|]).
  - split; [by intros; eapply next_frame|]. split.
    + intros t ? ?. eapply next_frame; [done..|]. destruct Hbase as [-> | ->]; done.
    + intros t _. apply keeps_chans_next in H. unfold inflight, index_of. by rewrite H.
  - split; [by intros; eapply last_frame|]. split.
    + intros t ? ?. eapply last_frame; [done..|]. destruct Hbase as [-> | ->]; done.
    + intros t _. apply keeps_chans_last in H. unfold inflight, index_of. by rewrite H.
Qed.

Lemma keeps_others_upd q f : q ≠ ch → keeps (others q) (upd_adapter (X:=X) ch f).
Proof.
  intros Hq w u w' (c & Hc & ->)%upd_adapter_inv. unfold others, inflight, index_of. cbn.
  by rewrite lookup_insert_ne.
Qed.
#[local] Hint Extern 1 (keeps (others _) (upd_adapter _ _)) =>
  apply keeps_others_upd; assumption : keeps.
Lemma frames_counts :
  frames (decrease_sqe (X:=X) ch) ∧ frames (decrease_rqe (X:=X) ch).
Proof.
  split; apply frames_keeps.
  - apply quiet_decrease_sqe.
  - intros q Hq. unfold decrease_sqe, count64. solve_keeps.
  - apply quiet_decrease_rqe.
  - intros q Hq. unfold decrease_rqe, count64. solve_keeps.
Qed.
Lemma frames_send p n tag : frames (send_remote (X:=X) ch p n tag).
Proof.
  apply frames_keeps; [apply quiet_send_remote|]. intros q Hq.
  unfold send_remote, security_check, increase_sqe, count64, real_send_, post_send.
  cbv zeta. solve_keeps.
Qed.
Lemma frames_recv p n : frames (recv_remote (X:=X) ch p n).
Proof.
  apply frames_keeps; [apply quiet_recv_remote|]. intros q Hq.
  unfold recv_remote, security_check, increase_rqe, count64, real_recv_. cbv zeta. solve_keeps.
Qed.
Lemma frames_write p n d tag nf : frames (write_remote (X:=X) ch p n d tag nf).
Proof.
  apply frames_keeps; [apply quiet_write_remote|]. intros q Hq.
  unfold write_remote, security_check, increase_sqe, count64, real_write_remote_,
    real_write_remote_with_notify_, post_send. cbv zeta. solve_keeps.
Qed.

(** *** The handlers *)

Context (t : tensors) (idx : Z).
Hypothesis Hts : tensor_buffer_send t !! Z.to_nat (u32 idx) = Some ps.
Hypothesis Htr : tensor_buffer_recv t !! Z.to_nat (u32 idx) = Some pr.

Lemma frames_of_others {A} (m : W X A) :
  keeps w_bufs m → keeps (w_chans (X:=X)) m → frames m.
Proof.
  intros Hb Hc. apply frames_keeps; [done|]. intros q _ w a w' H. apply Hc in H.
  unfold others, inflight, index_of. by rewrite H.
Qed.
Lemma frames_tensor_send {B} (k : Z → W X B) :
  frames (k ps) → frames (tensor (tensor_buffer_send t) (u32 idx) ≫= k).
Proof. unfold tensor. rewrite Hts. intros Hk w a w' Hb H. cbn in H. rewrite bind_ret in H. eauto. Qed.
Lemma frames_tensor_recv {B} (k : Z → W X B) :
  frames (k pr) → frames (tensor (tensor_buffer_recv t) (u32 idx) ≫= k).
Proof. unfold tensor. rewrite Htr. intros Hk w a w' Hb H. cbn in H. rewrite bind_ret in H. eauto. Qed.
Lemma frames_for_each {A} (l : list A) (body : A → W X unit) :
  (∀ a, frames (body a)) → frames (for_each l body).
Proof.
  intros Hb. induction l as [|a l IH]; cbn; [apply frames_ret|]. apply frames_bind; auto.
Qed.

Lemma frames_client_write peers : frames (client_write t peers ch (u32 idx)).
Proof.
  unfold client_write. apply frames_tensor_send. apply frames_bind; [by apply frames_ring; left|].
  intros s. apply frames_bind; [apply frames_of_others; solve_keeps|]. intros b.
  apply frames_bind; [apply frames_of_others; solve_keeps|]. intros peer.
  apply frames_bind; [apply frames_write|]. intros u. apply frames_ret.
Qed.
Lemma frames_post_block : frames (post_block ch pr).
Proof.
  unfold post_block. apply frames_bind; [by apply frames_ring; right|]. intros s.
  apply frames_bind; [apply frames_recv|]. intros u. apply frames_ret.
Qed.
Lemma frames_send_done : frames (tower_send_done t ch (u32 idx)).
Proof.
  unfold tower_send_done. apply frames_bind; [apply frames_counts|]. intros u.
  apply frames_tensor_send. apply frames_bind; [by apply frames_ring; left|]. intros s. apply frames_ret.
Qed.

Lemma frames_client_recv peers wc : frames (client_recv_done t peers ch (u32 idx) wc).
Proof.
  unfold client_recv_done. apply frames_bind; [apply frames_counts|]. intros u.
  apply frames_tensor_recv. apply frames_bind; [by apply frames_ring; right|]. intros s.
  apply frames_bind.
  - destruct (_ =? _); [|by apply frames_never]. unfold client_answer. apply frames_tensor_recv.
    apply frames_bind; [by apply frames_ring; right|]. intros b.
    apply frames_of_others; solve_keeps.
  - intros peers'. apply frames_bind; [apply frames_for_each; intros; apply frames_client_write|].
    intros u'. apply frames_ret.
Qed.
Lemma frames_client_write_done peers : frames (client_write_done t peers ch (u32 idx)).
Proof.
  unfold client_write_done. apply frames_bind; [apply frames_counts|]. intros u.
  apply frames_tensor_send. apply frames_bind; [by apply frames_ring; left|]. intros s.
  apply frames_client_write.
Qed.

Lemma frames_server_answer : frames (server_answer t ch (u32 idx)).
Proof.
  unfold server_answer. apply frames_tensor_send. apply frames_bind; [by apply frames_ring; left|].
  intros s. do 3 (apply frames_bind; [apply frames_of_others; solve_keeps|intros ?]).
  cbv zeta. apply frames_bind.
  { apply frames_of_others; apply keeps_memcpy_in; reflexivity. }
  intros u. apply frames_bind; [apply frames_send|]. intros u'. apply frames_ret.
Qed.
Lemma frames_server_recv wc : frames (server_recv_done t ch (u32 idx) wc).
Proof.
  unfold server_recv_done. apply frames_tensor_recv. apply frames_bind; [by apply frames_ring; right|].
  intros s. apply frames_bind; [apply frames_counts|]. intros u. apply frames_bind.
  - destruct (_ =? _); [apply frames_server_answer|by apply frames_never].
  - intros u'. apply frames_tensor_recv. apply frames_post_block.
Qed.

Lemma client_process_spares each peers wc w peers' w' rs rr rq sq :
  client_process_wc t each peers wc w = Ok peers' w' → wc_wr_id wc = ch →
  tower_state ch idx ps pr w rs rr rq sq → spares w w'.
Proof.
  intros H Hid Hw. pose proof (state_bases _ _ _ _ _ _ Hw) as Hb. unfold client_process_wc in H.
  apply bind_inv in H as (p & w1 & H1 & H). destruct (completion_of_inv _ _ _ _ _ _ _ _ _ _ _ _ _ H1 Hid Hw) as [-> ->].
  destruct (wc_opcode wc).
  - apply bind_inv in H as (? & w2 & H2 & [= _ <-]). by eapply frames_send_done.
  - apply bind_inv in H as (? & w2 & H2 & [= _ <-]). by eapply frames_client_write_done.
  - by apply bind_inv in H as (? & w2 & _ & H).
  - by eapply frames_client_recv.
  - done.
  - by apply bind_inv in H as (? & w2 & _ & H).
Qed.
Lemma server_process_spares each wc w u w' rs rr rq sq :
  server_process_wc t each wc w = Ok u w' → wc_wr_id wc = ch →
  tower_state ch idx ps pr w rs rr rq sq → spares w w'.
Proof.
  intros H Hid Hw. pose proof (state_bases _ _ _ _ _ _ Hw) as Hb. unfold server_process_wc in H.
  apply bind_inv in H as (p & w1 & H1 & H). destruct (completion_of_inv _ _ _ _ _ _ _ _ _ _ _ _ _ H1 Hid Hw) as [-> ->].
  destruct (wc_opcode wc).
  - by eapply frames_send_done.
  - by apply bind_inv in H as (? & w2 & _ & H).
  - by apply bind_inv in H as (? & w2 & _ & H).
  - by eapply frames_server_recv.
  - done.
  - by apply bind_inv in H as (? & w2 & _ & H).
Qed.
End spares.

(** ** Lanes in parallel *)

Section parallel.
Context {X : Type} `{!Platform X}.
Implicit Types w : World X.

(** A lane relies on the others to keep its state and spares theirs. *)
Definition state_rely (ch idx ps pr : Z) w w' : Prop :=
  ∀ rs rr rq sq, tower_state ch idx ps pr w rs rr rq sq → tower_state ch idx ps pr w' rs rr rq sq.
Definition lane_rely (l : lane) : World X → World X → Prop :=
  state_rely (lane_channel l) (lane_index l) (lane_send l) (lane_recv l).
Definition lane_guarantee (l : lane) : World X → World X → Prop :=
  spares (lane_channel l) (lane_send l) (lane_recv l).
#[export] Instance lane_rely_order l : PreOrder (lane_rely l).
Proof.
  split.
  - intros w rs rr rq sq H. exact H.
  - intros w1 w2 w3 H1 H2 rs rr rq sq H. exact (H2 _ _ _ _ (H1 _ _ _ _ H)).
Qed.

Lemma lanes_compatible l l' w w' : apart l l' → lane_guarantee l w w' → lane_rely l' w w'.
Proof.
  intros (H1 & H2 & H3 & H4 & H5) Hg rs rr rq sq. eapply spares_state; [exact Hg|..]; congruence.
Qed.

(** The state of a lane once it has handled its completions: the state they
    lead to by themselves. *)
Definition lane_after (l : lane) w (rs rr : ring) (rq sq : Z) : Prop :=
  let s := count is_send (lane_wcs l) in
  let r := count is_recv (lane_wcs l) in
  let k := count is_write (lane_wcs l) in
  if lane_server l then lane_state l w (moved rs r s) (moved rr r r) rq (sq - s + r)
  else lane_state l w (moved rs (127 * r + k) (s + k)) (moved rr r r) (rq - r) (sq - s + 127 * r).

Section loops.
Context (t : tensors) (each ch idx ps pr : Z).
Hypothesis Hts : tensor_buffer_send t !! Z.to_nat (u32 idx) = Some ps.
Hypothesis Htr : tensor_buffer_recv t !! Z.to_nat (u32 idx) = Some pr.

Lemma client_loop_wp peers wcs w rs rr rq sq :
  Forall (λ wc, wc_wr_id wc = ch) wcs → tower_state ch idx ps pr w rs rr rq sq →
  wp (state_rely ch idx ps pr) (spares ch ps pr) (client_loop t each peers wcs)
    (λ _ w', lane_after (mkLane false t each ch idx ps pr peers wcs) w' rs rr rq sq) w.
Proof.
  intros Hall. revert peers w rs rr rq sq.
  induction Hall as [|wc wcs Hid Hall IH]; intros peers w rs rr rq sq Hw.
  - intros w' Hr. apply Hr in Hw. unfold lane_after. cbn [lane_server lane_wcs count].
    rewrite <-(moved_0 rs), <-(moved_0 rr) in Hw. eapply ts_counts; [exact Hw|lia..].
  - intros w1 p w2 Hr H. apply Hr in Hw. split; [by eapply client_process_spares|].
    eapply client_process_wc_step in H; [|exact Hts|exact Htr|exact Hid|exact Hw].
    eapply wp_mono; [|apply (IH p w2 _ _ _ _ H)]. intros ? w3 Hw3.
    unfold lane_after in *. cbn [lane_server lane_wcs count] in *. cbv zeta in Hw3 |- *.
    rewrite !moved_moved in Hw3. eapply ts_counts; [exact Hw3|lia..].
Qed.
Lemma server_loop_wp peers wcs w rs rr rq sq :
  Forall (λ wc, wc_wr_id wc = ch) wcs → tower_state ch idx ps pr w rs rr rq sq →
  wp (state_rely ch idx ps pr) (spares ch ps pr) (server_loop t each wcs)
    (λ _ w', lane_after (mkLane true t each ch idx ps pr peers wcs) w' rs rr rq sq) w.
Proof.
  intros Hall. revert w rs rr rq sq.
  induction Hall as [|wc wcs Hid Hall IH]; intros w rs rr rq sq Hw.
  - intros w' Hr. apply Hr in Hw. unfold lane_after. cbn [lane_server lane_wcs count].
    rewrite <-(moved_0 rs), <-(moved_0 rr) in Hw. eapply ts_counts; [exact Hw|lia..].
  - intros w1 u w2 Hr H. apply Hr in Hw. split; [by eapply server_process_spares|].
    eapply server_process_wc_step in H; [|exact Hts|exact Htr|exact Hid|exact Hw].
    eapply wp_mono; [|apply (IH w2 _ _ _ _ H)]. intros ? w3 Hw3.
    unfold lane_after in *. cbn [lane_server lane_wcs count] in *. cbv zeta in Hw3 |- *.
    rewrite !moved_moved in Hw3. eapply ts_counts; [exact Hw3|lia..].
Qed.
End loops.

Lemma lane_wp l w rs rr rq sq :
  lane_wf l → lane_state l w rs rr rq sq →
  wp (lane_rely l) (lane_guarantee l) (lane_thread l) (λ _ w', lane_after l w' rs rr rq sq) w.
Proof.
  intros (Hts & Htr & Hall) Hw. unfold lane_thread.
  destruct l as [[] t each ch idx ps pr peers wcs]; cbn in Hts, Htr, Hall.
  - by apply server_loop_wp.
  - by apply client_loop_wp.
Qed.

(** Any schedule of lanes that are apart. *)
Lemma lanes_run sched (ls : list lane) w ts w' i l v rs rr rq sq :
  (∀ l, l ∈ ls → lane_wf l ∧ ∃ rs rr rq sq, lane_state l w rs rr rq sq) →
  (∀ i j l l', i ≠ j → ls !! i = Some l → ls !! j = Some l' → apart l l') →
  run_schedule sched (lane_thread <$> ls) w = Ok ts w' →
  ls !! i = Some l → ts !! i = Some (Return v) → lane_state l w rs rr rq sq →
  lane_after l w' rs rr rq sq.
Proof.
  intros Hls Hap H Hi Hv Hw.
  set (R := λ i w w', ∀ l, ls !! i = Some l → lane_rely l w w').
  set (G := λ i w w', ∃ l, ls !! i = Some l ∧ lane_guarantee l w w').
  assert (∀ i, PreOrder (R i)) as Ho.
  { intros j. split; [by intros ? ? _|]. intros w1 w2 w3 H1 H2 l' Hl'. etrans; eauto. }
  refine (schedule_post R G _ (λ j _ w', j = i → lane_after l w' rs rr rq sq) _ _ _ _ _ i v H _ Hv eq_refl).
  - intros a b w1 w2 Hne (la & Ha & Hg) lb Hb. eapply lanes_compatible; [|exact Hg]. by eapply Hap.
  - intros j th Hth. apply list_lookup_fmap_Some in Hth as (l' & -> & Hl').
    destruct (Hls l') as (Hwf & rs' & rr' & rq' & sq' & Hw'); [by eapply list_elem_of_lookup_2|].
    eapply (wp_weaken (lane_rely l') (lane_guarantee l')).
    + intros w1 w2 Hr. by apply Hr.
    + intros w1 w2 Hg. by exists l'.
    + destruct (decide (j = i)) as [->|Hne].
      * simplify_eq. eapply wp_mono; [|by apply (lane_wp l w rs rr rq sq)]. intros x w2 H2 _. exact H2.
      * eapply wp_mono; [|by eapply lane_wp]. intros x w2 _ E. done.
Qed.
End parallel.

(** ** Properties *)

Section lane_properties.
Context {X : Type} `{!Platform X}.
Implicit Types w : World X.

(** C18: the towers of a process do not interfere: in whatever order the threads
    handle completions, when a lane has handled its own, its rings and counters
    are where these completions alone take them.  A client whose send ring has
    [NUM_BLOCK] blocks, that began with one block out and had at most one
    answer among its completions, then has at most [NUM_BLOCK] blocks out and none
    of them twice; with more answers it may not. *)
Theorem lanes_independent sched (ls : list lane) w ts w' :
  (∀ l, l ∈ ls → lane_wf l ∧ ∃ rs rr rq sq, lane_state l w rs rr rq sq) →
  (∀ i j l l', i ≠ j → ls !! i = Some l → ls !! j = Some l' → apart l l') →
  run_schedule sched (lane_thread <$> ls) w = Ok ts w' →
  ∀ i l v rs rr rq sq, ls !! i = Some l → ts !! i = Some (Return v) →
    lane_state l w rs rr rq sq →
    lane_after l w' rs rr rq sq ∧
    (lane_server l = false → handed rs - returned rs = 1 → ring_size rs = NUM_BLOCK →
     count is_recv (lane_wcs l) ≤ 1 →
     ∃ rs' rr' rq' sq', lane_state l w' rs' rr' rq' sq' ∧
       handed rs' - returned rs' ≤ NUM_BLOCK ∧ NoDup (outstanding rs')).
Proof.
  intros Hls Hap H i l v rs rr rq sq Hi Hv Hw.
  pose proof (lanes_run _ _ _ _ _ _ _ _ _ _ _ _ Hls Hap H Hi Hv Hw) as Hafter.
  split; [exact Hafter|]. intros Hk Hone Hsz Hr. unfold lane_after in Hafter. rewrite Hk in Hafter.
  eexists _, _, _, _. split; [exact Hafter|].
  pose proof (count_nonneg is_send (lane_wcs l)). cbn [handed returned moved].
  unfold NUM_BLOCK in *. split; [lia|]. destruct Hw as [(? & _ & _ & _ & _ & _ & _ & _ & Hnd & _) _ _ _ _].
  apply outstanding_NoDup; [done|cbn [moved slots]|]; unfold ring_size in *;
    cbn [moved slots handed returned]; lia.
Qed.
End lane_properties.

(** ** Witnesses *)

(** The client lane of the mesh's witnesses, once it has posted its receives and
    its request, and a server lane on a channel of its own. *)
Definition la_client : lane :=
  mkLane false me_t 500 500 0 10000 20000 me_peers me_wcs.
Definition la_t : tensors := mkTensors [30000] [40000].
Definition la_server : lane :=
  mkLane true la_t 501 501 0 30000 40000 []
    [mkWc 501 IBV_WC_SUCCESS IBV_WC_RECV 1 1 0; mkWc 501 IBV_WC_SUCCESS IBV_WC_SEND 24 0 0].
(** Both channels are loaded and have their fresh rings; then the client posts
    its receives and sends its request, and the server posts its receives. *)
Definition la_w0 : World Sim :=
  me_w0 <| w_bufs ::= λ m, m ∪ (me_ring 30000 (2^28) ∪ me_ring 40000 (2^30)) |>
        <| w_mem ::= mem_write (2^28) (zeros 64) |>
        <| w_chans ::= λ m, match m !! 500 with Some c => <[501 := c]> m | None => m end |>.
Definition la_w : World Sim :=
  state_of ((tower_post_receives me_t [500] ;; client_request me_t 500 ;;
             tower_post_receives la_t [501]) la_w0).

Lemma ring_of_wf bufs p bb r :
  bufs !! p = Some bb → ring_of bb = r → base_buffer_ bb = p → blocks_ bb = ring_size r →
  (0 <? ring_size r) && (ring_size r <? 2^32) && (-1 <=? handed r) && (handed r <=? INT_MAX) &&
  (-1 <=? returned r) && (returned r <=? INT_MAX) = true →
  NoDup (slots r) → p ∉ slots r →
  Forall (λ s, base_buffer_ <$> bufs !! s = Some p) (slots r) →
  ring_wf bufs p r.
Proof.
  intros Hp Hr Hb Hn Hz Hnd Hnot Hs. exists bb. rewrite !andb_true_iff in Hz. split_and!; try done; try lia.
  intros s Hin. rewrite Forall_forall in Hs. specialize (Hs s Hin). cbn in Hs.
  destruct (bufs !! s) as [sb|]; [|done]. injection Hs as Hs. eauto.
Qed.

Ltac ring_computes :=
  eapply ring_of_wf; [vm_compute; reflexivity..| | |];
  apply (bool_decide_unpack _); vm_compute; exact I.
Lemma la_client_state :
  lane_state la_client la_w (moved (fresh_ring 10000) 1 0) (moved (fresh_ring 20000) 128 0) 128 1.
Proof.
  split; [ring_computes|ring_computes|done|vm_compute; reflexivity|vm_compute; reflexivity].
Qed.
Lemma la_server_state :
  lane_state la_server la_w (fresh_ring 30000) (moved (fresh_ring 40000) 128 0) 128 0.
Proof.
  split; [ring_computes|ring_computes|done|vm_compute; reflexivity|vm_compute; reflexivity].
Qed.

(** The two threads alternate. *)
Definition la_run := run_schedule [0; 1; 0; 1; 0]%nat (lane_thread <$> [la_client; la_server]) la_w.

Lemma la_ready l :
  l ∈ [la_client; la_server] → lane_wf l ∧ ∃ rs rr rq sq, lane_state l la_w rs rr rq sq.
Proof.
  intros [->|[->|[]%elem_of_nil]%elem_of_cons]%elem_of_cons; (split;
    [split; [reflexivity|split; [reflexivity|repeat constructor]]|do 4 eexists]);
    [exact la_client_state|exact la_server_state].
Qed.
Lemma la_apart i j l l' :
  i ≠ j → [la_client; la_server] !! i = Some l → [la_client; la_server] !! j = Some l' → apart l l'.
Proof.
  destruct i as [|[|i]], j as [|[|j]]; intros Hne [= <-] [= <-];
    first [by destruct Hne|unfold apart; cbn; lia].
Qed.

Lemma lanes_independent_witness :
  lane_after la_server (state_of la_run) (fresh_ring 30000) (moved (fresh_ring 40000) 128 0) 128 0 ∧
  ∃ rs rr rq sq, lane_state la_client (state_of la_run) rs rr rq sq ∧
    handed rs - returned rs ≤ NUM_BLOCK ∧ NoDup (outstanding rs).
Proof.
  assert (la_run = Ok [Return [me_desc]; Return []] (state_of la_run)) as E
    by (vm_compute; reflexivity).
  pose proof (lanes_independent _ _ _ _ _ la_ready la_apart E) as H. split.
  - exact (proj1 (H 1%nat _ _ _ _ _ _ eq_refl eq_refl la_server_state)).
  - apply (proj2 (H 0%nat _ _ _ _ _ _ eq_refl eq_refl la_client_state));
      [reflexivity|reflexivity|reflexivity|vm_compute; discriminate].
Defined.
