(* ===== verification/Posts.v ===== *)
(** * What the handlers of the mesh post

    The requests each completion handler of the towers of
    example/mesh_comm_service.cc hands to the verbs, read from the log [PostLog]
    keeps of them, and what it does to the memory. *)
From S2P Require Import Prelude Words Types Layout World Sim Ident Device Buffer.
From S2P Require Import Adapter Channel Tcp Endpoint Session ClientServer.
From S2P Require Import Flow Mesh.

(** ** The requests a process has posted

    A posted request is queued; posting moves no data. *)
Class PostLog (X : Type) `{!Platform X} := {
  posted_sends : X → list ibv_send_wr;
  posted_recvs : X → list ibv_recv_wr;
  post_send_logged qp wr x m x' m' :
    ibv_post_send qp wr x m = (0, (x', m')) →
    posted_sends x' = posted_sends x ++ [wr] ∧ posted_recvs x' = posted_recvs x ∧ m' = m;
  post_recv_logged qp wr x m x' m' :
    ibv_post_recv qp wr x m = (0, (x', m')) →
    posted_recvs x' = posted_recvs x ++ [wr] ∧ posted_sends x' = posted_sends x ∧ m' = m;
  poll_logged cq n x m r x' m' :
    ibv_poll_cq cq n x m = (r, (x', m')) →
    posted_sends x' = posted_sends x ∧ posted_recvs x' = posted_recvs x ∧ m' = m
}.
#[export] Instance sim_post_log : PostLog Sim.
Proof.
  refine {| posted_sends x := (sim_sends x).*2; posted_recvs x := (sim_recvs x).*2 |}.
  - intros qp wr x m x' m' H. cbn in H. unfold sim_upd in H. cbn in H.
    destruct (sim_echo x); injection H as <- <-; cbn; by rewrite fmap_app.
  - intros qp wr x m x' m' H. cbn in H. unfold sim_upd in H. cbn in H.
    injection H as <- <-. cbn. by rewrite fmap_app.
  - intros cq n x m r x' m' H. cbn in H. unfold sim_upd in H. cbn in H.
    destruct (sim_completions x); by injection H as _ <- <-.
Defined.

Section posts.
Context {X : Type} `{!Platform X} `{!PostLog X}.
Implicit Types w : World X.

(** The requests of the channel [ch], whose address is their [wr_id]. *)
Definition sends (ch : Z) w : list ibv_send_wr :=
  filter (λ wr, swr_wr_id wr = ch) (posted_sends (w_ext w)).
Definition recvs (ch : Z) w : list ibv_recv_wr :=
  filter (λ wr, rwr_wr_id wr = ch) (posted_recvs (w_ext w)).
(** The run from [w] to [w'] posts nothing of other channels than [ch]. *)
Definition only_of (ch : Z) w w' : Prop :=
  ∀ q, q ≠ ch → sends q w' = sends q w ∧ recvs q w' = recvs q w.
(** It posts these requests of [ch], no others, and moves no data. *)
Definition posts (ch : Z) (ss : list ibv_send_wr) (rs : list ibv_recv_wr) w w' : Prop :=
  sends ch w' = sends ch w ++ ss ∧ recvs ch w' = recvs ch w ++ rs ∧ w_mem w' = w_mem w ∧
  only_of ch w w'.

#[export] Instance only_of_order ch : PreOrder (only_of ch).
Proof.
  split; [done|]. intros w1 w2 w3 H1 H2 q Hq. destruct (H1 q Hq), (H2 q Hq). split; congruence.
Qed.
Lemma posts_app ch ss rs ss' rs' w w1 w2 :
  posts ch ss rs w w1 → posts ch ss' rs' w1 w2 → posts ch (ss ++ ss') (rs ++ rs') w w2.
Proof.
  intros (S1 & R1 & M1 & O1) (S2 & R2 & M2 & O2). unfold posts.
  rewrite S2, R2, M2, S1, R1, M1, !app_assoc. split_and!; try done. by trans w1.
Qed.
Lemma posts_nil ch w w' : w_ext w' = w_ext w → w_mem w' = w_mem w → posts ch [] [] w w'.
Proof.
  intros E1 E2. unfold posts, only_of, sends, recvs. rewrite E1, E2, !app_nil_r. by split_and!.
Qed.
(** One more entry in the logs. *)
Lemma posts_send_logged ch w w' wr :
  posted_sends (w_ext w') = posted_sends (w_ext w) ++ [wr] →
  posted_recvs (w_ext w') = posted_recvs (w_ext w) → w_mem w' = w_mem w → swr_wr_id wr = ch →
  posts ch [wr] [] w w'.
Proof.
  intros Hs Hr Hm Hid. unfold posts, only_of, sends, recvs. rewrite Hs, Hr, Hm, app_nil_r.
  split; [by rewrite filter_app, filter_cons_True, filter_nil|]. split; [done|]. split; [done|].
  intros q Hq. split; [|done]. rewrite filter_app, filter_cons_False, filter_nil by congruence.
  by rewrite app_nil_r.
Qed.
Lemma posts_recv_logged ch w w' wr :
  posted_recvs (w_ext w') = posted_recvs (w_ext w) ++ [wr] →
  posted_sends (w_ext w') = posted_sends (w_ext w) → w_mem w' = w_mem w → rwr_wr_id wr = ch →
  posts ch [] [wr] w w'.
Proof.
  intros Hr Hs Hm Hid. unfold posts, only_of, sends, recvs. rewrite Hs, Hr, Hm, app_nil_r.
  split; [done|]. split; [by rewrite filter_app, filter_cons_True, filter_nil|]. split; [done|].
  intros q Hq. split; [done|]. rewrite filter_app, filter_cons_False, filter_nil by congruence.
  by rewrite app_nil_r.
Qed.
Lemma posts_then ch ss rs w w1 w2 :
  posts ch [] [] w w1 → posts ch ss rs w1 w2 → posts ch ss rs w w2.
Proof. apply (posts_app ch [] []). Qed.
Lemma then_posts ch ss rs w w1 w2 :
  posts ch ss rs w w1 → posts ch [] [] w1 w2 → posts ch ss rs w w2.
Proof. intros H1 H2. generalize (posts_app _ _ _ _ _ _ _ _ H1 H2). by rewrite !app_nil_r. Qed.

(** The platform and the memory, for operations that touch neither. *)
Definition outside w : X * mem := (w_ext w, w_mem w).
Lemma posts_keeps {A} (m : W X A) ch w a w' :
  keeps outside m → m w = Ok a w' → posts ch [] [] w w'.
Proof. intros Hk H. apply Hk in H. injection H as H1 H2. by apply posts_nil. Qed.
Lemma keeps_outside_next q : keeps outside (next (X:=X) q).
Proof. unfold next, slot. cbv zeta. solve_keeps. Qed.
Lemma keeps_outside_last q : keeps outside (last (X:=X) q).
Proof. unfold last, slot. cbv zeta. solve_keeps. Qed.
Lemma keeps_outside_counts ch :
  keeps outside (decrease_sqe (X:=X) ch) ∧ keeps outside (decrease_rqe (X:=X) ch).
Proof. split; unfold decrease_sqe, decrease_rqe, count64; solve_keeps. Qed.

(** *** The operations of a channel *)

Lemma send_posts_one ch p wr b m c w w' :
  send_posted w w' ch p wr b m c → posts ch [wr] [] w w'.
Proof.
  intros (_ & _ & _ & _ & Hid & x & mm & H & ->). apply post_send_logged in H as (Hs & Hr & Hm).
  by apply posts_send_logged.
Qed.
Lemma send_remote_posts_one ch p n tag w r w' b :
  send_remote ch p n tag w = Ok r w' → stables p w = Some (stable b) →
  ∃ m, mr_ b = Some m ∧ u32 n ≤ buffer_size b ∧
    posts ch [send_wr (data_ptr b) (u32 n) (mr_lkey m) (u32 tag) ch] [] w w'.
Proof.
  intros (b' & m & c & x & mm & Hb & Hu & Hc & Hm & Hl & -> & E & ->)%send_remote_inv Hst.
  unfold stables in Hst. rewrite Hb in Hst. injection Hst as E1 E2 E3 _. exists m.
  split; [congruence|]. split; [congruence|]. apply post_send_logged in E as (Hs & Hr & Hmm).
  rewrite <-E1. by apply posts_send_logged.
Qed.
Lemma recv_remote_posts_one ch p n w r w' b :
  recv_remote ch p n w = Ok r w' → stables p w = Some (stable b) →
  u32 n ≤ buffer_size b ∧ ∃ k, posts ch [] [recv_wr (data_ptr b) (u32 n) k ch] w w'.
Proof.
  intros H Hst. unfold recv_remote in H. cbv zeta in H. wstep H as ? w1 H1.
  apply bind_inv in H as (? & w2 & (-> & b1 & Hb & Hu)%security_check_inv & H).
  wstep H as b' w3 H3. same H3 Hb. wstep H as ? w4 H4. apply Z.leb_le in H4.
  apply bind_inv in H as (? & w5 & (c & Hc & ->)%increase_rqe_inv & H).
  wstep H as a w6 H6. unfold real_recv_ in H. wstep H as m w7 H7. wstep H as rc w8 H8.
  wstep H as ? w9 H9. pinv H. apply Z.eqb_eq in H9 as ->.
  unfold stables in Hst. rewrite Hb in Hst. injection Hst as E1 E2 _ _. split; [congruence|]. exists (mr_lkey m).
  rewrite E1 in H8. apply post_recv_logged in H8 as (Hr & Hs & Hm).
  by apply posts_recv_logged.
Qed.
End posts.

(** *** The handlers *)

(** A write of at most the region [d] describes, to its start. *)
Definition write_to (d : CommDescriptor) (wr : ibv_send_wr) : Prop :=
  swr_opcode wr = IBV_WR_RDMA_WRITE ∧ swr_imm_data wr = None ∧
  swr_remote wr = Some (buffer_addr_ d, rkey_ d) ∧
  ∃ s, swr_sg_list wr = [s] ∧ 0 ≤ sge_length s ≤ buffer_length_ d.
(** A message of [n] bytes at [a]; a receive of one block at [a]. *)
Definition message (a n tag : Z) (wr : ibv_send_wr) : Prop :=
  ∃ k id, wr = send_wr a n k tag id.
Definition block_for (a : Z) (wr : ibv_recv_wr) : Prop :=
  ∃ k id, wr = recv_wr a BLOCK_SIZE k id.

Section handlers.
Context {X : Type} `{!Platform X} `{!PostLog X}.
Implicit Types w : World X.
Context (t : tensors) (ch idx ps pr : Z).
Hypothesis Hts : tensor_buffer_send t !! Z.to_nat (u32 idx) = Some ps.
Hypothesis Htr : tensor_buffer_recv t !! Z.to_nat (u32 idx) = Some pr.

Lemma keeps_stables_bufs {A} (m : W X A) q : keeps w_bufs m → keeps (stables q) m.
Proof. intros Hm w a w' H. unfold stables. by rewrite (Hm _ _ _ H). Qed.
Lemma keeps_stables_ops q :
  keeps (stables q) (decrease_sqe (X:=X) ch) ∧ keeps (stables q) (decrease_rqe (X:=X) ch) ∧
  (∀ p n tag, keeps (stables q) (send_remote (X:=X) ch p n tag)) ∧
  (∀ p n, keeps (stables q) (recv_remote (X:=X) ch p n)) ∧
  (∀ p n d tag nf, keeps (stables q) (write_remote (X:=X) ch p n d tag nf)).
Proof.
  split_and!; intros; apply keeps_stables_bufs.
  - apply quiet_decrease_sqe.
  - apply quiet_decrease_rqe.
  - apply quiet_send_remote.
  - apply quiet_recv_remote.
  - apply quiet_write_remote.
Qed.

Lemma client_write_posts peers w u w' d :
  peers !! Z.to_nat (u32 idx) = Some d → client_write t peers ch (u32 idx) w = Ok u w' →
  ∃ wr, write_to d wr ∧ posts ch [wr] [] w w'.
Proof.
  intros Hd H. destruct (client_write_target _ _ _ _ _ _ _ _ _ Hts Hd H)
    as (s & w1 & wr & b & m & c & H1 & Hp & [= Ho Hi] & Hr & Hl & Hle).
  exists wr. split.
  - pose proof Hp as (_ & _ & _ & (g & Hg & _) & _). split; [done|]. split; [done|].
    split; [done|]. exists g. split; [done|]. rewrite Hg in Hl. injection Hl as ->.
    pose proof (u32_range (buffer_size b)). lia.
  - eapply posts_then; [by eapply (posts_keeps _ _ _ _ _ (keeps_outside_next _) H1)|].
    by eapply send_posts_one.
Qed.
Lemma client_write_defined peers w u w' :
  client_write t peers ch (u32 idx) w = Ok u w' → is_Some (peers !! Z.to_nat (u32 idx)).
Proof.
  intros H. unfold client_write in H. apply bind_inv in H as (s & w1 & _ & H).
  apply bind_inv in H as (s' & w2 & _ & H). apply bind_inv in H as (b & w3 & _ & H).
  wstep H as d w4 H4. eauto.
Qed.
Lemma keeps_stables_write peers q : keeps (stables q) (client_write (X:=X) t peers ch (u32 idx)).
Proof.
  destruct (keeps_stables_ops q) as (_ & _ & _ & _ & Hw). pose proof (keeps_stables_next (X:=X) q).
  unfold client_write, tensor. solve_keeps.
Qed.
Lemma client_writes_post peers (l : list Z) w u w' d :
  peers !! Z.to_nat (u32 idx) = Some d →
  for_each l (λ _, client_write t peers ch (u32 idx)) w = Ok u w' →
  ∃ new, length new = length l ∧ Forall (write_to d) new ∧ posts ch new [] w w'.
Proof.
  intros Hd. revert w. induction l as [|x l IH]; intros w H; cbn [for_each] in H.
  - pinv H. exists []. split; [done|]. split; [constructor|]. by apply posts_nil.
  - apply bind_inv in H as (? & w1 & H1 & H).
    destruct (client_write_posts _ _ _ _ _ Hd H1) as (wr & Hwr & P1).
    destruct (IH _ H) as (new & Hl & Hall & P2). exists (wr :: new). split; [cbn; lia|].
    split; [by constructor|]. exact (posts_app _ _ _ _ _ _ _ _ P1 P2).
Qed.

Lemma send_done_posts w u w' :
  tower_send_done t ch (u32 idx) w = Ok u w' →
  posts ch [] [] w w' ∧ ∀ q, stables q w' = stables q w.
Proof.
  intros H. split.
  - eapply (posts_keeps (tower_send_done t ch (u32 idx))); [|exact H].
    destruct (keeps_outside_counts (X:=X) ch). pose proof (keeps_outside_last (X:=X)).
    unfold tower_send_done, tensor. solve_keeps.
  - intros q. apply (λ Hk : keeps (stables q) (tower_send_done t ch (u32 idx)), Hk _ _ _ H).
    destruct (keeps_stables_ops q) as (? & _). pose proof (keeps_stables_last (X:=X) q).
    unfold tower_send_done, tensor. solve_keeps.
Qed.
Lemma client_answer_posts peers w peers' w' :
  client_answer t peers (u32 idx) w = Ok peers' w' →
  posts ch [] [] w w' ∧ (∀ q, stables q w' = stables q w) ∧
  is_Some (peers' !! Z.to_nat (u32 idx)).
Proof.
  intros H. split; [|split].
  - eapply (posts_keeps (client_answer t peers (u32 idx))); [|exact H].
    pose proof (keeps_outside_next (X:=X)). unfold client_answer, tensor. solve_keeps.
  - intros q. apply (λ Hk : keeps (stables q) (client_answer t peers (u32 idx)), Hk _ _ _ H).
    pose proof (keeps_stables_next (X:=X) q). unfold client_answer, tensor. solve_keeps.
  - unfold client_answer in H. apply bind_inv in H as (? & w1 & _ & H).
    apply bind_inv in H as (? & w2 & _ & H). apply bind_inv in H as (? & w3 & _ & H).
    apply bind_inv in H as (? & w4 & _ & H). wstep H as ? w5 H5. pinv H.
    apply Z.ltb_lt in H5. pose proof (u32_range idx). eexists. apply list_lookup_insert_eq. lia.
Qed.

Lemma client_recv_posts peers wc w peers' w' :
  client_recv_done t peers ch (u32 idx) wc w = Ok peers' w' →
  (∀ q, stables q w' = stables q w) ∧
  ∃ d new, peers' !! Z.to_nat (u32 idx) = Some d ∧ Z.of_nat (length new) = 127 ∧
    Forall (write_to d) new ∧ posts ch new [] w w'.
Proof.
  intros H. split.
  - intros q. apply (λ Hk : keeps (stables q) (client_recv_done t peers ch (u32 idx) wc), Hk _ _ _ H).
    destruct (keeps_stables_ops q) as (_ & ? & _).
    pose proof (keeps_stables_last (X:=X) q). pose proof (keeps_stables_next (X:=X) q).
    pose proof (λ peers, keeps_stables_write peers q).
    unfold client_recv_done, client_answer, tensor. solve_keeps.
  - unfold client_recv_done, tensor in H. rewrite Htr in H.
    apply bind_inv in H as (? & w1 & H1 & H). cbn [must] in H. rewrite bind_ret in H.
    apply bind_inv in H as (? & w2 & H2 & H). apply bind_inv in H as (p1 & w3 & H3 & H).
    destruct (_ =? _); [|done]. apply client_answer_posts in H3 as (P3 & _ & d & Hd).
    apply bind_inv in H as (? & w4 & H4 & H). pinv H.
    destruct (client_writes_post _ _ _ _ _ _ Hd H4) as (new & Hl & Hall & P4).
    exists d, new. split; [exact Hd|]. split; [rewrite Hl, length_seqZ; done|]. split; [done|].
    eapply posts_then; [eapply (posts_keeps _ _ _ _ _ (proj2 (keeps_outside_counts ch)) H1)|].
    eapply posts_then; [eapply (posts_keeps _ _ _ _ _ (keeps_outside_last _) H2)|].
    by eapply posts_then.
Qed.

(** What handling one completion of the client posts: a write for a write that
    is done, and 127 for the answer. *)
Lemma client_process_posts each peers wc w peers' w' rs rr rq sq :
  client_process_wc t each peers wc w = Ok peers' w' → wc_wr_id wc = ch →
  tower_state ch idx ps pr w rs rr rq sq →
  (∀ q, stables q w' = stables q w) ∧
  Z.b2z (is_send wc) + Z.b2z (is_recv wc) + Z.b2z (is_write wc) = 1 ∧
  (if is_recv wc then client_recv_done t peers ch (u32 idx) wc w = Ok peers' w' else peers' = peers) ∧
  ∃ new, posts ch new [] w w' ∧
    Z.of_nat (length new) = 127 * Z.b2z (is_recv wc) + Z.b2z (is_write wc) ∧
    (∀ d, peers' !! Z.to_nat (u32 idx) = Some d → Forall (write_to d) new).
Proof.
  intros H Hid Hw. unfold client_process_wc in H. apply bind_inv in H as (p & w1 & H1 & H).
  destruct (completion_of_inv _ _ _ _ _ _ _ _ _ _ _ _ _ H1 Hid Hw) as [-> ->].
  unfold is_send, is_recv, is_write. destruct (wc_opcode wc); cbn [Z.b2z].
  - apply bind_inv in H as (? & w2 & H2 & H). pinv H. apply send_done_posts in H2 as [P2 S2].
    split; [done|]. split; [done|]. split; [done|]. exists []. by split_and!.
  - apply bind_inv in H as (? & w2 & H2 & H). pinv H.
    unfold client_write_done, tensor in H2. rewrite Hts in H2.
    apply bind_inv in H2 as (? & w3 & H3 & H2). cbn [must] in H2. rewrite bind_ret in H2.
    apply bind_inv in H2 as (? & w4 & H4 & H2). destruct (client_write_defined _ _ _ _ H2) as [d Hd].
    destruct (client_write_posts _ _ _ _ _ Hd H2) as (wr & Hwr & P2). split; [|split; [done|split; [done|]]].
    + intros q. apply (keeps_stables_write _ q) in H2. apply (keeps_stables_last q) in H4.
      destruct (keeps_stables_ops q) as (K & _). apply K in H3. congruence.
    + exists [wr]. split; [|split; [done|]].
      * eapply posts_then; [eapply (posts_keeps _ _ _ _ _ (proj1 (keeps_outside_counts ch)) H3)|].
        eapply posts_then; [eapply (posts_keeps _ _ _ _ _ (keeps_outside_last _) H4)|done].
      * intros d' Hd'. rewrite Hd in Hd'. injection Hd' as <-. by constructor; [|constructor].
  - by apply bind_inv in H as (? & w2 & _ & H).
  - destruct (client_recv_posts _ _ _ _ _ H) as (Hst & d & new & Hd & Hl & Hall & P).
    split; [done|]. split; [done|]. split; [done|]. exists new. split; [done|]. split; [lia|].
    intros d' Hd'. rewrite Hd in Hd'. by injection Hd' as <-.
  - done.
  - by apply bind_inv in H as (? & w2 & _ & H).
Qed.

Lemma post_block_posts w u w' rr :
  post_block ch pr w = Ok u w' → ring_wf (w_bufs w) pr rr →
  ring_wf (w_bufs w') pr (ring_next rr).2 ∧ (∀ q, stables q w' = stables q w) ∧
  ∃ s b rw, (ring_next rr).1 = Some s ∧ stables s w = Some (stable b) ∧
    BLOCK_SIZE ≤ buffer_size b ∧ block_for (data_ptr b) rw ∧ posts ch [] [rw] w w'.
Proof.
  intros H Hwf. unfold post_block in H. apply bind_inv in H as (s & w1 & H1 & H).
  apply bind_inv in H as (? & w2 & H2 & H). pinv H.
  destruct (next_step _ _ _ _ _ Hwf H1) as (Hs & Hwf1 & _ & _).
  pose proof (quiet_recv_remote (X:=X) ch s BLOCK_SIZE) as [Hq _]. apply Hq in H2 as Hb.
  split; [by rewrite Hb|]. split.
  - intros q. apply (keeps_stables_next q) in H1. apply (keeps_stables_bufs _ q Hq) in H2. congruence.
  - assert (∃ b, w_bufs w1 !! s = Some b) as [b Hsb].
    { unfold recv_remote in H2. cbv zeta in H2. wstep H2 as ? w3 H3.
      apply bind_inv in H2 as (? & w4 & (-> & b & Hsb & _)%security_check_inv & _). by exists b. }
    assert (stables s w1 = Some (stable b)) as Hst by (unfold stables; by rewrite Hsb).
    destruct (recv_remote_posts_one _ _ _ _ _ _ _ H2 Hst) as (Hle & k & P).
    exists s, b, (recv_wr (data_ptr b) (u32 BLOCK_SIZE) k ch). split; [done|].
    split; [apply (keeps_stables_next s) in H1; congruence|]. split; [exact Hle|].
    split; [by exists k, ch|].
    eapply posts_then; [eapply (posts_keeps _ _ _ _ _ (keeps_outside_next _) H1)|done].
Qed.
(** The address of a block of a ring, with room for [n] bytes. *)
Definition block_of (r : ring) w (n a : Z) : Prop :=
  ∃ s b, s ∈ slots r ∧ stables s w = Some (stable b) ∧ n ≤ buffer_size b ∧ a = data_ptr b.
Lemma ring_slot_elem r i s : ring_slot r i = Some s → s ∈ slots r.
Proof. apply list_elem_of_lookup_2. Qed.

(** The blocks of the receives follow the ring. *)
Lemma post_blocks_post (l : list Z) w u w' rr :
  for_each l (λ _, post_block ch pr) w = Ok u w' → ring_wf (w_bufs w) pr rr →
  (∀ q, stables q w' = stables q w) ∧
  ∃ new, length new = length l ∧ posts ch [] new w w' ∧
    ∀ i rw, new !! i = Some rw → ∃ s b, ring_slot rr (handed rr + 1 + Z.of_nat i) = Some s ∧
      stables s w = Some (stable b) ∧ BLOCK_SIZE ≤ buffer_size b ∧ block_for (data_ptr b) rw.
Proof.
  revert w rr. induction l as [|x l IH]; intros w rr H Hwf; cbn [for_each] in H.
  - pinv H. split; [done|]. exists []. split; [done|]. split; [by apply posts_nil|done].
  - apply bind_inv in H as (? & w1 & H1 & H).
    destruct (post_block_posts _ _ _ _ H1 Hwf) as (Hwf1 & S1 & s & b & rw & Hs & Hb & Hle & Hrw & P1).
    destruct (IH _ _ H Hwf1) as (S2 & new & Hl & P2 & Hall).
    split; [intros q; by rewrite S2|]. exists (rw :: new). split; [cbn; lia|].
    split; [exact (posts_app _ _ _ _ _ _ _ _ P1 P2)|]. intros [|i] rw' Hi; cbn in Hi.
    + injection Hi as <-. exists s, b. rewrite Z.add_0_r. done.
    + destruct (Hall _ _ Hi) as (s' & b' & Hs' & Hb' & Hrw'). exists s', b'.
      rewrite <-(S1 s'). split; [|done]. rewrite <-Hs'. cbn. f_equal. lia.
Qed.

Lemma server_answer_posts w u w' rs sb :
  server_answer t ch (u32 idx) w = Ok u w' → ring_wf (w_bufs w) ps rs →
  stables ps w = Some (stable sb) →
  (∀ q, stables q w' = stables q w) ∧
  ∃ m a wr, mr_ sb = Some m ∧ block_of rs w 24 a ∧ message a 24 2 wr ∧
    sends ch w' = sends ch w ++ [wr] ∧ recvs ch w' = recvs ch w ∧
    mem_read a 24 (w_mem w') = Some (encode_CommDescriptor
      (mkCommDescriptor (data_ptr sb) (buffer_size sb) (mr_rkey m) 0)) ∧
    (∀ x, ¬ (a ≤ x < a + 24) → w_mem w' !! x = w_mem w !! x) ∧ only_of ch w w'.
Proof.
  intros H Hwf Hsb. split.
  - intros q. apply (λ Hk : keeps (stables q) (server_answer t ch (u32 idx)), Hk _ _ _ H).
    destruct (keeps_stables_ops q) as (_ & _ & ? & _). pose proof (keeps_stables_next (X:=X) q).
    pose proof (λ a bs n, keeps_memcpy_in (X:=X) (stables q) a bs n (λ _ _, eq_refl)).
    unfold server_answer, tensor. cbv zeta. solve_keeps.
  - destruct (w_bufs w !! ps) as [sb'|] eqn:Hps; [|by unfold stables in Hsb; rewrite Hps in Hsb].
    unfold stables in Hsb. rewrite Hps in Hsb. injection Hsb as <- <- <- _.
    destruct (server_answer_sends _ _ _ _ _ _ _ _ _ Hts Hwf Hps H)
      as (s & w1 & b & m & Hn & Hslot & _ & Hst & Hm & Hs). cbv zeta in Hs.
    destruct (send_remote_posts_one _ _ _ _ _ _ _ b Hs Hst) as (lm & _ & Hle & Ps & Pr & Pm & Po).
    destruct (posts_keeps _ ch _ _ _ (keeps_outside_next _) Hn) as (Ns & Nr & Nm & No).
    apply (keeps_stables_next s) in Hn. rewrite Hst in Hn. rewrite !app_nil_r in *.
    exists m, (data_ptr b), (send_wr (data_ptr b) (u32 24) (mr_lkey lm) (u32 2) ch).
    split; [done|]. split; [exists s, b; split_and!; [exact (ring_slot_elem _ _ _ Hslot)|done|exact Hle|done]|].
    split; [by exists (mr_lkey lm), ch|]. split; [rewrite Ps, <-Ns; done|].
    split; [rewrite Pr, <-Nr; done|]. rewrite Pm. change 24%nat with sizeof_CommDescriptor.
    split; [match goal with |- context [encode_CommDescriptor ?d] =>
      rewrite <-(encode_CommDescriptor_length d) end; apply mem_read_write|].
    split; [|by trans w1; [|exact Po]]. intros x Hx. rewrite <-Nm. apply mem_write_frame.
    by rewrite encode_CommDescriptor_length.
Qed.

(** The server answers a request with one send of the description of its send
    buffer, and posts one receive. *)
Lemma server_process_posts each wc w u w' rs rr rq sq sb :
  server_process_wc t each wc w = Ok u w' → wc_wr_id wc = ch →
  tower_state ch idx ps pr w rs rr rq sq → stables ps w = Some (stable sb) →
  (∀ q, stables q w' = stables q w) ∧
  Z.b2z (is_send wc) + Z.b2z (is_recv wc) = 1 ∧
  (is_send wc = true → posts ch [] [] w w') ∧
  (is_recv wc = true → ∃ m a wr a' rw, mr_ sb = Some m ∧
     block_of rs w 24 a ∧ message a 24 2 wr ∧ block_of rr w BLOCK_SIZE a' ∧ block_for a' rw ∧
     sends ch w' = sends ch w ++ [wr] ∧ recvs ch w' = recvs ch w ++ [rw] ∧
     mem_read a 24 (w_mem w') = Some (encode_CommDescriptor
       (mkCommDescriptor (data_ptr sb) (buffer_size sb) (mr_rkey m) 0)) ∧
     (∀ x, ¬ (a ≤ x < a + 24) → w_mem w' !! x = w_mem w !! x) ∧ only_of ch w w').
Proof.
  intros H Hid Hw Hsb. unfold server_process_wc in H. apply bind_inv in H as (p & w1 & H1 & H).
  destruct (completion_of_inv _ _ _ _ _ _ _ _ _ _ _ _ _ H1 Hid Hw) as [-> ->].
  unfold is_send, is_recv. destruct (wc_opcode wc); cbn [Z.b2z].
  - apply send_done_posts in H as [P S]. by split_and!.
  - by apply bind_inv in H as (? & w2 & _ & H).
  - by apply bind_inv in H as (? & w2 & _ & H).
  - unfold server_recv_done, tensor in H. rewrite Htr in H. cbn [must] in H. rewrite bind_ret in H.
    apply bind_inv in H as (? & w2 & H2 & H). apply (ts_last_recv _ _ _ _ _ _ _ _ _ _ _ H2) in Hw.
    apply bind_inv in H as (? & w3 & H3 & H).
    apply (ts_decrease_rqe _ _ _ _ _ _ _ _ _ _ _ H3) in Hw.
    apply bind_inv in H as (? & w4 & H4 & H). destruct (_ =? _); [|done]. rewrite bind_ret in H.
    assert (stables ps w3 = Some (stable sb)) as Hsb3.
    { destruct (keeps_stables_ops ps) as (_ & K & _). apply K in H3. apply (keeps_stables_last ps) in H2.
      congruence. }
    destruct (server_answer_posts _ _ _ _ _ H4 (ts_send _ _ _ _ _ _ _ _ _ Hw) Hsb3)
      as (S4 & m & a & wr & Hm & Ha & Hwr & Ps & Pr & Pm & Px & Po).
    eapply server_answer_step in H4 as Hw4; [|exact Hts|exact Hw].
    destruct (post_block_posts _ _ _ _ H (ts_recv _ _ _ _ _ _ _ _ _ Hw4))
      as (_ & S5 & s & b & rw & Hslot & Hb & Hle & Hrw & Qs & Qr & Qm & Qo).
    destruct (posts_then ch [] [] w w2 w3 (posts_keeps _ ch _ _ _ (keeps_outside_last _) H2)
      (posts_keeps _ ch _ _ _ (proj2 (keeps_outside_counts ch)) H3)) as (Ns & Nr & Nm & No).
    assert (∀ q, stables q w3 = stables q w) as S3.
    { intros q. destruct (keeps_stables_ops q) as (_ & K & _). apply K in H3.
      apply (keeps_stables_last q) in H2. congruence. }
    rewrite !app_nil_r in *. split; [|split; [done|split; [done|]]].
    + intros q. by rewrite S5, S4.
    + intros _. exists m, a, wr, (data_ptr b), rw.
      rewrite Qs, Qr, Qm, Ps, Pr, Ns, Nr. rewrite Nm in Px. split_and!; try done.
      * destruct Ha as (s0 & b0 & ? & ? & ?). exists s0, b0. by rewrite <-S3.
      * exists s, b. rewrite <-S3, <-S4. split_and!; [exact (ring_slot_elem _ _ _ Hslot)|done|exact Hle|done].
      * trans w3; [done|]. by trans w4.
  - done.
  - by apply bind_inv in H as (? & w2 & _ & H).
Qed.

Lemma client_request_posts w u w' :
  client_request t ch w = Ok u w' →
  (∀ q, stables q w' = stables q w) ∧ ∃ a wr, message a 1 1 wr ∧ posts ch [wr] [] w w'.
Proof.
  intros H. split.
  - intros q. apply (λ Hk : keeps (stables q) (client_request t ch), Hk _ _ _ H).
    destruct (keeps_stables_ops q) as (_ & _ & ? & _). pose proof (keeps_stables_next (X:=X) q).
    unfold client_request, get_index_in_session, tensor. solve_keeps.
  - unfold client_request, get_index_in_session in H. apply bind_inv in H as (i & w1 & H1 & H).
    wstep H1 as a w2 H2. pinv H1. apply bind_inv in H as (p & w3 & H3 & H).
    apply must_inv in H3 as [_ ->]. apply bind_inv in H as (s & w4 & H4 & H).
    apply bind_inv in H as (r & w5 & H5 & H). pinv H.
    destruct (send_remote_inv _ _ _ _ _ _ _ H5) as (b & _ & _ & _ & _ & Hb & _).
    destruct (send_remote_posts_one _ _ _ _ _ _ _ b H5 ltac:(unfold stables; by rewrite Hb))
      as (m & _ & _ & P).
    exists (data_ptr b). eexists. split; [by eexists _, _|].
    eapply posts_then; [eapply (posts_keeps _ _ _ _ _ (keeps_outside_next _) H4)|exact P].
Qed.
End handlers.
