(* ===== verification/Pair.v ===== *)
(** * A client and a server of the mesh, joined

    One channel of a client tower and the channel of a server tower it is
    connected to (example/mesh_comm_service.cc), each in a process of its own.
    The handlers are those of Mesh; between them stands a link that carries out
    the requests they post, in order, and reports their completions. *)
From S2P Require Import Prelude Words Types Layout World Sim Ident Device Buffer.
From S2P Require Import Adapter Channel Tcp Endpoint Session ClientServer.
From S2P Require Import Flow Mesh Posts.

(** ** The link *)

Section link.
Context {X : Type} `{!Platform X} `{!PostLog X}.
Implicit Types w : World X.

(** One end of a connection: its process, how many of the requests and of the
    receives it has posted the link has used, and the completions it has
    reported and the process has not handled yet. *)
Record side := mkSide {
  channel : Z;
  world : World X;
  executed : nat;
  consumed : nat;
  arrived : list ibv_wc
}.
#[export] Instance eta_side : Eta side :=
  λ a, mkSide (channel a) (world a) (executed a) (consumed a) (arrived a).

(** What a request carries; memory that was never written carries anything. *)
Definition carried (m : mem) (wr : ibv_send_wr) (bs : list Z) : Prop :=
  ∃ s, swr_sg_list wr = [s] ∧ Z.of_nat (length bs) = sge_length s ∧
    ∀ bs', mem_read (sge_addr s) (length bs) m = Some bs' → bs = bs'.
Definition reported (op : ibv_wc_opcode) (wr : ibv_send_wr) (n : Z) : ibv_wc :=
  mkWc (swr_wr_id wr) IBV_WC_SUCCESS op n 0 0.
Definition received (rw : ibv_recv_wr) (n imm : Z) : ibv_wc :=
  mkWc (rwr_wr_id rw) IBV_WC_SUCCESS IBV_WC_RECV n imm IBV_WC_WITH_IMM.
Definition report (wc : ibv_wc) (a : side) : side := a <| arrived ::= λ l, l ++ [wc] |>.
Definition store (addr : Z) (bs : list Z) (a : side) : side :=
  a <| world ::= λ w, w <| w_mem ::= mem_write addr bs |> |>.

(** The next request of [a] is carried out: a send takes the oldest receive of
    [b] that is left, with room for the message; a write goes where it says. *)
Inductive carry (a b : side) : side → side → Prop :=
  | carry_send wr rw r imm bs :
      sends (channel a) (world a) !! executed a = Some wr →
      swr_opcode wr = IBV_WR_SEND_WITH_IMM → swr_imm_data wr = Some imm →
      carried (w_mem (world a)) wr bs →
      recvs (channel b) (world b) !! consumed b = Some rw →
      rwr_sg_list rw = [r] → Z.of_nat (length bs) ≤ sge_length r →
      carry a b
        (report (reported IBV_WC_SEND wr (Z.of_nat (length bs))) (a <| executed ::= S |>))
        (report (received rw (Z.of_nat (length bs)) imm)
          (store (sge_addr r) bs (b <| consumed ::= S |>)))
  | carry_write wr addr key bs :
      sends (channel a) (world a) !! executed a = Some wr →
      swr_opcode wr = IBV_WR_RDMA_WRITE → swr_remote wr = Some (addr, key) →
      carried (w_mem (world a)) wr bs →
      carry a b
        (report (reported IBV_WC_RDMA_WRITE wr (Z.of_nat (length bs))) (a <| executed ::= S |>))
        (store addr bs b).

(** A reliable connection: it does no more than that, and does not stop while it
    can. *)
Class ReliableLink (transfer : side → side → side → side → Prop) : Prop := {
  transfer_carries a b a' b' : transfer a b a' b' → carry a b a' b';
  transfer_goes_on a b a' b' : carry a b a' b' → ∃ a'' b'', transfer a b a'' b''
}.

(** *** The two ends *)

Record pair := mkPair {
  client : side;
  server : side;
  peer_comm_fd_mgr : list CommDescriptor
}.

Context (transfer : side → side → side → side → Prop) (tc ts : tensors).

Inductive step (p : pair) : pair → Prop :=
  | step_to_server c s :
      transfer (client p) (server p) c s → step p (mkPair c s (peer_comm_fd_mgr p))
  | step_to_client c s :
      transfer (server p) (client p) s c → step p (mkPair c s (peer_comm_fd_mgr p))
  | step_client wc wcs peers w :
      arrived (client p) = wc :: wcs →
      client_process_wc tc (channel (client p)) (peer_comm_fd_mgr p) wc (world (client p)) = Ok peers w →
      step p (mkPair (client p <| world := w |> <| arrived := wcs |>) (server p) peers)
  | step_server wc wcs u w :
      arrived (server p) = wc :: wcs →
      server_process_wc ts (channel (server p)) wc (world (server p)) = Ok u w →
      step p (mkPair (client p) (server p <| world := w |> <| arrived := wcs |>) (peer_comm_fd_mgr p)).
End link.
Arguments side X : clear implicits.
Arguments pair X : clear implicits.

(** All of the [n] bytes at [a] are in the region [R]. *)
Definition within (R : Z → Prop) (a n : Z) : Prop := ∀ x, a ≤ x < a + n → R x.

(** A completion an end can expect: a success, a write at the client only, and if
    a message, the one the other end sends. *)
Definition expected (imm : Z) (writes : bool) (wc : ibv_wc) : Prop :=
  wc_status wc = IBV_WC_SUCCESS ∧ is_send wc || is_recv wc || (writes && is_write wc) = true ∧
  (is_recv wc = true → wc_imm_data wc = imm).

(** ** The invariant of the pair *)

Section joined.
Context {X : Type} `{!Platform X} `{!PostLog X}.
Implicit Types w : World X.

(** The client's tower: its tables, channel, index, rings and the rings' states
    after start-up; then the server's. *)
Context (tc : tensors) (cch cidx cps cpr : Z) (rs0 rr0 : ring) (rc0 : list ibv_recv_wr).
Context (ts : tensors) (sch sidx sps spr : Z) (rs1 rr1 : ring).
(** The client's oldest posted block, the server's send buffer and what describes
    it; the table of peers at the start. *)
Context (b0 : Z) (blk sb : RDMABuffer) (d : CommDescriptor) (peers0 : list CommDescriptor).
(** The part of the server's memory that is this connection's. *)
Context (R : Z → Prop).

(** The client has handled [hs] sends, [hr] answers and [hk] writes, the server
    [gs] sends and [gr] requests: how these relate to what the link has done and
    to the completions on their way. *)
Definition balanced (hs hr hk gs gr : Z) (c s : side X) : Prop :=
  0 ≤ hs ∧ 0 ≤ hr ∧ 0 ≤ hk ∧ 0 ≤ gs ∧ 0 ≤ gr ∧ (0 < hk → 1 ≤ hr) ∧
  hs + count is_send (arrived c) = Z.min 1 (Z.of_nat (executed c)) ∧
  hk + count is_write (arrived c) = Z.of_nat (executed c) - Z.min 1 (Z.of_nat (executed c)) ∧
  hr + count is_recv (arrived c) = Z.of_nat (consumed c) ∧
  consumed c = executed s ∧
  Z.of_nat (consumed s) = Z.min 1 (Z.of_nat (executed c)) ∧
  gs + count is_send (arrived s) = Z.of_nat (executed s) ∧
  gr + count is_recv (arrived s) = Z.of_nat (consumed s) ∧
  Z.of_nat (executed c) ≤ 1 + 127 * hr + hk ∧ Z.of_nat (executed s) ≤ gr.

Record client_inv (hs hr hk : Z) (c : side X) : Prop := {
  ci_channel : channel c = cch;
  ci_tower : tower_state cch cidx cps cpr (world c) (moved rs0 (127 * hr + hk) (hs + hk))
    (moved rr0 hr hr) (128 - hr) (1 - hs + 127 * hr);
  ci_sends : ∃ req new a, sends cch (world c) = req :: new ∧ message a 1 1 req ∧
    Z.of_nat (length new) = 127 * hr + hk ∧ Forall (write_to d) new;
  ci_recvs : recvs cch (world c) = rc0;
  ci_ids : Forall (λ wc, wc_wr_id wc = cch) (arrived c);
  ci_kinds : Forall (expected 2 true) (arrived c);
  ci_block : stables b0 (world c) = Some (stable blk);
  ci_answer : 1 ≤ count is_recv (arrived c) →
    mem_read (data_ptr blk) 24 (w_mem (world c)) = Some (encode_CommDescriptor d)
}.
Record server_inv (gs gr : Z) (s : side X) : Prop := {
  si_channel : channel s = sch;
  si_tower : tower_state sch sidx sps spr (world s) (moved rs1 gr gs) (moved rr1 gr gr)
    128 (gr - gs);
  si_sends : Z.of_nat (length (sends sch (world s))) = gr ∧
    Forall (λ wr, ∃ a, message a 24 2 wr) (sends sch (world s));
  si_recvs : Z.of_nat (length (recvs sch (world s))) = 128 + gr ∧
    Forall (λ rw, ∃ a, block_for a rw ∧ within R a BLOCK_SIZE) (recvs sch (world s));
  si_ids : Forall (λ wc, wc_wr_id wc = sch) (arrived s);
  si_kinds : Forall (expected 1 false) (arrived s);
  si_buffer : stables sps (world s) = Some (stable sb);
  si_blocks q b : q ∈ slots rs1 ++ slots rr1 → stables q (world s) = Some (stable b) →
    within R (data_ptr b) (buffer_size b);
  si_answer wr : executed s = 0%nat → sends sch (world s) !! 0%nat = Some wr →
    ∃ a, message a 24 2 wr ∧ within R a 24 ∧
      mem_read a 24 (w_mem (world s)) = Some (encode_CommDescriptor d)
}.
Definition joined (p : pair X) : Prop :=
  ∃ hs hr hk gs gr, balanced hs hr hk gs gr (client p) (server p) ∧
    client_inv hs hr hk (client p) ∧ server_inv gs gr (server p) ∧
    (if decide (hr = 0) then peer_comm_fd_mgr p = peers0
     else peer_comm_fd_mgr p = <[Z.to_nat (u32 cidx) := d]> peers0 ∧
       peer_comm_fd_mgr p !! Z.to_nat (u32 cidx) = Some d).

(** *** The link keeps it *)

Lemma count_app f l l' : count f (l ++ l') = count f l + count f l'.
Proof. induction l as [|wc l IH]; cbn [count app]; [done|]. lia. Qed.
Lemma sends_id ch w i wr : sends ch w !! i = Some wr → swr_wr_id wr = ch.
Proof. intros H%list_elem_of_lookup_2. by apply list_elem_of_filter in H as [? _]. Qed.
Lemma recvs_id ch w i rw : recvs ch w !! i = Some rw → rwr_wr_id rw = ch.
Proof. intros H%list_elem_of_lookup_2. by apply list_elem_of_filter in H as [? _]. Qed.

(** Which requests the client's log holds where. *)
Lemma client_request_at hs hr hk c i wr :
  client_inv hs hr hk c → sends cch (world c) !! i = Some wr →
  (i = 0%nat ∧ ∃ a, message a 1 1 wr) ∨ (0 < Z.of_nat i ≤ 127 * hr + hk ∧ write_to d wr).
Proof.
  intros Hc H. destruct (ci_sends _ _ _ _ Hc) as (req & new & a & E & Hm & Hl & Hall).
  rewrite E in H. destruct i as [|i]; cbn in H.
  - injection H as <-. left. eauto.
  - right. apply lookup_lt_Some in H as Hlt. split; [lia|].
    rewrite Forall_forall in Hall. by eapply Hall, list_elem_of_lookup_2.
Qed.

Ltac known := unfold balanced, report, store, reported, received in *; cbn in *;
  rewrite ?count_app; cbn; lia.

Lemma client_reports hs hr hk c op wr n i :
  client_inv hs hr hk c → sends cch (world c) !! i = Some wr → op = IBV_WC_SEND ∨ op = IBV_WC_RDMA_WRITE →
  client_inv hs hr hk (report (reported op wr n) (c <| executed ::= S |>)).
Proof.
  intros [H1 H2 H3 H4 H5 H6 H7 H8] Hwr Hop. split; try done.
  - apply Forall_app. split; [done|]. constructor; [|constructor]. cbn. by eapply sends_id.
  - apply Forall_app. split; [done|]. constructor; [|constructor].
    by destruct Hop as [-> | ->]; split_and!.
  - cbn [report arrived upd]. rewrite count_app. intros H. apply H8. by destruct Hop as [-> | ->]; cbn in H; rewrite Z.add_0_r in H.
Qed.
Lemma server_stores gs gr s addr bs :
  server_inv gs gr s → (executed s = 0%nat → gr = 0) → server_inv gs gr (store addr bs s).
Proof.
  intros [H1 H2 H3 H4 H5 H6 H7 H8 H9] Hno. split; try done.
  - by apply tower_state_mem.
  - intros wr He Hwr. cbn in *. apply lookup_lt_Some in Hwr. destruct H3 as [H3 _].
    specialize (Hno He). unfold sends in *. cbn in *. lia.
Qed.

Lemma to_server_keeps p c s :
  joined p → carry (client p) (server p) c s → joined (mkPair c s (peer_comm_fd_mgr p)).
Proof.
  intros (hs & hr & hk & gs & gr & Hb & Hc & Hs & Hp) H.
  pose proof (ci_channel _ _ _ _ Hc) as Ech. pose proof (si_channel _ _ _ Hs) as Esh.
  pose proof (count_nonneg is_recv (arrived (server p))).
  pose proof (count_nonneg is_recv (arrived (client p))).
  destruct H as [wr rw r imm bs Hwr Ho Hi Hcar Hrw Hr Hle | wr addr key bs Hwr Ho Hr Hcar];
    rewrite Ech in Hwr;
    destruct (client_request_at _ _ _ _ _ _ Hc Hwr) as [[He [a Ha]]|(He & Ho' & _)];
    try congruence.
  - exists hs, hr, hk, gs, gr. split; [known|]. split; [eapply client_reports; eauto|]. split; [|exact Hp].
    rewrite Esh in Hrw. apply recvs_id in Hrw.
    assert (server_inv gs gr (store (sge_addr r) bs (server p))) as [K1 K2 K3 K4 K5 K6 K7 K8 K9]
      by (apply server_stores; [done|known]).
    split; try done; (apply Forall_app; split; [done|]); (constructor; [|constructor]); [done|].
    destruct Ha as (? & ? & ->). injection Hi as <-. by split_and!.
  - by destruct Ha as (? & ? & ->).
  - exists hs, hr, hk, gs, gr. split; [known|]. split; [eapply client_reports; eauto|]. split; [|exact Hp].
    apply server_stores; [done|]. known.
Qed.

Hypothesis Hrc0 : ∃ rw, rc0 !! 0%nat = Some rw ∧ block_for (data_ptr blk) rw.

Lemma to_client_keeps p s c :
  joined p → carry (server p) (client p) s c → joined (mkPair c s (peer_comm_fd_mgr p)).
Proof.
  intros (hs & hr & hk & gs & gr & Hb & Hc & Hs & Hp) H.
  pose proof (count_nonneg is_recv (arrived (server p))).
  destruct Hc as [C1 C2 C3 C4 C5 CK C6 C7], Hs as [S1 S2 S3 S4 S5 SK S6 SB S7].
  assert (∀ wr, sends sch (world (server p)) !! executed (server p) = Some wr →
    gr = 1 ∧ executed (server p) = 0%nat ∧ ∃ a, message a 24 2 wr) as Hat.
  { intros wr Hwr. apply lookup_lt_Some in Hwr as Hlt. destruct S3 as [Hl Hall].
    rewrite Forall_forall in Hall. apply list_elem_of_lookup_2, Hall in Hwr. split; [|split; [|done]]; known. }
  destruct H as [wr rw r imm bs Hwr Ho Hi Hcar Hrw Hr Hle | wr addr key bs Hwr Ho Hr Hcar];
    rewrite S1 in Hwr; destruct (Hat _ Hwr) as (-> & He & a' & k' & id' & Ewr); [|by subst wr].
  rewrite He in Hwr. destruct (S7 _ He Hwr) as (a & (k & id & ->) & _ & Hm).
  injection Hi as <-. destruct Hcar as (g & [= <-] & Hlen & Hbs). cbn in Hlen, Hbs. 
  assert (length bs = 24%nat) as Hl24 by lia. rewrite Hl24 in Hbs. apply Hbs in Hm. subst bs.
  destruct Hrc0 as (rw0 & Hrw0 & k0 & id0 & ->).
  assert (consumed (client p) = 0%nat) as Hcons by known.
  rewrite C1, C4, Hcons, Hrw0 in Hrw. injection Hrw as <-. injection Hr as <-.
  apply sends_id in Hwr as Hid. cbn in Hid. subst id.
  assert (id0 = cch) as ->.
  { rewrite <-C4 in Hrw0. by apply recvs_id in Hrw0. }
  exists hs, hr, hk, gs, 1. split; [known|]. split; [|split; [|exact Hp]].
  - split; try done.
    + by apply tower_state_mem.
    + apply Forall_app. split; [done|]. by constructor; [|constructor].
    + apply Forall_app. split; [done|]. constructor; [by split_and!|constructor].
    + intros _. rewrite <-Hl24. apply mem_read_write.
  - split; try done; (apply Forall_app; split; [done|]); (constructor; [|constructor]);
      by try split_and!.
Qed.

(** *** The handlers keep it *)

Hypothesis Htcs : tensor_buffer_send tc !! Z.to_nat (u32 cidx) = Some cps.
Hypothesis Htcr : tensor_buffer_recv tc !! Z.to_nat (u32 cidx) = Some cpr.
Hypothesis Htss : tensor_buffer_send ts !! Z.to_nat (u32 sidx) = Some sps.
Hypothesis Htsr : tensor_buffer_recv ts !! Z.to_nat (u32 sidx) = Some spr.
Hypothesis Hfull : handed rr0 - returned rr0 = ring_size rr0.
Hypothesis Hslot : ring_slot rr0 (returned rr0 + 1) = Some b0.
Hypothesis Hwf : CommDescriptor_wf d.
Hypothesis Hd : ∀ m, mr_ sb = Some m → d = mkCommDescriptor (data_ptr sb) (buffer_size sb) (mr_rkey m) 0.

(** The first answer the client handles tells it the server's buffer. *)
Lemma answer_learned hs hk c wc peers peers' w :
  client_inv hs 0 hk c → 1 ≤ count is_recv (arrived c) →
  client_recv_done tc peers cch (u32 cidx) wc (world c) = Ok peers' w →
  peers' = <[Z.to_nat (u32 cidx) := d]> peers ∧ peers' !! Z.to_nat (u32 cidx) = Some d.
Proof.
  intros [_ C2 _ _ _ _ C6 C7] Hn H. rewrite !moved_0 in C2.
  destruct (w_bufs (world c) !! b0) as [b|] eqn:Hb0; [|by unfold stables in C6; rewrite Hb0 in C6].
  unfold stables in C6. rewrite Hb0 in C6. injection C6 as Eb _ _ _. rewrite <-Eb in C7.
  eapply (client_stores_oldest _ _ _ _ _ _ _ _ _ _ _ _ _ _ b0 b d Htcr C2); try done. by apply C7.
Qed.

Lemma client_keeps each p wc wcs peers w :
  joined p → arrived (client p) = wc :: wcs →
  client_process_wc tc each (peer_comm_fd_mgr p) wc (world (client p)) = Ok peers w →
  joined (mkPair (client p <| world := w |> <| arrived := wcs |>) (server p) peers).
Proof.
  intros (hs & hr & hk & gs & gr & Hb & Hc & Hs & Hp) Ha H.
  pose proof Hc as [C1 C2 C3 C4 C5 CK C6 C7]. rewrite Ha in C5, CK, C7.
  apply Forall_cons in C5 as [Hid C5]. apply Forall_cons in CK as [_ CK].
  destruct (client_process_posts _ _ _ _ _ Htcs Htcr _ _ _ _ _ _ _ _ _ _ H Hid C2)
    as (Hst & Hone & Hrecv & new & Hposts & Hl & Hw).
  pose proof (client_process_wc_step _ _ _ _ _ Htcs Htcr _ _ _ _ _ _ _ _ _ _ H Hid C2) as Ht.
  cbv zeta in Ht. unfold balanced in Hb. rewrite Ha in Hb. cbn [count] in Hb, C7.
  pose proof (count_nonneg is_recv wcs). pose proof (count_nonneg is_write wcs).
  pose proof (count_nonneg is_send wcs). pose proof (count_nonneg is_recv (arrived (server p))).
  exists (hs + Z.b2z (is_send wc)), (hr + Z.b2z (is_recv wc)), (hk + Z.b2z (is_write wc)), gs, gr.
  assert (is_recv wc = true → hr = 0) as Hr0 by (intros E; rewrite E in *; cbn in *; lia).
  assert (∀ b, 0 ≤ Z.b2z b) as Hz by (by intros []).
  pose proof (Hz (is_send wc)). pose proof (Hz (is_recv wc)). pose proof (Hz (is_write wc)). clear Hz.
  assert (Z.b2z (is_write wc) ≤ hr) as Hk1 by (destruct (is_write wc); cbn in *; lia).
  assert (is_recv wc = true → peers = <[Z.to_nat (u32 cidx) := d]> peers0 ∧
    peers !! Z.to_nat (u32 cidx) = Some d) as Hpeers.
  { intros E. rewrite E in *. specialize (Hr0 eq_refl). subst hr. cbn in Hp. rewrite <-Hp.
    eapply answer_learned; [exact Hc|rewrite Ha; cbn [count]; rewrite E; cbn; lia|exact Hrecv]. }
  change (client p <| world := w |> <| arrived := wcs |>) with
    (mkSide (channel (client p)) w (executed (client p)) (consumed (client p)) wcs).
  split; [|split; [|split; [done|]]].
  - unfold balanced. cbn. destruct Hb as (?&?&?&?&?&?&?).
    split_and!; lia.
  - split; cbn [client channel world arrived].
    + exact C1.
    + rewrite !moved_moved in Ht. eapply ts_counts; [exact Ht|lia..].
    + destruct C3 as (req & old & a & E & Hm & Ho & Hall). exists req, (old ++ new), a.
      destruct Hposts as (Hs' & _ & _). split; [by rewrite Hs', E|]. split; [done|].
      split; [rewrite length_app; lia|]. apply Forall_app. split; [done|].
      destruct new as [|wr new]; [constructor|]. apply Hw. destruct (is_recv wc); [by apply Hpeers|].
      cbn in Hrecv, Hl. subst peers. rewrite decide_False in Hp by lia. apply Hp.
    + destruct Hposts as (_ & Hr' & _). by rewrite Hr', app_nil_r.
    + exact C5.
    + exact CK.
    + by rewrite Hst.
    + intros Hge. destruct Hposts as (_ & _ & -> & _). apply C7. destruct (is_recv wc); cbn in *; lia.
  - destruct (is_recv wc); cbn in Hrecv |- *.
    + rewrite decide_False by lia. by apply Hpeers.
    + rewrite Z.add_0_r. by subst peers.
Qed.

Lemma block_within gs gr s r n a :
  server_inv gs gr s → (slots r = slots rs1 ∨ slots r = slots rr1) →
  block_of r (world s) n a → within R a n.
Proof.
  intros Hs Hr (q & b & Hq & Hb & Hn & ->) x Hx.
  eapply (si_blocks _ _ _ Hs q b); [|exact Hb|lia]. apply elem_of_app. destruct Hr as [<- | <-]; auto.
Qed.
Lemma server_keeps each p wc wcs u w :
  joined p → arrived (server p) = wc :: wcs →
  server_process_wc ts each wc (world (server p)) = Ok u w →
  joined (mkPair (client p) (server p <| world := w |> <| arrived := wcs |>) (peer_comm_fd_mgr p)).
Proof.
  intros (hs & hr & hk & gs & gr & Hb & Hc & Hs & Hp) Ha H.
  pose proof (λ r n a, block_within _ _ _ r n a Hs) as Hin.
  destruct Hs as [S1 S2 S3 S4 S5 SK S6 SB S7]. rewrite Ha in S5, SK.
  apply Forall_cons in S5 as [Hid S5]. apply Forall_cons in SK as [_ SK].
  destruct (server_process_posts _ _ _ _ _ Htss Htsr _ _ _ _ _ _ _ _ _ _ H Hid S2 S6)
    as (Hst & Hone & Hsend & Hrecv).
  pose proof (server_process_wc_step _ _ _ _ _ Htss Htsr _ _ _ _ _ _ _ _ _ H Hid S2) as Ht.
  cbv zeta in Ht. rewrite !moved_moved in Ht. unfold balanced in Hb. rewrite Ha in Hb. cbn [count] in Hb.
  pose proof (count_nonneg is_recv wcs). pose proof (count_nonneg is_send wcs).
  change (server p <| world := w |> <| arrived := wcs |>) with
    (mkSide (channel (server p)) w (executed (server p)) (consumed (server p)) wcs).
  destruct Hb as (?&?&?&?&?&?&?). destruct S3 as [Hls Hs], S4 as [Hlr Hr].
  exists hs, hr, hk, (gs + Z.b2z (is_send wc)), (gr + Z.b2z (is_recv wc)).
  destruct (is_send wc), (is_recv wc); cbn [Z.b2z] in *; try lia.
  - destruct (Hsend eq_refl) as (Ps & Pr & Pm & _). rewrite app_nil_r in Ps, Pr. rewrite Z.add_0_r in *.
    split; [unfold balanced; cbn; split_and!; lia|]. split; [done|]. split; [|done].
    split; cbn [server channel world arrived executed]; rewrite ?Ps, ?Pr, ?Pm, ?Hst; try first [done|by split_and!].
    + eapply ts_counts; [exact Ht|lia..].
    + intros q b. rewrite Hst. apply SB.
  - destruct (Hrecv eq_refl) as (m & a & wr & a' & rw & Hm & Ha1 & Hwr & Ha2 & Hrw & Ps & Pr & Pm & _).
    apply Hin in Ha1; [|by left]. apply Hin in Ha2; [|by right].
    rewrite Z.add_0_r in *.
    split; [unfold balanced; cbn; split_and!; lia|]. split; [done|]. split; [|done].
    split; cbn [server channel world arrived executed]; rewrite ?Ps, ?Pr, ?Pm, ?Hst; try first [done|by split_and!].
    + eapply ts_counts; [exact Ht|lia..].
    + rewrite length_app, Forall_app. split; [cbn; lia|]. split; [done|].
      constructor; [by exists a|constructor].
    + rewrite length_app, Forall_app. split; [cbn; lia|]. split; [done|].
      constructor; [by exists a'|constructor].
    + intros q b. rewrite Hst. apply SB.
    + intros wr' He Hwr'. destruct (sends sch (world (server p))); [|cbn in Hls; lia].
      injection Hwr' as <-. exists a. split; [done|]. split; [done|]. by rewrite (Hd m Hm).
Qed.

Context (transfer : side X → side X → side X → side X → Prop) `{!ReliableLink transfer}.

(** *** What it says *)

Lemma carried_by m wr s :
  swr_sg_list wr = [s] → 0 ≤ sge_length s → ∃ bs, carried m wr bs.
Proof.
  intros Hs Hn. set (n := Z.to_nat (sge_length s)).
  exists (default (replicate n 0) (mem_read (sge_addr s) n m)), s.
  destruct (mem_read (sge_addr s) n m) as [bs|] eqn:E; cbn.
  - pose proof E as [Hl _]%mem_read_spec. rewrite Hl. split; [done|]. split; [lia|]. congruence.
  - rewrite length_replicate. split; [done|]. split; [lia|]. congruence.
Qed.
Hypothesis Hrcl : length rc0 = 128%nat.
Hypothesis Hrca : Forall (λ rw, ∃ a, block_for a rw) rc0.

Lemma carry_message x y wr rw a n tag :
  sends (channel x) (world x) !! executed x = Some wr → message a n tag wr →
  recvs (channel y) (world y) !! consumed y = Some rw → (∃ a', block_for a' rw) →
  0 ≤ n ≤ BLOCK_SIZE → ∃ x' y', carry x y x' y'.
Proof.
  intros Hwr (k & id & ->) Hrw (a' & k' & id' & ->) Hn.
  destruct (carried_by (w_mem (world x)) (send_wr a n k tag id) (mkSge a n k)) as [bs Hbs]; [done|cbn; lia|].
  do 2 eexists. eapply carry_send; [exact Hwr|done|done|exact Hbs|exact Hrw|done|].
  destruct Hbs as (g & [= <-] & Hlen & _). cbn in *. lia.
Qed.
Lemma carry_one_write x y wr :
  sends (channel x) (world x) !! executed x = Some wr → write_to d wr → ∃ x' y', carry x y x' y'.
Proof.
  intros Hwr (Ho & _ & Hr & s & Hs & Hn).
  destruct (carried_by (w_mem (world x)) wr s Hs (proj1 Hn)) as [bs Hbs].
  do 2 eexists. by eapply carry_write.
Qed.

(** A receive is posted for every send. *)
Lemma joined_receives p :
  joined p →
  (∀ wr, sends cch (world (client p)) !! executed (client p) = Some wr →
   swr_opcode wr = IBV_WR_SEND_WITH_IMM →
   ∃ rw, recvs sch (world (server p)) !! consumed (server p) = Some rw ∧ ∃ a, block_for a rw) ∧
  (∀ wr, sends sch (world (server p)) !! executed (server p) = Some wr →
   ∃ rw, recvs cch (world (client p)) !! consumed (client p) = Some rw ∧ ∃ a, block_for a rw).
Proof.
  intros (hs & hr & hk & gs & gr & Hb & Hc & [_ _ [Hl _] [Hlr Hr] _ _ _ _ _] & _).
  rewrite Forall_forall in Hr, Hrca. pose proof (count_nonneg is_recv (arrived (server p))).
  split; intros wr Hwr.
  - intros _. destruct (lookup_lt_is_Some_2 (recvs sch (world (server p))) (consumed (server p))) as [rw Hrw].
    { known. }
    exists rw. split; [done|].
    destruct (Hr rw) as (a & Hblk & _); [by eapply list_elem_of_lookup_2|by exists a].
  - rewrite (ci_recvs _ _ _ _ Hc). apply lookup_lt_Some in Hwr.
    destruct (lookup_lt_is_Some_2 rc0 (consumed (client p))) as [rw Hrw]; [known|].
    exists rw. split; [done|]. by eapply Hrca, list_elem_of_lookup_2.
Qed.

(** What a joined pair never violates: a receive with room is posted for each
    message; the client's table holds what it held or the description of the
    server's send buffer; each request of the client but the first is a write into
    that buffer; neither end has more out than it may, no block twice; and the
    completions waiting are few. *)
Definition safe (p : pair X) : Prop :=
  (∀ wr, sends cch (world (client p)) !! executed (client p) = Some wr →
   swr_opcode wr = IBV_WR_SEND_WITH_IMM →
   ∃ rw, recvs sch (world (server p)) !! consumed (server p) = Some rw ∧ ∃ a, block_for a rw) ∧
  (∀ wr, sends sch (world (server p)) !! executed (server p) = Some wr →
   (∃ a, message a 24 2 wr) ∧
   ∃ rw, recvs cch (world (client p)) !! consumed (client p) = Some rw ∧ ∃ a, block_for a rw) ∧
  (peer_comm_fd_mgr p = peers0 ∨ peer_comm_fd_mgr p = <[Z.to_nat (u32 cidx) := d]> peers0) ∧
  (∀ i wr, sends cch (world (client p)) !! i = Some wr →
   (i = 0%nat ∧ ∃ a, message a 1 1 wr) ∨ write_to d wr) ∧
  (∃ rs rr rq sq, tower_state cch cidx cps cpr (world (client p)) rs rr rq sq ∧
     sq = handed rs - returned rs ∧ sq ≤ NUM_BLOCK ∧ NoDup (outstanding rs)) ∧
  (∃ rs rr sq, tower_state sch sidx sps spr (world (server p)) rs rr NUM_BLOCK sq ∧
     sq = handed rs - returned rs ∧ 0 ≤ sq ≤ 1) ∧
  Z.of_nat (length (arrived (client p))) ≤ NUM_BLOCK + 1 ∧
  Z.of_nat (length (arrived (server p))) ≤ 2.

Lemma kinds_client l :
  Forall (expected 2 true) l →
  Z.of_nat (length l) = count is_send l + count is_recv l + count is_write l.
Proof.
  induction 1 as [|wc l (_ & Hk & _) _ IH]; cbn [count length]; [done|]. unfold is_send, is_recv, is_write in *.
  destruct (wc_opcode wc); cbn in Hk |- *; done || lia.
Qed.
Lemma kinds_server l :
  Forall (expected 1 false) l →
  Z.of_nat (length l) = count is_send l + count is_recv l.
Proof.
  induction 1 as [|wc l (_ & Hk & _) _ IH]; cbn [count length]; [done|]. unfold is_send, is_recv in *.
  destruct (wc_opcode wc); cbn in Hk |- *; done || lia.
Qed.
Hypothesis Hrs0 : handed rs0 - returned rs0 = 1.
Hypothesis Hsz0 : ring_size rs0 = NUM_BLOCK.
Hypothesis Hrs1 : handed rs1 - returned rs1 = 0.

Lemma joined_safe p : joined p → safe p.
Proof.
  intros Hj. destruct (joined_receives p Hj) as [Rc Rs]. split; [exact Rc|].
  destruct Hj as (hs & hr & hk & gs & gr & Hb & Hci & Hsi & Hpeers). split.
  { intros wr Hwr. split; [|exact (Rs wr Hwr)]. destruct (si_sends _ _ _ Hsi) as [_ Ha].
    rewrite Forall_forall in Ha. by eapply Ha, list_elem_of_lookup_2. }
  pose proof (kinds_client _ (ci_kinds _ _ _ _ Hci)) as ->.
  pose proof (kinds_server _ (si_kinds _ _ _ Hsi)) as ->.
  pose proof (count_nonneg is_recv (arrived (client p))).
  pose proof (count_nonneg is_recv (arrived (server p))).
  pose proof (count_nonneg is_send (arrived (server p))). unfold balanced, NUM_BLOCK in *.
  split; [|split; [|split; [|split; [|lia]]]].
  - destruct (decide (hr = 0)); [by left|right; apply Hpeers].
  - intros i wr Hwr. destruct (client_request_at _ _ _ _ _ _ Hci Hwr) as [[-> ?]|[_ ?]]; auto.
  - pose proof (ci_tower _ _ _ _ Hci) as Ht. eexists _, _, _, _. split; [exact Ht|].
    cbn [handed returned moved]. split; [lia|]. split; [lia|].
    destruct (ts_send _ _ _ _ _ _ _ _ _ Ht) as (?&_&_&_&_&Hsz&_&_&Hnd&_).
    apply outstanding_NoDup; [done|lia|]. unfold ring_size in *. cbn [moved slots handed returned].
    lia.
  - pose proof (si_tower _ _ _ Hsi) as Ht. eexists _, _, _. split; [exact Ht|].
    cbn [handed returned moved]. lia.
Qed.

(** There is always something to do. *)
Lemma joined_moves p :
  joined p → arrived (client p) ≠ [] ∨ arrived (server p) ≠ [] ∨
    (∃ c s, transfer (client p) (server p) c s) ∨ (∃ s c, transfer (server p) (client p) s c).
Proof.
  intros Hj. destruct (joined_receives p Hj) as [Rc Rs].
  destruct Hj as (hs & hr & hk & gs & gr & Hb & Hc & [S1 _ [Hl Hall] _ _ _ _ _ _] & _).
  pose proof (ci_channel _ _ _ _ Hc) as C1. destruct (ci_sends _ _ _ _ Hc) as (req & new & a & E & _ & Hn & _).
  destruct (arrived (client p)) eqn:Ac; [|by left]. destruct (arrived (server p)) eqn:As; [|by right; left].
  right; right. unfold balanced in Hb. rewrite Ac, As in Hb. cbn [count] in Hb.
  destruct (sends cch (world (client p)) !! executed (client p)) as [wr|] eqn:Hwr.
  - left. assert (∃ c s, carry (client p) (server p) c s) as (c & s & H);
      [|destruct (transfer_goes_on _ _ _ _ H) as (? & ? & ?); eauto].
    destruct (client_request_at _ _ _ _ _ _ Hc Hwr) as [[_ [a' Hm]]|[_ Hw]].
    + destruct (Rc wr eq_refl) as (rw & Hrw & Hrb); [by destruct Hm as (? & ? & ->)|].
      eapply carry_message; [by rewrite C1|exact Hm|by rewrite S1|done|done].
    + eapply carry_one_write; [by rewrite C1|done].
  - right. assert (∃ s c, carry (server p) (client p) s c) as (s & c & H);
      [|destruct (transfer_goes_on _ _ _ _ H) as (? & ? & ?); eauto].
    apply lookup_ge_None in Hwr. rewrite E in Hwr. cbn in Hwr.
    destruct (sends sch (world (server p)) !! executed (server p)) as [wr|] eqn:Hws.
    + destruct (Rs wr eq_refl) as (rw & Hrw & Hrb). rewrite Forall_forall in Hall.
      destruct (Hall wr) as [a' Hm]; [by eapply list_elem_of_lookup_2|].
      eapply carry_message; [by rewrite S1|exact Hm|by rewrite C1|done|done].
    + apply lookup_ge_None in Hws. lia.
Qed.
End joined.

(** ** From the start *)

Section started.
Context {X : Type} `{!Platform X} `{!PostLog X}.
Implicit Types w : World X.

(** A client that has posted its receives and its request, and a server that has
    posted its receives, on channels nothing was posted on before. *)
Definition client_started (cch cps cpr : Z) (c : side X) : Prop :=
  ∃ w u w1 u1, tower_state cch 0 cps cpr w (fresh_ring cps) (fresh_ring cpr) 0 0 ∧
    sends cch w = [] ∧ recvs cch w = [] ∧
    tower_post_receives (mkTensors [cps] [cpr]) [cch] w = Ok u w1 ∧
    client_request (mkTensors [cps] [cpr]) cch w1 = Ok u1 (world c) ∧
    c = mkSide cch (world c) 0 0 [].
Definition server_started (sch sps spr : Z) (sb : RDMABuffer) (s : side X) : Prop :=
  ∃ w u, tower_state sch 0 sps spr w (fresh_ring sps) (fresh_ring spr) 0 0 ∧
    sends sch w = [] ∧ recvs sch w = [] ∧ w_bufs w !! sps = Some sb ∧
    tower_post_receives (mkTensors [sps] [spr]) [sch] w = Ok u (world s) ∧
    s = mkSide sch (world s) 0 0 [].
(** What describes the whole buffer [sb], registered as [m]. *)
Definition description (sb : RDMABuffer) (m : ibv_mr) : CommDescriptor :=
  mkCommDescriptor (data_ptr sb) (buffer_size sb) (mr_rkey m) 0.

(** A channel of a client, the channel of the server it is connected to with the
    server's send buffer, the client's table at the start, and the part of the
    server's memory that belongs to the connection. *)
Record spoke := mkSpoke {
  sp_client : Z; sp_client_send : Z; sp_client_recv : Z;
  sp_server : Z; sp_server_send : Z; sp_server_recv : Z;
  sp_buffer : RDMABuffer; sp_mr : ibv_mr;
  sp_peers : list CommDescriptor;
  sp_region : Z → Prop
}.
Definition spoke_tensors (k : spoke) : tensors := mkTensors [sp_client_send k] [sp_client_recv k].
Definition spoke_wf (k : spoke) : Prop :=
  mr_ (sp_buffer k) = Some (sp_mr k) ∧ CommDescriptor_wf (description (sp_buffer k) (sp_mr k)).
(** What the two ends of it, the server's with the index [i], keep up. *)
Definition linked (k : spoke) (i : Z) (p : pair X) : Prop :=
  ∃ rc0 b0 blk, length rc0 = 128%nat ∧ Forall (λ rw, ∃ a, block_for a rw) rc0 ∧
    (∃ rw, rc0 !! 0%nat = Some rw ∧ block_for (data_ptr blk) rw) ∧
    ring_slot (fresh_ring (sp_client_recv k)) 0 = Some b0 ∧
    joined (sp_client k) 0 (sp_client_send k) (sp_client_recv k)
      (moved (fresh_ring (sp_client_send k)) 1 0)
      (moved (fresh_ring (sp_client_recv k)) NUM_BLOCK 0) rc0
      (sp_server k) i (sp_server_send k) (sp_server_recv k) (fresh_ring (sp_server_send k))
      (moved (fresh_ring (sp_server_recv k)) NUM_BLOCK 0)
      b0 blk (sp_buffer k) (description (sp_buffer k) (sp_mr k)) (sp_peers k) (sp_region k) p.
Definition link_safe (k : spoke) (i : Z) : pair X → Prop :=
  safe (sp_client k) 0 (sp_client_send k) (sp_client_recv k)
    (sp_server k) i (sp_server_send k) (sp_server_recv k)
    (description (sp_buffer k) (sp_mr k)) (sp_peers k).

(** *** What preserves it *)

Section one_spoke.
Context (k : spoke) (i : Z) (Hk : spoke_wf k).

Lemma linked_to_server p c s :
  linked k i p → carry (client p) (server p) c s → linked k i (mkPair c s (peer_comm_fd_mgr p)).
Proof.
  intros (rc0 & b0 & blk & H1 & H2 & H3 & H4 & Hj) H. exists rc0, b0, blk. do 4 (split; [done|]).
  by eapply to_server_keeps.
Qed.
Lemma linked_to_client p s c :
  linked k i p → carry (server p) (client p) s c → linked k i (mkPair c s (peer_comm_fd_mgr p)).
Proof.
  intros (rc0 & b0 & blk & H1 & H2 & H3 & H4 & Hj) H. exists rc0, b0, blk. do 4 (split; [done|]).
  by eapply to_client_keeps.
Qed.
Lemma linked_client each p wc wcs peers w :
  linked k i p → arrived (client p) = wc :: wcs →
  client_process_wc (spoke_tensors k) each (peer_comm_fd_mgr p) wc (world (client p)) = Ok peers w →
  linked k i (mkPair (client p <| world := w |> <| arrived := wcs |>) (server p) peers).
Proof.
  intros (rc0 & b0 & blk & H1 & H2 & H3 & H4 & Hj) Ha H. exists rc0, b0, blk. do 4 (split; [done|]).
  eapply client_keeps; [..|exact Hj|exact Ha|exact H]; [done|done|done|exact H4|apply Hk].
Qed.
Lemma linked_server ts each p wc wcs u w :
  tensor_buffer_send ts !! Z.to_nat (u32 i) = Some (sp_server_send k) →
  tensor_buffer_recv ts !! Z.to_nat (u32 i) = Some (sp_server_recv k) →
  linked k i p → arrived (server p) = wc :: wcs →
  server_process_wc ts each wc (world (server p)) = Ok u w →
  linked k i (mkPair (client p) (server p <| world := w |> <| arrived := wcs |>) (peer_comm_fd_mgr p)).
Proof.
  intros Hs Hr (rc0 & b0 & blk & H1 & H2 & H3 & H4 & Hj) Ha H. exists rc0, b0, blk.
  do 4 (split; [done|]). eapply server_keeps; [exact Hs|exact Hr| |exact Hj|exact Ha|exact H].
  intros m Hm. destruct Hk as [Hk' _]. rewrite Hm in Hk'. by injection Hk' as ->.
Qed.
Lemma linked_safe p : linked k i p → link_safe k i p.
Proof.
  intros (rc0 & b0 & blk & H1 & H2 & H3 & H4 & Hj).
  eapply joined_safe; [exact H1|exact H2| | | |exact Hj]; reflexivity.
Qed.
Lemma linked_moves (transfer : side X → side X → side X → side X → Prop) `{!ReliableLink transfer} p :
  linked k i p → arrived (client p) ≠ [] ∨ arrived (server p) ≠ [] ∨
    (∃ c s, transfer (client p) (server p) c s) ∨ (∃ s c, transfer (server p) (client p) s c).
Proof.
  intros (rc0 & b0 & blk & H1 & H2 & H3 & H4 & Hj).
  eapply joined_moves; [done|exact H1|exact H2|exact Hj].
Qed.

Lemma linked_reachable (transfer : side X → side X → side X → side X → Prop) `{!ReliableLink transfer}
    ts p p' :
  tensor_buffer_send ts !! Z.to_nat (u32 i) = Some (sp_server_send k) →
  tensor_buffer_recv ts !! Z.to_nat (u32 i) = Some (sp_server_recv k) →
  linked k i p → rtc (step transfer (spoke_tensors k) ts) p p' → linked k i p'.
Proof.
  intros Hs Hr Hp H.
  induction H as [|p1 p2 p3 [c s H|c s H|wc wcs peers w Ha H|wc wcs u' w Ha H] _ IH]; [done|apply IH..].
  - by eapply linked_to_server, transfer_carries.
  - by eapply linked_to_client, transfer_carries.
  - by eapply linked_client.
  - by eapply linked_server.
Qed.

(** *** How it starts *)

Lemma tower_receives_one ch ps pr w u w' :
  tower_post_receives (mkTensors [ps] [pr]) [ch] w = Ok u w' →
  ∃ u, for_each (seqZ 0 NUM_BLOCK) (λ _, post_block ch pr) w = Ok u w'.
Proof.
  unfold tower_post_receives. cbn [zip zip_with tensor_buffer_recv for_each fst snd].
  intros (u1 & w1 & H & H')%bind_inv. pinv H'. eauto.
Qed.
Lemma server_receives_ready w u w' :
  for_each (seqZ 0 NUM_BLOCK) (λ _, post_block (sp_server k) (sp_server_recv k)) w = Ok u w' →
  tower_state (sp_server k) i (sp_server_send k) (sp_server_recv k) w
    (fresh_ring (sp_server_send k)) (fresh_ring (sp_server_recv k)) 0 0 →
  sends (sp_server k) w = [] → recvs (sp_server k) w = [] →
  stables (sp_server_send k) w = Some (stable (sp_buffer k)) →
  (∀ q b, q ∈ slots (fresh_ring (sp_server_send k)) ++ slots (fresh_ring (sp_server_recv k)) →
   stables q w = Some (stable b) → within (sp_region k) (data_ptr b) (buffer_size b)) →
  server_inv (sp_server k) i (sp_server_send k) (sp_server_recv k) (fresh_ring (sp_server_send k))
    (moved (fresh_ring (sp_server_recv k)) NUM_BLOCK 0) (sp_buffer k)
    (description (sp_buffer k) (sp_mr k)) (sp_region k) 0 0 (mkSide (sp_server k) w' 0 0 []).
Proof.
  intros H Hw Ss Sr Sb HR.
  destruct (post_blocks_post _ _ _ _ _ _ _ H (ts_recv _ _ _ _ _ _ _ _ _ Hw)) as (St & new & Hl & (P & Q & _) & Hall).
  rewrite length_seqZ in Hl. eapply post_blocks_step in H; [|exact Hw]. rewrite length_seqZ in H.
  split; cbn [channel world arrived executed]; try done.
  - rewrite P, Ss. by split.
  - rewrite Q, Sr. cbn. split; [rewrite Hl; unfold NUM_BLOCK; lia|].
    apply Forall_lookup. intros j rw Hj. destruct (Hall _ _ Hj) as (q & b & Hq & Hb & Hle & Hrw).
    exists (data_ptr b). split; [done|]. intros x Hx. eapply HR; [|exact Hb|lia].
    apply elem_of_app. right. by eapply ring_slot_elem.
  - by rewrite St.
  - intros q b Hq Hb. rewrite St in Hb. by eapply HR.
  - rewrite P, Ss. done.
Qed.
Lemma client_ready_linked c s :
  client_started (sp_client k) (sp_client_send k) (sp_client_recv k) c →
  server_inv (sp_server k) i (sp_server_send k) (sp_server_recv k) (fresh_ring (sp_server_send k))
    (moved (fresh_ring (sp_server_recv k)) NUM_BLOCK 0) (sp_buffer k)
    (description (sp_buffer k) (sp_mr k)) (sp_region k) 0 0 s →
  s = mkSide (sp_server k) (world s) 0 0 [] →
  linked k i (mkPair c s (sp_peers k)).
Proof.
  intros (w & u & w1 & u1 & Hw & Ss & Sr & H1 & H2 & Hc) Hs Es.
  apply tower_receives_one in H1 as [? H1].
  destruct (post_blocks_post _ _ _ _ _ _ _ H1 (ts_recv _ _ _ _ _ _ _ _ _ Hw))
    as (St1 & new & Hl & (P1 & Q1 & _) & Hall). rewrite length_seqZ in Hl.
  destruct (client_request_posts _ _ _ _ _ H2) as (St2 & a & req & Hreq & P2 & Q2 & _).
  eapply post_blocks_step in H1; [|exact Hw]. rewrite length_seqZ in H1.
  eapply (client_request_step _ 0) in H2; [|reflexivity|exact H1].
  destruct (lookup_lt_is_Some_2 new 0%nat) as [rw Hrw]; [rewrite Hl; unfold NUM_BLOCK; lia|].
  destruct (Hall _ _ Hrw) as (b0 & blk & Hslot & Hst0 & _ & Hblk).
  exists new, b0, blk. split; [done|]. split.
  { apply Forall_lookup. intros j rw' Hj. destruct (Hall _ _ Hj) as (? & b & _ & _ & _ & ?). eauto. }
  split; [eauto|]. split; [done|]. exists 0, 0, 0, 0, 0. cbn [client server peer_comm_fd_mgr].
  rewrite Es in Hs |- *. rewrite Hc. split; [unfold balanced; cbn; split_and!; done || lia|].
  split; [|by split]. split; cbn [channel world arrived executed]; try done.
  - exists req, [], a. rewrite P2, P1, Ss. by split_and!.
  - by rewrite Q2, Q1, Sr, app_nil_r.
  - by rewrite St2, St1.
Qed.
End one_spoke.

(** One client and one server. *)
Section one_pair.
Context (cch cps cpr sch sps spr : Z) (sb : RDMABuffer) (m : ibv_mr) (p0 : pair X).
Definition pair_spoke : spoke :=
  mkSpoke cch cps cpr sch sps spr sb m (peer_comm_fd_mgr p0) (λ _, True).
Context (transfer : side X → side X → side X → side X → Prop) `{!ReliableLink transfer}.

Lemma pair_eta (p : pair X) : p = mkPair (client p) (server p) (peer_comm_fd_mgr p).
Proof. by destruct p. Qed.
Lemma reachable_linked p :
  client_started cch cps cpr (client p0) → server_started sch sps spr sb (server p0) →
  spoke_wf pair_spoke →
  rtc (step transfer (mkTensors [cps] [cpr]) (mkTensors [sps] [spr])) p0 p →
  linked pair_spoke 0 p.
Proof.
  intros Hc (v & u & Hv & Ss & Sr & Sb & H3 & Es) Hk Hp.
  assert (linked pair_spoke 0 p0) as H0.
  { apply tower_receives_one in H3 as [? H3]. rewrite (pair_eta p0).
    apply (client_ready_linked pair_spoke 0); [exact Hc| |exact Es]. rewrite Es.
    eapply server_receives_ready; [exact H3|exact Hv|exact Ss|exact Sr| |done].
    unfold stables. cbn. by rewrite Sb. }
  by eapply (linked_reachable pair_spoke 0 Hk transfer (mkTensors [sps] [spr])).
Qed.
End one_pair.
End started.

(** *** A link that computes *)

Section computing_link.
Context {X : Type} `{!Platform X} `{!PostLog X}.

Definition next_bytes (m : mem) (s : ibv_sge) : list Z :=
  let n := Z.to_nat (sge_length s) in default (replicate n 0) (mem_read (sge_addr s) n m).
Definition carry_next (a b : side X) : option (side X * side X) :=
  wr ← sends (channel a) (world a) !! executed a;
  match swr_sg_list wr, swr_opcode wr, swr_imm_data wr, swr_remote wr with
  | [s], IBV_WR_SEND_WITH_IMM, Some imm, _ =>
      rw ← recvs (channel b) (world b) !! consumed b;
      match rwr_sg_list rw with
      | [r] =>
          let bs := next_bytes (w_mem (world a)) s in
          if (0 <=? sge_length s) && (sge_length s <=? sge_length r) then
            Some (report (reported IBV_WC_SEND wr (Z.of_nat (length bs))) (a <| executed ::= S |>),
                  report (received rw (Z.of_nat (length bs)) imm)
                    (store (sge_addr r) bs (b <| consumed ::= S |>)))
          else None
      | _ => None
      end
  | [s], IBV_WR_RDMA_WRITE, _, Some (addr, _) =>
      let bs := next_bytes (w_mem (world a)) s in
      if 0 <=? sge_length s then
        Some (report (reported IBV_WC_RDMA_WRITE wr (Z.of_nat (length bs))) (a <| executed ::= S |>),
              store addr bs b)
      else None
  | _, _, _, _ => None
  end.

Lemma next_bytes_carried m wr s :
  swr_sg_list wr = [s] → 0 ≤ sge_length s →
  carried m wr (next_bytes m s) ∧ Z.of_nat (length (next_bytes m s)) = sge_length s.
Proof.
  intros Hs Hn. assert (length (next_bytes m s) = Z.to_nat (sge_length s)) as Hl.
  { unfold next_bytes. destruct (mem_read _ _ _) as [bs|] eqn:E; cbn; [|by rewrite length_replicate].
    by apply mem_read_spec in E as [-> _]. }
  split; [|lia]. exists s. split; [done|]. split; [lia|]. rewrite Hl. intros bs E.
  unfold next_bytes. by rewrite E.
Qed.

#[export] Instance carry_next_reliable : ReliableLink (λ a b a' b', carry_next a b = Some (a', b')).
Proof.
  split; intros a b a' b' H.
  - unfold carry_next in H. destruct (sends _ _ !! _) as [wr|] eqn:Hwr; [|done]. cbn in H.
    repeat case_match; simplify_eq; try done.
    + destruct (next_bytes_carried (w_mem (world a)) wr i) as [Hc Hl]; [done|lia|].
      by eapply (carry_write _ _ wr _ _ (next_bytes (w_mem (world a)) i)).
    + destruct (recvs _ _ !! _) as [rw|] eqn:Hrw; [|done]. cbn in H. repeat case_match; simplify_eq.
      destruct (next_bytes_carried (w_mem (world a)) wr i) as [Hc Hl]; [done|lia|].
      eapply carry_send; try done. lia.
  - unfold carry_next.
    destruct H as [wr rw r imm bs Hwr Ho Hi (s & Hs & Hl & _) Hrw Hr Hle
                  |wr addr key bs Hwr Ho Hr (s & Hs & Hl & _)]; rewrite Hwr; cbn; rewrite Hs, Ho.
    + rewrite Hi, Hrw. cbn. rewrite Hr. rewrite (proj2 (andb_true_iff _ _)) by (split; lia). eauto.
    + rewrite Hr. rewrite (proj2 (Z.leb_le _ _)) by lia. destruct (swr_imm_data wr); eauto.
Qed.

(** Moves of the pair, and what a sequence of them leads to. *)
Inductive move := ToServer | ToClient | ClientHandles | ServerHandles.
Definition run_move (tc ts : tensors) (p : pair X) (mv : move) : option (pair X) :=
  match mv with
  | ToServer =>
      q ← carry_next (client p) (server p); Some (mkPair q.1 q.2 (peer_comm_fd_mgr p))
  | ToClient =>
      q ← carry_next (server p) (client p); Some (mkPair q.2 q.1 (peer_comm_fd_mgr p))
  | ClientHandles =>
      match arrived (client p) with
      | wc :: wcs =>
          match client_process_wc tc (channel (client p)) (peer_comm_fd_mgr p) wc (world (client p)) with
          | Ok peers w => Some (mkPair (client p <| world := w |> <| arrived := wcs |>) (server p) peers)
          | Abort _ _ => None
          end
      | [] => None
      end
  | ServerHandles =>
      match arrived (server p) with
      | wc :: wcs =>
          match server_process_wc ts (channel (server p)) wc (world (server p)) with
          | Ok _ w => Some (mkPair (client p) (server p <| world := w |> <| arrived := wcs |>)
                              (peer_comm_fd_mgr p))
          | Abort _ _ => None
          end
      | [] => None
      end
  end.
Fixpoint run_moves (tc ts : tensors) (l : list move) (p : pair X) : option (pair X) :=
  match l with
  | [] => Some p
  | mv :: l => q ← run_move tc ts p mv; run_moves tc ts l q
  end.

Lemma run_move_step tc ts p mv p' :
  run_move tc ts p mv = Some p' →
  step (λ a b a' b', carry_next a b = Some (a', b')) tc ts p p'.
Proof.
  destruct mv; cbn; intros H.
  - destruct (carry_next _ _) as [[c s]|] eqn:E; [|done]. injection H as <-. by apply step_to_server.
  - destruct (carry_next _ _) as [[s c]|] eqn:E; [|done]. injection H as <-. by apply step_to_client.
  - repeat case_match; simplify_eq. by eapply step_client.
  - repeat case_match; simplify_eq. by eapply step_server.
Qed.
Lemma run_moves_steps tc ts l p p' :
  run_moves tc ts l p = Some p' →
  rtc (step (λ a b a' b', carry_next a b = Some (a', b')) tc ts) p p'.
Proof.
  revert p. induction l as [|mv l IH]; cbn; intros p H; [by injection H as <-|].
  destruct (run_move tc ts p mv) as [q|] eqn:E; [|done]. eapply rtc_l; [by eapply run_move_step|by apply IH].
Qed.
End computing_link.

(** ** Properties *)

Section pair_properties.
Context {X : Type} `{!Platform X} `{!PostLog X}.
Implicit Types w : World X.

(** C8: a client and a server that have started stay together: in every state
    they reach over a reliable link, whatever the order of transfers and handlers,
    each message finds a receive posted for it that has room; the table of the
    client holds what it held or the description of the server's send buffer, and
    each request of the client but the first is a write into that buffer, under
    its key; the client has at most [NUM_BLOCK] requests out, none of their blocks
    twice, and the server at most one. *)
Theorem pair_stays_safe cch cps cpr sch sps spr sb m transfer `{!ReliableLink transfer} p0 p :
  client_started cch cps cpr (client p0) → server_started sch sps spr sb (server p0) →
  mr_ sb = Some m → CommDescriptor_wf (description sb m) →
  rtc (step transfer (mkTensors [cps] [cpr]) (mkTensors [sps] [spr])) p0 p →
  (∀ wr, sends cch (world (client p)) !! executed (client p) = Some wr →
   swr_opcode wr = IBV_WR_SEND_WITH_IMM →
   ∃ rw, recvs sch (world (server p)) !! consumed (server p) = Some rw ∧ ∃ a, block_for a rw) ∧
  (∀ wr, sends sch (world (server p)) !! executed (server p) = Some wr →
   (∃ a, message a 24 2 wr) ∧
   ∃ rw, recvs cch (world (client p)) !! consumed (client p) = Some rw ∧ ∃ a, block_for a rw) ∧
  (peer_comm_fd_mgr p = peer_comm_fd_mgr p0 ∨
   peer_comm_fd_mgr p = <[0%nat := description sb m]> (peer_comm_fd_mgr p0)) ∧
  (∀ i wr, sends cch (world (client p)) !! i = Some wr →
   (i = 0%nat ∧ ∃ a, message a 1 1 wr) ∨ write_to (description sb m) wr) ∧
  (∃ rs rr rq sq, tower_state cch 0 cps cpr (world (client p)) rs rr rq sq ∧
     sq = handed rs - returned rs ∧ sq ≤ NUM_BLOCK ∧ NoDup (outstanding rs)) ∧
  (∃ rs rr sq, tower_state sch 0 sps spr (world (server p)) rs rr NUM_BLOCK sq ∧
     sq = handed rs - returned rs ∧ 0 ≤ sq ≤ 1).
Proof.
  intros Hc Hs Hm Hwf Hp.
  destruct (linked_safe _ _ _ (reachable_linked _ _ _ _ _ _ sb m p0 transfer p Hc Hs (conj Hm Hwf) Hp))
    as (H1 & H2 & H3 & H4 & H5 & H6 & _). by split_and!.
Qed.

(** C9: the pair never gets stuck: in every state it reaches there is a completion
    to handle, or the link carries the next request; so the client never runs out
    of writes. *)
Theorem pair_goes_on cch cps cpr sch sps spr sb m transfer `{!ReliableLink transfer} p0 p :
  client_started cch cps cpr (client p0) → server_started sch sps spr sb (server p0) →
  mr_ sb = Some m → CommDescriptor_wf (description sb m) →
  rtc (step transfer (mkTensors [cps] [cpr]) (mkTensors [sps] [spr])) p0 p →
  arrived (client p) ≠ [] ∨ arrived (server p) ≠ [] ∨
  (∃ c s, transfer (client p) (server p) c s) ∨ (∃ s c, transfer (server p) (client p) s c).
Proof.
  intros Hc Hs Hm Hwf Hp. eapply linked_moves; [done|].
  exact (reachable_linked _ _ _ _ _ _ sb m p0 transfer p Hc Hs (conj Hm Hwf) Hp).
Qed.
End pair_properties.

(** ** Witnesses *)

(** The processes of the mesh's witnesses: the request goes over, is answered,
    and the client handles the answer and a write. *)
Definition pa_start : pair Sim :=
  mkPair (mkSide 500 me_w2 0 0 []) (mkSide 500 me_w1 0 0 []) me_peers.
Definition pa_moves : list move :=
  [ToServer; ServerHandles; ToClient; ClientHandles; ClientHandles; ToServer; ServerHandles; ClientHandles].
Definition pa_end : pair Sim := default pa_start (run_moves me_t me_t pa_moves pa_start).

Lemma pa_client : client_started 500 10000 20000 (client pa_start).
Proof.
  exists me_w0, tt, me_w1, tt. split; [exact me_state|]. split; [vm_compute; reflexivity|].
  split; [vm_compute; reflexivity|].
  split; [apply returned_state; vm_compute; reflexivity|].
  split; [apply returned_state; vm_compute; reflexivity|reflexivity].
Qed.
Lemma pa_server : server_started 500 10000 20000 me_sb (server pa_start).
Proof.
  exists me_w0, tt. split; [exact me_state|]. split; [vm_compute; reflexivity|].
  split; [vm_compute; reflexivity|]. split; [vm_compute; reflexivity|].
  split; [apply returned_state; vm_compute; reflexivity|reflexivity].
Qed.
Lemma pa_run : run_moves me_t me_t pa_moves pa_start = Some pa_end.
Proof.
  assert (match run_moves me_t me_t pa_moves pa_start with Some _ => true | None => false end = true)
    as H by (vm_compute; reflexivity).
  unfold pa_end. by destruct (run_moves _ _ _ _).
Qed.

Lemma pair_stays_safe_witness :
  peer_comm_fd_mgr pa_end = [me_sdesc] ∧
  ∃ rs rr rq sq, tower_state 500 0 10000 20000 (world (client pa_end)) rs rr rq sq ∧
    sq ≤ NUM_BLOCK ∧ NoDup (outstanding rs).
Proof.
  split; [vm_compute; reflexivity|].
  destruct (pair_stays_safe 500 10000 20000 500 10000 20000 me_sb me_mr _ pa_start pa_end
    pa_client pa_server eq_refl ltac:(apply (bool_decide_unpack _); vm_compute; exact I)
    (run_moves_steps _ _ _ _ _ pa_run)) as (_ & _ & _ & _ & (rs & rr & rq & sq & H1 & _ & H2 & H3) & _).
  exists rs, rr, rq, sq. split; [exact H1|]. split; [exact H2|exact H3].
Defined.
Lemma pair_goes_on_witness :
  arrived (client pa_end) ≠ [] ∨ arrived (server pa_end) ≠ [] ∨
  (∃ c s, carry_next (client pa_end) (server pa_end) = Some (c, s)) ∨
  (∃ s c, carry_next (server pa_end) (client pa_end) = Some (s, c)).
Proof.
  exact (pair_goes_on 500 10000 20000 500 10000 20000 me_sb me_mr _ pa_start pa_end
    pa_client pa_server eq_refl ltac:(apply (bool_decide_unpack _); vm_compute; exact I)
    (run_moves_steps _ _ _ _ _ pa_run)).
Defined.
