(* ===== verification/Hub.v ===== *)
(** * A server of the mesh and all its clients

    The server tower of example/mesh_comm_service.cc with any number of
    connections, whose channels share one completion queue, and the client at the
    other end of each, in a process of its own.  Towers run the polling loops as
    they are written: a turn takes a batch of completions from a queue and handles
    all of it; on the server the batch holds completions of any channel. *)
From S2P Require Import Prelude Words Types Layout World Sim Ident Device Buffer.
From S2P Require Import Adapter Channel Tcp Endpoint Session ClientServer.
From S2P Require Import Flow Mesh Lanes Posts Pair.

Section hub.
Context {X : Type} `{!Platform X} `{!PostLog X}.
Implicit Types w : World X.

(** One connection: the client's process with its table, and of the server's end
    the channel and how many requests and receives the link has used. *)
Record link := mkLink {
  l_client : side X;
  l_peers : list CommDescriptor;
  l_channel : Z;
  l_executed : nat;
  l_consumed : nat
}.
(** The server's process, the completions in its queue, and the connections. *)
Record hub := mkHub {
  h_world : World X;
  h_arrived : list ibv_wc;
  h_links : list link
}.
Definition serving (h : hub) (l : link) : side X :=
  mkSide (l_channel l) (h_world h) (l_executed l) (l_consumed l) (h_arrived h).
(** The hub once the connection [i] has the ends [c] and [s]. *)
Definition with_ends (h : hub) (i : nat) (c : side X) (peers : list CommDescriptor) (s : side X)
    : hub :=
  mkHub (world s) (arrived s)
    (<[i := mkLink c peers (channel s) (executed s) (consumed s)]> (h_links h)).

(** A queue reports the oldest of the completions it holds. *)
Definition reports (each n : Z) w (queue : list ibv_wc) : Prop :=
  ∃ wcs w1, poll_cq_batch each WC_BATCH w = Ok (n, wcs) w1 ∧
    take (Z.to_nat n) wcs = take (Z.to_nat n) queue.

Context (transfer : side X → side X → side X → side X → Prop) (ks : list spoke).
Definition hub_tensors : tensors :=
  mkTensors (sp_server_send <$> ks) (sp_server_recv <$> ks).

Inductive hub_step (h : hub) : hub → Prop :=
  | hub_to_server i l c s :
      h_links h !! i = Some l → transfer (l_client l) (serving h l) c s →
      hub_step h (with_ends h i c (l_peers l) s)
  | hub_to_client i l c s :
      h_links h !! i = Some l → transfer (serving h l) (l_client l) s c →
      hub_step h (with_ends h i c (l_peers l) s)
  | hub_client_polls i l k n peers w :
      h_links h !! i = Some l → ks !! i = Some k →
      reports (channel (l_client l)) n (world (l_client l)) (arrived (l_client l)) →
      client_poll_channel (spoke_tensors k) (l_peers l) (channel (l_client l))
        (world (l_client l)) = Ok peers w →
      hub_step h (with_ends h i
        (l_client l <| world := w |> <| arrived := drop (Z.to_nat n) (arrived (l_client l)) |>)
        peers (serving h l))
  | hub_server_polls each n u w :
      each ∈ l_channel <$> h_links h → reports each n (h_world h) (h_arrived h) →
      server_poll_channel hub_tensors each (h_world h) = Ok u w →
      hub_step h (mkHub w (drop (Z.to_nat n) (h_arrived h)) (h_links h)).

(** ** What the connections have in common *)

(** The connections use different channels, rings and parts of the server's
    memory, each with its send buffer in its own part. *)
Definition spokes_apart (k k' : spoke) : Prop :=
  sp_server k ≠ sp_server k' ∧
  sp_server_send k' ≠ sp_server_send k ∧ sp_server_send k' ≠ sp_server_recv k ∧
  sp_server_recv k' ≠ sp_server_send k ∧ sp_server_recv k' ≠ sp_server_recv k ∧
  ∀ x, sp_region k x → sp_region k' x → False.
Definition hub_wf : Prop :=
  Z.of_nat (length ks) ≤ 64 ∧
  (∀ i k, ks !! i = Some k → spoke_wf k ∧
     within (sp_region k) (data_ptr (sp_buffer k)) (buffer_size (sp_buffer k))) ∧
  (∀ i j k k', i ≠ j → ks !! i = Some k → ks !! j = Some k' → spokes_apart k k').

(** The completions of one channel in the queue all channels share. *)
Definition own (ch : Z) (l : list ibv_wc) : list ibv_wc := filter (λ wc, wc_wr_id wc = ch) l.
Definition own_end (s : side X) : side X := s <| arrived := own (channel s) (arrived s) |>.
(** One connection of the hub, as a pair of its own. *)
Definition view (h : hub) (l : link) : pair X :=
  mkPair (l_client l) (own_end (serving h l)) (l_peers l).

(** At the start, the server has posted the receives of all its channels, and
    each client its receives and its request. *)
Definition idle (k : spoke) (i : Z) w : Prop :=
  tower_state (sp_server k) i (sp_server_send k) (sp_server_recv k) w
    (fresh_ring (sp_server_send k)) (fresh_ring (sp_server_recv k)) 0 0 ∧
  sends (sp_server k) w = [] ∧ recvs (sp_server k) w = [] ∧
  stables (sp_server_send k) w = Some (stable (sp_buffer k)) ∧
  ∀ q b, q ∈ slots (fresh_ring (sp_server_send k)) ++ slots (fresh_ring (sp_server_recv k)) →
    stables q w = Some (stable b) → within (sp_region k) (data_ptr b) (buffer_size b).
Definition hub_started (h : hub) : Prop :=
  (∃ w u, (∀ (i : nat) k, ks !! i = Some k → idle k (Z.of_nat i) w) ∧
     tower_post_receives hub_tensors (sp_server <$> ks) w = Ok u (h_world h)) ∧
  h_arrived h = [] ∧ length (h_links h) = length ks ∧
  ∀ i k l, ks !! i = Some k → h_links h !! i = Some l →
    client_started (sp_client k) (sp_client_send k) (sp_client_recv k) (l_client l) ∧
    l = mkLink (l_client l) (sp_peers k) (sp_server k) 0 0.
End hub.
Arguments link X : clear implicits.
Arguments hub X : clear implicits.

(** ** What a connection does to the others *)

Section confined.
Context {X : Type} `{!Platform X} `{!PostLog X}.
Implicit Types w : World X.

(** Rings, counters, logs and memory that are not the connection's stay. *)
Definition confined (k : spoke) w w' : Prop :=
  spares (sp_server k) (sp_server_send k) (sp_server_recv k) w w' ∧
  only_of (sp_server k) w w' ∧ (∀ q, stables q w' = stables q w) ∧
  ∀ x, (sp_region k x → False) → w_mem w' !! x = w_mem w !! x.
#[export] Instance confined_order k : PreOrder (confined k).
Proof.
  split.
  - intros w. by split_and!.
  - intros w1 w2 w3 (S1 & O1 & B1 & M1) (S2 & O2 & B2 & M2). split; [by trans w2|].
    split; [by trans w2|]. split; [intros q; by rewrite B2|]. intros x Hx. by rewrite M2, M1.
Qed.

Lemma mem_read_ext a n m m' :
  (∀ x, a ≤ x < a + Z.of_nat n → m' !! x = m !! x) → mem_read a n m' = mem_read a n m.
Proof.
  revert a. induction n as [|n IH]; intros a H; cbn [mem_read]; [done|].
  rewrite H, IH; [done|intros; apply H; lia|lia].
Qed.

(** What the server's end of a connection relies on. *)
Definition intact (k : spoke) w w' : Prop :=
  (∀ i, state_rely (sp_server k) i (sp_server_send k) (sp_server_recv k) w w') ∧
  sends (sp_server k) w' = sends (sp_server k) w ∧ recvs (sp_server k) w' = recvs (sp_server k) w ∧
  (∀ q, stables q w' = stables q w) ∧ ∀ x, sp_region k x → w_mem w' !! x = w_mem w !! x.
Lemma confined_intact k k' w w' : spokes_apart k k' → confined k w w' → intact k' w w'.
Proof.
  intros (A1 & A2 & A3 & A4 & A5 & A6) (Hs & Ho & Hb & Hm).
  destruct (Ho (sp_server k')) as [Es Er]; [congruence|]. split.
  - intros i rs rr rq sq. by eapply spares_state; [exact Hs|apply not_eq_sym|..].
  - do 3 (split; [done|]). intros x Hx. apply Hm. intros Hx'. by eapply A6.
Qed.
(** A poll moves nothing. *)
Definition still w w' : Prop :=
  w_bufs w' = w_bufs w ∧ w_chans w' = w_chans w ∧ w_mem w' = w_mem w ∧
  ∀ ch, sends ch w' = sends ch w ∧ recvs ch w' = recvs ch w.
Lemma still_state w w' ch i ps pr : still w w' → state_rely ch i ps pr w w'.
Proof.
  intros (Hb & Hc & _) rs rr rq sq Ht. eapply ts_rings; [exact Ht|exact Hc|..]; rewrite Hb; by destruct Ht.
Qed.
Lemma still_stables w w' q : still w w' → stables q w' = stables q w.
Proof. intros (Hb & _). unfold stables. by rewrite Hb. Qed.
Lemma still_intact k w w' : still w w' → intact k w w'.
Proof.
  intros H. split; [intros i; by apply still_state|]. pose proof (λ q, still_stables _ _ q H).
  destruct H as (_ & _ & Hm & Hp). destruct (Hp (sp_server k)). do 3 (split; [done|]).
  intros x _. by rewrite Hm.
Qed.
Lemma poll_still each n w r w' : poll_cq_batch each n w = Ok r w' → still w w'.
Proof.
  intros H. unfold poll_cq_batch, real_poll_completion_queue in H. wstep H as a w1 H1.
  wstep H as ? w2 H2. wstep H as ? w3 H3. apply call_inv in H as (y & m & H & ->).
  apply poll_logged in H as (Hs & Hr & Hm). unfold still, sends, recvs. cbn.
  rewrite Hs, Hr. by split_and!.
Qed.

Lemma server_inv_intact k i gs gr ch e n l w w' :
  intact k w w' →
  server_inv (sp_server k) i (sp_server_send k) (sp_server_recv k)
    (fresh_ring (sp_server_send k)) (moved (fresh_ring (sp_server_recv k)) NUM_BLOCK 0)
    (sp_buffer k) (description (sp_buffer k) (sp_mr k)) (sp_region k) gs gr (mkSide ch w e n l) →
  server_inv (sp_server k) i (sp_server_send k) (sp_server_recv k)
    (fresh_ring (sp_server_send k)) (moved (fresh_ring (sp_server_recv k)) NUM_BLOCK 0)
    (sp_buffer k) (description (sp_buffer k) (sp_mr k)) (sp_region k) gs gr (mkSide ch w' e n l).
Proof.
  intros (Ht & Es & Er & Hb & Hm) [S1 S2 S3 S4 S5 SK S6 SB S7].
  cbn [channel world arrived executed] in *. split; cbn [channel world arrived executed];
    rewrite ?Es, ?Er, ?Hb; try done.
  - by apply Ht.
  - intros q b Hq Hqb. rewrite Hb in Hqb. by eapply SB.
  - intros wr He Hwr. destruct (S7 wr He Hwr) as (a & Ha & Hin & Hr). exists a. split; [done|].
    split; [done|]. rewrite <-Hr. apply mem_read_ext. intros x Hx. apply Hm, Hin. lia.
Qed.
Lemma idle_intact k i w w' : intact k w w' → idle k i w → idle k i w'.
Proof.
  intros (Ht & Es & Er & Hb & Hm) (H1 & H2 & H3 & H4 & H5). split; [by apply Ht|].
  rewrite Es, Er, Hb. do 3 (split; [done|]). intros q b Hq Hqb. rewrite Hb in Hqb. by eapply H5.
Qed.
Lemma linked_intact k i p w :
  intact k (world (server p)) w → linked k i p →
  linked k i (mkPair (client p) (server p <| world := w |>) (peer_comm_fd_mgr p)).
Proof.
  intros Hw (rc0 & b0 & blk & H1 & H2 & H3 & H4 & hs & hr & hk & gs & gr & Hb & Hc & Hs & Hp).
  exists rc0, b0, blk. do 4 (split; [done|]). exists hs, hr, hk, gs, gr. do 2 (split; [done|]).
  split; [|done]. destruct p as [c [ch v e n l] peers]. by eapply server_inv_intact.
Qed.
Lemma linked_client_still k i p w :
  still (world (client p)) w → linked k i p →
  linked k i (mkPair (client p <| world := w |>) (server p) (peer_comm_fd_mgr p)).
Proof.
  intros Hw (rc0 & b0 & blk & H1 & H2 & H3 & H4 & hs & hr & hk & gs & gr & Hb & Hc & Hs & Hp).
  exists rc0, b0, blk. do 4 (split; [done|]). exists hs, hr, hk, gs, gr. split; [done|].
  split; [|by split]. destruct Hc as [C1 C2 C3 C4 C5 CK C6 C7].
  pose proof (still_stables _ _ b0 Hw) as Hst. pose proof (still_state _ _ _ _ _ _ Hw _ _ _ _ C2).
  destruct Hw as (_ & _ & Hm & Hp'). destruct (Hp' (sp_client k)) as [Es Er].
  split; cbn [client channel world arrived upd]; rewrite ?Es, ?Er, ?Hst, ?Hm; done.
Qed.
End confined.

(** ** What each event confines itself to *)

Section events.
Context {X : Type} `{!Platform X} `{!PostLog X}.
Implicit Types w : World X.
Context (k : spoke) (i : Z).

Lemma confined_store w a bs :
  (∀ x, a ≤ x < a + Z.of_nat (length bs) → sp_region k x) →
  confined k w (w <| w_mem ::= mem_write a bs |>).
Proof.
  intros H. split; [by split_and!|]. split; [done|]. split; [done|]. intros x Hx.
  cbn. apply mem_write_frame. intros Hin. by apply Hx, H.
Qed.

(** A transfer to the server stores into its receive, or writes into the send
    buffer. *)
Lemma to_server_confined p c s :
  within (sp_region k) (data_ptr (sp_buffer k)) (buffer_size (sp_buffer k)) →
  linked k i p → carry (client p) (server p) c s →
  confined k (world (server p)) (world s).
Proof.
  intros Hin (rc0 & b0 & blk & _ & _ & _ & _ & hs & hr & hk & gs & gr & Hb & Hc & Hs & _) H.
  destruct H as [wr rw r imm bs Hwr Ho Hi Hcar Hrw Hr Hle | wr addr key bs Hwr Ho Hr Hcar];
    cbn [report store world upd eta_side]; apply confined_store; intros x Hx.
  - rewrite (si_channel _ _ _ _ _ _ _ _ _ _ _ _ Hs) in Hrw.
    destruct (si_recvs _ _ _ _ _ _ _ _ _ _ _ _ Hs) as [_ Hall].
    rewrite Forall_forall in Hall. apply list_elem_of_lookup_2, Hall in Hrw as (a & (key & id & ->) & Ha).
    injection Hr as <-. apply Ha. cbn in Hx, Hle. lia.
  - rewrite (ci_channel _ _ _ _ _ _ _ _ _ _ _ _ _ _ Hc) in Hwr.
    destruct (client_request_at _ _ _ _ _ _ _ _ _ _ _ _ _ _ _ _ Hc Hwr)
      as [[_ (a & ? & ? & ->)]|(_ & _ & _ & Hrem & g & Hg & Hlen)]; [done|].
    rewrite Hr in Hrem. injection Hrem as -> _.
    destruct Hcar as (g' & Hg' & Hl & _). rewrite Hg in Hg'. injection Hg' as <-.
    apply Hin. cbn in *. lia.
Qed.

(** The handler writes one block and moves its own rings and counters. *)
Lemma handler_confined ts each p wc wcs u w :
  tensor_buffer_send ts !! Z.to_nat (u32 i) = Some (sp_server_send k) →
  tensor_buffer_recv ts !! Z.to_nat (u32 i) = Some (sp_server_recv k) →
  linked k i p → arrived (server p) = wc :: wcs →
  server_process_wc ts each wc (world (server p)) = Ok u w →
  confined k (world (server p)) w.
Proof.
  intros Hts Htr (rc0 & b0 & blk & _ & _ & _ & _ & hs & hr & hk & gs & gr & Hb & Hc & Hs & _) Ha H.
  pose proof (λ r n a, block_within _ _ _ _ _ _ _ _ _ _ _ _ r n a Hs) as Hin.
  destruct Hs as [_ S2 _ _ S5 _ S6 _ _]. rewrite Ha in S5. apply Forall_cons in S5 as [Hid _].
  split; [by eapply (server_process_spares (sp_server k))|].
  destruct (server_process_posts _ _ _ _ _ Hts Htr _ _ _ _ _ _ _ _ _ _ H Hid S2 S6)
    as (Hst & Hone & Hsend & Hrecv).
  destruct (is_send wc), (is_recv wc); cbn [Z.b2z] in Hone; try lia.
  - destruct (Hsend eq_refl) as (_ & _ & Hm & Ho). split; [done|]. split; [done|]. intros x _. by rewrite Hm.
  - destruct (Hrecv eq_refl) as (m & a & wr & a' & rw & _ & Ha1 & _ & _ & _ & _ & _ & _ & Hm & Ho).
    split; [done|]. split; [done|]. intros x Hx. apply Hm. intros Hr. apply Hx.
    by apply (Hin _ 24 a (or_introl eq_refl) Ha1).
Qed.

(** The loop that posts a channel's receives. *)
Lemma receives_confined w u w' rs rr rq sq :
  for_each (seqZ 0 NUM_BLOCK) (λ _, post_block (sp_server k) (sp_server_recv k)) w = Ok u w' →
  tower_state (sp_server k) i (sp_server_send k) (sp_server_recv k) w rs rr rq sq →
  confined k w w'.
Proof.
  intros H Hw. split.
  - refine (frames_for_each (sp_server k) (sp_server_send k) (sp_server_recv k) _ _ (λ _, _) w u w' _ H).
    + apply frames_post_block.
    + by eapply state_bases.
  - destruct (post_blocks_post _ _ _ _ _ _ _ H (ts_recv _ _ _ _ _ _ _ _ _ Hw))
      as (St & new & _ & (_ & _ & Hm & Ho) & _). split; [done|]. split; [done|]. intros x _. by rewrite Hm.
Qed.
End events.

(** *** The queue all channels share *)

Section queue.
Context {X : Type} `{!Platform X} `{!PostLog X}.

Lemma own_app ch l l' : own ch (l ++ l') = own ch l ++ own ch l'.
Proof. apply filter_app. Qed.
Lemma own_cons ch wc l : wc_wr_id wc = ch → own ch (wc :: l) = wc :: own ch l.
Proof. intros H. by apply (filter_cons_True (λ wc, wc_wr_id wc = ch)). Qed.
Lemma own_cons_other ch wc l : wc_wr_id wc ≠ ch → own ch (wc :: l) = own ch l.
Proof. intros H. by apply (filter_cons_False (λ wc, wc_wr_id wc = ch)). Qed.

(** A transfer appends to an end's completions at most one of its channel. *)
Definition gains (a a' : side X) : Prop :=
  channel a' = channel a ∧
  (arrived a' = arrived a ∨ ∃ wc, arrived a' = arrived a ++ [wc] ∧ wc_wr_id wc = channel a).
Lemma carry_gains (a b a' b' : side X) : carry a b a' b' → gains a a' ∧ gains b b'.
Proof.
  intros [wr rw r imm bs Hwr Ho Hi Hcar Hrw Hr Hle | wr addr key bs Hwr Ho Hr Hcar].
  - split; (split; [done|right]); eexists; (split; [reflexivity|]); cbn.
    + by eapply sends_id.
    + by eapply recvs_id.
  - split; (split; [done|]); [right|by left]. eexists. split; [reflexivity|].
    by eapply sends_id.
Qed.
(** It sees of the queue only its own completions. *)
Lemma own_end_report wc (a : side X) :
  wc_wr_id wc = channel a → own_end (report wc a) = report wc (own_end a).
Proof.
  intros H. destruct a as [ch w e n l]. change (wc_wr_id wc = ch) in H.
  change (mkSide ch w e n (own ch (l ++ [wc])) = mkSide ch w e n (own ch l ++ [wc])).
  by rewrite own_app, (own_cons ch wc []).
Qed.
Lemma carry_own_r (a b a' b' : side X) :
  carry a b a' b' → carry a (own_end b) a' (own_end b').
Proof.
  intros [wr rw r imm bs Hwr Ho Hi Hcar Hrw Hr Hle | wr addr key bs Hwr Ho Hr Hcar].
  - rewrite own_end_report by (by eapply recvs_id). by eapply (carry_send a (own_end b)).
  - by eapply (carry_write a (own_end b)).
Qed.
Lemma carry_own_l (a b a' b' : side X) :
  carry b a b' a' → carry (own_end b) a (own_end b') a'.
Proof.
  intros [wr rw r imm bs Hwr Ho Hi Hcar Hrw Hr Hle | wr addr key bs Hwr Ho Hr Hcar];
    rewrite own_end_report by (by eapply sends_id).
  - by eapply (carry_send (own_end b)).
  - by eapply (carry_write (own_end b)).
Qed.
#[export] Instance carry_reliable : ReliableLink (X:=X) carry.
Proof. split; [done|eauto]. Qed.
(** What is in the queue does not hinder the link. *)
Lemma carry_own_enabled (a b x y : side X) :
  (carry a (own_end b) x y → ∃ x' y', carry a b x' y') ∧
  (carry (own_end b) a x y → ∃ x' y', carry b a x' y').
Proof.
  split; (intros [wr rw r imm bs Hwr Ho Hi Hcar Hrw Hr Hle | wr addr key bs Hwr Ho Hr Hcar];
    do 2 eexists; [by eapply carry_send|by eapply carry_write]).
Qed.

(** How many completions there are, channel by channel. *)
Lemma own_bound (chs : list Z) n l :
  Forall (λ wc, wc_wr_id wc ∈ chs) l → (∀ ch, ch ∈ chs → (length (own ch l) ≤ n)%nat) →
  (length l ≤ n * length chs)%nat.
Proof.
  revert l. induction chs as [|ch chs IH]; intros l Hl Hn; cbn [length].
  - destruct Hl as [|wc l Hwc]; [cbn; lia|by apply elem_of_nil in Hwc].
  - assert (length l = length (own ch l) + length (filter (λ wc, wc_wr_id wc ≠ ch) l))%nat as ->.
    { clear. induction l as [|wc l IH]; [done|]. destruct (decide (wc_wr_id wc = ch)) as [E|E].
      - rewrite own_cons, filter_cons_False by (done || by intros []). cbn [length]. lia.
      - rewrite own_cons_other, filter_cons_True by done. cbn [length]. lia. }
    pose proof (Hn ch (list_elem_of_here _ _)).
    assert (length (filter (λ wc, wc_wr_id wc ≠ ch) l) ≤ n * length chs)%nat; [|lia].
    apply IH.
    + apply Forall_forall. intros wc [Hne Hin]%list_elem_of_filter. rewrite Forall_forall in Hl.
      by apply Hl, elem_of_cons in Hin as [|].
    + intros ch' Hch'. etrans; [|apply (Hn ch'); by right]. unfold own.
      rewrite list_filter_filter. apply submseteq_length, sublist_submseteq.
      clear. induction l as [|wc l IH]; [done|]. rewrite !filter_cons. repeat case_decide; try tauto;
        by constructor.
Qed.
End queue.

(** ** The invariant of the hub *)

Section invariant.
Context {X : Type} `{!Platform X} `{!PostLog X}.
Implicit Types w : World X.
Context (transfer : side X → side X → side X → side X → Prop) (ks : list spoke).
Context (Hwf : hub_wf ks).

Definition hub_inv (h : hub X) : Prop :=
  length (h_links h) = length ks ∧
  (∀ i k l, ks !! i = Some k → h_links h !! i = Some l → linked k (Z.of_nat i) (view h l)) ∧
  Forall (λ wc, wc_wr_id wc ∈ sp_server <$> ks) (h_arrived h).

Lemma linked_channel k i (h : hub X) l : linked k i (view h l) → l_channel l = sp_server k.
Proof.
  intros (? & ? & ? & _ & _ & _ & _ & ? & ? & ? & ? & ? & _ & _ & Hs & _).
  exact (si_channel _ _ _ _ _ _ _ _ _ _ _ _ Hs).
Qed.
Lemma link_of h i k : hub_inv h → ks !! i = Some k → ∃ l, h_links h !! i = Some l.
Proof.
  intros (Hl & _) Hk. apply lookup_lt_Some in Hk. apply lookup_lt_is_Some_2. lia.
Qed.
Lemma spoke_of h i l : hub_inv h → h_links h !! i = Some l → ∃ k, ks !! i = Some k.
Proof.
  intros (Hl & _) Hk. apply lookup_lt_Some in Hk. apply lookup_lt_is_Some_2. lia.
Qed.

(** An event at one connection. *)
Lemma with_ends_inv h i k l c peers s :
  hub_inv h → ks !! i = Some k → h_links h !! i = Some l →
  channel s = l_channel l → confined k (h_world h) (world s) →
  (∀ ch, ch ≠ l_channel l → own ch (arrived s) = own ch (h_arrived h)) →
  Forall (λ wc, wc_wr_id wc ∈ sp_server <$> ks) (arrived s) →
  linked k (Z.of_nat i) (mkPair c (own_end s) peers) →
  hub_inv (with_ends h i c peers s).
Proof.
  intros (Hlen & Hlinks & Hids) Hk Hl Hch Hconf Hown Hids' Hlinked.
  split; [by cbn; rewrite length_insert|]. split; [|done]. cbn. intros j k' l' Hk' Hl'.
  destruct (decide (j = i)) as [->|Hne].
  - rewrite list_lookup_insert_eq in Hl' by (by eapply lookup_lt_Some).
    injection Hl' as <-. rewrite Hk in Hk'. injection Hk' as <-. by destruct s.
  - rewrite list_lookup_insert_ne in Hl' by done.
    pose proof (Hlinks _ _ _ Hk Hl) as H1. pose proof (Hlinks _ _ _ Hk' Hl') as H2.
    apply linked_channel in H1 as E1. apply linked_channel in H2 as E2.
    destruct Hwf as (_ & _ & Hap). pose proof (Hap i j k k' (not_eq_sym Hne) Hk Hk') as Ha.
    eapply linked_intact in H2; [|eapply confined_intact; [exact Ha|exact Hconf]].
    destruct Ha as (Ha & _). unfold view, own_end, serving, with_ends in *.
    cbn [server client channel world executed consumed arrived upd h_world h_arrived] in *.
    rewrite Hown by congruence. exact H2.
Qed.

(** *** The link *)

Lemma gained_inv (h : hub X) l s :
  Forall (λ wc, wc_wr_id wc ∈ sp_server <$> ks) (h_arrived h) → l_channel l ∈ sp_server <$> ks →
  gains (serving h l) s →
  channel s = l_channel l ∧ (∀ ch, ch ≠ l_channel l → own ch (arrived s) = own ch (h_arrived h)) ∧
  Forall (λ wc, wc_wr_id wc ∈ sp_server <$> ks) (arrived s).
Proof.
  intros Hids Hin (Hch & [-> | (wc & -> & Hid)]); [by split_and!|]. split; [done|]. cbn in Hid. split.
  - intros ch Hne. rewrite own_app, (own_cons_other ch wc []) by congruence. by rewrite app_nil_r.
  - apply Forall_app. split; [done|]. constructor; [by rewrite Hid|constructor].
Qed.
Lemma hub_to_server_keeps (h : hub X) i l c s :
  hub_inv h → h_links h !! i = Some l → carry (l_client l) (serving h l) c s →
  hub_inv (with_ends h i c (l_peers l) s).
Proof.
  intros Hh Hl H. destruct (spoke_of _ _ _ Hh Hl) as [k Hk]. pose proof Hh as (_ & Hlinks & Hids).
  pose proof (Hlinks _ _ _ Hk Hl) as Hp. pose proof (linked_channel _ _ _ _ Hp) as E.
  destruct (carry_gains _ _ _ _ H) as [_ Hg]. apply gained_inv in Hg as (Hc & Ho & Hi); [|done|].
  2:{ rewrite E. by eapply list_elem_of_fmap_2, list_elem_of_lookup_2. }
  apply carry_own_r in H. eapply with_ends_inv; try done.
  - apply (to_server_confined k (Z.of_nat i) (view h l) c (own_end s)); [|done|done].
    by destruct Hwf as (_ & Hall & _), (Hall _ _ Hk).
  - by apply (linked_to_server k _ (view h l)).
Qed.
Lemma hub_to_client_keeps (h : hub X) i l c s :
  hub_inv h → h_links h !! i = Some l → carry (serving h l) (l_client l) s c →
  hub_inv (with_ends h i c (l_peers l) s).
Proof.
  intros Hh Hl H. destruct (spoke_of _ _ _ Hh Hl) as [k Hk]. pose proof Hh as (_ & Hlinks & Hids).
  pose proof (Hlinks _ _ _ Hk Hl) as Hp. pose proof (linked_channel _ _ _ _ Hp) as E.
  assert (world s = h_world h) as Ew by (by destruct H).
  destruct (carry_gains _ _ _ _ H) as [Hg _]. apply gained_inv in Hg as (Hc & Ho & Hi); [|done|].
  2:{ rewrite E. by eapply list_elem_of_fmap_2, list_elem_of_lookup_2. }
  apply carry_own_l in H. eapply with_ends_inv; try done.
  - by rewrite Ew.
  - by apply (linked_to_client k _ (view h l)).
Qed.

(** *** A turn of a client's loop *)

Lemma client_batch k i each p batch rest peers w :
  spoke_wf k → linked k i p → arrived (client p) = batch ++ rest →
  fold_each (client_process_wc (spoke_tensors k) each) (peer_comm_fd_mgr p) batch (world (client p))
    = Ok peers w →
  linked k i (mkPair (client p <| world := w |> <| arrived := rest |>) (server p) peers).
Proof.
  intros Hk. revert p. induction batch as [|wc batch IH]; intros p Hp Ha H; cbn [fold_each app] in *.
  - pinv H. destruct p as [[ch v e n l] s peers]. cbn in Ha |- *. by rewrite <-Ha.
  - apply bind_inv in H as (p1 & w1 & H1 & H).
    pose proof (linked_client _ _ Hk _ _ _ _ _ _ Hp Ha H1) as Hp1.
    by apply (IH _ Hp1) in H.
Qed.
(** What a poll returns decides what the turn handles. *)
Lemma client_turn k i p n peers w :
  spoke_wf k → linked k i p →
  reports (channel (client p)) n (world (client p)) (arrived (client p)) →
  client_poll_channel (spoke_tensors k) (peer_comm_fd_mgr p) (channel (client p)) (world (client p))
    = Ok peers w →
  linked k i (mkPair (client p <| world := w |> <| arrived := drop (Z.to_nat n) (arrived (client p)) |>)
    (server p) peers).
Proof.
  intros Hk Hp (wcs & w1 & Hpoll & Htake) H. unfold client_poll_channel in H.
  rewrite (bind_Ok _ _ _ _ _ Hpoll) in H. apply poll_still in Hpoll.
  pose proof (linked_client_still _ _ _ _ Hpoll Hp) as Hp1. destruct (Z.eqb_spec n 0) as [->|Hn].
  - pinv H. by destruct p as [[ch v e m l] s peers].
  - rewrite Htake in H. eapply (client_batch k i _ _ _ (drop (Z.to_nat n) (arrived (client p)))) in Hp1;
      [exact Hp1|done| |exact H]. symmetry. apply take_drop.
Qed.
Lemma hub_client_keeps (h : hub X) i l k n peers w :
  hub_inv h → h_links h !! i = Some l → ks !! i = Some k →
  reports (channel (l_client l)) n (world (l_client l)) (arrived (l_client l)) →
  client_poll_channel (spoke_tensors k) (l_peers l) (channel (l_client l)) (world (l_client l))
    = Ok peers w →
  hub_inv (with_ends h i
    (l_client l <| world := w |> <| arrived := drop (Z.to_nat n) (arrived (l_client l)) |>)
    peers (serving h l)).
Proof.
  intros Hh Hl Hk Hr H. pose proof Hh as (_ & Hlinks & Hids).
  eapply with_ends_inv; try done. eapply (client_turn k _ (view h l)); try done.
  - by destruct Hwf as (_ & Hall & _), (Hall _ _ Hk).
  - by apply Hlinks.
Qed.

(** *** A turn of the server's loop *)

Lemma tensors_at i k (f : spoke → Z) :
  ks !! i = Some k → (f <$> ks) !! Z.to_nat (u32 (Z.of_nat i)) = Some (f k).
Proof.
  intros Hk. apply lookup_lt_Some in Hk as Hlt. destruct Hwf as (Hn & _).
  rewrite u32_small, Nat2Z.id, list_lookup_fmap, Hk; [done|lia].
Qed.
Lemma hub_handler_keeps each w wc wcs links u w' :
  hub_inv (mkHub w (wc :: wcs) links) → server_process_wc (hub_tensors ks) each wc w = Ok u w' →
  hub_inv (mkHub w' wcs links).
Proof.
  intros Hh H. pose proof Hh as (_ & Hlinks & Hids). cbn [h_links h_arrived] in *.
  apply Forall_cons in Hids as [Hid Hids]. apply list_elem_of_fmap in Hid as (k & Hid & Hk).
  apply list_elem_of_lookup in Hk as [i Hk]. destruct (link_of _ _ _ Hh Hk) as [l Hl].
  cbn [h_links] in Hl. pose proof (Hlinks _ _ _ Hk Hl) as Hp. pose proof (linked_channel _ _ _ _ Hp) as E.
  assert (arrived (server (view (mkHub w (wc :: wcs) links) l)) = wc :: own (l_channel l) wcs) as Ha.
  { change (own (l_channel l) (wc :: wcs) = wc :: own (l_channel l) wcs).
    apply own_cons. congruence. }
  assert (mkHub w' wcs links = with_ends (mkHub w (wc :: wcs) links) i (l_client l) (l_peers l)
    (mkSide (l_channel l) w' (l_executed l) (l_consumed l) wcs)) as ->.
  { unfold with_ends. cbn. rewrite list_insert_id; [done|]. rewrite Hl. by destruct l. }
  pose proof (tensors_at i k sp_server_send Hk) as Hts. pose proof (tensors_at i k sp_server_recv Hk) as Htr.
  eapply with_ends_inv; [exact Hh|exact Hk|exact Hl|done| | |done|].
  - exact (handler_confined k _ (hub_tensors ks) each _ _ _ _ _ Hts Htr Hp Ha H).
  - intros ch Hne. symmetry. apply own_cons_other. congruence.
  - destruct Hwf as (_ & Hall & _). destruct (Hall _ _ Hk) as [Hkw _].
    exact (linked_server k _ Hkw (hub_tensors ks) each _ _ _ _ _ Hts Htr Hp Ha H).
Qed.
Lemma hub_batch_keeps each w batch rest links u w' :
  hub_inv (mkHub w (batch ++ rest) links) →
  for_each batch (server_process_wc (hub_tensors ks) each) w = Ok u w' →
  hub_inv (mkHub w' rest links).
Proof.
  revert w. induction batch as [|wc batch IH]; intros w Hh H; cbn [for_each app] in *; [by pinv H|].
  apply bind_inv in H as (? & w1 & H1 & H). eapply IH; [|exact H]. by eapply hub_handler_keeps.
Qed.
Lemma hub_server_keeps (h : hub X) each n u w :
  hub_inv h → reports each n (h_world h) (h_arrived h) →
  server_poll_channel (hub_tensors ks) each (h_world h) = Ok u w →
  hub_inv (mkHub w (drop (Z.to_nat n) (h_arrived h)) (h_links h)).
Proof.
  intros (Hlen & Hlinks & Hids) (wcs & w1 & Hpoll & Htake) H. unfold server_poll_channel in H.
  rewrite (bind_Ok _ _ _ _ _ Hpoll) in H. apply poll_still in Hpoll.
  assert (hub_inv (mkHub w1 (h_arrived h) (h_links h))) as Hh1.
  { split; [done|]. split; [|done]. intros i k l Hk Hl. specialize (Hlinks _ _ _ Hk Hl).
    by eapply linked_intact in Hlinks; [|by apply still_intact]. }
  destruct (Z.eqb_spec n 0) as [->|Hn]; [by pinv H|]. rewrite Htake in H.
  eapply hub_batch_keeps; [|exact H]. by rewrite take_drop.
Qed.

Context `{!ReliableLink transfer}.

Lemma hub_reachable h h' : hub_inv h → rtc (hub_step transfer ks) h h' → hub_inv h'.
Proof.
  intros Hh H. induction H as [|h1 h2 h3 [i l c s Hl H|i l c s Hl H|i l k n peers w Hl Hk Hr H|each n u w He Hr H] _ IH];
    [done|apply IH..].
  - by apply hub_to_server_keeps; [..|by apply transfer_carries].
  - by apply hub_to_client_keeps; [..|by apply transfer_carries].
  - by eapply hub_client_keeps.
  - by eapply hub_server_keeps.
Qed.
End invariant.

(** ** From the start *)

Section start.
Context {X : Type} `{!Platform X} `{!PostLog X}.
Implicit Types w : World X.
Context (ks : list spoke) (Hwf : hub_wf ks).

Definition server_posted (k : spoke) (i : Z) w : Prop :=
  server_inv (sp_server k) i (sp_server_send k) (sp_server_recv k)
    (fresh_ring (sp_server_send k)) (moved (fresh_ring (sp_server_recv k)) NUM_BLOCK 0)
    (sp_buffer k) (description (sp_buffer k) (sp_mr k)) (sp_region k) 0 0
    (mkSide (sp_server k) w 0 0 []).
Lemma server_starts w u w' :
  (∀ (i : nat) k, ks !! i = Some k → idle k (Z.of_nat i) w) →
  tower_post_receives (hub_tensors ks) (sp_server <$> ks) w = Ok u w' →
  ∀ (i : nat) k, ks !! i = Some k → server_posted k (Z.of_nat i) w'.
Proof.
  intros Hidle H i k Hk. unfold tower_post_receives in H. cbn [hub_tensors tensor_buffer_recv] in H.
  assert (zip (sp_server <$> ks) (sp_server_recv <$> ks) = (λ k, (sp_server k, sp_server_recv k)) <$> ks) as E.
  { clear. induction ks as [|k l IH]; cbn; [done|]. by f_equal. }
  rewrite E in H. clear E.
  refine (for_each_parts (λ i w, ∀ k, ks !! i = Some k → idle k (Z.of_nat i) w)
    (λ i w, ∀ k, ks !! i = Some k → server_posted k (Z.of_nat i) w) _ _ _ _ _ _ _ H i _ k Hk).
  - intros j a w1 u1 w2 Ha Hj Hb. apply list_lookup_fmap_Some in Ha as (kj & -> & Hkj).
    destruct (Hj _ Hkj) as (I1 & I2 & I3 & I4 & I5). cbn in Hb. split.
    + intros k' Hk'. rewrite Hkj in Hk'. injection Hk' as <-. by eapply server_receives_ready.
    + apply (receives_confined _ _ _ _ _ _ _ _ _ Hb) in I1. intros j' Hne _.
      assert (∀ k', ks !! j' = Some k' → intact k' w1 w2) as Hin.
      { intros k' Hk'. eapply confined_intact; [|exact I1]. destruct Hwf as (_ & _ & Hap).
        exact (Hap j j' _ _ (not_eq_sym Hne) Hkj Hk'). }
      split; intros H' k' Hk'; [by eapply idle_intact; [apply Hin|apply H']|].
      eapply server_inv_intact; [by apply Hin|by apply H'].
  - intros j _. apply Hidle.
  - rewrite length_fmap. by eapply lookup_lt_Some.
Qed.
Lemma hub_starts h : hub_started ks h → hub_inv ks h.
Proof.
  intros ((w & u & Hidle & H) & Ha & Hlen & Hlinks). split; [done|]. rewrite Ha. split; [|constructor].
  intros i k l Hk Hl. destruct (Hlinks _ _ _ Hk Hl) as [Hc El].
  pose proof (server_starts _ _ _ Hidle H _ _ Hk) as Hs.
  unfold view, own_end, serving. rewrite El, Ha. by apply client_ready_linked.
Qed.
End start.

(** ** Running it *)

Section run.
Context {X : Type} `{!Platform X} `{!PostLog X}.
Implicit Types w : World X.
Context (ks : list spoke).

Inductive hub_move :=
  | HubToServer (i : nat) | HubToClient (i : nat) | ClientPolls (i : nat) | ServerPolls (each : Z).
(** The completions a poll reports, if they are the oldest. *)
Definition polled (each : Z) w (queue : list ibv_wc) : option Z :=
  match poll_cq_batch each WC_BATCH w with
  | Ok (n, wcs) _ =>
      if decide (take (Z.to_nat n) wcs = take (Z.to_nat n) queue) then Some n else None
  | Abort _ _ => None
  end.
Definition run_hub_move (h : hub X) (mv : hub_move) : option (hub X) :=
  match mv with
  | HubToServer i =>
      l ← h_links h !! i; q ← carry_next (l_client l) (serving h l);
      Some (with_ends h i q.1 (l_peers l) q.2)
  | HubToClient i =>
      l ← h_links h !! i; q ← carry_next (serving h l) (l_client l);
      Some (with_ends h i q.2 (l_peers l) q.1)
  | ClientPolls i =>
      l ← h_links h !! i; k ← ks !! i;
      let c := l_client l in
      n ← polled (channel c) (world c) (arrived c);
      match client_poll_channel (spoke_tensors k) (l_peers l) (channel c) (world c) with
      | Ok peers w =>
          Some (with_ends h i (c <| world := w |> <| arrived := drop (Z.to_nat n) (arrived c) |>)
            peers (serving h l))
      | Abort _ _ => None
      end
  | ServerPolls each =>
      if decide (each ∈ l_channel <$> h_links h) then
        n ← polled each (h_world h) (h_arrived h);
        match server_poll_channel (hub_tensors ks) each (h_world h) with
        | Ok _ w => Some (mkHub w (drop (Z.to_nat n) (h_arrived h)) (h_links h))
        | Abort _ _ => None
        end
      else None
  end.
Fixpoint run_hub (l : list hub_move) (h : hub X) : option (hub X) :=
  match l with
  | [] => Some h
  | mv :: l => h' ← run_hub_move h mv; run_hub l h'
  end.

Lemma polled_reports each w queue n : polled each w queue = Some n → reports each n w queue.
Proof.
  unfold polled. intros H. destruct (poll_cq_batch _ _ _) as [[n' wcs] w1|] eqn:E; [|done].
  case_decide as Hq; [|done]. injection H as <-. by exists wcs, w1.
Qed.
Lemma run_hub_steps l h h' :
  run_hub l h = Some h' → rtc (hub_step (λ a b a' b', carry_next a b = Some (a', b')) ks) h h'.
Proof.
  revert h. induction l as [|mv l IH]; cbn; intros h H; [by injection H as <-|].
  destruct (run_hub_move h mv) as [h1|] eqn:E; [|done]. eapply rtc_l; [|by apply IH].
  clear H IH. destruct mv as [i|i|i|each]; cbn in E.
  - destruct (h_links h !! i) as [l1|] eqn:Hl; [|done]. cbn in E.
    destruct (carry_next _ _) as [[c s]|] eqn:Hc; [|done]. injection E as <-. by apply hub_to_server.
  - destruct (h_links h !! i) as [l1|] eqn:Hl; [|done]. cbn in E.
    destruct (carry_next _ _) as [[s c]|] eqn:Hc; [|done]. injection E as <-. by apply hub_to_client.
  - destruct (h_links h !! i) as [l1|] eqn:Hl; [|done]. cbn in E.
    destruct (ks !! i) as [k|] eqn:Hk; [|done]. cbn in E.
    destruct (polled _ _ _) as [n|] eqn:Hn; [|done]. cbn in E. apply polled_reports in Hn.
    destruct (client_poll_channel _ _ _ _) as [peers w|] eqn:Hp; [|done]. injection E as <-.
    by eapply hub_client_polls.
  - case_decide as He; [|done]. destruct (polled _ _ _) as [n|] eqn:Hn; [|done]. cbn in E.
    apply polled_reports in Hn.
    destruct (server_poll_channel _ _ _) as [u w|] eqn:Hp; [|done]. injection E as <-.
    by eapply hub_server_polls.
Qed.
End run.

(** ** Properties *)

Section hub_properties.
Context {X : Type} `{!Platform X} `{!PostLog X}.

(** C4: a server of the mesh and any number of clients stay together: whatever
    the order in which the link carries requests, clients take their turns and
    the server polls its channels, and whatever the batches it gets of the queue
    they share, every connection keeps what a single client and server keep, with
    no regard to the others: in particular each client writes into its own send
    buffer of the server only.  The shared queue never holds more than two
    completions per connection, and a client's never more than [NUM_BLOCK] + 1. *)
Theorem hub_stays_safe ks transfer `{!ReliableLink transfer} (h0 h : hub X) :
  hub_wf ks → hub_started ks h0 → rtc (hub_step transfer ks) h0 h →
  length (h_links h) = length ks ∧
  (∀ (i : nat) k l, ks !! i = Some k → h_links h !! i = Some l →
   link_safe k (Z.of_nat i) (view h l)) ∧
  Z.of_nat (length (h_arrived h)) ≤ 2 * Z.of_nat (length ks).
Proof.
  intros Hwf H0 H. apply hub_starts in H0; [|done].
  apply (hub_reachable _ _ Hwf) in H; [|done..].
  assert (∀ (i : nat) k l, ks !! i = Some k → h_links h !! i = Some l →
    link_safe k (Z.of_nat i) (view h l)) as Hsafe by (intros i k l Hk Hl; by eapply linked_safe, H).
  split; [by destruct H|]. split; [exact Hsafe|]. pose proof H as (_ & Hlinks & Hids).
  cut (length (h_arrived h) ≤ 2 * length (sp_server <$> ks))%nat; [rewrite length_fmap; lia|].
  apply own_bound; [done|]. intros ch (k & -> & Hk)%list_elem_of_fmap.
  apply list_elem_of_lookup in Hk as [i Hk]. destruct (link_of ks _ _ _ H Hk) as [l Hl].
  destruct (Hsafe _ _ _ Hk Hl) as (_ & _ & _ & _ & _ & _ & _ & Hn).
  change (Z.of_nat (length (own (l_channel l) (h_arrived h))) ≤ 2) in Hn.
  rewrite <-(linked_channel _ _ _ _ (Hlinks _ _ _ Hk Hl)). lia.
Qed.

(** C5: no client of the hub is forgotten: in every state the server and its
    clients reach, each connection has a completion to handle, in its client's
    queue or in the one the server's channels share, or the link carries its next
    request. *)
Theorem hub_goes_on ks transfer `{!ReliableLink transfer} (h0 h : hub X) :
  hub_wf ks → hub_started ks h0 → rtc (hub_step transfer ks) h0 h →
  ∀ (i : nat) l, h_links h !! i = Some l →
    arrived (l_client l) ≠ [] ∨ (∃ wc, wc ∈ h_arrived h ∧ wc_wr_id wc = l_channel l) ∨
    (∃ c s, transfer (l_client l) (serving h l) c s) ∨
    (∃ s c, transfer (serving h l) (l_client l) s c).
Proof.
  intros Hwf H0 H i l Hl. apply hub_starts in H0; [|done].
  apply (hub_reachable _ _ Hwf) in H; [|done..]. destruct (spoke_of ks _ _ _ H Hl) as [k Hk].
  pose proof (proj1 (proj2 H) _ _ _ Hk Hl) as Hp.
  destruct (linked_moves k (Z.of_nat i) carry _ Hp) as [Hc|[Hs|[(c & s & Hc)|(s & c & Hc)]]].
  - by left.
  - right; left. cbn in Hs. destruct (own (l_channel l) (h_arrived h)) as [|wc q] eqn:E; [done|].
    exists wc. assert (wc ∈ own (l_channel l) (h_arrived h)) as Hin by (rewrite E; by left).
    by apply list_elem_of_filter in Hin as [? ?].
  - apply carry_own_enabled in Hc as (c' & s' & Hc). apply transfer_goes_on in Hc. auto.
  - apply carry_own_enabled in Hc as (c' & s' & Hc). apply transfer_goes_on in Hc. auto.
Qed.
End hub_properties.

(** ** Witnesses *)

(** A server with two channels, 500 and 501, and a client for each; the queues
    report scripted batches, of both channels on the server. *)
Definition hb_sb : RDMABuffer :=
  registered 500 (Some me_mr) (base_at 30000 (2^28) BLOCK_SIZE NUM_BLOCK "b").
Definition hb_k0 : spoke :=
  mkSpoke 500 10000 20000 500 10000 20000 me_sb me_mr me_peers (λ x, x < 2^27).
Definition hb_k1 : spoke :=
  mkSpoke 500 10000 20000 501 30000 40000 hb_sb me_mr me_peers (λ x, 2^27 ≤ x).
Definition hb_ks : list spoke := [hb_k0; hb_k1].
Definition hb_wc (ch : Z) (op : ibv_wc_opcode) (n imm fl : Z) : ibv_wc := mkWc ch IBV_WC_SUCCESS op n imm fl.
Definition hb_polls (script : list (list ibv_wc)) (w : World Sim) : World Sim :=
  w <| w_ext ::= λ x, x <| sim_completions := script |> |>.
(** The first bytes of the blocks the server answers from. *)
Definition hb_mem : mem :=
  foldr (λ a, mem_write a (zeros 24)) ∅
    (((λ i, 2^20 + i * BLOCK_SIZE) <$> seqZ 0 NUM_BLOCK) ++
     ((λ i, 2^28 + i * BLOCK_SIZE) <$> seqZ 0 NUM_BLOCK)).
Definition hb_w0 : World Sim :=
  hb_polls [[hb_wc 500 IBV_WC_RECV 1 1 2; hb_wc 501 IBV_WC_RECV 1 1 2];
            [hb_wc 501 IBV_WC_SEND 24 0 0; hb_wc 500 IBV_WC_SEND 24 0 0]]
    (state_of (setup_index_in_session 501 1 (la_w0 <| w_mem := hb_mem |>))).
Definition hb_w : World Sim :=
  state_of (tower_post_receives (hub_tensors hb_ks) [500; 501] hb_w0).
Definition hb_c0 : World Sim :=
  hb_polls [[hb_wc 500 IBV_WC_SEND 1 0 0; hb_wc 500 IBV_WC_RECV 24 2 2]] me_w0.
Definition hb_c1 : World Sim := state_of (tower_post_receives me_t [500] hb_c0).
Definition hb_client : side Sim := mkSide 500 (state_of (client_request me_t 500 hb_c1)) 0 0 [].
Definition hb_start : hub Sim :=
  mkHub hb_w [] [mkLink hb_client me_peers 500 0 0; mkLink hb_client me_peers 501 0 0].
Definition hb_moves : list hub_move :=
  [HubToServer 0; HubToServer 1; ServerPolls 500; HubToClient 1; ClientPolls 1; HubToClient 0;
   ServerPolls 501; HubToServer 1; ClientPolls 0].
Definition hb_end : hub Sim := default hb_start (run_hub hb_ks hb_moves hb_start).

Lemma hb_run : run_hub hb_ks hb_moves hb_start = Some hb_end.
Proof.
  assert (match run_hub hb_ks hb_moves hb_start with Some _ => true | None => false end = true)
    as H by (vm_compute; reflexivity).
  unfold hb_end. by destruct (run_hub _ _ _).
Qed.

(** The blocks of a ring, in a part of the memory. *)
Definition blocks_in (lo hi : Z) (w : World Sim) (qs : list Z) : bool :=
  forallb (λ q, match w_bufs w !! q with
    | Some b => (lo <=? data_ptr b) && (data_ptr b + buffer_size b <=? hi)
    | None => true
    end) qs.
Lemma blocks_in_within lo hi w qs (R : Z → Prop) q b :
  blocks_in lo hi w qs = true → (∀ x, lo ≤ x < hi → R x) →
  q ∈ qs → stables q w = Some (stable b) → within R (data_ptr b) (buffer_size b).
Proof.
  intros H HR Hq Hb x Hx. unfold blocks_in in H. rewrite forallb_forall in H.
  apply list_elem_of_In, H in Hq. unfold stables in Hb. destruct (w_bufs w !! q) as [b'|]; [|done].
  injection Hb as E1 E2 _ _. apply andb_true_iff in Hq as [H1 H2]. apply HR. lia.
Qed.

Lemma hb_idle_0 : idle hb_k0 0 hb_w0.
Proof.
  split; [split; [ring_computes|ring_computes|done|vm_compute; reflexivity|vm_compute; reflexivity]|].
  split; [vm_compute; reflexivity|]. split; [vm_compute; reflexivity|].
  split; [vm_compute; reflexivity|]. intros q b. eapply (blocks_in_within 0 (2^27)).
  - vm_compute; reflexivity.
  - cbn. lia.
Qed.
Lemma hb_idle_1 : idle hb_k1 1 hb_w0.
Proof.
  split; [split; [ring_computes|ring_computes|done|vm_compute; reflexivity|vm_compute; reflexivity]|].
  split; [vm_compute; reflexivity|]. split; [vm_compute; reflexivity|].
  split; [vm_compute; reflexivity|]. intros q b. eapply (blocks_in_within (2^27) (2^32)).
  - vm_compute; reflexivity.
  - cbn. lia.
Qed.

Lemma hb_spokes : hub_wf hb_ks.
Proof.
  split; [done|]. split.
  - intros [|[|i]] k [= <-]; (split; [split; [reflexivity|apply (bool_decide_unpack _); vm_compute; exact I]|]);
      intros x Hx; [change (2^20 ≤ x < 2^20 + 2^21) in Hx; change (x < 2^27)
                   |change (2^28 ≤ x < 2^28 + 2^21) in Hx; change (2^27 ≤ x)]; lia.
  - intros [|[|i]] [|[|j]] k k' Hne [= <-] [= <-]; try by destruct Hne.
    all: unfold spokes_apart; cbn; split_and!; lia.
Qed.
Lemma hb_polls_state script ch idx ps pr w rs rr rq sq :
  tower_state ch idx ps pr w rs rr rq sq → tower_state ch idx ps pr (hb_polls script w) rs rr rq sq.
Proof. intros [H1 H2 H3 H4 H5]. by split. Qed.
Lemma hb_client_started : client_started 500 10000 20000 hb_client.
Proof.
  exists hb_c0, tt, hb_c1, tt. split; [exact (hb_polls_state _ _ _ _ _ _ _ _ _ _ me_state)|].
  split; [vm_compute; reflexivity|]. split; [vm_compute; reflexivity|].
  split; [apply returned_state; vm_compute; reflexivity|].
  split; [apply returned_state; vm_compute; reflexivity|reflexivity].
Qed.
Lemma hb_ready : hub_started hb_ks hb_start.
Proof.
  split; [|split; [done|split; [done|]]].
  - exists hb_w0, tt. split; [|apply returned_state; vm_compute; reflexivity].
    intros [|[|i]] k [= <-]; [exact hb_idle_0|exact hb_idle_1].
  - intros [|[|i]] k l [= <-] [= <-]; (split; [exact hb_client_started|reflexivity]).
Qed.

(** Both clients have learned where to write. *)
Lemma hub_stays_safe_witness :
  (l_peers <$> h_links hb_end) = [[description me_sb me_mr]; [description hb_sb me_mr]] ∧
  (∀ i k l, hb_ks !! i = Some k → h_links hb_end !! i = Some l →
   link_safe k (Z.of_nat i) (view hb_end l)) ∧ Z.of_nat (length (h_arrived hb_end)) ≤ 4.
Proof.
  split; [vm_compute; reflexivity|].
  exact (proj2 (hub_stays_safe hb_ks _ hb_start hb_end hb_spokes hb_ready (run_hub_steps _ _ _ _ hb_run))).
Defined.
Lemma hub_goes_on_witness :
  ∃ l, h_links hb_end !! 1%nat = Some l ∧
    (arrived (l_client l) ≠ [] ∨ (∃ wc, wc ∈ h_arrived hb_end ∧ wc_wr_id wc = l_channel l) ∨
     (∃ c s, carry_next (l_client l) (serving hb_end l) = Some (c, s)) ∨
     (∃ s c, carry_next (serving hb_end l) (l_client l) = Some (s, c))).
Proof.
  assert (is_Some (h_links hb_end !! 1%nat)) as [l E] by (apply is_Some_computes; vm_compute; reflexivity).
  exists l. split; [exact E|].
  exact (hub_goes_on hb_ks _ hb_start hb_end hb_spokes hb_ready (run_hub_steps _ _ _ _ hb_run) 1%nat l E).
Defined.
