(* ===== verification/Turns.v ===== *)
(** * The turns of the mesh return

    In every state a server of the mesh and its clients reach (Hub), what their
    polling loops do with the completions that have arrived returns: no check of
    the handlers fails and nothing they do is undefined, unless the verbs refuse a
    request. *)
From S2P Require Import Prelude Words Types Layout World Sim Ident Device Buffer.
From S2P Require Import Adapter Channel Tcp Endpoint Session ClientServer.
From S2P Require Import Flow Mesh Lanes Posts Pair Hub.

(** ** Returning, up to a refused request *)

Section ends.
Context {S : Type}.

(** The two checks of the answers of [ibv_post_send] and [ibv_post_recv]. *)
Definition refusal (f : failure) : Prop :=
  f = Fatal "failed to post send_request" ∨ f = Fatal "failed to post RR".
(** From [s], [m] returns with [Q], or a request is refused. *)
Definition ends {A} (m : M S A) (s : S) (Q : A → S → Prop) : Prop :=
  match m s with Ok a s' => Q a s' | Abort f _ => refusal f end.

Lemma ends_Ok {A} (m : M S A) s a s' (Q : A → S → Prop) : m s = Ok a s' → Q a s' → ends m s Q.
Proof. unfold ends. by intros ->. Qed.
Lemma ends_ret {A} (a : A) s (Q : A → S → Prop) : Q a s → ends (mret a) s Q.
Proof. done. Qed.
Lemma ends_bind {A B} (m : M S A) (k : A → M S B) s (Q : B → S → Prop) :
  ends m s (λ a s', ends (k a) s' Q) → ends (m ≫= k) s Q.
Proof. unfold ends, mbind, M_bind. by destruct (m s). Qed.
Lemma ends_mono {A} (m : M S A) s (P Q : A → S → Prop) :
  ends m s P → (∀ a s', m s = Ok a s' → P a s' → Q a s') → ends m s Q.
Proof. unfold ends. destruct (m s); auto. Qed.
(** What is known of [m] when it returns carries over. *)
Lemma ends_returned {A} (m : M S A) s (Q : A → S → Prop) :
  ends m s (λ _ _, True) → (∀ a s', m s = Ok a s' → Q a s') → ends m s Q.
Proof. intros H HQ. eapply ends_mono; [exact H|auto]. Qed.
Lemma ends_check (b : bool) msg s (Q : unit → S → Prop) : b = true → Q tt s → ends (check b msg) s Q.
Proof. by intros ->. Qed.
Lemma ends_defined (b : bool) msg s (Q : unit → S → Prop) :
  b = true → Q tt s → ends (defined b msg) s Q.
Proof. by intros ->. Qed.
Lemma ends_must {A} (o : option A) msg a s (Q : A → S → Prop) :
  o = Some a → Q a s → ends (must o msg) s Q.
Proof. by intros ->. Qed.
Lemma ends_for_each {A} (I : nat → S → Prop) (body : A → M S unit) (l : list A) s :
  (∀ i a s, l !! i = Some a → I i s → ends (body a) s (λ _ s', I (Datatypes.S i) s')) →
  I 0%nat s → ends (for_each l body) s (λ _ s', I (length l) s').
Proof.
  revert I s. induction l as [|a l IH]; intros I s Hb H0; cbn [for_each length]; [done|].
  apply ends_bind. eapply ends_mono; [exact (Hb 0%nat a s eq_refl H0)|]. intros u s' _ H1.
  apply (IH (λ i, I (Datatypes.S i))); [|done]. intros i. apply (Hb (Datatypes.S i)).
Qed.
End ends.

(** ** The operations of a channel *)

Section operations.
Context {X : Type} `{!Platform X}.
Implicit Types w : World X.

(** A registered block. *)
Definition block_ready (q : Z) w : Prop :=
  q ≠ 0 ∧ ∃ b, stables q w = Some (stable b) ∧ usable b ∧ is_Some (mr_ b) ∧ buffer_size b = BLOCK_SIZE.
Definition ring_ready (r : ring) w : Prop := ∀ q, q ∈ slots r → block_ready q w.
(** Far from the ends of [int64_t]. *)
Definition small (n : Z) : Prop := -2^62 ≤ n ≤ 2^62.

Lemma block_ready_at q w :
  block_ready q w → q ≠ 0 ∧ ∃ b, w_bufs w !! q = Some b ∧ usable b ∧ is_Some (mr_ b) ∧
    buffer_size b = BLOCK_SIZE.
Proof.
  intros (Hq & b & Hb & Hu & Hm & Hn). split; [done|]. unfold stables in Hb.
  destruct (w_bufs w !! q) as [b'|]; [|done]. injection Hb as E1 E2 E3 E4. exists b'.
  unfold usable in *. by rewrite E1, E2, E3, E4.
Qed.
Lemma ring_ready_same r w w' : (∀ q, stables q w' = stables q w) → ring_ready r w → ring_ready r w'.
Proof. intros E H q Hq. unfold block_ready. rewrite E. by apply H. Qed.

Lemma inflight_at ch w rq sq :
  inflight w ch = Some (rq, sq) →
  ∃ c, w_chans w !! ch = Some c ∧ rq_inflight (adapter c) = rq ∧ sq_inflight (adapter c) = sq.
Proof.
  unfold inflight. destruct (w_chans w !! ch) as [c|]; [|done]. intros [= <- <-]. eauto.
Qed.
Lemma ends_count64 n d w : small n → -1 ≤ d ≤ 1 → ends (count64 n d) w (λ _ w', w' = w).
Proof.
  intros Hn Hd. unfold count64. apply ends_bind, ends_defined; [|done].
  unfold small, INT64_MIN, INT64_MAX in *. apply andb_true_iff. lia.
Qed.
(** The four counting operations. *)
Ltac counts Hc Hn :=
  apply inflight_at in Hc as (c & Hc & ? & ?);
  apply ends_bind; eapply ends_Ok; [by apply adapter_at_eq|];
  apply ends_bind; eapply ends_mono; [apply ends_count64; [subst; exact Hn|lia]|];
  intros ? ? _ ->; eapply ends_Ok; [by apply upd_adapter_eq|];
  eexists; cbn; apply lookup_insert_eq.
Lemma ends_increase_sqe ch w rq sq :
  inflight w ch = Some (rq, sq) → small sq →
  ends (increase_sqe ch) w (λ _ w', ∃ c, w_chans w' !! ch = Some c).
Proof. intros Hc Hn. unfold increase_sqe. counts Hc Hn. Qed.
Lemma ends_increase_rqe ch w rq sq :
  inflight w ch = Some (rq, sq) → small rq →
  ends (increase_rqe ch) w (λ _ w', ∃ c, w_chans w' !! ch = Some c).
Proof. intros Hc Hn. unfold increase_rqe. counts Hc Hn. Qed.
Lemma ends_decrease_sqe ch w rq sq :
  inflight w ch = Some (rq, sq) → small sq →
  ends (decrease_sqe ch) w (λ _ w', ∃ c, w_chans w' !! ch = Some c).
Proof. intros Hc Hn. unfold decrease_sqe. counts Hc Hn. Qed.
Lemma ends_decrease_rqe ch w rq sq :
  inflight w ch = Some (rq, sq) → small rq →
  ends (decrease_rqe ch) w (λ _ w', ∃ c, w_chans w' !! ch = Some c).
Proof. intros Hc Hn. unfold decrease_rqe. counts Hc Hn. Qed.

Lemma ends_post_send qp wr w : ends (post_send qp wr) w (λ _ _, True).
Proof.
  unfold post_send, ends, mbind, M_bind, call.
  destruct (ibv_post_send qp wr (w_ext w) (w_mem w)) as [r [x m]]. cbn.
  destruct (r =? 0); cbn; [done|by left].
Qed.
Lemma ends_real_recv qp m addr n key w :
  is_Some m → ends (real_recv_ qp m addr n key) w (λ _ _, True).
Proof.
  intros [mr ->]. unfold real_recv_, ends, mbind, M_bind, call. cbn.
  destruct (ibv_post_recv _ _ (w_ext w) (w_mem w)) as [r [x m]]. cbn.
  destruct (r =? 0); cbn; [done|by right].
Qed.

(** The checks of a request on a registered block, passed. *)
Ltac pass_block H b :=
  apply block_ready_at in H as (? & b & Hb & ? & ? & Hsz);
  apply ends_bind, ends_check; [by apply negb_true_iff, Z.eqb_neq|];
  apply ends_bind; eapply ends_Ok; [by eapply security_check_eq|];
  apply ends_bind; eapply ends_Ok; [by apply buf_at_eq|].
Lemma ends_send_remote ch q n tag w rq sq :
  block_ready q w → u32 n ≤ BLOCK_SIZE → inflight w ch = Some (rq, sq) → small sq →
  ends (send_remote ch q n tag) w (λ _ _, True).
Proof.
  intros H Hn Hc Hs. unfold send_remote. cbv zeta. pass_block H b.
  apply ends_bind, ends_check; [apply Z.leb_le; lia|].
  apply ends_bind. eapply ends_mono; [by eapply ends_increase_sqe|]. intros u w' _ [c Hc'].
  apply ends_bind. eapply ends_Ok; [by apply adapter_at_eq|].
  destruct (mr_ b) as [m|]; [|by destruct (is_Some_None (A:=ibv_mr))]. apply ends_post_send.
Qed.
Lemma ends_recv_remote ch q n w rq sq :
  block_ready q w → u32 n ≤ BLOCK_SIZE → inflight w ch = Some (rq, sq) → small rq →
  ends (recv_remote ch q n) w (λ _ _, True).
Proof.
  intros H Hn Hc Hs. unfold recv_remote. cbv zeta. pass_block H b.
  apply ends_bind, ends_check; [apply Z.leb_le; lia|].
  apply ends_bind. eapply ends_mono; [by eapply ends_increase_rqe|]. intros u w' _ [c Hc'].
  apply ends_bind. eapply ends_Ok; [by apply adapter_at_eq|]. by apply ends_real_recv.
Qed.
Lemma ends_write_remote ch q n d tag w rq sq :
  block_ready q w → u32 n ≤ BLOCK_SIZE → u32 n ≤ buffer_length_ d →
  inflight w ch = Some (rq, sq) → small sq →
  ends (write_remote ch q n (Some d) tag false) w (λ _ _, True).
Proof.
  intros H Hn Hd Hc Hs. unfold write_remote. cbv zeta. pass_block H b.
  apply ends_bind, ends_must with d; [done|].
  apply ends_bind, ends_check; [apply andb_true_iff; rewrite !Z.leb_le; lia|].
  apply ends_bind. eapply ends_mono; [by eapply ends_increase_sqe|]. intros u w' _ [c Hc'].
  apply ends_bind. eapply ends_Ok; [by apply adapter_at_eq|].
  destruct (mr_ b) as [m|]; [|by destruct (is_Some_None (A:=ibv_mr))]. apply ends_post_send.
Qed.
End operations.

(** ** The handlers *)

Section handlers.
Context {X : Type} `{!Platform X} `{!PostLog X}.
Implicit Types w : World X.
Context (t : tensors) (ch idx ps pr : Z).
Hypothesis Hts : tensor_buffer_send t !! Z.to_nat (u32 idx) = Some ps.
Hypothesis Htr : tensor_buffer_recv t !! Z.to_nat (u32 idx) = Some pr.

(** A state of the channel from which nothing a handler does overflows: the
    cursors are [n] short of the largest int. *)
Record fit (n : Z) w (rs rr : ring) (rq sq : Z) : Prop := {
  fit_state : tower_state ch idx ps pr w rs rr rq sq;
  fit_send : ring_ready rs w;
  fit_recv : ring_ready rr w;
  fit_cursors : handed rs + n < INT_MAX ∧ returned rs + n < INT_MAX ∧
    handed rr + n < INT_MAX ∧ returned rr + n < INT_MAX;
  fit_counts : -2^40 ≤ rq ≤ 2^40 ∧ -2^40 ≤ sq ≤ 2^40
}.
Lemma fit_small n w rs rr rq sq : fit n w rs rr rq sq → small rq ∧ small sq.
Proof. intros [_ _ _ _ H]. unfold small. lia. Qed.
(** The state after an operation that returned. *)
Lemma fit_after n w w' rs rr rq sq a b c d rq' sq' m :
  fit n w rs rr rq sq → (∀ q, stables q w' = stables q w) →
  tower_state ch idx ps pr w' (moved rs a b) (moved rr c d) rq' sq' →
  m + a ≤ n → m + b ≤ n → m + c ≤ n → m + d ≤ n →
  -2^40 ≤ rq' ≤ 2^40 ∧ -2^40 ≤ sq' ≤ 2^40 → fit m w' (moved rs a b) (moved rr c d) rq' sq'.
Proof.
  intros [H1 H2 H3 H4 H5] E Ht Ha Hb Hc Hd Hn. split; [done| | |cbn; lia|done].
  - by apply (ring_ready_same rs w).
  - by apply (ring_ready_same rr w).
Qed.

Lemma ends_tensor_send w (Q : Z → World X → Prop) :
  Q ps w → ends (tensor (tensor_buffer_send t) (u32 idx)) w Q.
Proof. by apply ends_must. Qed.
Lemma ends_tensor_recv w (Q : Z → World X → Prop) :
  Q pr w → ends (tensor (tensor_buffer_recv t) (u32 idx)) w Q.
Proof. by apply ends_must. Qed.

Lemma ends_next_send w rs rr rq sq :
  tower_state ch idx ps pr w rs rr rq sq → handed rs < INT_MAX →
  ends (next ps) w (λ s w', s ∈ slots rs ∧ (∀ q, stables q w' = stables q w) ∧ w_mem w' = w_mem w ∧
    tower_state ch idx ps pr w' (moved rs 1 0) rr rq sq).
Proof.
  intros Hw Hh. destruct (next_refines ps ps rs w (ts_send _ _ _ _ _ _ _ _ _ Hw) (or_introl eq_refl) Hh)
    as (s & w' & H & _ & Hin & _ & _ & Hm). eapply ends_Ok; [exact H|].
  apply (ts_next_send _ _ _ _ _ _ _ _ _ _ _ H) in Hw as [Hw _]. rewrite ring_next_moved in Hw.
  split; [done|]. split; [intros q; by eapply keeps_stables_next|]. by split.
Qed.
Lemma ends_next_recv w rs rr rq sq :
  tower_state ch idx ps pr w rs rr rq sq → handed rr < INT_MAX →
  ends (next pr) w (λ s w', s ∈ slots rr ∧ (∀ q, stables q w' = stables q w) ∧ w_mem w' = w_mem w ∧
    tower_state ch idx ps pr w' rs (moved rr 1 0) rq sq ∧ (ring_next rr).1 = Some s).
Proof.
  intros Hw Hh. destruct (next_refines pr pr rr w (ts_recv _ _ _ _ _ _ _ _ _ Hw) (or_introl eq_refl) Hh)
    as (s & w' & H & Hs & Hin & _ & _ & Hm). eapply ends_Ok; [exact H|].
  apply (ts_next_recv _ _ _ _ _ _ _ _ _ _ _ H) in Hw as [Hw _]. rewrite ring_next_moved in Hw.
  split; [done|]. split; [intros q; by eapply keeps_stables_next|]. by split_and!.
Qed.
Lemma ends_last_send w rs rr rq sq :
  tower_state ch idx ps pr w rs rr rq sq → returned rs < INT_MAX →
  ends (last ps) w (λ _ w', (∀ q, stables q w' = stables q w) ∧ w_mem w' = w_mem w ∧
    tower_state ch idx ps pr w' (moved rs 0 1) rr rq sq).
Proof.
  intros Hw Hh. destruct (last_refines ps ps rs w (ts_send _ _ _ _ _ _ _ _ _ Hw) (or_introl eq_refl) Hh)
    as (s & w' & H & _ & _ & _ & _ & Hm). eapply ends_Ok; [exact H|].
  apply (ts_last_send _ _ _ _ _ _ _ _ _ _ _ H) in Hw. rewrite ring_last_moved in Hw.
  split; [intros q; by eapply keeps_stables_last|]. by split.
Qed.
Lemma ends_last_recv w rs rr rq sq :
  tower_state ch idx ps pr w rs rr rq sq → returned rr < INT_MAX →
  ends (last pr) w (λ _ w', (∀ q, stables q w' = stables q w) ∧ w_mem w' = w_mem w ∧
    tower_state ch idx ps pr w' rs (moved rr 0 1) rq sq).
Proof.
  intros Hw Hh. destruct (last_refines pr pr rr w (ts_recv _ _ _ _ _ _ _ _ _ Hw) (or_introl eq_refl) Hh)
    as (s & w' & H & _ & _ & _ & _ & Hm). eapply ends_Ok; [exact H|].
  apply (ts_last_recv _ _ _ _ _ _ _ _ _ _ _ H) in Hw. rewrite ring_last_moved in Hw.
  split; [intros q; by eapply keeps_stables_last|]. by split.
Qed.

Lemma ends_completion_of each wc w rs rr rq sq :
  tower_state ch idx ps pr w rs rr rq sq → wc_wr_id wc = ch → wc_status wc = IBV_WC_SUCCESS →
  ends (completion_of each wc) w (λ p w', w' = w ∧ p = (ch, u32 idx)).
Proof.
  intros Hw Hid Hs. apply ends_returned; [|intros p w' H; by eapply completion_of_inv].
  unfold completion_of. rewrite Hs, Z.eqb_refl. apply ends_bind, ends_ret. cbv zeta.
  pose proof (ts_index _ _ _ _ _ _ _ _ _ Hw) as Hi. unfold index_of in Hi.
  destruct (w_chans w !! ch) as [c|] eqn:Hc; [|done]. rewrite Hid. unfold get_index_in_session.
  apply ends_bind, ends_bind. eapply ends_Ok; [by apply adapter_at_eq|]. by repeat apply ends_ret.
Qed.

Lemma ends_client_write peers d n w rs rr rq sq :
  fit (n + 1) w rs rr rq sq → 0 ≤ n → sq < 2^40 →
  peers !! Z.to_nat (u32 idx) = Some d → BLOCK_SIZE ≤ buffer_length_ d →
  ends (client_write t peers ch (u32 idx)) w (λ _ w', fit n w' (moved rs 1 0) rr rq (sq + 1)).
Proof.
  intros Hw Hn Hsq Hd Hl. pose proof Hw as [Ht Hrs _ Hc Hq]. apply ends_returned.
  - unfold client_write. apply ends_bind, ends_tensor_send, ends_bind.
    eapply ends_mono; [apply (ends_next_send _ _ _ _ _ Ht); lia|]. intros s w1 _ (Hs & E1 & _ & Ht1).
    apply (ring_ready_same _ _ _ E1) in Hrs. specialize (Hrs s Hs).
    destruct (block_ready_at _ _ Hrs) as (_ & b & Hb & _ & _ & Hsz).
    apply ends_bind. eapply ends_Ok; [by apply buf_at_eq|]. apply ends_bind, ends_must with d; [done|].
    apply ends_bind. eapply ends_mono; [eapply ends_write_remote; [exact Hrs| | |apply Ht1|]|done].
    + rewrite (u32_small (u32 _)), u32_small by (rewrite ?Hsz; first [apply u32_range|done]). lia.
    + rewrite (u32_small (u32 _)), u32_small by (rewrite ?Hsz; first [apply u32_range|done]). lia.
    + unfold small. lia.
  - intros u w' H. rewrite <-(moved_0 rr). eapply fit_after; [exact Hw| | |lia..].
    + intros q. by eapply keeps_stables_write.
    + rewrite moved_0. by eapply client_write_step.
Qed.
Lemma ends_client_writes peers d (l : list Z) n w rs rr rq sq :
  fit (n + Z.of_nat (length l)) w rs rr rq sq → 0 ≤ n → sq + Z.of_nat (length l) ≤ 2^40 →
  peers !! Z.to_nat (u32 idx) = Some d → BLOCK_SIZE ≤ buffer_length_ d →
  ends (for_each l (λ _, client_write t peers ch (u32 idx))) w (λ _ _, True).
Proof.
  intros Hw Hn Hsq Hd Hl. revert w rs sq Hw Hsq. induction l as [|x l IH]; intros w rs sq Hw Hsq; [done|].
  cbn [for_each length] in *. apply ends_bind.
  replace (n + Z.of_nat (S (length l))) with (n + Z.of_nat (length l) + 1) in Hw by lia.
  eapply ends_mono; [eapply (ends_client_write peers d); [exact Hw|lia|lia|done|done]|].
  intros u w1 _ Hw1. eapply IH; [exact Hw1|lia].
Qed.
Lemma ends_send_done n w rs rr rq sq :
  fit n w rs rr rq sq → 0 ≤ n →
  ends (tower_send_done t ch (u32 idx)) w (λ _ _, True).
Proof.
  intros Hw Hn. destruct (fit_small _ _ _ _ _ _ Hw) as [_ Hsq]. destruct Hw as [Ht Hrs _ Hc Hq].
  unfold tower_send_done. apply ends_bind.
  eapply ends_mono; [by eapply ends_decrease_sqe; [apply Ht|]|]. intros u w1 H1 _.
  apply (ts_decrease_sqe _ _ _ _ _ _ _ _ _ _ _ H1) in Ht.
  apply ends_bind, ends_tensor_send, ends_bind. eapply ends_mono; [apply (ends_last_send _ _ _ _ _ Ht); lia|done].
Qed.
Lemma ends_client_write_done peers d n w rs rr rq sq :
  fit (n + 2) w rs rr rq sq → 0 ≤ n → -2^40 < sq →
  peers !! Z.to_nat (u32 idx) = Some d → BLOCK_SIZE ≤ buffer_length_ d →
  ends (client_write_done t peers ch (u32 idx)) w (λ _ _, True).
Proof.
  intros Hw Hn Hlow Hd Hl. destruct (fit_small _ _ _ _ _ _ Hw) as [_ Hsq].
  pose proof Hw as [Ht Hrs Hrr Hc Hq]. unfold client_write_done. apply ends_bind.
  eapply ends_mono; [by eapply ends_decrease_sqe; [apply Ht|]|]. intros u w1 H1 _.
  apply (ts_decrease_sqe _ _ _ _ _ _ _ _ _ _ _ H1) in Ht.
  assert (∀ q, stables q w1 = stables q w) as E1.
  { intros q. destruct (keeps_stables_ops (X:=X) ch q) as (K & _). by apply K in H1. }
  apply ends_bind, ends_tensor_send, ends_bind.
  eapply ends_mono; [apply (ends_last_send _ _ _ _ _ Ht); lia|]. intros s w2 _ (E2 & _ & Ht2).
  rewrite <-(moved_0 rr) in Ht2. eapply ends_mono; [eapply (ends_client_write peers d n)|done]; try done.
  - eapply (fit_after _ _ _ _ _ _ _ _ _ _ _ _ _ (n + 1) Hw); [|exact Ht2|lia..].
    intros q. by rewrite E2.
  - lia.
Qed.

Lemma ends_client_answer peers d n w rs rr rq sq s b :
  fit (n + 1) w rs rr rq sq → 0 ≤ n →
  (ring_next rr).1 = Some s → stables s w = Some (stable b) →
  mem_read (data_ptr b) 24 (w_mem w) = Some (encode_CommDescriptor d) → CommDescriptor_wf d →
  (Z.to_nat (u32 idx) < length peers)%nat →
  ends (client_answer t peers (u32 idx)) w (λ peers' w',
    peers' !! Z.to_nat (u32 idx) = Some d ∧ fit n w' rs (moved rr 1 0) rq sq).
Proof.
  intros Hw Hn Hs Hst Hm Hwf Hlen. pose proof Hw as [Ht Hrs Hrr Hc Hq]. unfold client_answer.
  apply ends_bind, ends_tensor_recv, ends_bind.
  eapply ends_mono; [apply (ends_next_recv _ _ _ _ _ Ht); lia|].
  intros s' w1 _ (_ & E1 & Em & Ht1 & Hs'). rewrite Hs in Hs'. injection Hs' as <-.
  rewrite <-E1 in Hst. unfold stables in Hst. destruct (w_bufs w1 !! s) as [b1|] eqn:Hb1; [|done].
  injection Hst as Ea _ _ _. apply ends_bind. eapply ends_Ok; [by apply buf_at_eq|].
  rewrite <-Em, <-Ea in Hm. apply ends_bind.
  apply (ends_Ok _ _ (encode_CommDescriptor d) w1); [unfold load, sizeof_CommDescriptor; by rewrite Hm|].
  apply ends_bind, ends_defined; [apply Z.ltb_lt; pose proof (u32_range idx); lia|].
  apply ends_ret. rewrite decode_encode_CommDescriptor by done. split; [by apply list_lookup_insert_eq|].
  rewrite <-(moved_0 rs) in Ht1 |- *. eapply fit_after; [exact Hw|exact E1|exact Ht1|lia..].
Qed.
Lemma ends_client_recv_done peers wc d w rs rr rq sq s b :
  fit 200 w rs rr rq sq → -2^40 < rq → sq + 127 ≤ 2^40 → wc_imm_data wc = 2 →
  handed rr - returned rr = ring_size rr → ring_slot rr (returned rr + 1) = Some s →
  stables s w = Some (stable b) →
  mem_read (data_ptr b) 24 (w_mem w) = Some (encode_CommDescriptor d) → CommDescriptor_wf d →
  BLOCK_SIZE ≤ buffer_length_ d → (Z.to_nat (u32 idx) < length peers)%nat →
  ends (client_recv_done t peers ch (u32 idx) wc) w (λ _ _, True).
Proof.
  intros Hw Hrq Hsq Himm Hfull Hs Hst Hm Hwf Hl Hlen. destruct (fit_small _ _ _ _ _ _ Hw) as [Hrqs _].
  pose proof Hw as [Ht Hrs Hrr Hc Hq]. unfold client_recv_done. apply ends_bind.
  eapply ends_mono; [by eapply ends_decrease_rqe; [apply Ht|]|]. intros u w1 H1 _.
  apply (ts_decrease_rqe _ _ _ _ _ _ _ _ _ _ _ H1) in Ht.
  assert (∀ q, stables q w1 = stables q w) as E1.
  { intros q. destruct (keeps_stables_ops (X:=X) ch q) as (_ & K & _). by apply K in H1. }
  apply keeps_mem_decrease_rqe in H1. injection H1 as _ M1.
  apply ends_bind, ends_tensor_recv, ends_bind.
  eapply ends_mono; [apply (ends_last_recv _ _ _ _ _ Ht); lia|]. intros s2 w2 _ (E2 & M2 & Ht2).
  rewrite Himm. change (2 =? data_code RESPONSE_TO_REQUEST_BUFFER) with true. cbv iota.
  rewrite <-(moved_0 rs) in Ht2. assert (fit 199 w2 (moved rs 0 0) (moved rr 0 1) (rq - 1) sq) as Hw2.
  { eapply fit_after; [exact Hw| |exact Ht2|lia..]. intros q. by rewrite E2. }
  apply ends_bind. eapply ends_mono.
  - eapply (ends_client_answer peers d 198); [exact Hw2|done| | |by rewrite M2, M1; exact Hm|done|done].
    + cbn. unfold ring_slot, ring_size in *. cbn.
      replace (handed rr + 0 + 1) with (returned rr + 1 + 1 * Z.of_nat (length (slots rr))) by lia.
      by rewrite Z_mod_plus_full.
    + by rewrite E2, E1.
  - intros peers' w3 _ (Hp & Hw3). apply ends_bind. eapply ends_mono; [|done].
    eapply (ends_client_writes peers' d _ 71); [exact Hw3|lia| |exact Hp|exact Hl].
    rewrite length_seqZ. unfold NUM_BLOCK. lia.
Qed.

(** *** The server's *)

(** The first bytes of a block are memory the process has. *)
Definition block_allocated (q : Z) w : Prop :=
  ∃ b, stables q w = Some (stable b) ∧ mem_allocated (data_ptr b) 24 (w_mem w) = true.
Lemma ends_server_answer n w rs rr rq sq sb :
  fit (n + 1) w rs rr rq sq → 0 ≤ n → sq < 2^40 →
  stables ps w = Some (stable sb) → is_Some (mr_ sb) →
  (∀ q, q ∈ slots rs → block_allocated q w) →
  ends (server_answer t ch (u32 idx)) w (λ _ w', fit n w' (moved rs 1 0) rr rq (sq + 1)).
Proof.
  intros Hw Hn Hsq Hsb [m Hm] Hall. pose proof Hw as [Ht Hrs Hrr Hc Hq]. apply ends_returned.
  - unfold server_answer. apply ends_bind, ends_tensor_send, ends_bind.
    eapply ends_mono; [apply (ends_next_send _ _ _ _ _ Ht); lia|]. intros s w1 _ (Hs & E1 & M1 & Ht1).
    apply (ring_ready_same _ _ _ E1) in Hrs. specialize (Hrs s Hs).
    destruct (block_ready_at _ _ Hrs) as (_ & lb & Hlb & _ & _ & Hsz).
    apply ends_bind. eapply ends_Ok; [by apply buf_at_eq|].
    rewrite <-E1 in Hsb. unfold stables in Hsb. destruct (w_bufs w1 !! ps) as [sb1|] eqn:Hsb1; [|done].
    injection Hsb as _ _ Em _. apply ends_bind. eapply ends_Ok; [by apply buf_at_eq|].
    apply ends_bind, ends_must with m; [congruence|]. cbv zeta.
    destruct (Hall s Hs) as (b & Hb & Ha). rewrite <-E1 in Hb. unfold stables in Hb.
    rewrite Hlb in Hb. injection Hb as Ea _ _ _. rewrite <-Ea, <-M1 in Ha.
    apply ends_bind. eapply ends_Ok.
    { unfold memcpy_in. rewrite encode_CommDescriptor_length, Nat2Z.id, Nat.leb_refl.
      unfold sizeof_CommDescriptor. rewrite Ha. reflexivity. }
    apply ends_bind. eapply ends_mono; [eapply ends_send_remote|done].
    + exact Hrs.
    + done.
    + apply Ht1.
    + unfold small. lia.
  - intros u w' H. rewrite <-(moved_0 rr).
    eapply fit_after; [exact Hw| |rewrite moved_0; by eapply server_answer_step|lia..].
    by eapply (server_answer_posts t ch idx ps Hts _ _ _ _ _ H (ts_send _ _ _ _ _ _ _ _ _ Ht)).
Qed.
Lemma ends_post_block n w rs rr rq sq :
  fit (n + 1) w rs rr rq sq → 0 ≤ n → ends (post_block ch pr) w (λ _ _, True).
Proof.
  intros Hw Hn. destruct (fit_small _ _ _ _ _ _ Hw) as [Hrq _]. pose proof Hw as [Ht _ Hrr Hc Hq].
  unfold post_block. apply ends_bind.
  eapply ends_mono; [apply (ends_next_recv _ _ _ _ _ Ht); lia|]. intros s w1 _ (Hs & E1 & _ & Ht1 & _).
  apply (ring_ready_same _ _ _ E1) in Hrr. apply ends_bind.
  eapply ends_mono; [eapply ends_recv_remote; [exact (Hrr s Hs)|vm_compute; discriminate|apply Ht1|done]|done].
Qed.
Lemma ends_server_recv_done wc n w rs rr rq sq sb :
  fit (n + 3) w rs rr rq sq → 0 ≤ n → -2^40 < rq → sq < 2^40 → wc_imm_data wc = 1 →
  stables ps w = Some (stable sb) → is_Some (mr_ sb) →
  (∀ q, q ∈ slots rs → block_allocated q w) →
  ends (server_recv_done t ch (u32 idx) wc) w (λ _ _, True).
Proof.
  intros Hw Hn Hrq Hsq Himm Hsb Hm Hall. destruct (fit_small _ _ _ _ _ _ Hw) as [Hrqs _].
  pose proof Hw as [Ht Hrs Hrr Hc Hq]. unfold server_recv_done.
  apply ends_bind, ends_tensor_recv, ends_bind.
  eapply ends_mono; [apply (ends_last_recv _ _ _ _ _ Ht); lia|]. intros s w1 _ (E1 & M1 & Ht1).
  apply ends_bind. eapply ends_mono; [by eapply ends_decrease_rqe; [apply Ht1|]|]. intros u w2 H2 _.
  apply (ts_decrease_rqe _ _ _ _ _ _ _ _ _ _ _ H2) in Ht1.
  assert (∀ q, stables q w2 = stables q w) as E2.
  { intros q. destruct (keeps_stables_ops (X:=X) ch q) as (_ & K & _). apply K in H2. by rewrite H2. }
  apply keeps_mem_decrease_rqe in H2. injection H2 as _ M2.
  rewrite Himm. change (1 =? data_code REQUEST_BUFFER) with true. cbv iota.
  rewrite <-(moved_0 rs) in Ht1. assert (fit (n + 2) w2 (moved rs 0 0) (moved rr 0 1) (rq - 1) sq) as Hw2.
  { eapply fit_after; [exact Hw|exact E2|exact Ht1|lia..]. }
  apply ends_bind. eapply ends_mono.
  - eapply (ends_server_answer (n + 1)); [by replace (n + 1 + 1) with (n + 2) by lia|lia|done|
      by rewrite E2|done|].
    intros q Hin. destruct (Hall q Hin) as (b & Hb & Ha). exists b.
    split; [by rewrite E2|by rewrite M2, M1].
  - intros u' w3 _ Hw3. apply ends_bind, ends_tensor_recv. eapply (ends_post_block n); [exact Hw3|exact Hn].
Qed.

(** ** One completion *)

Lemma ends_client_process each peers wc w rs rr rq sq d :
  fit 200 w rs rr rq sq → -2^40 < rq → -2^40 < sq → sq + 127 ≤ 2^40 →
  wc_wr_id wc = ch → expected 2 true wc → BLOCK_SIZE ≤ buffer_length_ d → CommDescriptor_wf d →
  (is_write wc = true → peers !! Z.to_nat (u32 idx) = Some d) →
  (is_recv wc = true → handed rr - returned rr = ring_size rr ∧
     (Z.to_nat (u32 idx) < length peers)%nat ∧
     ∃ s b, ring_slot rr (returned rr + 1) = Some s ∧ stables s w = Some (stable b) ∧
       mem_read (data_ptr b) 24 (w_mem w) = Some (encode_CommDescriptor d)) →
  ends (client_process_wc t each peers wc) w (λ _ _, True).
Proof.
  intros Hw Hrq Hlow Hsq Hid (Hs & Hk & Himm) Hl Hwf Hwrite Hrecv. unfold client_process_wc.
  apply ends_bind. eapply ends_mono; [by eapply ends_completion_of; [apply Hw|..]|].
  intros p w' _ [-> ->]. unfold is_send, is_recv, is_write in *.
  destruct (wc_opcode wc); cbn in Hk; try done.
  - apply ends_bind. eapply ends_mono; [by eapply ends_send_done|done].
  - apply ends_bind. eapply ends_mono; [eapply (ends_client_write_done peers d 198); [exact Hw|lia|lia|auto|done]|done].
  - destruct (Hrecv eq_refl) as (Hfull & Hlen & s & b & Hslot & Hb & Hm).
    eapply ends_client_recv_done; eauto.
Qed.
Lemma ends_server_process each wc w rs rr rq sq sb :
  fit 200 w rs rr rq sq → -2^40 < rq → sq < 2^40 → wc_wr_id wc = ch → expected 1 false wc →
  stables ps w = Some (stable sb) → is_Some (mr_ sb) →
  (∀ q, q ∈ slots rs → block_allocated q w) →
  ends (server_process_wc t each wc) w (λ _ _, True).
Proof.
  intros Hw Hrq Hsq Hid (Hs & Hk & Himm) Hsb Hm Hall. unfold server_process_wc.
  apply ends_bind. eapply ends_mono; [by eapply ends_completion_of; [apply Hw|..]|].
  intros p w' _ [-> ->]. unfold is_send, is_recv, is_write in *.
  destruct (wc_opcode wc); cbn in Hk; try done.
  - by eapply ends_send_done.
  - eapply (ends_server_recv_done wc 197); eauto. lia.
Qed.
End handlers.

(** ** What stays ready *)

Section ready.
Context {X : Type} `{!Platform X} `{!PostLog X}.
Implicit Types w : World X.

(** Blocks keep their place and memory stays allocated. *)
Definition grows w w' : Prop :=
  (∀ q, stables q w' = stables q w) ∧ ∀ x, is_Some (w_mem w !! x) → is_Some (w_mem w' !! x).
#[export] Instance grows_order : PreOrder grows.
Proof.
  split; [by split|]. intros w1 w2 w3 [S1 M1] [S2 M2]. split; [intros q; by rewrite S2|auto].
Qed.
Lemma grows_write w a bs : grows w (w <| w_mem ::= mem_write a bs |>).
Proof.
  split; [done|]. intros x Hx. cbn. rewrite mem_write_lookup. case_bool_decide as Hin; [|done].
  apply lookup_lt_is_Some_2. lia.
Qed.
Lemma still_grows w w' : still w w' → grows w w'.
Proof. intros H. split; [intros q; by apply still_stables|]. destruct H as (_ & _ & -> & _). done. Qed.
Lemma carry_grows (a b a' b' : side X) :
  carry a b a' b' → grows (world a) (world a') ∧ grows (world b) (world b').
Proof.
  intros [wr rw r imm bs Hwr Ho Hi Hcar Hrw Hr Hle | wr addr key bs Hwr Ho Hr Hcar];
    (split; [done|apply grows_write]).
Qed.

(** All blocks of a connection are registered, those the server answers from are
    allocated, the server's buffer holds a block, the client has room in its
    table. *)
Definition blocks_of (send recv : Z) : list Z := slots (fresh_ring send) ++ slots (fresh_ring recv).
Definition client_ready (k : spoke) w : Prop :=
  ∀ q, q ∈ blocks_of (sp_client_send k) (sp_client_recv k) → block_ready q w.
Definition server_ready (k : spoke) w : Prop :=
  (∀ q, q ∈ blocks_of (sp_server_send k) (sp_server_recv k) → block_ready q w) ∧
  ∀ q, q ∈ slots (fresh_ring (sp_server_send k)) → block_allocated q w.
Definition spoke_ready (k : spoke) : Prop :=
  sp_peers k ≠ [] ∧ BLOCK_SIZE ≤ buffer_size (sp_buffer k).

Lemma block_ready_grows q w w' : grows w w' → block_ready q w → block_ready q w'.
Proof. intros [E _] H. unfold block_ready. by rewrite E. Qed.
Lemma block_allocated_grows q w w' : grows w w' → block_allocated q w → block_allocated q w'.
Proof.
  intros [E M] (b & Hb & Ha). exists b. rewrite E. split; [done|].
  rewrite mem_allocated_spec in Ha |- *. auto.
Qed.
Lemma client_ready_grows k w w' : grows w w' → client_ready k w → client_ready k w'.
Proof. intros Hg H q Hq. eapply block_ready_grows; [exact Hg|auto]. Qed.
Lemma server_ready_grows k w w' : grows w w' → server_ready k w → server_ready k w'.
Proof.
  intros Hg [H1 H2]. split; intros q Hq; [eapply block_ready_grows|eapply block_allocated_grows];
    [exact Hg|auto|exact Hg|auto].
Qed.

(** The handlers. *)
Lemma client_handler_grows k i each p wc wcs peers w :
  linked k i p → arrived (client p) = wc :: wcs →
  client_process_wc (spoke_tensors k) each (peer_comm_fd_mgr p) wc (world (client p)) = Ok peers w →
  grows (world (client p)) w.
Proof.
  intros (rc0 & b0 & blk & _ & _ & _ & _ & hs & hr & hk & gs & gr & _ & [_ C2 _ _ C5 _ _ _] & _) Ha H.
  rewrite Ha in C5. apply Forall_cons in C5 as [Hid _].
  destruct (client_process_posts (spoke_tensors k) (sp_client k) 0 (sp_client_send k) (sp_client_recv k)
    eq_refl eq_refl _ _ _ _ _ _ _ _ _ _ H Hid C2) as (Hst & _ & _ & new & (_ & _ & Hm & _) & _).
  split; [exact Hst|]. by rewrite Hm.
Qed.
Lemma server_handler_grows k i ts each p wc wcs u w :
  tensor_buffer_send ts !! Z.to_nat (u32 i) = Some (sp_server_send k) →
  tensor_buffer_recv ts !! Z.to_nat (u32 i) = Some (sp_server_recv k) →
  linked k i p → arrived (server p) = wc :: wcs →
  server_process_wc ts each wc (world (server p)) = Ok u w → grows (world (server p)) w.
Proof.
  intros Hts Htr (rc0 & b0 & blk & _ & _ & _ & _ & hs & hr & hk & gs & gr & _ & _ & Hs & _) Ha H.
  destruct Hs as [_ S2 _ _ S5 _ S6 _ _]. rewrite Ha in S5. apply Forall_cons in S5 as [Hid _].
  destruct (server_process_posts _ _ _ _ _ Hts Htr _ _ _ _ _ _ _ _ _ _ H Hid S2 S6)
    as (Hst & Hone & Hsend & Hrecv). split; [exact Hst|].
  destruct (is_send wc), (is_recv wc); cbn [Z.b2z] in Hone; try lia.
  - destruct (Hsend eq_refl) as (_ & _ & -> & _). done.
  - destruct (Hrecv eq_refl) as (m & a & wr & a' & rw & _ & _ & _ & _ & _ & _ & _ & Hr & Hm & _).
    intros x Hx. destruct (decide (a ≤ x < a + 24)) as [Hin|Hout]; [|by rewrite Hm].
    apply mem_read_spec in Hr as [Hlen Hr]. specialize (Hr (Z.to_nat (x - a)) ltac:(lia)).
    replace (a + Z.of_nat (Z.to_nat (x - a))) with x in Hr by lia. rewrite Hr.
    apply lookup_lt_is_Some_2. lia.
Qed.
End ready.

(** ** One connection *)

Section connection.
Context {X : Type} `{!Platform X} `{!PostLog X}.
Implicit Types w : World X.
Context (k : spoke) (i : Z) (Hk : spoke_wf k) (Hr : spoke_ready k).

Lemma linked_client_ends each p wc wcs :
  linked k i p → client_ready k (world (client p)) → arrived (client p) = wc :: wcs →
  Z.of_nat (executed (client p)) < 2^30 →
  ends (client_process_wc (spoke_tensors k) each (peer_comm_fd_mgr p) wc) (world (client p))
    (λ _ _, True).
Proof.
  intros (rc0 & b0 & blk & _ & _ & _ & Hslot & hs & hr & hk & gs & gr & Hb & Hc & _ & Hp) Hready Ha Hlt.
  destruct Hc as [_ C2 _ _ C5 CK C6 C7]. unfold balanced in Hb. rewrite Ha in Hb, C5, CK, C7.
  apply Forall_cons in C5 as [Hid _]. apply Forall_cons in CK as [Hexp _]. cbn [count] in Hb, C7.
  pose proof (count_nonneg is_recv wcs). pose proof (count_nonneg is_write wcs).
  pose proof (count_nonneg is_send wcs). pose proof (count_nonneg is_recv (arrived (server p))).
  assert (∀ b, 0 ≤ Z.b2z b) as Hz by (by intros []).
  pose proof (Hz (is_send wc)). pose proof (Hz (is_recv wc)). pose proof (Hz (is_write wc)). clear Hz.
  destruct Hr as [Hpeers Hlen].
  eapply (ends_client_process (spoke_tensors k) (sp_client k) 0 (sp_client_send k) (sp_client_recv k)
    eq_refl eq_refl _ _ _ _ _ _ _ _ (description (sp_buffer k) (sp_mr k))); try done.
  - split; [exact C2| | | |].
    + intros q Hq. apply Hready, elem_of_app. by left.
    + intros q Hq. apply Hready, elem_of_app. by right.
    + cbn [handed returned moved fresh_ring]. unfold INT_MAX, NUM_BLOCK. lia.
    + lia.
  - lia.
  - lia.
  - lia.
  - apply Hk.
  - intros E. rewrite E in Hb. cbn [Z.b2z] in Hb. rewrite decide_False in Hp by lia. apply Hp.
  - intros E. rewrite E in Hb, C7. cbn [Z.b2z] in Hb, C7. assert (hr = 0) as -> by lia.
    cbn in Hp. subst. split; [|split].
    + cbn [handed returned moved fresh_ring]. unfold ring_size. cbn [slots moved fresh_ring].
      rewrite length_seqZ. unfold NUM_BLOCK. lia.
    + rewrite Hp. change (Z.to_nat (u32 0)) with 0%nat. destruct (sp_peers k); [done|cbn; lia].
    + exists b0, blk. split; [exact Hslot|]. split; [exact C6|]. apply C7. lia.
Qed.
Lemma linked_server_ends ts each p wc wcs :
  tensor_buffer_send ts !! Z.to_nat (u32 i) = Some (sp_server_send k) →
  tensor_buffer_recv ts !! Z.to_nat (u32 i) = Some (sp_server_recv k) →
  linked k i p → server_ready k (world (server p)) → arrived (server p) = wc :: wcs →
  ends (server_process_wc ts each wc) (world (server p)) (λ _ _, True).
Proof.
  intros Hts Htr (rc0 & b0 & blk & _ & _ & _ & _ & hs & hr & hk & gs & gr & Hb & _ & Hs & _) Hready Ha.
  destruct Hs as [_ S2 _ _ S5 SK S6 _ _]. unfold balanced in Hb. rewrite Ha in Hb, S5, SK.
  apply Forall_cons in S5 as [Hid _]. apply Forall_cons in SK as [Hexp _]. cbn [count] in Hb.
  pose proof (count_nonneg is_recv wcs). pose proof (count_nonneg is_send wcs).
  assert (∀ b, 0 ≤ Z.b2z b) as Hz by (by intros []).
  pose proof (Hz (is_send wc)). pose proof (Hz (is_recv wc)). clear Hz.
  destruct Hready as [Hready Halloc].
  eapply (ends_server_process ts (sp_server k) i (sp_server_send k) (sp_server_recv k) Hts Htr);
    [split; [exact S2| | | |]|lia..|exact Hid|exact Hexp|exact S6| |exact Halloc].
  - intros q Hq. apply Hready, elem_of_app. by left.
  - intros q Hq. apply Hready, elem_of_app. by right.
  - cbn [handed returned moved fresh_ring]. unfold INT_MAX, NUM_BLOCK. lia.
  - lia.
  - destruct Hk as [-> _]. by eexists.
Qed.

(** A turn of the client's loop. *)
Lemma client_batch_grows each p batch rest peers w :
  linked k i p → arrived (client p) = batch ++ rest →
  fold_each (client_process_wc (spoke_tensors k) each) (peer_comm_fd_mgr p) batch (world (client p))
    = Ok peers w → grows (world (client p)) w.
Proof.
  revert p. induction batch as [|wc batch IH]; intros p Hp Ha H; cbn [fold_each app] in *; [by pinv H|].
  apply bind_inv in H as (p1 & w1 & H1 & H).
  pose proof (linked_client _ _ Hk _ _ _ _ _ _ Hp Ha H1) as Hp1.
  trans w1; [by eapply client_handler_grows|]. exact (IH _ Hp1 eq_refl H).
Qed.
Lemma client_batch_ends each p batch rest :
  linked k i p → client_ready k (world (client p)) → arrived (client p) = batch ++ rest →
  Z.of_nat (executed (client p)) < 2^30 →
  ends (fold_each (client_process_wc (spoke_tensors k) each) (peer_comm_fd_mgr p) batch)
    (world (client p)) (λ _ _, True).
Proof.
  revert p. induction batch as [|wc batch IH]; intros p Hp Hready Ha Hlt; [done|].
  cbn [fold_each app] in *. apply ends_bind.
  eapply ends_mono; [by eapply linked_client_ends|]. intros peers w H _.
  pose proof (linked_client _ _ Hk _ _ _ _ _ _ Hp Ha H) as Hp1.
  apply (IH _ Hp1); [|done|done].
  exact (client_ready_grows _ _ _ (client_handler_grows _ _ _ _ _ _ _ _ Hp Ha H) Hready).
Qed.
Lemma client_turn_grows p n peers w :
  linked k i p → reports (channel (client p)) n (world (client p)) (arrived (client p)) →
  client_poll_channel (spoke_tensors k) (peer_comm_fd_mgr p) (channel (client p)) (world (client p))
    = Ok peers w → grows (world (client p)) w.
Proof.
  intros Hp (wcs & w1 & Hpoll & Htake) H. unfold client_poll_channel in H.
  rewrite (bind_Ok _ _ _ _ _ Hpoll) in H. apply poll_still in Hpoll.
  pose proof (linked_client_still _ _ _ _ Hpoll Hp) as Hp1. apply still_grows in Hpoll.
  destruct (n =? 0); [by pinv H|]. rewrite Htake in H. trans w1; [done|].
  eapply (client_batch_grows _ _ _ (drop (Z.to_nat n) (arrived (client p))) _ _ Hp1); [|exact H].
  symmetry. apply take_drop.
Qed.
Lemma client_turn_ends p n :
  linked k i p → client_ready k (world (client p)) → Z.of_nat (executed (client p)) < 2^30 →
  reports (channel (client p)) n (world (client p)) (arrived (client p)) →
  ends (client_poll_channel (spoke_tensors k) (peer_comm_fd_mgr p) (channel (client p)))
    (world (client p)) (λ _ _, True).
Proof.
  intros Hp Hready Hlt (wcs & w1 & Hpoll & Htake). unfold client_poll_channel.
  apply ends_bind. eapply ends_Ok; [exact Hpoll|]. apply poll_still in Hpoll. cbv beta iota.
  pose proof (still_grows _ _ Hpoll) as Hg. pose proof (linked_client_still _ _ _ _ Hpoll Hp) as Hp1.
  destruct (n =? 0); [done|]. rewrite Htake.
  eapply (client_batch_ends _ _ _ (drop (Z.to_nat n) (arrived (client p))) Hp1);
    [by eapply client_ready_grows|symmetry; apply take_drop|done].
Qed.
End connection.

(** ** All connections *)

Section all.
Context {X : Type} `{!Platform X} `{!PostLog X}.
Implicit Types w : World X.
Context (ks : list spoke) (Hwf : hub_wf ks).

(** What the start-up of the towers provides: [register_buffer] registers every
    block, the memory is that of [allocate_buffer]. *)
Definition hub_ready (h : hub X) : Prop :=
  (∀ (i : nat) k, ks !! i = Some k → spoke_ready k ∧ server_ready k (h_world h)) ∧
  ∀ (i : nat) k l, ks !! i = Some k → h_links h !! i = Some l → client_ready k (world (l_client l)).

Lemma hub_ready_world w w' q q' links :
  grows w w' → hub_ready (mkHub w q links) → hub_ready (mkHub w' q' links).
Proof.
  intros Hg [Hs Hc]. split; [|done]. intros i k Hk. destruct (Hs i k Hk) as [H1 H2].
  split; [done|]. by eapply server_ready_grows.
Qed.
Lemma hub_ready_ends h i l c peers s :
  h_links h !! i = Some l → grows (h_world h) (world s) → grows (world (l_client l)) (world c) →
  hub_ready h → hub_ready (with_ends h i c peers s).
Proof.
  intros Hl Hgs Hgc [Hs Hc]. split.
  - intros j k Hk. destruct (Hs j k Hk). split; [done|]. by eapply server_ready_grows.
  - cbn. intros j k l' Hk Hl'. destruct (decide (j = i)) as [->|Hne].
    + rewrite list_lookup_insert_eq in Hl' by (by eapply lookup_lt_Some). injection Hl' as <-.
      eapply client_ready_grows; [exact Hgc|]. by eapply Hc.
    + rewrite list_lookup_insert_ne in Hl' by done. by eapply Hc.
Qed.

(** The connection a completion at the head of the queue belongs to. *)
Lemma head_of_queue w wc wcs links :
  hub_inv ks (mkHub w (wc :: wcs) links) →
  ∃ (i : nat) k p, ks !! i = Some k ∧ linked k (Z.of_nat i) p ∧ world (server p) = w ∧
    (∃ own, arrived (server p) = wc :: own) ∧
    tensor_buffer_send (hub_tensors ks) !! Z.to_nat (u32 (Z.of_nat i)) = Some (sp_server_send k) ∧
    tensor_buffer_recv (hub_tensors ks) !! Z.to_nat (u32 (Z.of_nat i)) = Some (sp_server_recv k).
Proof.
  intros Hh. pose proof Hh as (_ & Hlinks & Hids). cbn [h_links h_arrived] in *.
  apply Forall_cons in Hids as [Hid _]. apply list_elem_of_fmap in Hid as (k & Hid & Hk).
  apply list_elem_of_lookup in Hk as [i Hk]. destruct (link_of ks _ _ _ Hh Hk) as [l Hl].
  cbn [h_links] in Hl. pose proof (Hlinks _ _ _ Hk Hl) as Hp. pose proof (linked_channel _ _ _ _ Hp) as E.
  exists i, k. eexists. split; [done|]. split; [exact Hp|]. split; [done|]. split.
  { exists (own (l_channel l) wcs). apply own_cons. congruence. }
  split; [exact (tensors_at ks Hwf i k sp_server_send Hk)|exact (tensors_at ks Hwf i k sp_server_recv Hk)].
Qed.

(** A turn of the server's loop. *)
Lemma hub_handler_grows each w wc wcs links u w' :
  hub_inv ks (mkHub w (wc :: wcs) links) →
  server_process_wc (hub_tensors ks) each wc w = Ok u w' → grows w w'.
Proof.
  intros Hh H. destruct (head_of_queue _ _ _ _ Hh) as (i & k & p & Hk & Hp & Ew & (q & Ha) & Hts & Htr).
  rewrite <-Ew in H |- *. by eapply server_handler_grows.
Qed.
Lemma hub_batch_ends each w batch rest links :
  hub_inv ks (mkHub w (batch ++ rest) links) → hub_ready (mkHub w (batch ++ rest) links) →
  ends (for_each batch (server_process_wc (hub_tensors ks) each)) w (λ _ _, True).
Proof.
  revert w. induction batch as [|wc batch IH]; intros w Hh Hr; [done|]. cbn [for_each app] in *.
  destruct (head_of_queue _ _ _ _ Hh) as (i & k & p & Hk & Hp & Ew & (q & Ha) & Hts & Htr).
  apply ends_bind. eapply ends_mono.
  - rewrite <-Ew. apply (linked_server_ends k _ (proj1 (proj1 (proj2 Hwf) _ _ Hk)) _ each p wc q Hts Htr Hp);
      [|exact Ha]. rewrite Ew. apply (proj1 Hr _ _ Hk).
  - intros u w1 H _. apply (IH w1 (hub_handler_keeps ks Hwf _ _ _ _ _ _ _ Hh H)).
    eapply hub_ready_world; [by eapply hub_handler_grows|exact Hr].
Qed.
Lemma hub_batch_grows each w batch rest links u w' :
  hub_inv ks (mkHub w (batch ++ rest) links) →
  for_each batch (server_process_wc (hub_tensors ks) each) w = Ok u w' → grows w w'.
Proof.
  revert w. induction batch as [|wc batch IH]; intros w Hh H; cbn [for_each app] in *; [by pinv H|].
  apply bind_inv in H as (u1 & w1 & H1 & H). trans w1; [by eapply hub_handler_grows|].
  eapply (IH w1); [|exact H]. by eapply hub_handler_keeps.
Qed.
Lemma polled_inv h w1 : hub_inv ks h → still (h_world h) w1 → hub_inv ks (mkHub w1 (h_arrived h) (h_links h)).
Proof.
  intros (Hlen & Hlinks & Hids) Hpoll. split; [done|]. split; [|done]. intros i k l Hk Hl.
  specialize (Hlinks _ _ _ Hk Hl). by eapply linked_intact in Hlinks; [|by apply still_intact].
Qed.
Lemma server_turn_ends h each n :
  hub_inv ks h → hub_ready h → reports each n (h_world h) (h_arrived h) →
  ends (server_poll_channel (hub_tensors ks) each) (h_world h) (λ _ _, True).
Proof.
  intros Hh Hr (wcs & w1 & Hpoll & Htake). unfold server_poll_channel.
  apply ends_bind. eapply ends_Ok; [exact Hpoll|]. apply poll_still in Hpoll. cbv beta iota.
  destruct (n =? 0); [done|]. rewrite Htake. pose proof (polled_inv h w1 Hh Hpoll) as Hh1.
  assert (hub_ready (mkHub w1 (h_arrived h) (h_links h))) as Hr1.
  { destruct h. eapply hub_ready_world; [by apply still_grows|exact Hr]. }
  rewrite <-(take_drop (Z.to_nat n) (h_arrived h)) in Hh1, Hr1. by eapply hub_batch_ends.
Qed.
Lemma server_turn_grows h each n u w :
  hub_inv ks h → reports each n (h_world h) (h_arrived h) →
  server_poll_channel (hub_tensors ks) each (h_world h) = Ok u w → grows (h_world h) w.
Proof.
  intros Hh (wcs & w1 & Hpoll & Htake) H. unfold server_poll_channel in H.
  rewrite (bind_Ok _ _ _ _ _ Hpoll) in H. apply poll_still in Hpoll.
  pose proof (polled_inv h w1 Hh Hpoll) as Hh1. apply still_grows in Hpoll.
  destruct (n =? 0); [by pinv H|]. rewrite Htake in H. trans w1; [done|].
  rewrite <-(take_drop (Z.to_nat n) (h_arrived h)) in Hh1. by eapply hub_batch_grows.
Qed.

Context (transfer : side X → side X → side X → side X → Prop) `{!ReliableLink transfer}.

Lemma hub_step_ready h h' : hub_inv ks h → hub_step transfer ks h h' → hub_ready h → hub_ready h'.
Proof.
  intros Hh [i l c s Hl H|i l c s Hl H|i l k n peers w Hl Hk Hrep H|each n u w He Hrep H] Hr.
  - apply transfer_carries, carry_grows in H as [H1 H2]. by eapply hub_ready_ends.
  - apply transfer_carries, carry_grows in H as [H1 H2]. by eapply hub_ready_ends.
  - pose proof (proj1 (proj2 Hh) _ _ _ Hk Hl) as Hp.
    eapply hub_ready_ends; [exact Hl|done| |exact Hr].
    exact (client_turn_grows k (Z.of_nat i) (proj1 (proj1 (proj2 Hwf) _ _ Hk)) _ _ _ _ Hp Hrep H).
  - destruct h. eapply hub_ready_world; [by eapply server_turn_grows|exact Hr].
Qed.
Lemma hub_ready_reachable h h' :
  hub_inv ks h → hub_ready h → rtc (hub_step transfer ks) h h' → hub_ready h'.
Proof.
  intros Hh Hr H. induction H as [|h1 h2 h3 H _ IH]; [done|]. apply IH.
  - eapply hub_reachable; [exact Hwf|done|exact Hh|by apply rtc_once].
  - by eapply hub_step_ready.
Qed.
End all.

(** ** Properties *)

Section turn_properties.
Context {X : Type} `{!Platform X} `{!PostLog X}.

(** C6: in every state a server of the mesh and its clients reach, a turn of a
    polling loop returns and takes the hub to its next state, unless the verbs
    refuse a request: of the checks of the handlers no other one fails, and they
    do nothing undefined.  For a client this holds until 2^30 of its requests have
    been carried out. *)
Theorem hub_turns_return ks transfer `{!ReliableLink transfer} (h0 h : hub X) :
  hub_wf ks → hub_started ks h0 → hub_ready ks h0 → rtc (hub_step transfer ks) h0 h →
  (∀ (i : nat) k l n, ks !! i = Some k → h_links h !! i = Some l →
   Z.of_nat (executed (l_client l)) < 2^30 →
   let c := l_client l in
   reports (channel c) n (world c) (arrived c) →
   ends (client_poll_channel (spoke_tensors k) (l_peers l) (channel c)) (world c)
     (λ peers w, hub_step transfer ks h (with_ends h i
       (c <| world := w |> <| arrived := drop (Z.to_nat n) (arrived c) |>) peers (serving h l)))) ∧
  (∀ each n, each ∈ l_channel <$> h_links h → reports each n (h_world h) (h_arrived h) →
   ends (server_poll_channel (hub_tensors ks) each) (h_world h)
     (λ _ w, hub_step transfer ks h (mkHub w (drop (Z.to_nat n) (h_arrived h)) (h_links h)))).
Proof.
  intros Hwf H0 Hr0 H. apply hub_starts in H0; [|done].
  pose proof (hub_ready_reachable ks Hwf transfer h0 h H0 Hr0 H) as Hr.
  apply (hub_reachable _ _ Hwf) in H; [|done..]. split.
  - intros i k l n Hk Hl Hlt c Hrep. apply ends_returned.
    + apply (client_turn_ends k (Z.of_nat i) (proj1 (proj1 (proj2 Hwf) _ _ Hk))
        (proj1 (proj1 Hr _ _ Hk)) (view h l) n); [by apply H|by eapply Hr|done|done].
    + intros peers w E. by eapply hub_client_polls.
  - intros each n He Hrep. apply ends_returned; [by eapply server_turn_ends|].
    intros u w E. by eapply hub_server_polls.
Qed.
End turn_properties.

(** ** Witnesses *)

(** The hub of Hub's witnesses, with completions waiting at the server and at the
    second client. *)
Definition tn_moves : list hub_move :=
  [HubToServer 0; HubToServer 1; ServerPolls 500; HubToClient 1; HubToClient 0].
Definition tn_hub : hub Sim := default hb_start (run_hub hb_ks tn_moves hb_start).
Lemma tn_run : run_hub hb_ks tn_moves hb_start = Some tn_hub.
Proof.
  assert (match run_hub hb_ks tn_moves hb_start with Some _ => true | None => false end = true)
    as H by (vm_compute; reflexivity).
  unfold tn_hub. by destruct (run_hub _ _ _).
Qed.

Definition block_ready_b (w : World Sim) (q : Z) : bool :=
  negb (q =? 0) && match w_bufs w !! q with
  | Some b => negb (data_ptr b =? 0) && negb (owned_by_channel b =? 0) &&
      (buffer_size b =? BLOCK_SIZE) && match mr_ b with Some _ => true | None => false end
  | None => false
  end.
Lemma block_ready_b_spec w qs q : forallb (block_ready_b w) qs = true → q ∈ qs → block_ready q w.
Proof.
  rewrite forallb_forall. intros H Hq. apply list_elem_of_In, H in Hq. unfold block_ready_b in Hq.
  unfold block_ready, stables. destruct (w_bufs w !! q) as [b|]; [|by rewrite andb_false_r in Hq].
  rewrite !andb_true_iff, !negb_true_iff, !Z.eqb_neq, Z.eqb_eq in Hq.
  destruct Hq as (Hq & ((Hp & Ho) & Hs) & Hm). split; [done|]. exists b. split; [done|].
  split; [split_and!; try done; by rewrite Hs|]. split; [|done]. by destruct (mr_ b); [eexists|].
Qed.
Definition block_allocated_b (w : World Sim) (q : Z) : bool :=
  match w_bufs w !! q with Some b => mem_allocated (data_ptr b) 24 (w_mem w) | None => false end.
Lemma block_allocated_b_spec w qs q :
  forallb (block_allocated_b w) qs = true → q ∈ qs → block_allocated q w.
Proof.
  rewrite forallb_forall. intros H Hq. apply list_elem_of_In, H in Hq. unfold block_allocated_b in Hq.
  unfold block_allocated, stables. destruct (w_bufs w !! q) as [b|]; [|done]. by exists b.
Qed.

Lemma tn_ready : hub_ready hb_ks hb_start.
Proof.
  split.
  - intros [|[|i]] k [= <-]; (split; [by split|]); (split; intros q Hq;
      [eapply block_ready_b_spec; [|exact Hq]|eapply block_allocated_b_spec; [|exact Hq]];
      vm_compute; reflexivity).
  - intros [|[|i]] k l [= <-] [= <-] q Hq; (eapply block_ready_b_spec; [|exact Hq]);
      vm_compute; reflexivity.
Qed.

Lemma hub_turns_return_witness :
  (∃ l, h_links tn_hub !! 1%nat = Some l ∧
     ends (client_poll_channel (spoke_tensors hb_k1) (l_peers l) 500) (world (l_client l))
       (λ peers w, hub_step (λ a b a' b', carry_next a b = Some (a', b')) hb_ks tn_hub
         (with_ends tn_hub 1 (l_client l <| world := w |> <| arrived := [] |>) peers (serving tn_hub l)))) ∧
  ends (server_poll_channel (hub_tensors hb_ks) 501) (h_world tn_hub) (λ _ w,
    hub_step (λ a b a' b', carry_next a b = Some (a', b')) hb_ks tn_hub
      (mkHub w [] (h_links tn_hub))).
Proof.
  destruct (hub_turns_return hb_ks _ hb_start tn_hub hb_spokes hb_ready tn_ready
    (run_hub_steps _ _ _ _ tn_run)) as [Hc Hs]. split.
  - assert (is_Some (h_links tn_hub !! 1%nat)) as [l E] by (apply is_Some_computes; vm_compute; reflexivity).
    exists l. split; [exact E|].
    assert ((λ l, (channel (l_client l), drop 2 (arrived (l_client l)),
      bool_decide (Z.of_nat (executed (l_client l)) < 2^30), 
      polled (channel (l_client l)) (world (l_client l)) (arrived (l_client l))))
      <$> (h_links tn_hub !! 1%nat) = Some (500, [], true, Some 2)) as F by (vm_compute; reflexivity).
    rewrite E in F. injection F as Hch Hd Hx Hn. apply bool_decide_eq_true_1 in Hx.
    specialize (Hc 1%nat hb_k1 l 2 eq_refl E Hx (polled_reports _ _ _ _ Hn)).
    cbv zeta in Hc. change (Z.to_nat 2) with 2%nat in Hc. rewrite Hd in Hc. rewrite <-Hch at 1. exact Hc.
  - assert (drop 2 (h_arrived tn_hub) = []) as Hd by (vm_compute; reflexivity).
    rewrite <-Hd. apply (Hs 501 2).
    + apply (bool_decide_unpack _). vm_compute; exact I.
    + apply polled_reports. vm_compute; reflexivity.
Defined.
