(* ===== verification/Bench.v ===== *)
(** * The latency and bandwidth benchmark (example/lat_bw_benchmark.cc)

    A client that measures sends, writes and reads against a server, each of
    them on one channel with one buffer.  [rfuel] bounds the rounds of each
    receiving loop of the TCP exchange, [pfuel] the empty polls of each loop
    that waits for a completion. *)
From S2P Require Import Prelude Words Types Layout World Sim Timer Ident Device.
From S2P Require Import Buffer Adapter Channel Tcp Endpoint Session ClientServer.
From S2P Require Import Flow.

Definition MB : Z := 1024 * 1024.

Inductive MessageforTest :=
  | REQUEST_BUFFER | RESPONSE_TO_REQUEST_BUFFER | SEND_TEST_REQUEST
  | RESPONSE_TO_SEND_TEST_REQUEST | WRITE_TEST_REQUEST | RESPONSE_TO_WRITE_TEST_REQUEST
  | READ_TEST_REQUEST | RESPONSE_TO_READ_TEST_REQUEST | BYEBYE | TEST_RAW_DATA.

Definition test_code (m : MessageforTest) : Z :=
  match m with
  | REQUEST_BUFFER => 1
  | RESPONSE_TO_REQUEST_BUFFER => 2
  | SEND_TEST_REQUEST => 3
  | RESPONSE_TO_SEND_TEST_REQUEST => 4
  | WRITE_TEST_REQUEST => 5
  | RESPONSE_TO_WRITE_TEST_REQUEST => 6
  | READ_TEST_REQUEST => 7
  | RESPONSE_TO_READ_TEST_REQUEST => 8
  | BYEBYE => 255
  | TEST_RAW_DATA => 299
  end.

(** The member array [global_wc[128]]; [None] is an entry never written. *)
Definition wc_array : Type := list (option ibv_wc).
Definition fresh_wc : wc_array := replicate 128 None.

#[export] Instance wc_opcode_eq_dec : EqDecision ibv_wc_opcode.
Proof. solve_decision. Defined.

Section bench.
Context {X : Type} `{!Platform X}.

(** ** Waiting for completions *)

(** [do { num_wqe = poll_cq_batch(global_wc, expected); } while (num_wqe == 0);]
    the array keeps the entries a poll does not write. *)
Definition write_wcs (wcs : list ibv_wc) (g : wc_array) : wc_array :=
  (Some <$> wcs) ++ drop (length wcs) g.
Fixpoint poll_until (pfuel : nat) (channel expected : Z) (g : wc_array) : W X (Z * wc_array) :=
  match pfuel with
  | O => fail OutOfFuel
  | S pfuel =>
      r ← poll_cq_batch channel expected;
      let g := write_wcs (take (Z.to_nat expected) r.2) g in
      if r.1 =? 0 then poll_until pfuel channel expected g else mret (r.1, g)
  end.

Definition wc_entry (g : wc_array) (i : Z) : W X ibv_wc :=
  must (mjoin (g !! Z.to_nat i)) "global_wc[]".

(** CHECK(global_wc[i].status == IBV_WC_SUCCESS) *)
Definition check_status (g : wc_array) (i : Z) : W X ibv_wc :=
  wc ← wc_entry g i;
  check (wc_status wc =? IBV_WC_SUCCESS) "Failed to query exchange info with error" ;;
  mret wc.
Definition check_opcode (wc : ibv_wc) (op : ibv_wc_opcode) : W X unit :=
  check (bool_decide (wc_opcode wc = op)) "Unexpected opcode".

(** Wait for one completion, which must be a success of the given kind. *)
Definition await_one (pfuel : nat) (channel : Z) (g : wc_array) (op : ibv_wc_opcode)
    : W X (ibv_wc * wc_array) :=
  r ← poll_until pfuel channel 1 g;
  wc ← check_status r.2 0;
  check_opcode wc op ;;
  mret (wc, r.2).

(** ** What both sides do first *)

Definition bench_register_buffer (channel : Z) : W X Z :=
  check (negb (channel =? 0)) "active_channel_ != nullptr" ;;
  buffer ← allocate_buffer (8 * MB) 1000 "benchmark_buffer";
  register_buffer channel buffer ;;
  buffer_recv ← at_ buffer 0;
  b ← buf_at buffer_recv;
  recv_remote channel buffer_recv (u32 (buffer_size b)) ;;
  mret buffer.

Definition bench_sync (rfuel : nat) (channel : Z) : W X unit :=
  c ← chan_at channel; sync_with_peer rfuel (registered_endpoint_ c).

Definition bench_config (c : AdapterConfig) : AdapterConfig :=
  let c := c <| using_shared_cq := false |> <| max_recv_wr := 1024 |> <| max_send_wr := 1024 |> in
  c <| cq_size := u32 (max_recv_wr c + max_send_wr c) |>.
Definition bench_configure (ep : Z) : W X unit :=
  channel ← get_channel ep 0; upd_config channel bench_config.

(** ** SchedulingClient *)

(** The loop that waits for the completion of a request and for the peer's
    answer to it, in either order; the pass that finds both ends it. *)
Fixpoint await_answer (fuel pfuel : nat) (channel answer : Z) (g : wc_array)
    (send_completion recv_completion : bool) : W X wc_array :=
  if send_completion && recv_completion then mret g
  else
    match fuel with
    | O => fail OutOfFuel
    | S fuel =>
        r ← poll_until pfuel channel 1 g;
        let g := r.2 in
        wc ← check_status g 0;
        if bool_decide (wc_opcode wc = IBV_WC_SEND) then
          check (negb send_completion) "Unexpected send completion events" ;;
          await_answer fuel pfuel channel answer g true recv_completion
        else
          check_opcode wc IBV_WC_RECV ;;
          check (wc_imm_data wc =? answer) "Unexpected message for the test benchmark" ;;
          check (negb recv_completion) "Unexpected receive completion events" ;;
          await_answer fuel pfuel channel answer g send_completion true
    end.
(** Each turn that does not end the loop sets one of the two flags. *)
Definition answer_fuel : nat := 2.

(** Returns [global_wc] and [buffer_peer]. *)
Definition client_exchange_buffer_info (pfuel : nat) (channel buffer : Z) (g : wc_array)
    : W X (wc_array * CommDescriptor) :=
  buffer_to_send ← at_ buffer 1;
  send_remote channel buffer_to_send 2 (test_code REQUEST_BUFFER) ;;
  g ← await_answer answer_fuel pfuel channel (test_code RESPONSE_TO_REQUEST_BUFFER) g false false;
  b0 ← at_ buffer 0;
  b ← buf_at b0;
  bs ← load (data_ptr b) sizeof_CommDescriptor;
  mret (g, decode_CommDescriptor bs).

(** What every test wraps its loop in; the elapsed time is only logged. *)
Definition timed {A} (body : W X A) : W X A :=
  let timer := Timer_ctor in
  call (sleep_for 1000000) ;;
  timer ← Timer_Start timer;
  a ← body;
  Timer_Stop timer ;;
  mret a.

(** One turn of a latency test: post one request on the next block and wait for
    its completion. *)
Definition latency_round (pfuel : nat) (channel buffer : Z) (post : Z → W X bool)
    (op : ibv_wc_opcode) (g : wc_array) (index : Z) : W X wc_array :=
  s ← next buffer;
  post s ;;
  r ← await_one pfuel channel g op;
  last buffer ;;
  mret r.2.
Definition latency_test (pfuel : nat) (channel buffer : Z) (post : Z → W X bool)
    (op : ibv_wc_opcode) (g : wc_array) : W X wc_array :=
  timed (fold_each (latency_round pfuel channel buffer post op) g (seqZ 0 1000)).

Definition client_lat_send (pfuel : nat) (channel buffer : Z) (g : wc_array) (msg_length : Z)
    : W X wc_array :=
  b0 ← at_ buffer 0;
  recv_remote channel b0 64 ;;
  buffer_to_send ← at_ buffer 1;
  send_remote channel buffer_to_send 2 (test_code SEND_TEST_REQUEST) ;;
  g ← await_answer answer_fuel pfuel channel (test_code RESPONSE_TO_SEND_TEST_REQUEST) g
        false false;
  latency_test pfuel channel buffer
    (λ s, send_remote channel s (u32 msg_length) (test_code TEST_RAW_DATA)) IBV_WC_SEND g.

Definition write_test (pfuel : nat) (channel buffer : Z) (peer : CommDescriptor) (g : wc_array)
    (msg_length : Z) : W X wc_array :=
  latency_test pfuel channel buffer
    (λ s, write_remote channel s (u32 msg_length) (Some peer) (test_code TEST_RAW_DATA) false)
    IBV_WC_RDMA_WRITE g.

Definition read_test (pfuel : nat) (channel buffer : Z) (peer : CommDescriptor) (g : wc_array)
    (msg_length : Z) : W X wc_array :=
  latency_test pfuel channel buffer
    (λ s, read_remote channel s (u32 msg_length) (Some peer)) IBV_WC_RDMA_READ g.

(** The bandwidth tests differ in the block they write from: the [next] one, or
    always the first ([write_bw_test_fake]), which is then not given back. *)
Definition bw_post (fake : bool) (channel buffer : Z) (peer : CommDescriptor) (msg_length : Z)
    : W X unit :=
  s ← (if fake then at_ buffer 0 else next buffer);
  write_remote channel s (u32 msg_length) (Some peer) (test_code TEST_RAW_DATA) false ;;
  mret tt.

(** One completion of a batch. *)
Definition bw_confirm (fake : bool) (buffer : Z) (g : wc_array) (confirm wc_index : Z)
    : W X Z :=
  wc ← check_status g wc_index;
  check_opcode wc IBV_WC_RDMA_WRITE ;;
  (if fake then mret tt else last buffer ;; mret tt) ;;
  defined (confirm <? INT_MAX) "signed overflow" ;;
  mret (confirm + 1).

(** [for (int index = 0; index < 1000; index++)], [n] turns before its end. *)
Fixpoint bw_confirm_loop (n pfuel : nat) (fake : bool) (channel buffer confirm : Z)
    (g : wc_array) : W X (Z * wc_array) :=
  match n with
  | O => mret (confirm, g)
  | S n =>
      if 1000 <=? confirm then mret (confirm, g)
      else
        r ← poll_until pfuel channel 128 g;
        confirm ← fold_each (bw_confirm fake buffer r.2) confirm (seqZ 0 r.1);
        bw_confirm_loop n pfuel fake channel buffer confirm r.2
  end.

Definition write_bw (fake : bool) (pfuel : nat) (channel buffer : Z) (peer : CommDescriptor)
    (g : wc_array) (msg_length : Z) : W X wc_array :=
  r ← timed (
    for_each (seqZ 0 1000) (λ _, bw_post fake channel buffer peer msg_length) ;;
    bw_confirm_loop 1000 pfuel fake channel buffer 0 g);
  check (r.1 =? 1000) "confirm == 1000" ;;
  mret r.2.
Definition write_bw_test := write_bw false.
Definition write_bw_test_fake := write_bw true.

(** [for (uint32_t buffer_size = 1; buffer_size <= 8 * MB; buffer_size *= 2)] *)
Fixpoint for_sizes (fuel : nat) (test : wc_array → Z → W X wc_array) (g : wc_array)
    (buffer_size : Z) : W X wc_array :=
  match fuel with
  | O => fail OutOfFuel
  | S fuel =>
      if buffer_size <=? 8 * MB then
        g ← test g buffer_size;
        for_sizes fuel test g (u32 (buffer_size * 2))
      else mret g
  end.
(** 24 sizes and the pass that leaves the loop. *)
Definition sizes_fuel : nat := 25.

Definition SchedulingClient_process_CQ (rfuel pfuel : nat) (this : Z) (channels : list Z)
    : W X unit :=
  check (Z.of_nat (length channels) =? 1) "Invalid aggregated_channels for this task" ;;
  channel ← must (channels !! 0%nat) "aggregated_channels[0]";
  buffer ← bench_register_buffer channel;
  session_get_id this ;;
  bench_sync rfuel channel ;;
  p ← client_exchange_buffer_info pfuel channel buffer fresh_wc;
  let '(g, buffer_peer) := p in
  call (sleep_for 1000000000) ;;
  g ← for_sizes sizes_fuel (λ g n,
        call (sleep_for 10000000) ;; client_lat_send pfuel channel buffer g n) g 1;
  g ← for_sizes sizes_fuel (write_test pfuel channel buffer buffer_peer) g 1;
  g ← for_sizes sizes_fuel (read_test pfuel channel buffer buffer_peer) g 1;
  g ← for_sizes sizes_fuel (write_bw_test pfuel channel buffer buffer_peer) g 1;
  g ← for_sizes sizes_fuel (write_bw_test_fake pfuel channel buffer buffer_peer) g 1;
  b0 ← at_ buffer 0;
  send_remote channel b0 64 (test_code BYEBYE) ;;
  mret tt.

Definition SchedulingClient_ctor (conf : Config) : W X Z := RDMASession_ctor conf.
Definition SchedulingClient_lazy_config_hca (this : Z) : W X unit :=
  s ← sess_at this;
  check (Z.of_nat (length (end_point_mgr_ s)) =? 1) "Invalid configuration for your test" ;;
  for_each (end_point_mgr_ s) bench_configure.

(** ** SchedulingServer *)

(** The descriptor of the first block, written into the second one; the last
    member, [fd_], keeps the bytes that are there. *)
Definition server_exchange_buffer_info (pfuel : nat) (channel buffer : Z) (g : wc_array)
    : W X wc_array :=
  r ← poll_until pfuel channel 1 g;
  let g := r.2 in
  wc ← check_status g 0;
  check_opcode wc IBV_WC_RECV ;;
  check (wc_imm_data wc =? test_code REQUEST_BUFFER)
    "Unexpected message for the exchange buffer" ;;
  b1 ← at_ buffer 1;
  mine ← buf_at b1;
  buffer_to_write ← at_ buffer 0;
  b ← buf_at buffer_to_write;
  m ← must (mr_ b) "buffer_to_write->mr_->rkey";
  let mybuffer := mkCommDescriptor (data_ptr b) (buffer_size b) (mr_rkey m) 0 in
  memcpy_in (data_ptr mine) (take 20 (encode_CommDescriptor mybuffer)) 20 ;;
  b1 ← at_ buffer 1;
  send_remote channel b1 64 (test_code RESPONSE_TO_REQUEST_BUFFER) ;;
  r ← await_one pfuel channel g IBV_WC_SEND;
  mret r.2.

Definition server_post_one (channel buffer : Z) : W X unit :=
  buffer_bin ← next buffer;
  b ← buf_at buffer_bin;
  recv_remote channel buffer_bin (u32 (buffer_size b)) ;;
  mret tt.
Definition server_take_one (pfuel : nat) (channel buffer : Z) (g : wc_array) (index : Z)
    : W X wc_array :=
  r ← await_one pfuel channel g IBV_WC_RECV;
  check (wc_imm_data r.1 =? test_code TEST_RAW_DATA) "Invalid msg_type" ;;
  last buffer ;;
  mret r.2.

Definition server_lat_send (pfuel : nat) (channel buffer : Z) (g : wc_array) : W X wc_array :=
  b0 ← at_ buffer 0;
  recv_remote channel b0 64 ;;
  r ← await_one pfuel channel g IBV_WC_RECV;
  for_each (seqZ 0 1000) (λ _, server_post_one channel buffer) ;;
  b1 ← at_ buffer 1;
  send_remote channel b1 0 (test_code RESPONSE_TO_SEND_TEST_REQUEST) ;;
  r ← await_one pfuel channel r.2 IBV_WC_SEND;
  fold_each (server_take_one pfuel channel buffer) r.2 (seqZ 0 1000).

(** The whole body runs under [m_mutex]. *)
Definition SchedulingServer_process_CQ (rfuel pfuel : nat) (this : Z) (channels : list Z)
    : W X unit :=
  check (Z.of_nat (length channels) =? 1) "Invalid aggregated_channels for this task" ;;
  channel ← must (channels !! 0%nat) "aggregated_channels[0]";
  buffer ← bench_register_buffer channel;
  session_get_id this ;;
  bench_sync rfuel channel ;;
  g ← server_exchange_buffer_info pfuel channel buffer fresh_wc;
  g ← for_sizes sizes_fuel (λ g _, server_lat_send pfuel channel buffer g) g 1;
  b0 ← at_ buffer 0;
  recv_remote channel b0 64 ;;
  r ← await_one pfuel channel g IBV_WC_RECV;
  check (wc_imm_data r.1 =? test_code BYEBYE) "Unexpected message for the test benchmark".

Definition SchedulingServer_ctor (conf : Config) : W X Z := RDMASession_ctor conf.
Definition SchedulingServer_lazy_config_hca (this : Z) : W X unit :=
  s ← sess_at this;
  for_each (end_point_mgr_ s) bench_configure.
End bench.

(** ** Lemmas *)

Section bench_lemmas.
Context {X : Type} `{!Platform X}.
Implicit Types w : World X.

(** A run that changes only what the platform owns. *)
Definition external {A} (m : W X A) : Prop :=
  ∀ w a w', m w = Ok a w' → ∃ x mm, w' = w <| w_ext := x |> <| w_mem := mm |>.
Lemma external_ret {A} (a : A) : external (mret a).
Proof. intros w a' w' H. pinv H. by exists (w_ext w), (w_mem w); destruct w. Qed.
Lemma external_bind {A B} (m : W X A) (k : A → W X B) :
  external m → (∀ a, external (k a)) → external (m ≫= k).
Proof.
  intros Hm Hk w b w' (a & w1 & H1 & H2)%bind_inv. apply Hm in H1 as (x & mm & ->).
  apply Hk in H2 as (x' & mm' & ->). by exists x', mm'.
Qed.
Lemma external_call {A} (op : ext_op X A) : external (call op).
Proof. intros w a w' (x & m & _ & ->)%call_inv. eauto. Qed.
Lemma external_read {A} (m : W X A) : (∀ w a w', m w = Ok a w' → w' = w) → external m.
Proof. intros H w a w' ->%H. by exists (w_ext w), (w_mem w); destruct w. Qed.

Lemma external_poll_until pfuel ch n g : external (poll_until pfuel ch n g).
Proof.
  revert g. induction pfuel as [|pfuel IH]; intros g; cbn [poll_until]; [by intros ???|].
  unfold poll_cq_batch, real_poll_completion_queue.
  apply external_bind; [apply external_bind; [|intros a; apply external_bind; [|intros _;
    apply external_bind; [|intros _]]]|intros r].
  - apply external_read. by intros ??? (?&_&_&->)%adapter_at_inv.
  - apply external_read. by intros ??? [_ ->]%check_inv.
  - apply external_read. by intros ??? [_ ->]%check_inv.
  - apply external_call.
  - cbv zeta. destruct (r.1 =? 0); [apply IH|apply external_ret].
Qed.

Lemma check_status_inv g i w wc w' :
  check_status g i w = Ok wc w' →
  w' = w ∧ mjoin (g !! Z.to_nat i) = Some wc ∧ wc_status wc = IBV_WC_SUCCESS.
Proof.
  intros H. unfold check_status, wc_entry in H. wstep H as e w1 H1. wstep H as ? w2 H2. pinv H.
  apply Z.eqb_eq in H2. done.
Qed.
Lemma check_opcode_inv wc op w u w' :
  check_opcode wc op w = Ok u w' → w' = w ∧ wc_opcode wc = op.
Proof. intros H. unfold check_opcode in H. pinv H. by apply bool_decide_eq_true in H. Qed.

Lemma check_status_eq g i wc w :
  mjoin (g !! Z.to_nat i) = Some wc → wc_status wc = IBV_WC_SUCCESS →
  check_status g i w = Ok wc w.
Proof.
  intros H Hs. unfold check_status, wc_entry. rewrite H. cbn [must]. rewrite bind_ret, Hs. done.
Qed.
Lemma check_opcode_eq wc op w : wc_opcode wc = op → check_opcode wc op w = Ok tt w.
Proof. intros H. unfold check_opcode. by rewrite bool_decide_true. Qed.

(** A returned wait changed the platform only, and found a success of the
    kind asked for. *)
Lemma await_one_inv pfuel ch g op w r w' :
  await_one pfuel ch g op w = Ok r w' →
  (∃ x mm, w' = w <| w_ext := x |> <| w_mem := mm |>) ∧
  wc_status r.1 = IBV_WC_SUCCESS ∧ wc_opcode r.1 = op.
Proof.
  intros H. unfold await_one in H. apply bind_inv in H as (p & w1 & H1 & H).
  apply external_poll_until in H1. apply bind_inv in H as (wc & w2 & H2 & H).
  apply check_status_inv in H2 as (-> & _ & Hst).
  apply bind_inv in H as (? & w3 & [-> Hop]%check_opcode_inv & H). pinv H. done.
Qed.
End bench_lemmas.

(** A channel's counters and the ring of its benchmark buffer. *)
Section bench_state.
Context {X : Type} `{!Platform X}.
Implicit Types w : World X.
Context (ch p : Z).

Record bench_state w (r : ring) (rq sq : Z) : Prop := {
  bs_ring : ring_wf (w_bufs w) p r;
  bs_count : inflight w ch = Some (rq, sq)
}.

Lemma bs_objects w w' r rq sq :
  bench_state w r rq sq → w_bufs w' = w_bufs w → w_chans w' = w_chans w →
  bench_state w' r rq sq.
Proof. intros [H1 H2] Hb Hc. split; [congruence|by rewrite (inflight_same _ _ _ Hc)]. Qed.
Lemma bs_external {A} (m : W X A) w a w' r rq sq :
  external m → m w = Ok a w' → bench_state w r rq sq → bench_state w' r rq sq.
Proof. intros Hm (x & mm & ->)%Hm Hs. by eapply bs_objects. Qed.
Lemma bs_quiet {A} (m : W X A) w a w' r rq sq rq' sq' :
  quiet m → m w = Ok a w' → bench_state w r rq sq →
  inflight w' ch = Some (rq', sq') → bench_state w' r rq' sq'.
Proof. intros [Hb _] H [H1 H2] Hc. apply Hb in H. split; [congruence|done]. Qed.

Lemma bs_next w s w' r rq sq :
  next p w = Ok s w' → bench_state w r rq sq → bench_state w' (moved r 1 0) rq sq.
Proof.
  intros H [H1 H2]. destruct (next_step _ _ _ _ _ H1 H) as (_ & Hr & _).
  rewrite ring_next_moved in Hr. split; [done|].
  by rewrite (inflight_same _ _ _ (keeps_chans_next _ _ _ _ H)).
Qed.
Lemma bs_last w s w' r rq sq :
  last p w = Ok s w' → bench_state w r rq sq → bench_state w' (moved r 0 1) rq sq.
Proof.
  intros H [H1 H2]. destruct (last_step _ _ _ _ _ H1 H) as (_ & Hr & _).
  rewrite ring_last_moved in Hr. split; [done|].
  by rewrite (inflight_same _ _ _ (keeps_chans_last _ _ _ _ H)).
Qed.
Lemma bs_send q n tag w u w' r rq sq :
  send_remote ch q n tag w = Ok u w' → bench_state w r rq sq → bench_state w' r rq (sq + 1).
Proof.
  intros H Hs. eapply bs_quiet; [apply quiet_send_remote|done..|].
  eapply send_remote_inflight; [done|by destruct Hs].
Qed.
Lemma bs_recv q n w u w' r rq sq :
  recv_remote ch q n w = Ok u w' → bench_state w r rq sq → bench_state w' r (rq + 1) sq.
Proof.
  intros H Hs. eapply bs_quiet; [apply quiet_recv_remote|done..|].
  eapply recv_remote_inflight; [done|by destruct Hs].
Qed.
Lemma bs_write q n d tag nf w u w' r rq sq :
  write_remote ch q n d tag nf w = Ok u w' → bench_state w r rq sq →
  bench_state w' r rq (sq + 1).
Proof.
  intros H Hs. eapply bs_quiet; [apply quiet_write_remote|done..|].
  eapply write_remote_inflight; [done|by destruct Hs].
Qed.
Lemma bs_read q n d w u w' r rq sq :
  read_remote ch q n d w = Ok u w' → bench_state w r rq sq → bench_state w' r rq (sq + 1).
Proof.
  intros H Hs. eapply bs_quiet; [apply quiet_read_remote|done..|].
  eapply read_remote_inflight; [done|by destruct Hs].
Qed.
Lemma at_inv q i w s w' : at_ q i w = Ok s w' → w' = w.
Proof. intros H. unfold at_ in H. wstep H as b w1 H1. wstep H as ? w2 H2. by pinv H. Qed.

Lemma bs_await pfuel g op w x w' r rq sq :
  await_one pfuel ch g op w = Ok x w' → bench_state w r rq sq → bench_state w' r rq sq.
Proof. intros ((y & mm & ->) & _)%await_one_inv Hs. by eapply bs_objects. Qed.

(** [i] turns of a loop that moves the ring by [a] and [b] and the counters by
    [c] and [d] per turn. *)
Definition bs_after (r : ring) (rq sq a b c d : Z) (i : nat) w : Prop :=
  bench_state w (moved r (a * Z.of_nat i) (b * Z.of_nat i)) (rq + c * Z.of_nat i)
    (sq + d * Z.of_nat i).
Lemma bs_after_0 w r rq sq a b c d :
  bench_state w r rq sq → bs_after r rq sq a b c d 0 w.
Proof. unfold bs_after. cbn. by rewrite !Z.mul_0_r, moved_0, !Z.add_0_r. Qed.
Lemma bs_counts w r n m rq sq n' m' rq' sq' :
  bench_state w (moved r n m) rq sq → n = n' → m = m' → rq = rq' → sq = sq' →
  bench_state w (moved r n' m') rq' sq'.
Proof. by intros ? -> -> -> ->. Qed.

(** A body wrapped in the timer. *)
Lemma timed_inv {A} (body : W X A) w a w' :
  timed body w = Ok a w' →
  ∃ w1 w2 x1 m1 x2 m2, body w1 = Ok a w2 ∧ w1 = w <| w_ext := x1 |> <| w_mem := m1 |> ∧
    w' = w2 <| w_ext := x2 |> <| w_mem := m2 |>.
Proof.
  intros H. unfold timed in H. cbv zeta in H. wstep H as u w1 H1.
  apply bind_inv in H as (t & w2 & H2 & H). apply Timer_Start_inv in H2 as (n & xs & ms & _ & Ht & ->);
    [|done]. apply bind_inv in H as (b & w3 & H3 & H). apply bind_inv in H as (t' & w4 & H4 & H).
  subst t. apply Timer_Stop_inv in H4 as (n' & xe & me & _ & _ & ->); [|done]. pinv H.
  eexists _, w3, _, _, xe, me. split; [exact H3|]. split; [|done]. done.
Qed.
Lemma bs_timed {A} (body : W X A) w a w' r rq sq r' rq' sq' :
  timed body w = Ok a w' → bench_state w r rq sq →
  (∀ w1 w2, body w1 = Ok a w2 → bench_state w1 r rq sq → bench_state w2 r' rq' sq') →
  bench_state w' r' rq' sq'.
Proof.
  intros (w1 & w2 & x1 & m1 & x2 & m2 & H & -> & ->)%timed_inv Hs Hb.
  eapply bs_objects; [eapply Hb; [exact H|by eapply bs_objects]|done|done].
Qed.

(** The latency tests. *)
Lemma bs_latency_round pfuel post op g i w g' w' r rq sq :
  (∀ s w u w' r rq sq, post s w = Ok u w' → bench_state w r rq sq →
     bench_state w' r rq (sq + 1)) →
  latency_round pfuel ch p post op g i w = Ok g' w' → bench_state w r rq sq →
  bench_state w' (moved r 1 1) rq (sq + 1).
Proof.
  intros Hpost H Hs. unfold latency_round in H. apply bind_inv in H as (s & w1 & H1 & H).
  eapply bs_next in H1; [|exact Hs]. apply bind_inv in H as (? & w2 & H2 & H).
  eapply Hpost in H2; [|exact H1]. apply bind_inv in H as (rc & w3 & H3 & H).
  eapply bs_await in H3; [|exact H2]. apply bind_inv in H as (? & w4 & H4 & H). pinv H.
  eapply bs_last in H4; [|exact H3]. rewrite moved_moved in H4. exact H4.
Qed.
Lemma bs_latency_test pfuel post op g w g' w' r rq sq :
  (∀ s w u w' r rq sq, post s w = Ok u w' → bench_state w r rq sq →
     bench_state w' r rq (sq + 1)) →
  latency_test pfuel ch p post op g w = Ok g' w' → bench_state w r rq sq →
  bench_state w' (moved r 1000 1000) rq (sq + 1000).
Proof.
  intros Hpost H Hs. unfold latency_test in H. eapply bs_timed; [exact H|exact Hs|].
  clear H Hs. intros w1 w2 H Hs.
  eapply (fold_each_inv (λ i _ w, bs_after r rq sq 1 1 0 1 i w)) in H;
    [|intros i b a w3 a' w4 _ HI Hb|by apply bs_after_0].
  - unfold bs_after in H. rewrite length_seqZ in H. eapply bs_counts; [exact H|lia..].
  - eapply bs_latency_round in Hb; [|exact Hpost|exact HI]. unfold bs_after.
    rewrite moved_moved in Hb. eapply bs_counts; [exact Hb|lia..].
Qed.

(** The bandwidth tests. *)
Lemma bs_bw_posts fake peer n (l : list Z) w u w' r rq sq :
  for_each l (λ _, bw_post fake ch p peer n) w = Ok u w' → bench_state w r rq sq →
  let k := Z.of_nat (length l) in
  bench_state w' (moved r (if fake then 0 else k) 0) rq (sq + k).
Proof.
  intros H Hs. cbv zeta.
  eapply (for_each_inv (λ i w, bs_after r rq sq (if fake then 0 else 1) 0 0 1 i w)) in H;
    [|clear H Hs; intros i b w1 v w2 _ HI H|by apply bs_after_0].
  - unfold bs_after in H. eapply bs_counts; [exact H|destruct fake; lia..].
  - unfold bw_post in H. apply bind_inv in H as (s & w3 & H3 & H).
    apply bind_inv in H as (? & w4 & H4 & H). pinv H. unfold bs_after in *. destruct fake.
    + apply at_inv in H3 as ->. eapply bs_write in H4; [|exact HI].
      eapply bs_counts; [exact H4|lia..].
    + eapply bs_next in H3; [|exact HI]. eapply bs_write in H4; [|exact H3].
      rewrite moved_moved in H4. eapply bs_counts; [exact H4|lia..].
Qed.
Lemma bs_bw_confirm fake g c i w c' w' r rq sq :
  bw_confirm fake p g c i w = Ok c' w' → bench_state w r rq sq →
  c' = c + 1 ∧ bench_state w' (moved r 0 (if fake then 0 else 1)) rq sq.
Proof.
  intros H Hs. unfold bw_confirm in H.
  apply bind_inv in H as (wc & w1 & (-> & _)%check_status_inv & H).
  apply bind_inv in H as (? & w2 & [-> _]%check_opcode_inv & H).
  apply bind_inv in H as (? & w3 & H3 & H). wstep H as ? w4 H4. pinv H. split; [done|].
  destruct fake; [pinv H3; by rewrite moved_0|].
  apply bind_inv in H3 as (? & w5 & H5 & H3). pinv H3. by eapply bs_last.
Qed.
Lemma bs_bw_confirm_loop n pfuel fake c g w res w' r rq sq :
  bw_confirm_loop n pfuel fake ch p c g w = Ok res w' → bench_state w r rq sq →
  bench_state w' (moved r 0 (if fake then 0 else res.1 - c)) rq sq.
Proof.
  revert c g w r. induction n as [|n IH]; intros c g w r H Hs; cbn [bw_confirm_loop] in H.
  { pinv H. rewrite <-(moved_0 r) in Hs. eapply bs_counts; [exact Hs|destruct fake; cbn; lia..]. }
  destruct (1000 <=? c).
  { pinv H. rewrite <-(moved_0 r) in Hs. eapply bs_counts; [exact Hs|destruct fake; cbn; lia..]. }
  apply bind_inv in H as (rc & w1 & H1 & H). eapply bs_external in H1;
    [|apply external_poll_until|exact Hs].
  apply bind_inv in H as (c1 & w2 & H2 & H).
  eapply (fold_each_inv (λ i ci w, ci = c + Z.of_nat i ∧
    bs_after r rq sq 0 (if fake then 0 else 1) 0 0 i w)) in H2 as [Hc2 H2];
    [| |split; [lia|by apply bs_after_0]].
  - assert (bench_state w2 (moved r 0 (if fake then 0 else c1 - c)) rq sq) as Hs2.
    { eapply bs_counts; [exact H2|destruct fake; lia..]. }
    eapply IH in H; [|exact Hs2]. rewrite moved_moved in H.
    eapply bs_counts; [exact H|destruct fake; lia..].
  - intros i b ci w3 ci' w4 _ [-> HI] Hb. eapply bs_bw_confirm in Hb as [-> Hb]; [|exact HI].
    split; [lia|]. unfold bs_after in *. rewrite moved_moved in Hb.
    eapply bs_counts; [exact Hb|destruct fake; lia..].
Qed.

(** The server's side of a send test. *)
Lemma bs_post_receives (l : list Z) w u w' r rq sq :
  for_each l (λ _, server_post_one ch p) w = Ok u w' → bench_state w r rq sq →
  let k := Z.of_nat (length l) in bench_state w' (moved r k 0) (rq + k) sq.
Proof.
  intros H Hs. cbv zeta.
  eapply (for_each_inv (λ i w, bs_after r rq sq 1 0 1 0 i w)) in H;
    [|clear H Hs; intros i b w1 v w2 _ HI H|by apply bs_after_0].
  - unfold bs_after in H. eapply bs_counts; [exact H|lia..].
  - unfold server_post_one in H. apply bind_inv in H as (s & w3 & H3 & H).
    wstep H as bf w4 H4. apply bind_inv in H as (? & w5 & H5 & H). pinv H.
    unfold bs_after in *. eapply bs_next in H3; [|exact HI]. eapply bs_recv in H5; [|exact H3].
    rewrite moved_moved in H5. eapply bs_counts; [exact H5|lia..].
Qed.
Lemma bs_take_all pfuel (l : list Z) g w g' w' r rq sq :
  fold_each (server_take_one pfuel ch p) g l w = Ok g' w' → bench_state w r rq sq →
  bench_state w' (moved r 0 (Z.of_nat (length l))) rq sq.
Proof.
  intros H Hs.
  eapply (fold_each_inv (λ i _ w, bs_after r rq sq 0 1 0 0 i w)) in H;
    [|intros i b a w3 a' w4 _ HI Hb|by apply bs_after_0].
  - unfold bs_after in H. eapply bs_counts; [exact H|lia..].
  - unfold server_take_one in Hb. apply bind_inv in Hb as (rc & w5 & H5 & Hb).
    eapply bs_await in H5; [|exact HI]. wstep Hb as ? w6 H6.
    apply bind_inv in Hb as (? & w7 & H7 & Hb). pinv Hb. unfold bs_after.
    eapply bs_last in H7; [|exact H5]. rewrite moved_moved in H7.
    eapply bs_counts; [exact H7|lia..].
Qed.
End bench_state.

(** ** The loop over the message sizes *)

(** 1, 2, 4, ..., 8 MB *)
Definition test_sizes : list Z := (λ i, 2 ^ i) <$> seqZ 0 24.

Section bench_theorems.
Context {X : Type} `{!Platform X}.
Implicit Types w : World X.

Lemma for_sizes_step (test : wc_array → Z → W X wc_array) n k g w :
  0 ≤ k → k + Z.of_nat n = 24 →
  for_sizes (S n) test g (2 ^ k) w = fold_each test g ((λ i, 2 ^ i) <$> seqZ k (Z.of_nat n)) w.
Proof.
  revert k g w. induction n as [|n IH]; intros k g w Hk Hn.
  - assert (k = 24) as -> by lia. reflexivity.
  - rewrite seqZ_cons by lia. cbn [fmap list_fmap fold_each].
    change (for_sizes (S (S n)) test g (2 ^ k)) with
      (if 2 ^ k <=? 8 * MB then g ← test g (2 ^ k); for_sizes (S n) test g (u32 (2 ^ k * 2))
       else mret g).
    assert (2 ^ k ≤ 2 ^ 23) as Hle by (apply Z.pow_le_mono_r; lia).
    assert (0 < 2 ^ k) by (apply Z.pow_pos_nonneg; lia).
    rewrite (proj2 (Z.leb_le _ _)) by (unfold MB; lia).
    rewrite u32_small by lia. replace (2 ^ k * 2) with (2 ^ (k + 1)) by (rewrite Z.pow_add_r; lia).
    unfold mbind at 1 2, M_bind. destruct (test g (2 ^ k) w) as [g1 w1|]; [|done].
    rewrite IH by lia. do 3 f_equal; lia.
Qed.

(** the loop over the message sizes ends and runs the test on exactly the 24
    powers of two from 1 to 8 MB, in that order: its unsigned counter does not
    wrap. *)
Theorem sizes_covered (test : wc_array → Z → W X wc_array) g w :
  for_sizes sizes_fuel test g 1 w = fold_each test g test_sizes w.
Proof. exact (for_sizes_step test 24 0 g w ltac:(lia) ltac:(lia)). Qed.

(** a bandwidth test that returns has posted 1000 writes, all before it looks
    for the first completion, and has taken exactly 1000 completions, giving as
    many blocks back as it took: none in the fake test, which writes from one
    block.  After the posts of the other test each write in flight has a block
    of its own, if the ring has 1000 blocks and none was out before. *)
Theorem bandwidth_test_balanced ch p pfuel peer n r rq sq :
  (∀ fake g w g' w', write_bw fake pfuel ch p peer g n w = Ok g' w' → bench_state ch p w r rq sq →
   let k := if fake then 0 else 1000 in bench_state ch p w' (moved r k k) rq (sq + 1000)) ∧
  (∀ u w w', for_each (seqZ 0 1000) (λ _, bw_post false ch p peer n) w = Ok u w' →
   bench_state ch p w r rq sq → handed r = returned r → 1000 ≤ ring_size r →
   bench_state ch p w' (moved r 1000 0) rq (sq + 1000) ∧ NoDup (outstanding (moved r 1000 0))).
Proof.
  split.
  - intros fake g w g' w' H Hs k. unfold write_bw in H. apply bind_inv in H as (rc & w1 & H1 & H).
    wstep H as ? w2 H2. pinv H. apply Z.eqb_eq in H2.
    eapply bs_timed; [exact H1|exact Hs|]. clear H1 Hs. intros w3 w4 H Hs.
    apply bind_inv in H as (u & w5 & H5 & H). eapply bs_bw_posts in H5; [|exact Hs].
    rewrite length_seqZ in H5. eapply bs_bw_confirm_loop in H; [|exact H5].
    rewrite moved_moved, H2 in H. subst k.
    eapply bs_counts; [exact H|destruct fake; lia..].
  - intros u w w' H Hs Hr Hn. eapply bs_bw_posts in H; [|exact Hs]. rewrite length_seqZ in H.
    assert (bench_state ch p w' (moved r 1000 0) rq (sq + 1000)) as H' by exact H.
    split; [exact H'|]. apply bs_ring in H' as (bb & _ & _ & _ & _ & Hsz & _ & _ & Hnd & _).
    apply outstanding_NoDup; [done|lia|]. unfold ring_size in *. cbn [moved slots handed returned] in *. lia.
Qed.

(** the server's side of a send test posts a receive for the request, then
    one for each of 1000 messages, all before it sends the answer that lets the
    client begin, and takes exactly 1000 completions of receives; it ends with
    as many blocks out as it began with. *)
Theorem server_test_balanced ch p pfuel g w g' w' r rq sq :
  server_lat_send pfuel ch p g w = Ok g' w' → bench_state ch p w r rq sq →
  bench_state ch p w' (moved r 1000 1000) (rq + 1001) (sq + 1).
Proof.
  intros H Hs. unfold server_lat_send in H.
  apply bind_inv in H as (b0 & w1 & ->%at_inv & H). apply bind_inv in H as (? & w2 & H2 & H).
  eapply bs_recv in H2; [|exact Hs]. apply bind_inv in H as (rc & w3 & H3 & H).
  eapply bs_await in H3; [|exact H2]. apply bind_inv in H as (? & w4 & H4 & H).
  eapply bs_post_receives in H4; [|exact H3]. rewrite length_seqZ in H4.
  apply bind_inv in H as (b1 & w5 & ->%at_inv & H). apply bind_inv in H as (? & w6 & H6 & H).
  eapply bs_send in H6; [|exact H4]. apply bind_inv in H as (rs & w7 & H7 & H).
  eapply bs_await in H7; [|exact H6]. eapply bs_take_all in H; [|exact H7].
  rewrite moved_moved, length_seqZ in H. eapply bs_counts; [exact H|lia..].
Qed.
End bench_theorems.

(** ** Latency tests on a healthy link *)

Section ready.
Context {X : Type} `{!Platform X} `{!LinkLaws X}.
Implicit Types w : World X.
Context (ch p : Z) (q : ibv_qp) (cq len : Z).

(** A connected channel at [ch] whose queue pair reports to [cq], and a ring of
    registered blocks of at least [len] bytes. *)
Record linked w (r : ring) (sq : Z) : Prop := {
  ln_ring : ring_wf (w_bufs w) p r;
  ln_blocks s : s ∈ slots r → s ≠ 0 ∧
    ∃ b, w_bufs w !! s = Some b ∧ usable b ∧ len ≤ buffer_size b ∧ is_Some (mr_ b);
  ln_chan : ∃ c, w_chans w !! ch = Some c ∧ qp_ (adapter c) = Some q ∧
    used_cq_ (adapter c) = cq ∧ sq_inflight (adapter c) = sq;
  ln_cq : cq ≠ 0
}.
(** The requests [ops] are in flight. *)
Definition flying w r sq (ops : list ibv_wr_opcode) : Prop :=
  linked w r sq ∧ ∃ k, (k ≤ patience)%nat ∧ in_flight q cq ops k (w_ext w).

(** A post that is accepted on any block of the ring. *)
Definition posts (post : Z → W X bool) (op : ibv_wr_opcode) : Prop :=
  ∀ s w c b, s ≠ 0 → w_bufs w !! s = Some b → usable b → len ≤ buffer_size b →
    is_Some (mr_ b) → w_chans w !! ch = Some c → qp_ (adapter c) = Some q →
    0 ≤ sq_inflight (adapter c) < INT64_MAX →
    ∃ wr, swr_opcode wr = op ∧ swr_send_flags wr = IBV_SEND_SIGNALED ∧
      ∀ x m, ibv_post_send (Some q) wr (w_ext w) (w_mem w) = (0, (x, m)) →
        post s w = Ok true
          (w <| w_chans ::= <[ch := one_more_sqe c]> |> <| w_ext := x |> <| w_mem := m |>).

Lemma linked_ext w x m r sq : linked w r sq → linked (w <| w_ext := x |> <| w_mem := m |>) r sq.
Proof. intros [H1 H2 H3 H4]. by split. Qed.

Lemma flying_cursor w w' r r' sq ops :
  flying w r sq ops → w_chans w' = w_chans w → w_ext w' = w_ext w → slots r' = slots r →
  ring_wf (w_bufs w') p r' → (∀ s, stables s w' = stables s w) → flying w' r' sq ops.
Proof.
  intros [[H1 H2 H3 H4] H5] Hc Hx Hs Hr Hst. split; [|by rewrite Hx]. split; [done| | |done].
  - intros s Hin. rewrite Hs in Hin. destruct (H2 s Hin) as (Hne & b & Hb & Hu & Hl & Hm).
    split; [done|]. destruct (stables_inv s w w' b (Hst s) Hb) as (b' & Hb' & E).
    injection E as E1 E2 E3 E4. exists b'. unfold usable in *.
    rewrite E1, E2, E3, E4. done.
  - by rewrite Hc.
Qed.

Lemma flying_next w r sq ops :
  flying w r sq ops → handed r < INT_MAX →
  ∃ s w', next p w = Ok s w' ∧ s ∈ slots r ∧ flying w' (moved r 1 0) sq ops.
Proof.
  intros Hw Hh. destruct (next_refines p p r w (ln_ring _ _ _ (proj1 Hw)) (or_introl eq_refl) Hh)
    as (s & w' & H & _ & Hin & Hr & _). rewrite ring_next_moved in Hr.
  exists s, w'. split; [done|]. split; [done|].
  eapply flying_cursor; [exact Hw|by eapply keeps_chans_next|by eapply keeps_ext_next|done|done|].
  intros t. by eapply keeps_stables_next.
Qed.
Lemma flying_last w r sq ops :
  flying w r sq ops → returned r < INT_MAX →
  ∃ s w', last p w = Ok s w' ∧ flying w' (moved r 0 1) sq ops.
Proof.
  intros Hw Hh. destruct (last_refines p p r w (ln_ring _ _ _ (proj1 Hw)) (or_introl eq_refl) Hh)
    as (s & w' & H & _ & _ & Hr & _). rewrite ring_last_moved in Hr.
  exists s, w'. split; [done|].
  eapply flying_cursor; [exact Hw|by eapply keeps_chans_last|by eapply keeps_ext_last|done|done|].
  intros t. by eapply keeps_stables_last.
Qed.

Lemma flying_post post op s w r sq ops :
  posts post op → flying w r sq ops → s ∈ slots r → (length ops < send_room)%nat →
  0 ≤ sq < INT64_MAX →
  ∃ w', post s w = Ok true w' ∧ flying w' r (sq + 1) (ops ++ [op]).
Proof.
  intros Hp [[H1 H2 (c & Hc & Hq & Hcq & Hs) H4] (k & _ & H5)] Hin Hroom Hsq.
  destruct (H2 s Hin) as (Hne & b & Hb & Hu & Hl & Hm).
  destruct (Hp s w c b) as (wr & Hop & Hsig & Hpost); try done; [by rewrite Hs|].
  destruct (ibv_post_send (Some q) wr (w_ext w) (w_mem w)) as [rt [x m]] eqn:E.
  destruct (post_in_flight _ _ _ _ _ _ _ _ _ _ H5 Hroom Hsig E) as (-> & k' & Hk & Hfl).
  rewrite Hop in Hfl. rewrite (Hpost _ _ eq_refl). eexists. split; [reflexivity|].
  split; [|by exists k']. split; [done|done| |done].
  exists (one_more_sqe c). cbn. rewrite lookup_insert_eq. by subst sq.
Qed.

(** Waiting ends, with the completions of the oldest requests. *)
Lemma poll_flying pfuel n g w r sq ops :
  flying w r sq ops → ops ≠ [] → 1 ≤ n → (patience < pfuel)%nat →
  ∃ wcs done rest w', poll_until pfuel ch n g w = Ok (Z.of_nat (length wcs), write_wcs wcs g) w' ∧
    ops = done ++ rest ∧ Forall2 completes_op done wcs ∧ done ≠ [] ∧ Z.of_nat (length wcs) ≤ n ∧
    flying w' r sq rest.
Proof.
  intros [Hl (k & Hk & Hf)] Hne Hn Hp. assert (k < pfuel)%nat as Hkp by lia. clear Hk Hp.
  revert k g w Hl Hf Hkp. induction pfuel as [|pfuel IH]; intros k g w Hl Hf Hk; [lia|].
  destruct (ln_chan _ _ _ Hl) as (c & Hc & _ & Hcq & _).
  cbn [poll_until]. unfold poll_cq_batch, real_poll_completion_queue.
  rewrite bind_assoc, (bind_Ok _ _ _ _ _ (adapter_at_eq _ _ _ Hc)), Hcq, bind_assoc.
  rewrite (proj2 (Z.eqb_neq cq 0) (ln_cq _ _ _ Hl)). cbn [negb check]. rewrite bind_ret, bind_assoc.
  rewrite (proj2 (Z.leb_le _ _) Hn). cbn [check]. rewrite bind_ret.
  destruct (ibv_poll_cq cq n (w_ext w) (w_mem w)) as [[num wcs] [x m]] eqn:E.
  rewrite (bind_Ok _ _ _ _ _ (call_eq _ _ _ _ _ E)). cbn [fst snd].
  destruct (poll_in_flight _ _ _ _ _ _ _ _ _ _ _ Hf Hne Hn E)
    as (-> & Hle & done & rest & k' & Ho & Hall & Hk' & Hdec & Hfl).
  rewrite take_ge by lia. destruct wcs as [|wc wcs].
  - apply Forall2_nil_inv_r in Hall as ->. cbn in Ho. subst rest.
    apply (IH k'); [by apply linked_ext|exact Hfl|]. specialize (Hdec eq_refl). lia.
  - rewrite (proj2 (Z.eqb_neq _ 0)) by (cbn [length]; lia).
    exists (wc :: wcs), done, rest. eexists. split; [reflexivity|]. split; [done|]. split; [done|].
    split; [by inversion Hall|]. split; [done|].
    split; [by apply linked_ext|by exists k'].
Qed.

Lemma await_flying pfuel g w r sq op :
  flying w r sq [op] → (patience < pfuel)%nat →
  ∃ x w', await_one pfuel ch g (done_opcode op) w = Ok x w' ∧ flying w' r sq [].
Proof.
  intros Hw Hk. destruct (poll_flying pfuel 1 g _ _ _ _ Hw ltac:(done) ltac:(lia) Hk)
    as (wcs & done & rest & w' & E & Ho & Hall & Hne & _ & H3).
  destruct done as [|op' [|]]; [done| |by destruct rest]. injection Ho as <- <-.
  inversion Hall as [|? wc ? ? [H1 H2] Hnil]; subst. inversion Hnil; subst.
  eexists _, w'. split; [|exact H3]. unfold await_one. rewrite (bind_Ok _ _ _ _ _ E).
  rewrite (bind_Ok _ _ _ _ _ (check_status_eq (write_wcs [wc] g) 0 wc w' eq_refl H1)).
  by rewrite (bind_Ok _ _ _ _ _ (check_opcode_eq _ _ _ H2)).
Qed.

Lemma latency_round_total pfuel post op g i w r sq :
  posts post op → flying w r sq [] → (0 < send_room)%nat → (patience < pfuel)%nat →
  handed r < INT_MAX → returned r < INT_MAX → 0 ≤ sq < INT64_MAX →
  ∃ g' w', latency_round pfuel ch p post (done_opcode op) g i w = Ok g' w' ∧
    flying w' (moved r 1 1) (sq + 1) [].
Proof.
  intros Hp Hw Hroom Hf Hh Hret Hsq. unfold latency_round.
  destruct (flying_next _ _ _ _ Hw Hh) as (s & w1 & E1 & Hin & Hw1).
  rewrite (bind_Ok _ _ _ _ _ E1).
  destruct (flying_post _ _ s _ _ _ _ Hp Hw1 Hin Hroom Hsq) as (w2 & E2 & Hw2).
  rewrite (bind_Ok _ _ _ _ _ E2).
  destruct (await_flying pfuel g _ _ _ _ Hw2 Hf) as (x & w3 & E3 & Hw3).
  rewrite (bind_Ok _ _ _ _ _ E3).
  destruct (flying_last _ _ _ _ Hw3 ltac:(cbn; lia)) as (t & w4 & E4 & Hw4).
  rewrite (bind_Ok _ _ _ _ _ E4). rewrite moved_moved in Hw4. cbn [fst snd].
  eexists _, w4. split; [reflexivity|exact Hw4].
Qed.

Lemma timed_total {A} (body : W X A) w r sq ops r' sq' ops' (P : A → Prop) :
  flying w r sq ops →
  (∀ w1, flying w1 r sq ops → ∃ a w2, body w1 = Ok a w2 ∧ P a ∧ flying w2 r' sq' ops') →
  ∃ a w', timed body w = Ok a w' ∧ P a ∧ flying w' r' sq' ops'.
Proof.
  intros [Hl (k & Hk & Hi)] Hb. unfold timed. cbv zeta.
  destruct (sleep_for 1000000 (w_ext w) (w_mem w)) as [u [x m]] eqn:E.
  rewrite (bind_Ok _ _ _ _ _ (call_eq _ _ _ _ _ E)).
  apply (sleep_in_flight _ _ _ _ _ _ _ _ _ _ E) in Hi.
  destruct (Timer_Start_total Timer_ctor (w <| w_ext := x |> <| w_mem := m |>) eq_refl)
    as (t & now & x1 & m1 & E1 & Ht & E1').
  rewrite (bind_Ok _ _ _ _ _ E1'). apply (clock_in_flight _ _ _ _ _ _ _ _ _ E1) in Hi.
  destruct (Hb (w <| w_ext := x1 |> <| w_mem := m1 |>)) as (b & w2 & E2 & HP & [Hl2 (k2 & Hk2 & Hi2)]).
  { split; [by apply linked_ext|by exists k]. }
  rewrite (bind_Ok _ _ _ _ _ E2).
  destruct (Timer_Stop_total t w2 Ht) as (t3 & now3 & x3 & m3 & E3 & E3').
  rewrite (bind_Ok _ _ _ _ _ E3'). apply (clock_in_flight _ _ _ _ _ _ _ _ _ E3) in Hi2.
  eexists b, _. split; [reflexivity|]. split; [done|].
  split; [by apply linked_ext|by exists k2].
Qed.

Lemma latency_test_total pfuel post op g w r sq :
  posts post op → flying w r sq [] → (0 < send_room)%nat → (patience < pfuel)%nat →
  -1 ≤ handed r ≤ INT_MAX - 1000 → -1 ≤ returned r ≤ INT_MAX - 1000 →
  0 ≤ sq ≤ INT64_MAX - 1000 →
  ∃ g' w', latency_test pfuel ch p post (done_opcode op) g w = Ok g' w' ∧
    flying w' (moved r 1000 1000) (sq + 1000) [].
Proof.
  intros Hp Hw Hroom Hf Hh Hret Hsq. unfold latency_test.
  destruct (timed_total (fold_each (latency_round pfuel ch p post (done_opcode op)) g (seqZ 0 1000))
    w r sq [] (moved r 1000 1000) (sq + 1000) [] (λ _, True) Hw) as (g' & w' & E & _ & H);
    [|by exists g', w'].
  clear w Hw. intros w Hw.
  destruct (fold_each_total (λ i _ w, flying w (moved r (Z.of_nat i) (Z.of_nat i)) (sq + Z.of_nat i) [])
    (latency_round pfuel ch p post (done_opcode op)) (seqZ 0 1000)) with g w as (g' & w' & E & H).
  - intros i b g1 w1 Hi HI. apply lookup_lt_Some in Hi. rewrite length_seqZ in Hi.
    destruct (latency_round_total pfuel post op g1 b w1 _ _ Hp HI Hroom Hf) as (g2 & w2 & E & H2);
      cbn [handed returned moved]; [lia..|].
    exists g2, w2. split; [done|]. rewrite moved_moved in H2.
    replace (Z.of_nat (S i)) with (Z.of_nat i + 1) by lia. by rewrite Z.add_assoc.
  - by rewrite moved_0, Z.add_0_r.
  - exists g', w'. split; [done|]. split; [done|]. by rewrite length_seqZ in H.
Qed.

(** The bandwidth tests: the posts, then the completions as they come. *)
Lemma bw_post_total fake peer n w r sq ops :
  posts (λ s, write_remote ch s (u32 n) (Some peer) (test_code TEST_RAW_DATA) false)
    IBV_WR_RDMA_WRITE →
  flying w r sq ops → (length ops < send_room)%nat → handed r < INT_MAX → 0 ≤ sq < INT64_MAX →
  ∃ w', bw_post fake ch p peer n w = Ok tt w' ∧
    flying w' (moved r (if fake then 0 else 1) 0) (sq + 1) (ops ++ [IBV_WR_RDMA_WRITE]).
Proof.
  intros Hp Hw Hroom Hh Hsq. unfold bw_post.
  assert (∃ s w1, (if fake then at_ p 0 else next p) w = Ok s w1 ∧ s ∈ slots r ∧
    flying w1 (moved r (if fake then 0 else 1) 0) sq ops) as (s & w1 & E1 & Hin & Hw1).
  { destruct fake; [|by apply flying_next].
    destruct (ln_ring _ _ _ (proj1 Hw)) as (bb & Hbb & Hr & _ & Hbl & Hsz & _).
    destruct (lookup_lt_is_Some_2 (slots r) 0) as [s Hs]; [unfold ring_size in Hsz; lia|].
    exists s, w. split; [|split; [by eapply list_elem_of_lookup_2|by rewrite moved_0]].
    unfold at_. rewrite (bind_Ok _ _ _ _ _ (buf_at_eq _ _ _ Hbb)), Hbl.
    rewrite (proj2 (Z.ltb_lt _ _)) by lia. cbn [check]. rewrite bind_ret.
    rewrite <-Hr in Hs. cbn in Hs. change (Z.to_nat 0) with 0%nat. by rewrite Hs. }
  rewrite (bind_Ok _ _ _ _ _ E1).
  destruct (flying_post _ _ s _ _ _ _ Hp Hw1 Hin Hroom Hsq) as (w2 & E2 & Hw2).
  rewrite (bind_Ok _ _ _ _ _ E2). by exists w2.
Qed.
Lemma bw_posts_total fake peer n (l : list Z) w r sq ops :
  posts (λ s, write_remote ch s (u32 n) (Some peer) (test_code TEST_RAW_DATA) false)
    IBV_WR_RDMA_WRITE →
  flying w r sq ops → (length ops + length l ≤ send_room)%nat →
  handed r ≤ INT_MAX - Z.of_nat (length l) → 0 ≤ sq ≤ INT64_MAX - Z.of_nat (length l) →
  let k := Z.of_nat (length l) in
  ∃ w', for_each l (λ _, bw_post fake ch p peer n) w = Ok tt w' ∧
    flying w' (moved r (if fake then 0 else k) 0) (sq + k)
      (ops ++ replicate (length l) IBV_WR_RDMA_WRITE).
Proof.
  intros Hp Hw Hroom Hh Hsq k.
  destruct (for_each_total (λ i w, flying w (moved r (if fake then 0 else Z.of_nat i) 0)
      (sq + Z.of_nat i) (ops ++ replicate i IBV_WR_RDMA_WRITE))
    (λ _, bw_post fake ch p peer n) l) with w as (w' & E & H).
  - intros i a w1 Hi%lookup_lt_Some HI.
    destruct (bw_post_total fake peer n _ _ _ _ Hp HI) as (w2 & E & H2).
    + rewrite length_app, length_replicate. lia.
    + cbn [handed moved]. destruct fake; lia.
    + lia.
    + exists tt, w2. split; [done|]. rewrite moved_moved, <-app_assoc in H2.
      rewrite (replicate_S_end i). replace (Z.of_nat (S i)) with (Z.of_nat i + 1) by lia.
      rewrite Z.add_assoc. by destruct fake.
  - cbn. rewrite app_nil_r, Z.add_0_r. destruct fake; by rewrite moved_0.
  - by exists w'.
Qed.

Lemma bw_confirm_total fake c g (wcs : list ibv_wc) done w r sq ops :
  flying w r sq ops → Forall2 completes_op done wcs → Forall (eq IBV_WR_RDMA_WRITE) done →
  returned r ≤ INT_MAX - Z.of_nat (length wcs) → c ≤ INT_MAX - Z.of_nat (length wcs) →
  let k := Z.of_nat (length wcs) in
  ∃ w', fold_each (bw_confirm fake p (write_wcs wcs g)) c (seqZ 0 k) w = Ok (c + k) w' ∧
    flying w' (moved r 0 (if fake then 0 else k)) sq ops.
Proof.
  intros Hw Hall Hop Hr Hc k.
  destruct (fold_each_total (λ i ci w, ci = c + Z.of_nat i ∧
      flying w (moved r 0 (if fake then 0 else Z.of_nat i)) sq ops)
    (bw_confirm fake p (write_wcs wcs g)) (seqZ 0 k)) with c w as (c' & w' & E & -> & H).
  - intros i b ci w1 Hi [-> HI]. pose proof (lookup_lt_Some _ _ _ Hi) as Hlt.
    rewrite length_seqZ in Hlt. apply lookup_seqZ in Hi as [-> _].
    destruct (lookup_lt_is_Some_2 wcs i) as [wc Hwc]; [lia|].
    destruct (Forall2_lookup_r _ _ _ _ _ Hall Hwc) as (op & Hd & Hst & Hopc).
    rewrite Forall_lookup in Hop. rewrite <-(Hop _ _ Hd) in Hopc.
    assert (mjoin (write_wcs wcs g !! Z.to_nat (0 + Z.of_nat i)) = Some wc) as Hg.
    { rewrite Z.add_0_l, Nat2Z.id.
      change (mjoin (((Some <$> wcs) ++ drop (length wcs) g) !! i) = Some wc).
      rewrite lookup_app_l by (rewrite length_fmap; lia). by rewrite list_lookup_fmap, Hwc. }
    unfold bw_confirm. rewrite (bind_Ok _ _ _ _ _ (check_status_eq _ _ _ _ Hg Hst)).
    rewrite (bind_Ok _ _ _ _ _ (check_opcode_eq _ _ _ Hopc)).
    assert (∃ w2, (if fake then mret tt else last p ;; mret tt) w1 = Ok tt w2 ∧
      flying w2 (moved r 0 (if fake then 0 else Z.of_nat (S i))) sq ops) as (w2 & E & H2).
    { destruct fake; [by exists w1|].
      destruct (flying_last _ _ _ _ HI) as (t & w2 & E & H2); [cbn [returned moved]; lia|].
      exists w2. rewrite (bind_Ok _ _ _ _ _ E). split; [done|]. rewrite moved_moved in H2.
      by replace (Z.of_nat (S i)) with (Z.of_nat i + 1) by lia. }
    rewrite (bind_Ok _ _ _ _ _ E), (proj2 (Z.ltb_lt _ _)) by lia. cbn [defined].
    rewrite bind_ret. eexists _, w2. split; [reflexivity|]. split; [lia|done].
  - split; [lia|]. destruct fake; by rewrite moved_0.
  - exists w'. rewrite length_seqZ, Z2Nat.id in E, H by lia. by split.
Qed.

Lemma bw_confirm_loop_total fuel pfuel fake c g w r sq ops :
  flying w r sq ops → Forall (eq IBV_WR_RDMA_WRITE) ops → (length ops ≤ fuel)%nat →
  (patience < pfuel)%nat → c + Z.of_nat (length ops) = 1000 →
  returned r ≤ INT_MAX - Z.of_nat (length ops) →
  ∃ g' w', bw_confirm_loop fuel pfuel fake ch p c g w = Ok (1000, g') w' ∧
    flying w' (moved r 0 (if fake then 0 else Z.of_nat (length ops))) sq [].
Proof.
  revert c g w r ops. induction fuel as [|fuel IH]; intros c g w r ops Hw Hop Hf Hp Hc Hr;
    cbn [bw_confirm_loop].
  { destruct ops; [|cbn in Hf; lia]. exists g, w. cbn in *. replace c with 1000 by lia.
    split; [done|]. destruct fake; by rewrite moved_0. }
  destruct (1000 <=? c) eqn:Ec.
  { apply Z.leb_le in Ec. destruct ops; [|cbn in Hc; lia]. exists g, w. cbn in *.
    replace c with 1000 by lia. split; [done|]. destruct fake; by rewrite moved_0. }
  apply Z.leb_gt in Ec.
  destruct (poll_flying pfuel 128 g _ _ _ _ Hw) as (wcs & dn & rest & w1 & E & -> & Hall & Hne & _ & Hw1);
    [by intros ->; cbn in Hc; lia|lia|done|].
  rewrite (bind_Ok _ _ _ _ _ E). cbn [fst snd]. pose proof (Forall2_length _ _ _ Hall) as Hlen.
  apply Forall_app in Hop as [Hop1 Hop2]. rewrite length_app in *.
  assert (0 < length dn)%nat by (destruct dn; [done|cbn; lia]).
  destruct (bw_confirm_total fake c g wcs dn w1 _ _ _ Hw1 Hall Hop1) as (w2 & E2 & Hw2);
    [lia|unfold INT_MAX; lia|].
  rewrite (bind_Ok _ _ _ _ _ E2).
  destruct (IH (c + Z.of_nat (length wcs)) (write_wcs wcs g) w2 _ rest Hw2 Hop2)
    as (g' & w3 & E3 & Hw3); [lia|done|lia|cbn [returned moved]; destruct fake; lia|].
  exists g', w3. split; [exact E3|]. rewrite moved_moved in Hw3.
  replace (if fake then 0 else Z.of_nat (length dn + length rest)) with
    ((if fake then 0 else Z.of_nat (length wcs)) + (if fake then 0 else Z.of_nat (length rest)))
    by (destruct fake; lia). done.
Qed.
End ready.

Section posting.
Context {X : Type} `{!Platform X}.
Implicit Types w : World X.

Lemma increase_sqe_eq ch w c :
  w_chans w !! ch = Some c → 0 ≤ sq_inflight (adapter c) < INT64_MAX →
  increase_sqe ch w = Ok tt (w <| w_chans ::= <[ch := one_more_sqe c]> |>).
Proof.
  intros Hc Hr. unfold increase_sqe, count64.
  rewrite (bind_Ok _ _ _ _ _ (adapter_at_eq _ _ _ Hc)), bind_assoc.
  rewrite (proj2 (Z.leb_le _ _)), (proj2 (Z.leb_le _ _)) by (unfold INT64_MIN in *; lia).
  cbn [andb defined]. rewrite !bind_ret. by rewrite (upd_adapter_eq _ _ _ _ Hc).
Qed.
Lemma post_send_eq qp wr w x m :
  ibv_post_send qp wr (w_ext w) (w_mem w) = (0, (x, m)) →
  post_send qp wr w = Ok true (w <| w_ext := x |> <| w_mem := m |>).
Proof.
  intros E. unfold post_send. by rewrite (bind_Ok _ _ _ _ _ (call_eq _ _ _ _ _ E)).
Qed.
Lemma adapter_at_updated ch c w :
  adapter_at ch (w <| w_chans ::= <[ch := c]> |>) =
    Ok (adapter c) (w <| w_chans ::= <[ch := c]> |>).
Proof. apply adapter_at_eq. cbn. apply lookup_insert_eq. Qed.

(** The checks of the three requests, passed. *)
Ltac pass_checks :=
  repeat first [rewrite bind_ret | progress cbn [negb andb check must]].

Lemma posts_send ch q n tag :
  posts ch q (u32 n) (λ s, send_remote ch s (u32 n) tag) IBV_WR_SEND_WITH_IMM.
Proof.
  intros s w c b Hs Hb Hu Hl [m Hm] Hc Hq Hr.
  exists (send_wr (data_ptr b) (u32 n) (mr_lkey m) (u32 tag) ch). split; [done|]. split; [done|].
  intros x mm E. unfold send_remote. cbv zeta.
  rewrite (u32_small (u32 n)) by apply u32_range. rewrite (proj2 (Z.eqb_neq s 0) Hs). pass_checks.
  rewrite (bind_Ok _ _ _ _ _ (security_check_eq _ _ _ Hb Hu)).
  rewrite (bind_Ok _ _ _ _ _ (buf_at_eq _ _ _ Hb)), (proj2 (Z.leb_le _ _) Hl). pass_checks.
  rewrite (bind_Ok _ _ _ _ _ (increase_sqe_eq _ _ _ Hc Hr)).
  rewrite (bind_Ok _ _ _ _ _ (adapter_at_updated _ _ _)). unfold real_send_. rewrite Hm.
  pass_checks. cbn [qp_ adapter one_more_sqe upd]. rewrite Hq. by apply post_send_eq.
Qed.
Lemma posts_write ch q n tag d :
  u32 n ≤ buffer_length_ d →
  posts ch q (u32 n) (λ s, write_remote ch s (u32 n) (Some d) tag false) IBV_WR_RDMA_WRITE.
Proof.
  intros Hd s w c b Hs Hb Hu Hl [m Hm] Hc Hq Hr.
  exists (rdma_wr IBV_WR_RDMA_WRITE (rkey_ d) (mr_lkey m) (data_ptr b) (buffer_addr_ d) (u32 n)
    None ch). split; [done|]. split; [done|].
  intros x mm E. unfold write_remote. cbv zeta.
  rewrite (u32_small (u32 n)) by apply u32_range. rewrite (proj2 (Z.eqb_neq s 0) Hs). pass_checks.
  rewrite (bind_Ok _ _ _ _ _ (security_check_eq _ _ _ Hb Hu)).
  rewrite (bind_Ok _ _ _ _ _ (buf_at_eq _ _ _ Hb)). pass_checks.
  rewrite (proj2 (Z.leb_le _ _) Hl), (proj2 (Z.leb_le _ _) Hd). pass_checks.
  rewrite (bind_Ok _ _ _ _ _ (increase_sqe_eq _ _ _ Hc Hr)).
  rewrite (bind_Ok _ _ _ _ _ (adapter_at_updated _ _ _)). rewrite Hm.
  pass_checks. unfold real_write_remote_. cbn [qp_ adapter one_more_sqe upd]. rewrite Hq.
  by apply post_send_eq.
Qed.
Lemma posts_read ch q n d :
  u32 n ≤ buffer_length_ d →
  posts ch q (u32 n) (λ s, read_remote ch s (u32 n) (Some d)) IBV_WR_RDMA_READ.
Proof.
  intros Hd s w c b Hs Hb Hu Hl [m Hm] Hc Hq Hr.
  exists (rdma_wr IBV_WR_RDMA_READ (rkey_ d) (mr_lkey m) (data_ptr b) (buffer_addr_ d) (u32 n)
    None ch). split; [done|]. split; [done|].
  intros x mm E. unfold read_remote. cbv zeta.
  rewrite (u32_small (u32 n)) by apply u32_range. rewrite (proj2 (Z.eqb_neq s 0) Hs). pass_checks.
  rewrite (bind_Ok _ _ _ _ _ (security_check_eq _ _ _ Hb Hu)).
  rewrite (bind_Ok _ _ _ _ _ (buf_at_eq _ _ _ Hb)), (proj2 (Z.leb_le _ _) Hl). pass_checks.
  rewrite (proj2 (Z.leb_le _ _) Hd). pass_checks.
  rewrite (bind_Ok _ _ _ _ _ (increase_sqe_eq _ _ _ Hc Hr)).
  rewrite (bind_Ok _ _ _ _ _ (adapter_at_updated _ _ _)). rewrite Hm.
  pass_checks. unfold real_read_remote_. cbn [qp_ adapter one_more_sqe upd]. rewrite Hq.
  by apply post_send_eq.
Qed.
End posting.

Section latency_theorem.
Context {X : Type} `{!Platform X} `{!LinkLaws X}.
Implicit Types w : World X.

(** C31: on a healthy link the latency tests complete: from a connected channel
    with nothing in flight and a ring of registered blocks, each of the send,
    write and read loops returns after 1000 requests, each posted when the one
    before has completed, and again nothing is in flight and every block taken has
    been given back.  The two cursors of the ring are 1000 on, and so is the
    adapter's count of sends, which nothing in the loops decreases; in particular the
    waiting loops end. *)
Theorem latency_tests_complete ch p q cq n d pfuel g w r sq :
  flying ch p q cq (u32 n) w r sq [] → u32 n ≤ buffer_length_ d →
  (0 < send_room)%nat → (patience < pfuel)%nat →
  -1 ≤ handed r ≤ INT_MAX - 1000 → -1 ≤ returned r ≤ INT_MAX - 1000 →
  0 ≤ sq ≤ INT64_MAX - 1000 →
  let done w' := flying ch p q cq (u32 n) w' (moved r 1000 1000) (sq + 1000) [] in
  (∃ g' w', latency_test pfuel ch p (λ s, send_remote ch s (u32 n) (test_code TEST_RAW_DATA))
     IBV_WC_SEND g w = Ok g' w' ∧ done w') ∧
  (∃ g' w', write_test pfuel ch p d g n w = Ok g' w' ∧ done w') ∧
  (∃ g' w', read_test pfuel ch p d g n w = Ok g' w' ∧ done w').
Proof.
  intros Hw Hd Hroom Hf Hh Hret Hsq done. split_and!.
  - by apply (latency_test_total _ _ _ _ _ _ _ IBV_WR_SEND_WITH_IMM); [apply posts_send|..].
  - by apply (latency_test_total _ _ _ _ _ _ _ IBV_WR_RDMA_WRITE); [apply posts_write|..].
  - by apply (latency_test_total _ _ _ _ _ _ _ IBV_WR_RDMA_READ); [apply posts_read|..].
Qed.

(** C20: on a healthy link with room for 1000 requests both bandwidth tests
    complete: every one of the 1000 writes is accepted, the loop that takes the
    completions in batches of whatever size ends within its 1000 turns, having
    taken exactly 1000, and nothing is left in flight. *)
Theorem bandwidth_tests_complete (fake : bool) ch p q cq n d pfuel g w r sq :
  flying ch p q cq (u32 n) w r sq [] → u32 n ≤ buffer_length_ d →
  (1000 ≤ send_room)%nat → (patience < pfuel)%nat →
  -1 ≤ handed r ≤ INT_MAX - 1000 → -1 ≤ returned r ≤ INT_MAX - 1000 →
  0 ≤ sq ≤ INT64_MAX - 1000 →
  let k := if fake then 0 else 1000 in
  ∃ g' w', write_bw fake pfuel ch p d g n w = Ok g' w' ∧
    flying ch p q cq (u32 n) w' (moved r k k) (sq + 1000) [].
Proof.
  intros Hw Hd Hroom Hf Hh Hret Hsq k. unfold write_bw.
  destruct (timed_total ch p q cq (u32 n)
    (for_each (seqZ 0 1000) (λ _, bw_post fake ch p d n) ;;
     bw_confirm_loop 1000 pfuel fake ch p 0 g) w r sq [] (moved r k k) (sq + 1000) []
    (λ res, res.1 = 1000) Hw) as (res & w' & E & Hres & H).
  - clear w Hw. intros w Hw.
    destruct (bw_posts_total ch p q cq (u32 n) fake d n (seqZ 0 1000) w r sq [])
      as (w1 & E1 & H1); [by apply posts_write|done|..]; rewrite ?length_seqZ; cbn; try lia.
    rewrite length_seqZ in H1. cbn [app] in H1.
    destruct (bw_confirm_loop_total ch p q cq (u32 n) 1000 pfuel fake 0 g w1 _ _ _ H1)
      as (g' & w2 & E2 & H2); rewrite ?length_replicate; cbn [returned moved]; try done; try lia.
    { by apply Forall_replicate. }
    exists (1000, g'), w2. rewrite (bind_Ok _ _ _ _ _ E1). split; [exact E2|]. split; [done|].
    rewrite length_replicate, moved_moved in H2. subst k. destruct fake; exact H2.
  - exists res.2, w'. rewrite (bind_Ok _ _ _ _ _ E), Hres. done.
Qed.
End latency_theorem.

(** ** Exchanging the buffers *)

(** The members of a descriptor that lie in its first 20 bytes. *)
Lemma decode_prefix bs d :
  CommDescriptor_wf d → take 20 bs = take 20 (encode_CommDescriptor d) →
  let d' := decode_CommDescriptor bs in
  buffer_addr_ d' = buffer_addr_ d ∧ buffer_length_ d' = buffer_length_ d ∧ rkey_ d' = rkey_ d.
Proof.
  intros Hd H d'. pose proof (decode_encode_CommDescriptor d Hd) as E.
  assert (∀ n k, (k + n ≤ 20)%nat →
    take n (drop k bs) = take n (drop k (encode_CommDescriptor d))) as Hf.
  { intros n k Hk. rewrite !take_drop_commute. f_equal.
    rewrite <-(Nat.min_l (k + n) 20) by done. by rewrite <-!take_take, H. }
  rewrite <-E. subst d'. unfold decode_CommDescriptor.
  cbn [buffer_addr_ buffer_length_ rkey_].
  split_and!; f_equal; [apply (Hf 8%nat 0%nat)|apply Hf|apply Hf]; lia.
Qed.
Lemma mem_read_prefix a n k m bs :
  (k ≤ n)%nat → mem_read a n m = Some bs → mem_read a k m = Some (take k bs).
Proof.
  intros Hk [Hl H]%mem_read_spec. apply mem_read_spec. split; [rewrite length_take; lia|].
  intros i Hi. rewrite lookup_take_lt by done. apply H. lia.
Qed.

Section exchange.
Context {X : Type} `{!Platform X}.
Implicit Types w : World X.

(** One turn of the wait for an answer. *)
Definition sent (wc : ibv_wc) : Prop := wc_opcode wc = IBV_WC_SEND.
Definition answered (answer : Z) (wc : ibv_wc) : Prop :=
  wc_opcode wc = IBV_WC_RECV ∧ wc_imm_data wc = answer.

Lemma await_answer_turn fuel pfuel ch answer g sc rc w r w1 wc :
  sc && rc = false → poll_until pfuel ch 1 g w = Ok r w1 → r.2 !! 0%nat = Some (Some wc) →
  wc_status wc = IBV_WC_SUCCESS →
  let next_turn := await_answer fuel pfuel ch answer r.2 in
  let turn := await_answer (S fuel) pfuel ch answer g sc rc w in
  (sent wc → sc = false → turn = next_turn true rc w1) ∧
  (answered answer wc → rc = false → turn = next_turn sc true w1) ∧
  (¬ (sent wc ∧ sc = false) → ¬ (answered answer wc ∧ rc = false) →
   ∃ msg, turn = Abort (Fatal msg) w1).
Proof.
  intros Hd Hp He Hs. cbv zeta. cbn [await_answer]. rewrite Hd, (bind_Ok _ _ _ _ _ Hp). cbv zeta.
  rewrite (bind_Ok _ _ _ _ _ (check_status_eq r.2 0 wc w1 ltac:(change (Z.to_nat 0) with 0%nat; by rewrite He) Hs)).
  unfold sent, answered, check_opcode. case_bool_decide as Ho.
  - split_and!; [by intros _ ->|by intros [E _]; rewrite Ho in E|].
    intros Hn _. destruct sc; [by eexists|]. by destruct Hn.
  - case_bool_decide as Hr; [|split_and!; [done|by intros []|by eexists]].
    split_and!; [done| |].
    + intros [_ ->] ->. by rewrite Z.eqb_refl.
    + intros _ Hn. cbn [check]. rewrite bind_ret.
      destruct (wc_imm_data wc =? answer) eqn:Ei; [|by eexists]. cbn [check]. rewrite bind_ret.
      destruct rc; [by eexists|]. destruct Hn. apply Z.eqb_eq in Ei. done.
Qed.

(** a client that has sent a request waits for two completions, which may
    arrive in either order: that of its request, and the receive of the expected
    answer.  Anything else, either of them twice or a wrong answer, ends the
    process. *)
Theorem answer_in_either_order pfuel ch answer g w r1 w1 r2 w2 wc1 wc2 :
  poll_until pfuel ch 1 g w = Ok r1 w1 → r1.2 !! 0%nat = Some (Some wc1) →
  poll_until pfuel ch 1 r1.2 w1 = Ok r2 w2 → r2.2 !! 0%nat = Some (Some wc2) →
  wc_status wc1 = IBV_WC_SUCCESS → wc_status wc2 = IBV_WC_SUCCESS →
  let both := sent wc1 ∧ answered answer wc2 ∨ answered answer wc1 ∧ sent wc2 in
  (both → await_answer answer_fuel pfuel ch answer g false false w = Ok r2.2 w2) ∧
  (¬ both → ∃ msg w',
     await_answer answer_fuel pfuel ch answer g false false w = Abort (Fatal msg) w').
Proof.
  intros H1 E1 H2 E2 S1 S2 both. unfold answer_fuel.
  destruct (await_answer_turn 1 pfuel ch answer g false false w r1 w1 wc1 eq_refl H1 E1 S1)
    as (A1 & A2 & A3).
  destruct (await_answer_turn 0 pfuel ch answer r1.2 true false w1 r2 w2 wc2 eq_refl H2 E2 S2)
    as (_ & B2 & B3).
  destruct (await_answer_turn 0 pfuel ch answer r1.2 false true w1 r2 w2 wc2 eq_refl H2 E2 S2)
    as (C1 & _ & C3).
  subst both. split.
  - intros [[Hs Ha]|[Ha Hs]].
    + by rewrite (A1 Hs eq_refl), (B2 Ha eq_refl).
    + by rewrite (A2 Ha eq_refl), (C1 Hs eq_refl).
  - intros Hn. assert (Decision (sent wc1)) as Ds by (unfold sent; apply _).
    assert (Decision (answered answer wc1)) as Da by (unfold answered; apply _).
    destruct Ds as [Hs|Hs].
    { rewrite (A1 Hs eq_refl). destruct B3 as [msg E]; [by intros []|tauto|by exists msg, w2]. }
    destruct Da as [Ha|Ha].
    { rewrite (A2 Ha eq_refl). destruct C3 as [msg E]; [tauto|by intros []|by exists msg, w2]. }
    destruct A3 as [msg E]; [tauto..|by exists msg, w1].
Qed.

Lemma at_block p i n w s w' r s0 :
  ring_wf (w_bufs w) p r → slots r !! n = Some s0 → Z.to_nat i = n →
  at_ p i w = Ok s w' → w' = w ∧ s = s0.
Proof.
  intros (bb & Hbb & Er & _) Hs Hi H. pose proof (at_inv _ _ _ _ _ H) as ->. split; [done|].
  unfold at_ in H. wstep H as b w1 H1. same H1 Hbb. wstep H as ? w2 H2.
  apply must_inv in H as [H _]. rewrite <-Er, <-Hi in Hs. unfold ring_of in Hs. cbn in Hs. congruence.
Qed.

(** What the server posts when it answers: 64 bytes of its second block, which
    begins with the first members of the descriptor of its first block. *)
Lemma server_posts_descriptor pfuel ch p g w g' w' r b0 b1 s0 s1 :
  server_exchange_buffer_info pfuel ch p g w = Ok g' w' → ring_wf (w_bufs w) p r →
  slots r !! 0%nat = Some s0 → slots r !! 1%nat = Some s1 →
  w_bufs w !! s0 = Some b0 → w_bufs w !! s1 = Some b1 →
  ∃ m lm qp x mm y, mr_ b0 = Some m ∧ mr_ b1 = Some lm ∧ 64 ≤ buffer_size b1 ∧
    ibv_post_send qp (send_wr (data_ptr b1) 64 (mr_lkey lm)
      (test_code RESPONSE_TO_REQUEST_BUFFER) ch) x mm = (0, y) ∧
    mem_read (data_ptr b1) 20 mm = Some (take 20 (encode_CommDescriptor
      (mkCommDescriptor (data_ptr b0) (buffer_size b0) (mr_rkey m) 0))).
Proof.
  intros H Hwf H0 H1 Hb0 Hb1. unfold server_exchange_buffer_info in H.
  apply bind_inv in H as (rc & w1 & (xa & ma & ->)%external_poll_until & H). cbv zeta in H.
  apply bind_inv in H as (wc & w2 & (-> & _)%check_status_inv & H).
  apply bind_inv in H as (? & w3 & [-> _]%check_opcode_inv & H). wstep H as ? w4 H4.
  apply bind_inv in H as (t1 & w5 & H5 & H).
  apply (at_block _ 1 1 _ _ _ r s1) in H5 as [-> ->]; [|done..]. wstep H as mine w6 H6. cbn in H6. same H6 Hb1.
  apply bind_inv in H as (t0 & w7 & H7 & H).
  apply (at_block _ 0 0 _ _ _ r s0) in H7 as [-> ->]; [|done..]. wstep H as b w8 H8. cbn in H8. same H8 Hb0.
  wstep H as m w9 H9. apply bind_inv in H as (? & w10 & H10 & H).
  apply memcpy_in_inv in H10. set (bs := take 20 (encode_CommDescriptor _)) in *.
  assert (length bs = 20%nat) as Hlen.
  { unfold bs. rewrite length_take, encode_CommDescriptor_length. reflexivity. }
  rewrite take_ge in H10 by (rewrite Hlen; lia). rewrite H10 in H.
  apply bind_inv in H as (t1 & w11 & H11 & H).
  apply (at_block _ 1 1 _ _ _ r s1) in H11 as [-> ->]; [|done..]. apply bind_inv in H as (? & w12 & H12 & _).
  apply send_remote_inv in H12 as (b & lm & c & y & mm & Hb & _ & _ & Hlm & Hl & _ & E & _).
  cbn in Hb. same Hb Hb1. eexists m, lm, _, _, _, _. split; [done|]. split; [done|].
  split; [exact Hl|]. split; [exact E|]. cbn [w_mem]. rewrite <-Hlen. apply mem_read_write.
Qed.

Lemma external_await_answer fuel pfuel ch a g sc rc :
  external (await_answer fuel pfuel ch a g sc rc).
Proof.
  revert g sc rc. induction fuel as [|fuel IH]; intros g sc rc; cbn [await_answer];
    (destruct (sc && rc); [apply external_ret|]); [by intros ???|].
  apply external_bind; [apply external_poll_until|intros x]. cbv zeta.
  apply external_bind; [apply external_read; by intros ??? (-> & _)%check_status_inv|intros wc].
  case_bool_decide.
  - apply external_bind; [apply external_read; by intros ??? [_ ->]%check_inv|intros _; apply IH].
  - apply external_bind; [apply external_read; by intros ??? [-> _]%check_opcode_inv|intros _].
    apply external_bind; [apply external_read; by intros ??? [_ ->]%check_inv|intros _].
    apply external_bind; [apply external_read; by intros ??? [_ ->]%check_inv|intros _; apply IH].
Qed.

(** What the client returns is what its first block begins with. *)
Lemma client_decodes_block pfuel ch p g w g' d w' r s0 b0 :
  client_exchange_buffer_info pfuel ch p g w = Ok (g', d) w' → ring_wf (w_bufs w) p r →
  slots r !! 0%nat = Some s0 → w_bufs w !! s0 = Some b0 →
  ∃ bs, mem_read (data_ptr b0) sizeof_CommDescriptor (w_mem w') = Some bs ∧
    d = decode_CommDescriptor bs.
Proof.
  intros H Hwf H0 Hb0. unfold client_exchange_buffer_info in H.
  apply bind_inv in H as (t & w1 & ->%at_inv & H). apply bind_inv in H as (? & w2 & H2 & H).
  apply bind_inv in H as (g1 & w3 & (xe & me & ->)%external_await_answer & H).
  destruct (quiet_send_remote ch t 2 (test_code REQUEST_BUFFER)) as [Hbufs _].
  apply Hbufs in H2. apply bind_inv in H as (t0 & w4 & H4 & H).
  apply (at_block _ _ 0 _ _ _ r s0) in H4 as [-> ->]; [|cbn; by rewrite H2|done|done]. wstep H as b w5 H5. cbn in H5. rewrite H2 in H5. same H5 Hb0.
  apply bind_inv in H as (bs & w6 & [H6 ->]%must_inv & H).
  injection H as <- <- <-.
  by exists bs.
Qed.

(** C29: the exchange of the buffers: the server answers with a send of 64 bytes of
    its second block, and a client that finds the bytes of that request in its
    first block returns a descriptor of the server's first block: its address,
    its size and the key to reach it with. *)
Theorem exchange_agrees pfuel ch p g w g' w' r b0 b1 s0 s1
    pfuel2 ch2 p2 g2 w2 g2' d w2' r2 c0 t0 :
  server_exchange_buffer_info pfuel ch p g w = Ok g' w' → ring_wf (w_bufs w) p r →
  slots r !! 0%nat = Some s0 → slots r !! 1%nat = Some s1 →
  w_bufs w !! s0 = Some b0 → w_bufs w !! s1 = Some b1 →
  (∀ m, mr_ b0 = Some m →
   CommDescriptor_wf (mkCommDescriptor (data_ptr b0) (buffer_size b0) (mr_rkey m) 0)) →
  client_exchange_buffer_info pfuel2 ch2 p2 g2 w2 = Ok (g2', d) w2' →
  ring_wf (w_bufs w2) p2 r2 → slots r2 !! 0%nat = Some t0 → w_bufs w2 !! t0 = Some c0 →
  ∃ m lm qp x mm y, mr_ b0 = Some m ∧
    ibv_post_send qp (send_wr (data_ptr b1) 64 (mr_lkey lm)
      (test_code RESPONSE_TO_REQUEST_BUFFER) ch) x mm = (0, y) ∧
    let answer := take 20 (encode_CommDescriptor
      (mkCommDescriptor (data_ptr b0) (buffer_size b0) (mr_rkey m) 0)) in
    mem_read (data_ptr b1) 20 mm = Some answer ∧
    (mem_read (data_ptr c0) 20 (w_mem w2') = Some answer →
     buffer_addr_ d = data_ptr b0 ∧ buffer_length_ d = buffer_size b0 ∧ rkey_ d = mr_rkey m).
Proof.
  intros H Hwf H0 H1 Hb0 Hb1 Hd Hc Hwf2 Ht0 Hc0.
  destruct (server_posts_descriptor _ _ _ _ _ _ _ _ _ _ _ _ H Hwf H0 H1 Hb0 Hb1)
    as (m & lm & qp & x & mm & y & Hm & Hlm & _ & Hp & Hr).
  destruct (client_decodes_block _ _ _ _ _ _ _ _ _ _ _ Hc Hwf2 Ht0 Hc0) as (bs & Hbs & ->).
  exists m, lm, qp, x, mm, y. split; [done|]. split; [done|]. split; [exact Hr|].
  rewrite (mem_read_prefix _ 24 20 _ bs) by (done || lia). intros [= E].
  by apply (decode_prefix bs _ (Hd m Hm)).
Qed.
End exchange.

(** ** Witnesses *)

(** A loaded channel, a ring of 1000 blocks of 64 bytes, a region of the peer. *)
Definition be_mr : ibv_mr := mkIbvMr 7 1007 2007.
Definition be_base : RDMABuffer := base_at 10000 (2^20) 64 1000 "b".
Definition be_bufs : gmap Z RDMABuffer :=
  <[10000 := registered 500 (Some be_mr) be_base]> (list_to_map
    ((λ i, (10001 + i, registered 500 (Some be_mr) (block_at be_base 10000 64 "b" i)))
       <$> seqZ 0 1000)).
Definition be_ring : ring := mkRing (seqZ 10001 1000) (-1) (-1).
Definition be_w : World Sim :=
  ad_w1 <| w_bufs := be_bufs |> <| w_ext ::= λ x, x <| sim_echo := true |> |>.
Definition be_peer : CommDescriptor := mkCommDescriptor (2^40) 64 9 0.
Definition be_chan : RDMAChannel := default ad_chan (w_chans be_w !! 500).
Definition be_qp : ibv_qp := default (mkIbvQp 0 0) (qp_ (adapter be_chan)).
Definition be_cq : Z := used_cq_ (adapter be_chan).

Lemma be_block i : 0 ≤ i < 1000 →
  be_bufs !! (10001 + i) = Some (registered 500 (Some be_mr) (block_at be_base 10000 64 "b" i)).
Proof.
  intros Hi. unfold be_bufs. rewrite lookup_insert_ne by lia.
  apply elem_of_list_to_map_1'.
  - intros b (j & [= Hj ->] & _)%list_elem_of_fmap. by replace j with i by lia.
  - apply list_elem_of_fmap. exists i. split; [done|]. apply elem_of_seqZ. lia.
Qed.
Lemma be_slot s : s ∈ slots be_ring → ∃ i, 0 ≤ i < 1000 ∧ s = 10001 + i.
Proof. intros H%elem_of_seqZ. exists (s - 10001). lia. Qed.

Lemma be_ring_wf : ring_wf be_bufs 10000 be_ring.
Proof.
  eexists. split; [apply lookup_insert_eq|].
  unfold ring_size, INT_MAX. cbn [slots be_ring handed returned].
  rewrite length_seqZ. split_and!; try done; try lia.
  - apply NoDup_seqZ.
  - intros H%elem_of_seqZ. lia.
  - intros s (i & Hi & ->)%be_slot. eexists. by split; [apply be_block|].
Qed.
Lemma be_flying : flying 500 10000 be_qp be_cq (u32 64) be_w be_ring 0 [].
Proof.
  split; [split|exists 0%nat; split; [lia|]].
  - exact be_ring_wf.
  - intros s (i & Hi & ->)%be_slot. split; [lia|]. eexists. split; [by apply be_block|].
    split; [split_and!; cbn -[u64 Z.pow]; [done|rewrite (u64_small (i * 64)), u64_small by lia; lia|done]|].
    split; [by vm_compute|]. by eexists.
  - exists be_chan. by split_and!; vm_compute.
  - intros H. vm_compute in H. discriminate.
  - split; [done|]. split; [lia|]. by exists [].
Qed.

Lemma latency_tests_complete_witness :
  ∃ g w, read_test 2 500 10000 be_peer fresh_wc 64 be_w = Ok g w.
Proof.
  destruct (latency_tests_complete 500 10000 be_qp be_cq 64 be_peer 2 fresh_wc be_w be_ring 0)
    as (_ & _ & g & w & H & _);
    [exact be_flying|by vm_compute|cbn; lia|cbn; lia|unfold INT_MAX, INT64_MAX; cbn; lia..|].
  by exists g, w.
Defined.

Lemma bandwidth_tests_complete_witness (fake := false) :
  ∃ g w, write_bw fake 2 500 10000 be_peer fresh_wc 64 be_w = Ok g w.
Proof.
  destruct (bandwidth_tests_complete fake 500 10000 be_qp be_cq 64 be_peer 2 fresh_wc be_w be_ring 0)
    as (g & w & H & _);
    [exact be_flying|by vm_compute|cbn; lia|cbn; lia|unfold INT_MAX, INT64_MAX; cbn; lia..|].
  by exists g, w.
Defined.

Lemma bandwidth_test_balanced_witness :
  ∃ w, for_each (seqZ 0 1000) (λ _, bw_post false 500 10000 be_peer 64) be_w = Ok tt w ∧
    NoDup (outstanding (moved be_ring 1000 0)).
Proof.
  destruct (bw_posts_total 500 10000 be_qp be_cq (u32 64) false be_peer 64 (seqZ 0 1000)
    be_w be_ring 0 []) as (w & E & _);
    [by apply posts_write|exact be_flying|apply Nat.leb_le; by vm_compute|by vm_compute|by vm_compute|].
  exists w. split; [exact E|].
  apply (proj2 (bandwidth_test_balanced 500 10000 1 be_peer 64 be_ring 0 0) tt be_w w E);
    [|done|by vm_compute].
  split; [exact be_ring_wf|by vm_compute].
Defined.

(** A server whose client asks for a send test and then sends its messages. *)
Definition be_wc (op : ibv_wc_opcode) (imm : Z) : ibv_wc := mkWc 500 IBV_WC_SUCCESS op 24 imm 0.
Definition scripted (l : list ibv_wc) : World Sim :=
  be_w <| w_ext ::= λ x, x <| sim_echo := false |> <| sim_completions := (λ wc, [wc]) <$> l |> |>.
Definition be_server : World Sim :=
  scripted (be_wc IBV_WC_RECV 3 :: be_wc IBV_WC_SEND 0 :: replicate 1000 (be_wc IBV_WC_RECV 299)).
Definition be_last_wc : wc_array := write_wcs [be_wc IBV_WC_RECV 299] fresh_wc.

Lemma server_test_balanced_witness :
  ∃ w, server_lat_send 1 500 10000 fresh_wc be_server = Ok be_last_wc w ∧
    bench_state 500 10000 w (moved be_ring 1000 1000) 1001 1.
Proof.
  exists (state_of (server_lat_send 1 500 10000 fresh_wc be_server)).
  assert (server_lat_send 1 500 10000 fresh_wc be_server =
    Ok be_last_wc (state_of (server_lat_send 1 500 10000 fresh_wc be_server))) as E.
  { apply value_Ok. by vm_compute. }
  split; [exact E|]. apply (server_test_balanced _ _ _ _ _ _ _ be_ring 0 0 E).
  split; [exact be_ring_wf|by vm_compute].
Defined.

Definition be_answers : list ibv_wc := [be_wc IBV_WC_RECV 2; be_wc IBV_WC_SEND 0].
Lemma answer_in_either_order_witness :
  value (await_answer answer_fuel 1 500 2 fresh_wc false false (scripted be_answers)) =
    Some (write_wcs [be_wc IBV_WC_SEND 0] fresh_wc).
Proof.
  set (r1 := poll_until 1 500 1 fresh_wc (scripted be_answers)).
  set (g1 := write_wcs [be_wc IBV_WC_RECV 2] fresh_wc).
  set (r2 := poll_until 1 500 1 g1 (state_of r1)).
  rewrite (proj1 (answer_in_either_order 1 500 2 fresh_wc (scripted be_answers)
    (1, g1) (state_of r1) (1, write_wcs [be_wc IBV_WC_SEND 0] fresh_wc) (state_of r2)
    (be_wc IBV_WC_RECV 2) (be_wc IBV_WC_SEND 0)
    ltac:(apply value_Ok; by vm_compute) eq_refl
    ltac:(apply value_Ok; by vm_compute) eq_refl eq_refl eq_refl)); [done|].
  right. by split; [split|].
Defined.

(** A client whose first block holds what the server has answered. *)
Definition be_answer : list Z := encode_CommDescriptor (mkCommDescriptor (2^20) 64 2007 0).
Definition be_client : World Sim :=
  scripted be_answers <| w_mem := mem_write (2^20) be_answer ∅ |>.
Definition be_asked : World Sim :=
  scripted [be_wc IBV_WC_RECV 1; be_wc IBV_WC_SEND 0] <| w_mem := mem_write (2^20) (zeros 128) ∅ |>.
Definition be_block_at (i : Z) : RDMABuffer :=
  registered 500 (Some be_mr) (block_at be_base 10000 64 "b" i).

Lemma exchange_agrees_witness :
  ∃ m d, value (client_exchange_buffer_info 1 500 10000 fresh_wc be_client) = Some m ∧
    m.2 = d ∧ buffer_addr_ d = 2^20 ∧ buffer_length_ d = 64 ∧ rkey_ d = 2007.
Proof.
  set (c := client_exchange_buffer_info 1 500 10000 fresh_wc be_client).
  set (s := server_exchange_buffer_info 1 500 10000 fresh_wc be_asked).
  set (g := write_wcs [be_wc IBV_WC_SEND 0] fresh_wc).
  destruct (exchange_agrees 1 500 10000 fresh_wc be_asked g (state_of s) be_ring
    (be_block_at 0) (be_block_at 1) 10001 10002
    1 500 10000 fresh_wc be_client g (decode_CommDescriptor be_answer) (state_of c) be_ring
    (be_block_at 0) 10001) as (m & lm & qp & x & mm & y & Hm & _ & _ & H).
  - apply value_Ok. by vm_compute.
  - exact be_ring_wf.
  - by vm_compute.
  - by vm_compute.
  - by apply (be_block 0).
  - by apply (be_block 1).
  - intros m [= <-]. by split_and!; vm_compute.
  - apply value_Ok. by vm_compute.
  - exact be_ring_wf.
  - by vm_compute.
  - by apply (be_block 0).
  - exists (g, decode_CommDescriptor be_answer), (decode_CommDescriptor be_answer).
    split; [by vm_compute|]. split; [done|]. injection Hm as <-. apply H. by vm_compute.
Defined.
