(* ===== verification/Talk.v ===== *)
(** * What the two ends of the benchmark say to each other

    The messages an end of example/lat_bw_benchmark.cc sends and the receives it
    posts are effects of its code, read from the log [PostLog] keeps.  [talks]
    gives them to each operation, from the operations it is made of; the messages
    of one end then fit the receives of the other, in order. *)
From S2P Require Import Prelude Words Types Layout World Sim Timer Ident Device.
From S2P Require Import Buffer Adapter Channel Tcp Endpoint Session ClientServer.
From S2P Require Import Flow Mesh Posts Bench.

(** The calls that are not of the verbs post nothing. *)
Definition posts_nothing {X A} `{!Platform X, !PostLog X} (op : ext_op X A) : Prop :=
  ∀ x m a x' m', op x m = (a, (x', m')) →
    posted_sends x' = posted_sends x ∧ posted_recvs x' = posted_recvs x.
Class OtherCalls (X : Type) `{!Platform X, !PostLog X} : Prop := {
  clock_silent : posts_nothing steady_clock_now;
  sleep_silent n : posts_nothing (sleep_for n);
  socket_silent : posts_nothing socket;
  send_silent fd bs : posts_nothing (send fd bs);
  recv_silent fd n : posts_nothing (recv fd n)
}.
#[export] Instance sim_other_calls : OtherCalls Sim.
Proof.
  split; intros * x m a x' m' H; cbn in H; unfold sim_recv, sim_upd in H; cbn in H;
    repeat case_match; simplify_eq; try done.
Qed.

(** The immediate value and the length of a message; a one-sided request is none. *)
Definition message_of (wr : ibv_send_wr) : option (Z * Z) :=
  match swr_opcode wr, swr_imm_data wr, swr_sg_list wr with
  | IBV_WR_SEND_WITH_IMM, Some tag, [s] => Some (tag, sge_length s)
  | _, _, _ => None
  end.
(** The room a receive has. *)
Definition room_of (wr : ibv_recv_wr) : Z :=
  foldr (λ s n, sge_length s + n) 0 (rwr_sg_list wr).
(** Each message, in order, has a receive with room for it. *)
Definition fits (ms : list (Z * Z)) (rs : list Z) : Prop := Forall2 (λ m r, m.2 ≤ r) ms rs.

Lemma bind_nothing {A B : Type} (l : list A) : (l ≫= λ _, []) = @nil B.
Proof. by induction l. Qed.

Lemma bind_replicate {B : Type} (x : B) n : (seqZ 0 n ≫= λ _, [x]) = replicate (Z.to_nat n) x.
Proof.
  rewrite <-(length_seqZ 0 n). induction (seqZ 0 n) as [|y l IH]; [done|].
  cbn. by rewrite <-IH.
Qed.

Section talk.
Context {X : Type} `{!Platform X, !PostLog X, !OtherCalls X}.
Implicit Types w : World X.

Definition messages (ch : Z) w : list (Z * Z) := omap message_of (sends ch w).
Definition rooms (ch : Z) w : list Z := room_of <$> recvs ch w.

(** The channel and the buffer of one end, its blocks and their size. *)
Context (ch p : Z) (sl : list Z) (sz : Z).

Record holds w : Prop := {
  hs_ring : ∃ r, ring_wf (w_bufs w) p r ∧ slots r = sl;
  hs_size s : s ∈ sl → ∃ b, stables s w = Some (stable b) ∧ buffer_size b = sz
}.
(** A run of [m] sends the messages [ms], posts receives with the rooms [rs], and
    returns a value of [Q]. *)
Definition talks {A} (m : W X A) (ms : list (Z * Z)) (rs : list Z) (Q : A → Prop) : Prop :=
  ∀ w a w', m w = Ok a w' → holds w →
    holds w' ∧ messages ch w' = messages ch w ++ ms ∧ rooms ch w' = rooms ch w ++ rs ∧ Q a.

(** ** Rules *)

Lemma holds_same w w' :
  (∀ r, ring_wf (w_bufs w) p r → ∃ r', ring_wf (w_bufs w') p r' ∧ slots r' = slots r) →
  (∀ q, stables q w' = stables q w) → holds w → holds w'.
Proof.
  intros Hr Hs [(r & Hwf & Hsl) Hb]. split; [|intros s; rewrite Hs; apply Hb].
  destruct (Hr r Hwf) as (r' & Hwf' & E). exists r'. split; [done|congruence].
Qed.
Lemma holds_bufs w w' : w_bufs w' = w_bufs w → holds w → holds w'.
Proof.
  intros E. apply holds_same; [rewrite E; eauto|]. intros q. unfold stables. by rewrite E.
Qed.
Lemma talks_weaken {A} (m : W X A) ms rs (Q Q' : A → Prop) :
  talks m ms rs Q → (∀ a, Q a → Q' a) → talks m ms rs Q'.
Proof. intros H HQ w a w' E Hw. destruct (H _ _ _ E Hw) as (?&?&?&?). auto. Qed.
Lemma talks_eq {A} (m : W X A) ms rs ms' rs' Q :
  talks m ms rs Q → ms = ms' → rs = rs' → talks m ms' rs' Q.
Proof. by intros ? -> ->. Qed.
Lemma talks_bind {A B} (m : W X A) (k : A → W X B) ms rs ms' rs' Q Q' :
  talks m ms rs Q → (∀ a, Q a → talks (k a) ms' rs' Q') → talks (m ≫= k) (ms ++ ms') (rs ++ rs') Q'.
Proof.
  intros Hm Hk w b w' (a & w1 & H1 & H2)%bind_inv Hw.
  destruct (Hm _ _ _ H1 Hw) as (Hw1 & M1 & R1 & HQ). destruct (Hk a HQ _ _ _ H2 Hw1) as (?&M2&R2&?).
  by rewrite M2, R2, M1, R1, !app_assoc.
Qed.
(** The two common cases: nothing is said before, or after. *)
Lemma talks_then {A B} (m : W X A) (k : A → W X B) ms rs Q Q' :
  talks m [] [] Q → (∀ a, Q a → talks (k a) ms rs Q') → talks (m ≫= k) ms rs Q'.
Proof. apply (talks_bind m k [] [] ms rs). Qed.
Lemma then_talks {A B} (m : W X A) (k : A → W X B) ms rs Q Q' :
  talks m ms rs Q → (∀ a, Q a → talks (k a) [] [] Q') → talks (m ≫= k) ms rs Q'.
Proof. intros H1 H2. eapply talks_eq; [by eapply talks_bind|apply app_nil_r..]. Qed.
Lemma talks_says {A B} (m : W X A) (k : A → W X B) ms ms' rs Q Q' :
  talks m ms [] Q → (∀ a, Q a → talks (k a) ms' rs Q') → talks (m ≫= k) (ms ++ ms') rs Q'.
Proof. apply (talks_bind m k ms [] ms' rs). Qed.
(** A run that leaves the buffers and the logs alone says nothing. *)
Lemma talks_silent {A} (m : W X A) (Q : A → Prop) :
  (∀ w a w', m w = Ok a w' → w_bufs w' = w_bufs w ∧ Q a ∧
     posted_sends (w_ext w') = posted_sends (w_ext w) ∧
     posted_recvs (w_ext w') = posted_recvs (w_ext w)) → talks m [] [] Q.
Proof.
  intros H w a w' E Hw. destruct (H _ _ _ E) as (Hb & HQ & Hs & Hr).
  unfold messages, rooms, sends, recvs. rewrite Hs, Hr, !app_nil_r.
  split; [by eapply holds_bufs|done].
Qed.
Lemma talks_read {A} (m : W X A) (Q : A → Prop) :
  (∀ w a w', m w = Ok a w' → w' = w ∧ Q a) → talks m [] [] Q.
Proof. intros H. apply talks_silent. by intros w a w' [-> ?]%H. Qed.
Lemma talks_ret {A} (a : A) (Q : A → Prop) : Q a → talks (mret a) [] [] Q.
Proof. intros HQ. apply talks_read. by intros w b w' [-> ->]%ret_inv. Qed.
Lemma talks_check b msg : talks (check b msg) [] [] (λ _, True).
Proof. apply talks_read. by intros w u w' [_ ->]%check_inv. Qed.
Lemma talks_fold {A B} (step : A → B → W X A) (f : B → list (Z * Z)) (g : B → list Z) l a :
  (∀ a b, b ∈ l → talks (step a b) (f b) (g b) (λ _, True)) →
  talks (fold_each step a l) (l ≫= f) (l ≫= g) (λ _, True).
Proof.
  revert a. induction l as [|b l IH]; intros a H; cbn [fold_each]; [by apply talks_ret|].
  eapply talks_bind; [apply H; by left|]. intros a' _. apply IH. intros a'' b' Hb. apply H. by right.
Qed.
Lemma talks_for_each {B} (body : B → W X unit) (f : B → list (Z * Z)) (g : B → list Z) l :
  (∀ b, b ∈ l → talks (body b) (f b) (g b) (λ _, True)) →
  talks (for_each l body) (l ≫= f) (l ≫= g) (λ _, True).
Proof.
  induction l as [|b l IH]; intros H; cbn [for_each]; [by apply talks_ret|].
  eapply talks_bind; [apply H; by left|]. intros u _. apply IH. intros b' Hb. apply H. by right.
Qed.

(** ** The operations *)

Lemma posts_talk ss rs w w' :
  Posts.posts ch ss rs w w' →
  messages ch w' = messages ch w ++ omap message_of ss ∧ rooms ch w' = rooms ch w ++ (room_of <$> rs).
Proof.
  intros (Hs & Hr & _). unfold messages, rooms. rewrite Hs, Hr, fmap_app. split; [|done].
  apply omap_app.
Qed.
Lemma talks_cursor (m : W X Z) :
  (∀ w s w' r, ring_wf (w_bufs w) p r → m w = Ok s w' →
     ∃ r', ring_wf (w_bufs w') p r' ∧ slots r' = slots r ∧ s ∈ slots r) →
  (∀ q, keeps (stables q) m) → keeps outside m → talks m [] [] (λ s, s ∈ sl).
Proof.
  intros Hr Hs Ho w s w' H Hw. pose proof (posts_keeps _ ch _ _ _ Ho H) as [M R]%posts_talk.
  pose proof Hw as [(r & Hwf & Hsl) _]. destruct (Hr _ _ _ _ Hwf H) as (r' & Hwf' & E & Hin).
  split; [|rewrite <-Hsl; done]. eapply holds_same; [|intros q; by apply (Hs q) in H|exact Hw].
  intros r1 Hwf1. destruct (Hr _ _ _ _ Hwf1 H) as (r2 & ? & ? & _). eauto.
Qed.
Lemma talks_next : talks (next p) [] [] (λ s, s ∈ sl).
Proof.
  apply talks_cursor; [|intros q; apply keeps_stables_next|apply keeps_outside_next].
  intros w s w' r Hwf H. destruct (next_step _ _ _ _ _ Hwf H) as (Hs & Hwf' & _).
  rewrite ring_next_moved in Hwf'. exists (moved r 1 0). split; [done|]. split; [done|].
  eapply ring_slot_elem. exact Hs.
Qed.
Lemma talks_last : talks (last p) [] [] (λ s, s ∈ sl).
Proof.
  apply talks_cursor; [|intros q; apply keeps_stables_last|apply keeps_outside_last].
  intros w s w' r Hwf H. destruct (last_step _ _ _ _ _ Hwf H) as (Hs & Hwf' & _).
  rewrite ring_last_moved in Hwf'. exists (moved r 0 1). split; [done|]. split; [done|].
  eapply ring_slot_elem. exact Hs.
Qed.
Lemma talks_at i : talks (at_ p i) [] [] (λ s, s ∈ sl).
Proof.
  intros w s w' H Hw. pose proof (at_inv _ _ _ _ _ H) as ->. rewrite !app_nil_r.
  split; [done|]. split; [done|]. split; [done|]. destruct Hw as [(r & (bb & Hbb & Er & _) & <-) _].
  unfold at_ in H. wstep H as b w1 H1. same H1 Hbb. wstep H as ? w2 H2.
  apply must_inv in H as [H _]. rewrite <-Er. by eapply list_elem_of_lookup_2.
Qed.
Lemma talks_buf s : s ∈ sl → talks (buf_at s) [] [] (λ b, buffer_size b = sz).
Proof.
  intros Hs w b w' (Hb & ->)%buf_at_inv Hw. rewrite !app_nil_r. split; [done|]. split; [done|].
  split; [done|]. destruct (hs_size _ Hw s Hs) as (b' & Hst & <-). unfold stables in Hst.
  rewrite Hb in Hst. by injection Hst as _ -> _ _.
Qed.
Lemma talks_send s n tag :
  s ∈ sl → talks (send_remote ch s n tag) [(u32 tag, u32 n)] [] (λ _, u32 n ≤ sz).
Proof.
  intros Hs w a w' H Hw. destruct (hs_size _ Hw s Hs) as (b & Hst & Hsz).
  destruct (send_remote_posts_one _ _ _ _ _ _ _ _ H Hst) as (m & _ & Hn & [M R]%posts_talk).
  split; [eapply holds_bufs; [by eapply quiet_send_remote|done]|]. by rewrite <-Hsz.
Qed.
Lemma talks_recv s n : s ∈ sl → talks (recv_remote ch s n) [] [u32 n] (λ _, u32 n ≤ sz).
Proof.
  intros Hs w a w' H Hw. destruct (hs_size _ Hw s Hs) as (b & Hst & Hsz).
  destruct (recv_remote_posts_one _ _ _ _ _ _ _ H Hst) as (Hn & k & [M R]%posts_talk).
  split; [eapply holds_bufs; [by eapply quiet_recv_remote|done]|]. rewrite M, R. cbn.
  rewrite Z.add_0_r, app_nil_r. by rewrite <-Hsz.
Qed.
(** One-sided requests are no messages. *)
Lemma talks_posted (m : W X bool) :
  keeps w_bufs m →
  (∀ w a w', m w = Ok a w' → ∃ s wr b mr c,
     send_posted w w' ch s wr b mr c ∧ message_of wr = None) → talks m [] [] (λ _, True).
Proof.
  intros Hq H w a w' E Hw. destruct (H _ _ _ E) as (s & wr & b & mr & c & P & Hno).
  apply send_posts_one, posts_talk in P as [M R]. cbn in M. rewrite Hno in M.
  split; [by eapply holds_bufs; [apply Hq in E|]|done].
Qed.
Lemma talks_write s n d tag : talks (write_remote ch s n d tag false) [] [] (λ _, True).
Proof.
  apply talks_posted; [apply quiet_write_remote|]. intros w a w' H.
  destruct (write_remote_posts _ _ _ _ _ _ _ _ _ H) as (wr & b & m & c & d' & P & _ & _ & _ & _ & _ & [= Ho _]).
  exists s, wr, b, m, c. split; [done|]. unfold message_of. by rewrite Ho.
Qed.
Lemma talks_read_remote s n d : talks (read_remote ch s n d) [] [] (λ _, True).
Proof.
  apply talks_posted; [apply quiet_read_remote|]. intros w a w' H.
  destruct (read_remote_posts _ _ _ _ _ _ _ H) as (wr & b & m & c & d' & P & _ & _ & _ & _ & _ & [= Ho _]).
  exists s, wr, b, m, c. split; [done|]. unfold message_of. by rewrite Ho.
Qed.

(** ** Waiting *)

Lemma talks_poll_cq n : talks (poll_cq_batch ch n) [] [] (λ _, True).
Proof.
  apply talks_silent. intros w a w' H. unfold poll_cq_batch, real_poll_completion_queue in H.
  apply bind_inv in H as (c & w1 & (_ & _ & _ & ->)%adapter_at_inv & H).
  wstep H as ? w2 H2. wstep H as ? w3 H3. apply call_inv in H as (y & mm & H & ->).
  apply poll_logged in H as (Hs & Hr & _). done.
Qed.
Lemma talks_poll_until pfuel n g : talks (poll_until pfuel ch n g) [] [] (λ _, True).
Proof.
  revert g. induction pfuel as [|pfuel IH]; intros g; cbn [poll_until]; [by intros ???|].
  eapply talks_then; [apply talks_poll_cq|]. intros r _. cbv zeta.
  destruct (r.1 =? 0); [apply IH|by apply talks_ret].
Qed.
Lemma talks_check_status g i : talks (check_status g i) [] [] (λ _, True).
Proof. apply talks_read. by intros w wc w' (-> & _)%check_status_inv. Qed.
Lemma talks_check_opcode wc op : talks (check_opcode wc op) [] [] (λ _, True).
Proof. apply talks_read. by intros w u w' [-> _]%check_opcode_inv. Qed.
Lemma talks_await_one pfuel g op : talks (await_one pfuel ch g op) [] [] (λ _, True).
Proof.
  eapply talks_then; [apply talks_poll_until|intros r _].
  eapply talks_then; [apply talks_check_status|intros wc _].
  eapply talks_then; [apply talks_check_opcode|intros _ _]. by apply talks_ret.
Qed.
Lemma talks_await_answer fuel pfuel a g sc rc :
  talks (await_answer fuel pfuel ch a g sc rc) [] [] (λ _, True).
Proof.
  revert g sc rc. induction fuel as [|fuel IH]; intros g sc rc; cbn [await_answer];
    (destruct (sc && rc); [by apply talks_ret|]); [by intros ???|].
  eapply talks_then; [apply talks_poll_until|intros r _]. cbv zeta.
  eapply talks_then; [apply talks_check_status|intros wc _]. case_bool_decide.
  - eapply talks_then; [apply talks_check|intros _ _; apply IH].
  - eapply talks_then; [apply talks_check_opcode|intros _ _].
    do 2 (eapply talks_then; [apply talks_check|intros _ _]). apply IH.
Qed.
Lemma talks_call {A} (op : ext_op X A) : posts_nothing op → talks (call op) [] [] (λ _, True).
Proof.
  intros Hop. apply talks_silent. intros w u w' (x & m & H & ->)%call_inv. by apply Hop in H as [? ?].
Qed.
Lemma talks_timed {A} (body : W X A) ms rs Q : talks body ms rs Q → talks (timed body) ms rs Q.
Proof.
  intros H. unfold timed. cbv zeta. eapply talks_then; [apply talks_call, sleep_silent|intros _ _].
  eapply (talks_then _ _ _ _ (λ _, True)); [|intros t _].
  - unfold Timer_Start. destruct (running_ _); [by apply talks_ret|].
    eapply talks_then; [apply talks_call, clock_silent|intros n _]. by apply talks_ret.
  - eapply then_talks; [exact H|intros a HQ].
    eapply (talks_then _ _ _ _ (λ _, True)); [|intros t' _; by apply talks_ret].
    unfold Timer_Stop. destruct (running_ _); [|by apply talks_ret].
    eapply talks_then; [apply talks_call, clock_silent|intros n _]. by apply talks_ret.
Qed.
Lemma talks_reads {A} (o : W X A) :
  (∀ w a w', o w = Ok a w' → w' = w) → talks o [] [] (λ _, True).
Proof. intros H. apply talks_read. intros w a w' E. apply H in E. done. Qed.
Lemma talks_socket conn : talks (get_or_build_socket conn) [] [] (λ _, True).
Proof.
  eapply talks_then; [apply talks_reads; by intros w c w' [_ ->]%must_inv|intros c _].
  destruct (root_sock c =? 0); [|by apply talks_ret].
  eapply talks_then; [apply talks_call, socket_silent|intros fd _].
  eapply (talks_then _ _ _ _ (λ _, True)); [apply talks_silent; intros w u w' E; unfold set_conn in E; by pinv E|intros _ _].
  eapply talks_then; [apply talks_check|intros _ _]. by apply talks_ret.
Qed.
Lemma talks_recv_force fuel sock size total got :
  talks (recv_force_loop fuel sock size total got) [] [] (λ _, True).
Proof.
  revert total got. induction fuel as [|fuel IH]; intros total got; cbn [recv_force_loop]; [by intros ???|].
  destruct (total <? size); [|by apply talks_ret].
  eapply talks_then; [apply talks_call, recv_silent|intros [n bs] _].
  destruct (0 <? n); [apply IH|]. destruct (n <? 0); [by intros ???|apply IH].
Qed.
Lemma talks_sync fuel : talks (bench_sync fuel ch) [] [] (λ _, True).
Proof.
  eapply talks_then; [apply talks_reads; by intros w c w' [_ ->]%must_inv|intros c _].
  eapply talks_then; [apply talks_reads; by intros w e w' [_ ->]%must_inv|intros e _].
  eapply (talks_then _ _ _ _ (λ _, True)); [|intros r _; apply talks_check].
  eapply (talks_then _ _ _ _ (λ _, True)); [|intros n _].
  - eapply talks_then; [apply talks_socket|intros fd _].
    eapply talks_then; [apply talks_call, send_silent|intros n _].
    eapply talks_then; [apply talks_check|intros _ _]. by apply talks_ret.
  - eapply (talks_then _ _ _ _ (λ _, True)); [|intros [m bs] _; by apply talks_ret].
    eapply talks_then; [apply talks_socket|intros fd _; apply talks_recv_force].
Qed.

(** ** The tests *)

Lemma talks_latency_test pfuel post op g ms :
  (∀ s, s ∈ sl → talks (post s) ms [] (λ _, True)) →
  talks (latency_test pfuel ch p post op g) (seqZ 0 1000 ≫= λ _, ms) [] (λ _, True).
Proof.
  intros Hpost. apply talks_timed. eapply talks_eq; [|done|exact (bind_nothing (seqZ 0 1000))].
  apply talks_fold. intros g' i _. unfold latency_round.
  eapply talks_then; [apply talks_next|intros s Hs]. eapply then_talks; [by apply Hpost|intros _ _].
  eapply talks_then; [apply talks_await_one|intros r _].
  eapply talks_then; [apply talks_last|intros t _]. by apply talks_ret.
Qed.
Lemma talks_silent_test pfuel post op g :
  (∀ s, s ∈ sl → talks (post s) [] [] (λ _, True)) →
  talks (latency_test pfuel ch p post op g) [] [] (λ _, True).
Proof. intros H. eapply talks_eq; [by apply talks_latency_test|apply bind_nothing|done]. Qed.
Lemma talks_bw_confirm fake g c i : talks (bw_confirm fake p g c i) [] [] (λ _, True).
Proof.
  eapply talks_then; [apply talks_check_status|intros wc _].
  eapply talks_then; [apply talks_check_opcode|intros _ _].
  eapply (talks_then _ _ _ _ (λ _, True)); [|intros _ _].
  - destruct fake; [by apply talks_ret|].
    eapply talks_then; [apply talks_last|intros t _]. by apply talks_ret.
  - eapply talks_then; [apply talks_reads; by intros w u w' [_ ->]%defined_inv|intros _ _].
    by apply talks_ret.
Qed.
Lemma talks_bw_loop n pfuel fake c g :
  talks (bw_confirm_loop n pfuel fake ch p c g) [] [] (λ _, True).
Proof.
  revert c g. induction n as [|n IH]; intros c g; cbn [bw_confirm_loop]; [by apply talks_ret|].
  destruct (1000 <=? c); [by apply talks_ret|].
  eapply talks_then; [apply talks_poll_until|intros r _].
  eapply (talks_then _ _ _ _ (λ _, True)); [|intros c' _; apply IH].
  eapply talks_eq; [apply (talks_fold _ (λ _, []) (λ _, []))|apply bind_nothing..].
  intros c' i _. apply talks_bw_confirm.
Qed.
Lemma talks_bw fake pfuel peer g n : talks (write_bw fake pfuel ch p peer g n) [] [] (λ _, True).
Proof.
  unfold write_bw. eapply (talks_then _ _ _ _ (λ _, True)); [apply talks_timed|intros r _].
  - eapply (talks_then _ _ _ _ (λ _, True)); [|intros _ _; apply talks_bw_loop].
    eapply talks_eq; [apply (talks_for_each _ (λ _, []) (λ _, []))|apply bind_nothing..].
    intros i _. unfold bw_post. eapply (talks_then _ _ _ _ (λ _, True)); [|intros s _].
    + destruct fake; eapply talks_weaken; (apply talks_at || apply talks_next || done).
    + eapply talks_then; [apply talks_write|intros _ _]. by apply talks_ret.
  - eapply talks_then; [apply talks_check|intros _ _]. by apply talks_ret.
Qed.
Lemma talks_sizes (test : wc_array → Z → W X wc_array) ms rs g :
  (∀ g n, n ∈ test_sizes → talks (test g n) (ms n) (rs n) (λ _, True)) →
  talks (for_sizes sizes_fuel test g 1) (test_sizes ≫= ms) (test_sizes ≫= rs) (λ _, True).
Proof.
  intros H w a w' E. rewrite sizes_covered in E. revert w a w' E.
  change (talks (fold_each test g test_sizes) (test_sizes ≫= ms) (test_sizes ≫= rs) (λ _, True)).
  apply talks_fold. intros g' n Hn. by apply H.
Qed.
Lemma talks_silent_sizes (test : wc_array → Z → W X wc_array) g :
  (∀ g n, talks (test g n) [] [] (λ _, True)) → talks (for_sizes sizes_fuel test g 1) [] [] (λ _, True).
Proof.
  intros H. eapply talks_eq; [apply (talks_sizes _ (λ _, []) (λ _, []))|apply bind_nothing..]. auto.
Qed.

(** ** The two ends *)

(** What is said in a round of the send test, and the receives for it. *)
Definition round_messages (n : Z) : list (Z * Z) :=
  (test_code SEND_TEST_REQUEST, 2) :: replicate 1000 (test_code TEST_RAW_DATA, n).
Definition round_rooms : list Z := 64 :: replicate 1000 (8 * MB).

Lemma talks_client_round pfuel g n :
  0 ≤ n < 2^32 → talks (client_lat_send pfuel ch p g n) (round_messages n) [64] (λ _, True).
Proof.
  intros Hn. unfold client_lat_send. eapply talks_then; [apply talks_at|intros b0 H0].
  eapply talks_eq; [eapply talks_bind; [by apply talks_recv|intros _ _]| |].
  - eapply talks_then; [apply talks_at|intros b1 H1].
    eapply talks_bind; [by apply talks_send|intros _ _].
    eapply talks_then; [apply talks_await_answer|intros g' _].
    apply (talks_latency_test _ _ _ _ [(test_code TEST_RAW_DATA, n)]). intros s Hs.
    eapply talks_weaken; [|done]. eapply talks_eq; [by apply talks_send| |done].
    by rewrite (u32_small n), (u32_small n) by lia.
  - unfold round_messages. by rewrite <-(bind_replicate _ 1000).
  - reflexivity.
Qed.
Hypothesis Hsz : sz = 8 * MB.
Lemma talks_server_round pfuel g :
  talks (server_lat_send pfuel ch p g) [(test_code RESPONSE_TO_SEND_TEST_REQUEST, 0)] round_rooms
    (λ _, True).
Proof.
  unfold server_lat_send. eapply talks_then; [apply talks_at|intros b0 H0].
  eapply talks_eq; [eapply talks_bind; [by apply talks_recv|intros _ _]| |].
  - eapply talks_then; [apply talks_await_one|intros r _].
    eapply talks_bind; [apply (talks_for_each _ (λ _, []) (λ _, [8 * MB]))|intros _ _].
    + intros i _. unfold server_post_one. eapply talks_then; [apply talks_next|intros s Hs].
      eapply talks_then; [by apply talks_buf|intros b Hb].
      eapply then_talks; [|intros _ _; by apply talks_ret].
      eapply talks_eq; [by apply talks_recv|done|]. by rewrite Hb, Hsz.
    + eapply talks_then; [apply talks_at|intros b1 H1].
      eapply then_talks; [by apply talks_send|intros _ _].
      eapply talks_then; [apply talks_await_one|intros r' _].
      eapply talks_eq; [apply (talks_fold _ (λ _, []) (λ _, []))|apply bind_nothing..].
      intros g' i _. unfold server_take_one. eapply talks_then; [apply talks_await_one|intros r'' _].
      eapply talks_then; [apply talks_check|intros _ _].
      eapply talks_then; [apply talks_last|intros t _]. by apply talks_ret.
  - rewrite (bind_nothing (seqZ 0 1000)). reflexivity.
  - unfold round_rooms. by rewrite <-(bind_replicate _ 1000), app_nil_r.
Qed.
Lemma talks_client_exchange pfuel g :
  talks (client_exchange_buffer_info pfuel ch p g) [(test_code Bench.REQUEST_BUFFER, 2)] []
    (λ _, True).
Proof.
  unfold client_exchange_buffer_info. eapply talks_then; [apply talks_at|intros b1 H1].
  eapply then_talks; [by apply talks_send|intros _ _].
  eapply talks_then; [apply talks_await_answer|intros g' _].
  eapply talks_then; [apply talks_at|intros b0 H0].
  eapply talks_then; [by apply talks_buf|intros b _].
  eapply talks_then; [apply talks_reads; by intros w bs w' [_ ->]%must_inv|intros bs _].
  by apply talks_ret.
Qed.
Lemma talks_server_exchange pfuel g :
  talks (server_exchange_buffer_info pfuel ch p g)
    [(test_code Bench.RESPONSE_TO_REQUEST_BUFFER, 64)] [] (λ _, True).
Proof.
  unfold server_exchange_buffer_info. eapply talks_then; [apply talks_poll_until|intros r _]. cbv zeta.
  eapply talks_then; [apply talks_check_status|intros wc _].
  eapply talks_then; [apply talks_check_opcode|intros _ _].
  eapply talks_then; [apply talks_check|intros _ _].
  eapply talks_then; [apply talks_at|intros b1 H1].
  eapply talks_then; [by apply talks_buf|intros mine _].
  eapply talks_then; [apply talks_at|intros b0 H0].
  eapply talks_then; [by apply talks_buf|intros b _].
  eapply talks_then; [apply talks_reads; by intros w m w' [_ ->]%must_inv|intros m _].
  eapply (talks_then _ _ _ _ (λ _, True)); [|intros _ _].
  - apply talks_silent. by intros w u w' ->%memcpy_in_inv.
  - eapply talks_then; [apply talks_at|intros b1' H1'].
    eapply then_talks; [by apply talks_send|intros _ _].
    eapply talks_then; [apply talks_await_one|intros r' _]. by apply talks_ret.
Qed.
End talk.

(** ** The whole conversation *)

Section conversation.
Context {X : Type} `{!Platform X, !PostLog X, !OtherCalls X}.
Implicit Types w : World X.

(** What [process_CQ] does once the buffer is registered. *)
Definition first_receive (channel buffer : Z) : W X unit :=
  buffer_recv ← at_ buffer 0;
  b ← buf_at buffer_recv;
  recv_remote channel buffer_recv (u32 (buffer_size b)) ;;
  mret tt.
Definition client_conversation (rfuel pfuel : nat) (this channel buffer : Z) : W X unit :=
  first_receive channel buffer ;;
  session_get_id this ;;
  bench_sync rfuel channel ;;
  p ← client_exchange_buffer_info pfuel channel buffer fresh_wc;
  let '(g, buffer_peer) := p in
  call (sleep_for 1000000000) ;;
  g ← for_sizes sizes_fuel (λ g n,
        call (sleep_for 10000000) ;; client_lat_send pfuel channel buffer g n) g 1;
  g ← for_sizes sizes_fuel (write_test pfuel channel buffer buffer_peer) g 1;
  g ← for_sizes sizes_fuel (read_test pfuel channel buffer buffer_peer) g 1;
  g ← for_sizes sizes_fuel (write_bw_test pfuel channel buffer buffer_peer) g 1;
  g ← for_sizes sizes_fuel (write_bw_test_fake pfuel channel buffer buffer_peer) g 1;
  b0 ← at_ buffer 0;
  send_remote channel b0 64 (test_code BYEBYE) ;;
  mret tt.
Definition server_conversation (rfuel pfuel : nat) (this channel buffer : Z) : W X unit :=
  first_receive channel buffer ;;
  session_get_id this ;;
  bench_sync rfuel channel ;;
  g ← server_exchange_buffer_info pfuel channel buffer fresh_wc;
  g ← for_sizes sizes_fuel (λ g _, server_lat_send pfuel channel buffer g) g 1;
  b0 ← at_ buffer 0;
  recv_remote channel b0 64 ;;
  r ← await_one pfuel channel g IBV_WC_RECV;
  check (wc_imm_data r.1 =? test_code BYEBYE) "Unexpected message for the test benchmark".

(** Before it, the buffer is allocated and registered. *)
Definition prepared (channel : Z) (conversation : Z → W X unit) : W X unit :=
  check (negb (channel =? 0)) "active_channel_ != nullptr" ;;
  buffer ← allocate_buffer (8 * MB) 1000 "benchmark_buffer";
  register_buffer channel buffer ;;
  conversation buffer.

Lemma bench_register_buffer_parts {A} channel (k : Z → W X A) w :
  (bench_register_buffer channel ≫= k) w =
  (check (negb (channel =? 0)) "active_channel_ != nullptr" ;;
   buffer ← allocate_buffer (8 * MB) 1000 "benchmark_buffer";
   register_buffer channel buffer ;;
   first_receive channel buffer ;; k buffer) w.
Proof.
  unfold bench_register_buffer, first_receive, mbind, M_bind.
  destruct (check _ _ w) as [u1 w1|]; [|done].
  destruct (allocate_buffer _ _ _ w1) as [buffer w2|]; [|done].
  destruct (register_buffer _ _ w2) as [u2 w3|]; [|done].
  destruct (at_ _ _ w3) as [q w4|]; [|done]. destruct (buf_at q w4) as [b w5|]; [|done].
  by destruct (recv_remote _ _ _ w5) as [u3 w6|].
Qed.
Lemma process_CQ_conversation rfuel pfuel this channel w :
  SchedulingClient_process_CQ rfuel pfuel this [channel] w =
    prepared channel (client_conversation rfuel pfuel this channel) w ∧
  SchedulingServer_process_CQ rfuel pfuel this [channel] w =
    prepared channel (server_conversation rfuel pfuel this channel) w.
Proof.
  split; unfold SchedulingClient_process_CQ, SchedulingServer_process_CQ;
    rewrite (bind_Ok _ _ w tt w eq_refl), (bind_Ok _ _ w channel w eq_refl);
    apply bench_register_buffer_parts.
Qed.

(** Registration keeps a ring. *)
Lemma registered_ring_wf bufs bufs' q r b c mr :
  ring_wf bufs q r → bufs !! q = Some b → bufs' !! q = Some (registered c mr b) →
  (∀ s, s ∈ slots r → bufs' !! s = registered c mr <$> bufs !! s) → ring_wf bufs' q r.
Proof.
  intros (bb & Hbb & Hr & Hbase & Hn & Hsz & Hh & Hret & Hnd & Hp & Hs) Hb Hb' Hs'. same Hb Hbb.
  eexists. split; [exact Hb'|]. split_and!; try done; [lia..|]. intros s Hin.
  destruct (Hs s Hin) as (sb & Hsb & Hsbase). rewrite Hs', Hsb by done. by eexists.
Qed.
(** The registered buffer has 1000 blocks of 8 MB. *)
Lemma registered_holds `{!MemalignLaws X} channel w buffer w1 u w2 :
  allocate_buffer (8 * MB) 1000 "benchmark_buffer" w = Ok buffer w1 → 0 < w_next w →
  register_buffer channel buffer w1 = Ok u w2 →
  holds buffer (seqZ (buffer + 1) 1000) (8 * MB) w2.
Proof.
  intros Ha Hn Hr.
  destruct (allocate_inv (8 * MB) 1000 _ _ _ _ ltac:(done) ltac:(done) ltac:(done) Hn Ha)
    as (-> & _ & _ & ptr & x & m & x1 & m1 & page & _ & _ & _ & _ & Hp & Hblk & _).
  set (p := w_next w) in *. set (b := base_at p ptr (8 * MB) 1000 "benchmark_buffer") in *.
  assert (ring_wf (w_bufs w1) p (mkRing (seqZ (p + 1) 1000) (-1) (-1))) as Hwf
    by (by eapply base_ring_wf).
  assert (is_Some (w_chans w1 !! channel)) as [c Hc].
  { unfold register_buffer in Hr. wstep Hr as ? w3 H3. wstep Hr as b' w4 H4.
    apply bind_inv in Hr as (a & w5 & (c & Hc & _)%adapter_at_inv & _). by exists c. }
  destruct (register_buffer_inv _ _ _ _ _ _ _ _ Hwf Hp Hc Hr) as (mr & _ & _ & _ & Hp2 & Hs2).
  split.
  - eexists. split; [exact (registered_ring_wf _ _ _ _ _ _ _ Hwf Hp Hp2 Hs2)|done].
  - intros s Hs. assert (∃ i, 0 ≤ i < 1000 ∧ s = p + 1 + i) as (i & Hi & ->).
    { apply elem_of_seqZ in Hs. exists (s - (p + 1)). lia. }
    eexists. unfold stables. rewrite Hs2, Hblk by done. split; [done|]. reflexivity.
Qed.

Definition client_messages : list (Z * Z) :=
  (test_code Bench.REQUEST_BUFFER, 2) :: (test_sizes ≫= round_messages) ++ [(test_code BYEBYE, 64)].
Definition client_rooms : list Z := 8 * MB :: (test_sizes ≫= λ _, [64]).
Definition server_messages : list (Z * Z) :=
  (test_code Bench.RESPONSE_TO_REQUEST_BUFFER, 64) ::
  (test_sizes ≫= λ _, [(test_code RESPONSE_TO_SEND_TEST_REQUEST, 0)]).
Definition server_rooms : list Z := 8 * MB :: (test_sizes ≫= λ _, round_rooms) ++ [64].

Lemma test_sizes_range n : n ∈ test_sizes → 0 ≤ n ≤ 8 * MB.
Proof.
  intros (i & -> & Hi%elem_of_seqZ)%list_elem_of_fmap. unfold MB.
  pose proof (Z.pow_le_mono_r 2 i 23 ltac:(lia) ltac:(lia)).
  pose proof (Z.pow_nonneg 2 i ltac:(lia)). lia.
Qed.
Lemma round_fits n : n ∈ test_sizes → fits (round_messages n) round_rooms.
Proof.
  intros Hn%test_sizes_range. constructor; [done|]. apply Forall2_replicate. cbn. lia.
Qed.
Lemma fits_bind {A : Type} (f : A → list (Z * Z)) (g : A → list Z) l :
  (∀ a, a ∈ l → fits (f a) (g a)) → fits (l ≫= f) (l ≫= g).
Proof.
  induction l as [|a l IH]; intros H; cbn; [constructor|].
  apply Forall2_app; [apply H; by left|]. apply IH. intros b Hb. apply H. by right.
Qed.
Lemma messages_fit : fits client_messages server_rooms ∧ fits server_messages client_rooms.
Proof.
  split; (constructor; [done|]).
  - apply Forall2_app; [apply fits_bind, round_fits|]. by repeat constructor.
  - apply fits_bind. intros n _. by repeat constructor.
Qed.

Lemma session_get_id_read this w i w' : session_get_id this w = Ok i w' → w' = w.
Proof. intros H. unfold session_get_id in H. wstep H as s w1 H1. by pinv H. Qed.

Context (ch p : Z) (sl : list Z).
Abbreviation says m ms rs := (talks ch p sl (8 * MB) m ms rs (λ _, True)).
Lemma says_first : says (first_receive ch p) [] [8 * MB].
Proof.
  eapply talks_then; [apply talks_at|intros s Hs].
  eapply talks_then; [by apply talks_buf|intros b Hb].
  eapply then_talks; [|intros _ _; by apply talks_ret].
  eapply talks_weaken; [|done]. eapply talks_eq; [by apply talks_recv|done|]. by rewrite Hb.
Qed.
Lemma says_client rfuel pfuel this :
  says (client_conversation rfuel pfuel this ch p) client_messages client_rooms.
Proof.
  unfold client_conversation.
  eapply talks_eq; [eapply talks_bind; [apply says_first|intros _ _]|reflexivity|reflexivity].
  eapply talks_then; [apply talks_reads; apply session_get_id_read|intros i _].
  eapply talks_then; [apply talks_sync|intros _ _].
  eapply talks_eq; [eapply talks_says; [apply talks_client_exchange|intros [g d] _]|reflexivity|].
  - eapply talks_then; [apply talks_call, sleep_silent|intros _ _].
    eapply talks_bind; [apply (talks_sizes _ _ _ _ _ round_messages (λ _, [64]))|intros g1 _].
    + intros g' n Hn%test_sizes_range. eapply talks_then; [apply talks_call, sleep_silent|intros _ _].
      apply talks_client_round. unfold MB in Hn. lia.
    + eapply talks_then; [apply talks_silent_sizes; intros; apply talks_silent_test; intros; apply talks_write|intros g2 _].
      eapply talks_then; [apply talks_silent_sizes; intros; apply talks_silent_test; intros; apply talks_read_remote|intros g3 _].
      eapply talks_then; [apply talks_silent_sizes; intros; apply talks_bw|intros g4 _].
      eapply talks_then; [apply talks_silent_sizes; intros; apply talks_bw|intros g5 _].
      eapply talks_then; [apply talks_at|intros b0 H0].
      eapply then_talks; [by apply talks_send|intros _ _; by apply talks_ret].
  - by rewrite app_nil_r.
Qed.
Lemma says_server rfuel pfuel this :
  says (server_conversation rfuel pfuel this ch p) server_messages server_rooms.
Proof.
  unfold server_conversation.
  eapply talks_eq; [eapply talks_bind; [apply says_first|intros _ _]| |reflexivity].
  - eapply talks_then; [apply talks_reads; apply session_get_id_read|intros i _].
    eapply talks_then; [apply talks_sync|intros _ _].
    eapply talks_says; [apply talks_server_exchange|intros g _].
    eapply talks_bind; [apply (talks_sizes _ _ _ _ _ (λ _, [(test_code RESPONSE_TO_SEND_TEST_REQUEST, 0)])
      (λ _, round_rooms))|intros g1 _].
    + intros g' n _. by apply talks_server_round.
    + eapply talks_then; [apply talks_at|intros b0 H0].
      eapply then_talks; [by apply talks_recv|intros _ _].
      eapply talks_then; [apply talks_await_one|intros r _]. apply talks_check.
  - by rewrite app_nil_r.
Qed.
End conversation.

(** ** Properties *)

Section talk_properties.
Context {X : Type} `{!Platform X, !PostLog X, !OtherCalls X}.
Implicit Types w : World X.

(** What a run has said: the messages it sent and the rooms of the receives it
    posted. *)
Definition said (ch : Z) w w' (ms : list (Z * Z)) (rs : list Z) : Prop :=
  messages ch w' = messages ch w ++ ms ∧ rooms ch w' = rooms ch w ++ rs.
Lemma talks_said {A} ch p sl sz (m : W X A) ms rs Q w a w' :
  talks ch p sl sz m ms rs Q → m w = Ok a w' → holds p sl sz w → said ch w w' ms rs.
Proof. intros Hm H Hw. by destruct (Hm _ _ _ H Hw) as (_ & ? & ? & _). Qed.

(** C7: the two ends of the benchmark understand each other.  From the registration
    of its 1000 blocks of 8 MB on, a client that returns has sent exactly
    [client_messages]: a request for the server's buffer, for each of the 24 sizes
    a request and 1000 messages of that size, and the goodbye; a server that
    returns has posted exactly [server_rooms], and the i-th message fits the i-th
    receive.  Likewise for the answers of the server and the receives of the client.
    It holds of each round of the send test, too; the one-sided tests in between send
    no message. *)
Theorem benchmark_messages_fit :
  (∀ rfuel pfuel this ch p sl w u w',
     client_conversation rfuel pfuel this ch p w = Ok u w' → holds p sl (8 * MB) w →
     said ch w w' client_messages client_rooms) ∧
  (∀ rfuel pfuel this ch p sl w u w',
     server_conversation rfuel pfuel this ch p w = Ok u w' → holds p sl (8 * MB) w →
     said ch w w' server_messages server_rooms) ∧
  (∀ pfuel ch p sl g n w g' w',
     client_lat_send pfuel ch p g n w = Ok g' w' → holds p sl (8 * MB) w → n ∈ test_sizes →
     said ch w w' (round_messages n) [64] ∧ fits (round_messages n) round_rooms) ∧
  (∀ pfuel ch p sl g w g' w',
     server_lat_send pfuel ch p g w = Ok g' w' → holds p sl (8 * MB) w →
     said ch w w' [(test_code RESPONSE_TO_SEND_TEST_REQUEST, 0)] round_rooms) ∧
  fits client_messages server_rooms ∧ fits server_messages client_rooms.
Proof.
  split; [intros *; eapply talks_said, says_client|]. split; [intros *; eapply talks_said, says_server|].
  split; [|split; [intros *; by eapply talks_said, talks_server_round|apply messages_fit]].
  intros * H Hw Hn. split; [|by apply round_fits]. apply test_sizes_range in Hn.
  eapply talks_said; [|exact H|exact Hw]. apply talks_client_round. unfold MB in Hn. lia.
Qed.

(** The same of [process_CQ], which allocates and registers the buffer first. *)
Theorem process_CQ_messages `{!MemalignLaws X} rfuel pfuel this ch w u w' :
  0 < w_next w →
  (SchedulingClient_process_CQ rfuel pfuel this [ch] w = Ok u w' →
   ∃ w1, said ch w1 w' client_messages client_rooms ∧
     ∃ p w0 v, allocate_buffer (8 * MB) 1000 "benchmark_buffer" w = Ok p w0 ∧
       register_buffer ch p w0 = Ok v w1) ∧
  (SchedulingServer_process_CQ rfuel pfuel this [ch] w = Ok u w' →
   ∃ w1, said ch w1 w' server_messages server_rooms ∧
     ∃ p w0 v, allocate_buffer (8 * MB) 1000 "benchmark_buffer" w = Ok p w0 ∧
       register_buffer ch p w0 = Ok v w1).
Proof.
  intros Hn. destruct (process_CQ_conversation rfuel pfuel this ch w) as [-> ->].
  split; unfold prepared; intros H; wstep H as ? w2 H2; apply bind_inv in H as (p & w0 & Ha & H);
    apply bind_inv in H as (v & w1 & Hr & H);
    pose proof (registered_holds _ _ _ _ _ _ Ha Hn Hr) as Hw1; exists w1.
  - split; [exact (talks_said _ _ _ _ _ _ _ _ _ _ _ (says_client _ _ _ _ _ _) H Hw1)|eauto 10].
  - split; [exact (talks_said _ _ _ _ _ _ _ _ _ _ _ (says_server _ _ _ _ _ _) H Hw1)|eauto 10].
Qed.
End talk_properties.

(** ** Witness *)

(** Two ends with registered buffers, the client's peer having posted its answer and
    the server's the request and 1000 messages. *)
Definition ta_base : RDMABuffer := base_at 10000 (2^20) (8 * MB) 1000 "b".
Definition ta_block (i : Z) : RDMABuffer :=
  registered 500 (Some be_mr) (block_at ta_base 10000 (8 * MB) "b" i).
Definition ta_bufs : gmap Z RDMABuffer :=
  <[10000 := registered 500 (Some be_mr) ta_base]> (list_to_map
    ((λ i, (10001 + i, ta_block i)) <$> seqZ 0 1000)).
Definition ta_server : World Sim :=
  scripted (be_wc IBV_WC_RECV (test_code SEND_TEST_REQUEST) :: be_wc IBV_WC_SEND 0 ::
    replicate 1000 (be_wc IBV_WC_RECV (test_code TEST_RAW_DATA))) <| w_bufs := ta_bufs |>.
Definition ta_client : World Sim :=
  scripted (be_wc IBV_WC_RECV (test_code RESPONSE_TO_SEND_TEST_REQUEST) ::
    replicate 1001 (be_wc IBV_WC_SEND 0)) <| w_bufs := ta_bufs |>.
Lemma ta_bufs_block i : 0 ≤ i < 1000 → ta_bufs !! (10001 + i) = Some (ta_block i).
Proof.
  intros Hi. unfold ta_bufs. rewrite lookup_insert_ne by lia.
  apply elem_of_list_to_map_1'.
  - intros b (j & [= Hj ->] & _)%list_elem_of_fmap. by replace j with i by lia.
  - apply list_elem_of_fmap. exists i. split; [done|]. apply elem_of_seqZ. lia.
Qed.
Lemma ta_holds (w : World Sim) : w_bufs w = ta_bufs → holds 10000 (seqZ 10001 1000) (8 * MB) w.
Proof.
  intros E. split.
  - exists be_ring. split; [|done]. rewrite E. eexists. split; [apply lookup_insert_eq|].
    unfold ring_size, INT_MAX. cbn [slots be_ring handed returned]. rewrite length_seqZ.
    split_and!; try done; try lia; [apply NoDup_seqZ|by intros H%elem_of_seqZ; lia|].
    intros s (i & Hi & ->)%be_slot. eexists. by split; [apply ta_bufs_block|].
  - intros s (i & Hi & ->)%be_slot. exists (ta_block i). unfold stables.
    by rewrite E, ta_bufs_block.
Qed.
Definition ta_c := client_lat_send 1 500 10000 fresh_wc (2 ^ 23) ta_client.
Definition ta_s := server_lat_send 1 500 10000 fresh_wc ta_server.
Lemma benchmark_messages_fit_witness :
  said 500 ta_client (state_of ta_c) (round_messages (2 ^ 23)) [64] ∧
  said 500 ta_server (state_of ta_s) [(test_code RESPONSE_TO_SEND_TEST_REQUEST, 0)] round_rooms ∧
  fits client_messages server_rooms.
Proof.
  destruct (benchmark_messages_fit (X:=Sim)) as (_ & _ & Hc & Hs & Hf & _). split; [|split; [|exact Hf]].
  - destruct (Hc 1%nat 500 10000 (seqZ 10001 1000) fresh_wc (2 ^ 23) ta_client
      (write_wcs [be_wc IBV_WC_SEND 0] fresh_wc) (state_of ta_c)) as [H _]; [| | |exact H].
    + apply value_Ok. by vm_compute.
    + by apply ta_holds.
    + apply (bool_decide_unpack _). by vm_compute.
  - apply (Hs 1%nat 500 10000 (seqZ 10001 1000) fresh_wc ta_server be_last_wc (state_of ta_s)).
    + apply value_Ok. by vm_compute.
    + by apply ta_holds.
Defined.
