(* ===== verification/Event.v ===== *)
(** * ManualEvent and AutoEvent (include/util/time_event.h)

    A flag under a mutex with a condition variable, and any number of threads
    that signal and wait.  Each critical section is one action; between them the
    threads interleave freely, and a blocked thread may wake up for no reason.
    A run is any sequence of actions that are enabled one after the other. *)
From S2P Require Import Prelude.

Inductive event_kind := ManualEvent | AutoEvent.
#[export] Instance event_kind_eq_dec : EqDecision event_kind.
Proof. solve_decision. Defined.

(** Where a thread is: outside; in [signal] or [cancel], the flag set but the
    others not notified yet; blocked in a wait, with or without a deadline;
    taken off the condition variable, to test the flag again, after its deadline
    or before; returned from a wait with this result. *)
Inductive thread :=
  | Ready
  | Notifying
  | Blocked (timed : bool)
  | Woken (timed expired : bool)
  | Returned (r : bool).
#[export] Instance thread_eq_dec : EqDecision thread.
Proof. solve_decision. Defined.

Record monitor := mkMonitor { m_signaled : bool; threads : gmap Z thread }.

Definition is_blocked (s : thread) : Prop :=
  match s with Blocked _ => True | _ => False end.
#[export] Instance is_blocked_dec s : Decision (is_blocked s).
Proof. destruct s; solve_decision. Defined.

(** The predicate of [wait], [wait_for] and [wait_until], tested under the lock,
    and what the caller does next: an AutoEvent takes the signal. *)
Definition test (k : event_kind) (timed expired : bool) (t : Z) (m : monitor) : monitor :=
  if m_signaled m then
    mkMonitor (match k with ManualEvent => true | AutoEvent => false end)
      (<[t := Returned true]> (threads m))
  else
    mkMonitor false (<[t := if expired then Returned false else Blocked timed]> (threads m)).

Definition wake_up (s : thread) : thread :=
  match s with Blocked timed => Woken timed false | _ => s end.

Inductive action :=
  | Set_ (t : Z)                      (** [signal] or [cancel], up to the unlock *)
  | Notify (t : Z) (u : option Z)     (** [notify_all]; [notify_one] and whom it wakes *)
  | Wait (t : Z) (timed : bool)
  | Wake (t : Z) (expired : bool)     (** a spurious wake-up, or the deadline *)
  | Retest (t : Z)
  | Leave (t : Z)
  | Reset (t : Z).

Definition act (k : event_kind) (a : action) (m : monitor) : option monitor :=
  match a with
  | Set_ t =>
      match threads m !! t with
      | Some Ready => Some (mkMonitor true (<[t := Notifying]> (threads m)))
      | _ => None
      end
  | Notify t u =>
      match threads m !! t, k, u with
      | Some Notifying, ManualEvent, None =>
          Some (mkMonitor (m_signaled m) (wake_up <$> <[t := Ready]> (threads m)))
      | Some Notifying, AutoEvent, Some u =>
          match threads m !! u with
          | Some (Blocked timed) =>
              Some (mkMonitor (m_signaled m) (<[u := Woken timed false]> (<[t := Ready]> (threads m))))
          | _ => None
          end
      | Some Notifying, AutoEvent, None =>
          if decide (map_Forall (λ _ s, ¬ is_blocked s) (threads m))
          then Some (mkMonitor (m_signaled m) (<[t := Ready]> (threads m))) else None
      | _, _, _ => None
      end
  | Wait t timed =>
      match threads m !! t with Some Ready => Some (test k timed false t m) | _ => None end
  | Wake t expired =>
      match threads m !! t with
      | Some (Blocked timed) =>
          if expired && negb timed then None
          else Some (mkMonitor (m_signaled m) (<[t := Woken timed expired]> (threads m)))
      | _ => None
      end
  | Retest t =>
      match threads m !! t with
      | Some (Woken timed expired) => Some (test k timed expired t m)
      | _ => None
      end
  | Leave t =>
      match threads m !! t with
      | Some (Returned _) => Some (mkMonitor (m_signaled m) (<[t := Ready]> (threads m)))
      | _ => None
      end
  | Reset t =>
      match threads m !! t, k with
      | Some Ready, ManualEvent => Some (mkMonitor false (threads m))
      | _, _ => None
      end
  end.

Fixpoint run (k : event_kind) (l : list action) (m : monitor) : option monitor :=
  match l with
  | [] => Some m
  | a :: l => m ← act k a m; run k l m
  end.

(** [ManualEvent(signaled)], [AutoEvent(signaled)] and the threads that use it. *)
Definition event_ctor (signaled : bool) (ts : gset Z) : monitor :=
  mkMonitor signaled (gset_to_gmap Ready ts).

(** Signals sent, and waits that return true, in a run. *)
Definition is_signal (a : action) : bool := match a with Set_ _ => true | _ => false end.
Definition is_test (a : action) : bool :=
  match a with Wait _ _ | Retest _ => true | _ => false end.
Definition takes (a : action) (m : monitor) : bool := is_test a && m_signaled m.
Fixpoint signals (l : list action) : Z :=
  match l with [] => 0 | a :: l => Z.b2z (is_signal a) + signals l end.
Fixpoint taken (k : event_kind) (l : list action) (m : monitor) : Z :=
  match l with
  | [] => 0
  | a :: l =>
      Z.b2z (takes a m) + match act k a m with Some m => taken k l m | None => 0 end
  end.

(** ** Lemmas *)

Lemma run_app k l1 l2 m : run k (l1 ++ l2) m = m ← run k l1 m; run k l2 m.
Proof.
  revert m. induction l1 as [|a l1 IH]; intros m; cbn; [done|].
  destruct (act k a m); cbn; [apply IH|done].
Qed.
Lemma run_ind_inv k (I : monitor → Prop) :
  (∀ a m m', I m → act k a m = Some m' → I m') →
  ∀ l m m', I m → run k l m = Some m' → I m'.
Proof.
  intros Hstep l. induction l as [|a l IH]; intros m m' H0 H; cbn in H; [by simplify_eq|].
  destruct (act k a m) as [m1|] eqn:E; cbn in H; [|done]. eauto.
Qed.

(** What may still wake a blocked thread: a notification on its way; for an
    AutoEvent also a thread that has been woken and has not tested the flag. *)
Definition will_notify (k : event_kind) (s : thread) : Prop :=
  match s with Notifying => True | Woken _ _ => k = AutoEvent | _ => False end.
Definition attended (k : event_kind) (m : monitor) : Prop :=
  m_signaled m = true → ∀ t s, threads m !! t = Some s → is_blocked s →
  ∃ u s', threads m !! u = Some s' ∧ will_notify k s'.

(** Replacing the state of a thread that was not going to notify. *)
Lemma attended_update k m t s0 s sig :
  attended k m → threads m !! t = Some s0 → ¬ will_notify k s0 →
  (sig = true → m_signaled m = true) → ¬ (sig = true ∧ is_blocked s) →
  attended k (mkMonitor sig (<[t := s]> (threads m))).
Proof.
  intros HI Ht Hn Hs Hb Hsig t' s' Ht' Hbl. cbn in *.
  destruct (decide (t' = t)) as [->|Hne].
  { rewrite lookup_insert_eq in Ht'. simplify_eq. by destruct Hb. }
  rewrite lookup_insert_ne in Ht' by done.
  destruct (HI (Hs Hsig) t' s' Ht' Hbl) as (u & su & Hu & Hw).
  exists u, su. split; [|done]. rewrite lookup_insert_ne; [done|]. intros ->. congruence.
Qed.

(** A thread that is going to notify attends to every blocked one. *)
Lemma attended_by k t s sig ths :
  ths !! t = Some s → will_notify k s → attended k (mkMonitor sig ths).
Proof. intros Ht Hw _ t' s' _ _. by exists t, s. Qed.
Lemma attended_unsignaled k ths : attended k (mkMonitor false ths).
Proof. done. Qed.
Lemma attended_no_blocked k sig ths :
  map_Forall (λ _ s, ¬ is_blocked s) ths → attended k (mkMonitor sig ths).
Proof. intros H _ t s Ht Hb. by destruct (H t s Ht). Qed.

Lemma attended_test k timed expired t s m :
  attended k m → threads m !! t = Some s → k = AutoEvent ∨ ¬ will_notify k s →
  attended k (test k timed expired t m).
Proof.
  intros HI Ht Hk. unfold test. destruct (m_signaled m) eqn:Hs; [|apply attended_unsignaled].
  destruct k; [|apply attended_unsignaled].
  apply (attended_update _ _ _ s); [done|done|by destruct Hk|done|by intros [_ []]].
Qed.

Lemma attended_act k a m m' : attended k m → act k a m = Some m' → attended k m'.
Proof.
  intros HI H. destruct a; cbn [act] in H;
    (destruct (threads m !! t) as [s|] eqn:Ht; [|done]).
  - destruct s; simplify_eq. eapply attended_by; [apply lookup_insert_eq|done].
  - destruct s; try done. destruct k, u as [u|]; try done.
    + simplify_eq. apply attended_no_blocked. intros t' s'.
      rewrite lookup_fmap. intros ([]&_&->)%fmap_Some; by intros [].
    + destruct (threads m !! u) as [[]|]; simplify_eq.
      eapply attended_by; [apply lookup_insert_eq|done].
    + destruct (decide _) as [Hn|]; simplify_eq. apply attended_no_blocked.
      apply map_Forall_insert_2; [by intros []|done].
  - destruct s; simplify_eq. eapply attended_test; [done..|]. right. by intros [].
  - destruct s; try done. destruct (expired && negb timed); simplify_eq. destruct k.
    + eapply attended_update; [done|done|by intros []|done|by intros [_ []]].
    + eapply attended_by; [apply lookup_insert_eq|done].
  - destruct s; simplify_eq. eapply attended_test; [done..|].
    destruct k; [right; by intros [=]|by left].
  - destruct s; simplify_eq.
    eapply attended_update; [done|done|by intros []|done|by intros [_ []]].
  - destruct s, k; simplify_eq. apply attended_unsignaled.
Qed.

Lemma attended_run k sig ts l m : run k l (event_ctor sig ts) = Some m → attended k m.
Proof.
  apply run_ind_inv; [intros a; apply attended_act|]. apply attended_no_blocked.
  intros t s (_ & <-)%lookup_gset_to_gmap_Some. by intros [].
Qed.

(** ** Properties *)

(** What happens without the help of a signal, a deadline or chance. *)
Definition delivers (a : action) : bool :=
  match a with Notify _ _ | Retest _ => true | _ => false end.

(** C22: no wake-up is lost: in every state that threads can reach, whatever the
    interleaving, the spurious wake-ups and the deadlines, if the flag is set
    and a thread is blocked then two deliveries are enough for a wait to return
    true; of a ManualEvent that very thread's. *)
Theorem blocked_waits_return k sig ts l m t timed :
  run k l (event_ctor sig ts) = Some m → m_signaled m = true →
  threads m !! t = Some (Blocked timed) →
  ∃ l' v m', forallb delivers l' = true ∧ (length l' ≤ 2)%nat ∧ run k l' m = Some m' ∧
    threads m' !! v = Some (Returned true) ∧ (k = ManualEvent → v = t).
Proof.
  intros H Hs Ht. destruct (attended_run _ _ _ _ _ H Hs t _ Ht I) as (u & s & Hu & Hw).
  assert (k = AutoEvent → (∃ b1 b2, s = Woken b1 b2) →
    ∃ m', run k [Retest u] m = Some m' ∧ threads m' !! u = Some (Returned true)) as Hwoken.
  { intros _ (b1 & b2 & ->). cbn. rewrite Hu. cbn. eexists. split; [done|]. unfold test.
    rewrite Hs. apply lookup_insert_eq. }
  assert (t ≠ u ∨ s = Blocked timed) as Hne.
  { destruct (decide (t = u)) as [->|]; [right; congruence|by left]. }
  destruct s; try done; (destruct Hne as [Hne|]; [|done]).
  - destruct k.
    + eexists [Notify u None; Retest t], t, _. split; [done|]. split; [done|].
      cbn. rewrite Hu. cbn. rewrite lookup_fmap, lookup_insert_ne, Ht by done. cbn.
      split; [done|]. unfold test. cbn. rewrite Hs. split; [apply lookup_insert_eq|done].
    + eexists [Notify u (Some t); Retest t], t, _. split; [done|]. split; [done|].
      cbn. rewrite Hu, Ht. cbn. rewrite lookup_insert_eq. cbn.
      split; [done|]. unfold test. cbn. rewrite Hs. split; [apply lookup_insert_eq|done].
  - destruct Hwoken as (m' & E & Hr); [done|by eexists _, _|].
    exists [Retest u], u, m'. cbn in Hw. subst k. by split_and!; cbn; try lia.
Qed.

Lemma auto_act_conserves a m m' :
  act AutoEvent a m = Some m' →
  Z.b2z (takes a m) + Z.b2z (m_signaled m') ≤ Z.b2z (is_signal a) + Z.b2z (m_signaled m).
Proof.
  intros H. unfold takes. destruct a; cbn [act] in H;
    (destruct (threads m !! t) as [s|]; [|done]); destruct s; simplify_eq; cbn;
    repeat case_match; simplify_eq; unfold test; try destruct (m_signaled m) eqn:E;
    cbn; rewrite ?E; cbn; lia.
Qed.

(** C34: an AutoEvent gives each signal to one wait at most: in any run, the waits
    that return true and the signal still in the event are no more than the
    signals sent and the one that was in it at the start. *)
Theorem auto_event_conserves l m m' :
  run AutoEvent l m = Some m' →
  taken AutoEvent l m + Z.b2z (m_signaled m') ≤ signals l + Z.b2z (m_signaled m).
Proof.
  revert m. induction l as [|a l IH]; intros m H; cbn [run taken signals] in *; [by simplify_eq|].
  destruct (act AutoEvent a m) as [m1|] eqn:E; cbn in H; [|done].
  pose proof (auto_act_conserves _ _ _ E). specialize (IH _ H). lia.
Qed.

Definition is_reset (a : action) : bool := match a with Reset _ => true | _ => false end.
Fixpoint tests (l : list action) : Z :=
  match l with [] => 0 | a :: l => Z.b2z (is_test a) + tests l end.

(** Nobody blocks on a set flag, and without a reset it stays set. *)
Lemma manual_act_latched a m m' :
  act ManualEvent a m = Some m' → is_reset a = false → m_signaled m = true →
  m_signaled m' = true ∧ ∀ t timed, threads m' !! t = Some (Blocked timed) →
    threads m !! t = Some (Blocked timed).
Proof.
  intros H Ha Hs. unfold act, test in H. rewrite Hs in H.
  destruct a; cbn in Ha; try done; repeat case_match; simplify_eq; cbn; (split; [done|]);
    intros t' timed' Ht'; try (by apply lookup_insert_Some in Ht' as [[_ [=]]|[_ ?]]).
  rewrite lookup_fmap in Ht'. apply fmap_Some in Ht' as ([] & _ & [=]).
Qed.

(** a ManualEvent stays signaled: from a signal to the next reset every wait
    that tests the flag returns true, and no thread starts to block. *)
Theorem manual_event_latches l m m' :
  run ManualEvent l m = Some m' → existsb is_reset l = false → m_signaled m = true →
  m_signaled m' = true ∧ taken ManualEvent l m = tests l ∧
  ∀ t timed, threads m' !! t = Some (Blocked timed) → threads m !! t = Some (Blocked timed).
Proof.
  revert m. induction l as [|a l IH]; intros m H Hl Hs; cbn [run taken tests existsb] in *.
  { by simplify_eq. }
  apply orb_false_iff in Hl as [Ha Hl].
  destruct (act ManualEvent a m) as [m1|] eqn:E; cbn in H; [|done].
  destruct (manual_act_latched _ _ _ E Ha Hs) as [Hs1 Hb].
  destruct (IH _ H Hl Hs1) as (Hs' & Ht & Hb'). split; [done|]. split; [|by eauto].
  unfold takes. by rewrite Hs, andb_true_r, Ht.
Qed.

(** ** Witnesses *)

(** Thread 2 waits, thread 3 waits with a deadline, thread 1 signals. *)
Definition ev_trace : list action := [Wait 2 false; Wait 3 true; Wake 3 false; Retest 3; Set_ 1].
Definition ev_state (k : event_kind) : monitor :=
  default (event_ctor true ∅) (run k ev_trace (event_ctor false {[1; 2; 3]})).

Lemma blocked_waits_return_witness :
  ∃ l v m, run AutoEvent l (ev_state AutoEvent) = Some m ∧ threads m !! v = Some (Returned true).
Proof.
  destruct (blocked_waits_return AutoEvent false {[1; 2; 3]} ev_trace (ev_state AutoEvent) 3 true)
    as (l & v & m & _ & _ & H1 & H2 & _); [by vm_compute..|].
  by exists l, v, m.
Defined.

Definition ev_more : list action := [Notify 1 (Some 2); Wake 3 true; Retest 2; Retest 3].
Lemma auto_event_conserves_witness :
  taken AutoEvent (ev_trace ++ ev_more) (event_ctor false {[1; 2; 3]}) ≤ 1.
Proof.
  pose proof (auto_event_conserves (ev_trace ++ ev_more) (event_ctor false {[1; 2; 3]})
    (default (event_ctor true ∅) (run AutoEvent ev_more (ev_state AutoEvent)))
    ltac:(by vm_compute)) as H.
  change (signals (ev_trace ++ ev_more)) with 1 in H.
  change (Z.b2z (m_signaled (event_ctor false {[1; 2; 3]}))) with 0 in H.
  destruct (m_signaled (default _ _)); cbn [Z.b2z] in H; lia.
Defined.

Definition ev_open : list action := [Notify 1 None; Retest 3; Retest 2; Leave 2; Wait 2 true].
Lemma manual_event_latches_witness :
  taken ManualEvent ev_open (ev_state ManualEvent) = 3.
Proof.
  apply (manual_event_latches ev_open (ev_state ManualEvent)
    (default (event_ctor true ∅) (run ManualEvent ev_open (ev_state ManualEvent))));
    by vm_compute.
Defined.
