(* ===== verification/Wheel.v ===== *)
(** * TimeEvent (include/util/time_event.h)

    A thread that wakes up every [m_tick] nanoseconds, counts the tick for every
    event of an ordered set and calls those whose time has come.  The callbacks
    are user code on the same thread, which may set and cancel events itself; other
    threads may signal, cancel and reset the handles of its events at any time. *)
From Stdlib Require Import Sorted.
From S2P Require Import Prelude Words Types.

(** [proc], the closure set_timeout and set_interval build, is given by whether
    it asks for its removal ([once]) and the function it wraps. *)
Record event_ctx (F : Type) := mkEvent {
  seq_num : Z;
  once : bool;
  callback : F;
  ticks : Z;
  elapsed : Z;
  event : Z
}.
Arguments mkEvent {F} _ _ _ _ _ _.
Arguments seq_num {F} _.
Arguments once {F} _.
Arguments callback {F} _.
Arguments ticks {F} _.
Arguments elapsed {F} _.
Arguments event {F} _.
#[export] Instance eta_event_ctx F : Eta (event_ctx F) := λ r,
  mkEvent (seq_num r) (once r) (callback r) (ticks r) (elapsed r) (event r).

(** [m_events] in the order of the set; [signaled] holds the flags of the events'
    ManualEvents by handle; [user] is what the callbacks work on.  [trace]
    records the calls made, as tick and sequence number; the code has no such
    member. *)
Record TimeEvent (F U : Type) := mkTimeEvent {
  m_tick : Z;
  m_ticks : Z;
  m_events : list (event_ctx F);
  kNextSeqNum : Z;
  signaled : gmap Z bool;
  next_handle : Z;
  user : U;
  trace : list (Z * Z)
}.
Arguments mkTimeEvent {F U} _ _ _ _ _ _ _ _.
Arguments m_tick {F U} _.
Arguments m_ticks {F U} _.
Arguments m_events {F U} _.
Arguments kNextSeqNum {F U} _.
Arguments signaled {F U} _.
Arguments next_handle {F U} _.
Arguments user {F U} _.
Arguments trace {F U} _.
#[export] Instance eta_TimeEvent F U : Eta (TimeEvent F U) := λ r,
  mkTimeEvent (m_tick r) (m_ticks r) (m_events r) (kNextSeqNum r) (signaled r) (next_handle r)
    (user r) (trace r).

(** The functions given to set_timeout and set_interval. *)
Class UserCode (F U : Type) := user_call : F → M (TimeEvent F U) unit.

(** ** The ordered set *)

Section event_set.
Context {F : Type}.
Implicit Types (e : event_ctx F) (l : list (event_ctx F)).

Fixpoint insert_event e l : list (event_ctx F) :=
  match l with
  | [] => [e]
  | e' :: l' =>
      if seq_num e <? seq_num e' then e :: l
      else if seq_num e' <? seq_num e then e' :: insert_event e l' else l
  end.
(** The element an iterator reaches after the one numbered [after]. *)
Fixpoint next_event (after : Z) l : option (event_ctx F) :=
  match l with
  | [] => None
  | e :: l => if after <? seq_num e then Some e else next_event after l
  end.
Definition erase_event (s : Z) l : list (event_ctx F) := filter (λ e, seq_num e ≠ s) l.
Definition set_elapsed (s n : Z) l : list (event_ctx F) :=
  (λ e, if seq_num e =? s then e <| elapsed := n |> else e) <$> l.
End event_set.

(** ** Operations *)

Section wheel.
Context {F U : Type} `{!UserCode F U}.
#[local] Abbreviation TE := (M (TimeEvent F U)).

(** [event->wait_for(std::chrono::seconds(0))] *)
Definition is_signaled (h : Z) (te : TimeEvent F U) : bool := default false (signaled te !! h).
(** [ManualEvent::signal] or [cancel], and [ManualEvent::reset], on the handle an
    event was returned by. *)
Definition cancel_event (h : Z) : TE unit := modify (λ te, te <| signaled ::= <[h := true]> |>).
Definition reset_event (h : Z) : TE unit := modify (λ te, te <| signaled ::= <[h := false]> |>).

Definition set_event (once : bool) (timeout : Z) (f : F) : TE Z :=
  te ← get;
  check (m_tick te <=? timeout) "assert" ;;
  let h := next_handle te in
  let e := mkEvent (kNextSeqNum te) once f (u64 (Z.quot timeout (m_tick te))) 0 h in
  modify (λ te, te <| m_events ::= insert_event e |> <| kNextSeqNum ::= λ k, u64 (k + 1) |>
    <| signaled ::= <[h := false]> |> <| next_handle ::= Z.succ |>) ;;
  mret h.
Definition set_timeout : Z → F → TE Z := set_event true.
Definition set_interval : Z → F → TE Z := set_event false.

(** Returns whether the event is to be removed. *)
Definition proc (e : event_ctx F) : TE bool :=
  te ← get;
  if is_signaled (event e) te then mret true
  else
    modify (λ te, te <| trace := trace te ++ [(m_ticks te, seq_num e)] |>) ;;
    user_call (callback e) ;;
    mret (once e).

(** The body of the loop over the set. *)
Definition count_event (e : event_ctx F) : TE unit :=
  let s := seq_num e in
  let n := u64 (elapsed e + 1) in
  modify (λ te, te <| m_events ::= set_elapsed s n |>) ;;
  if n =? ticks e then
    remove ← proc e;
    modify (λ te, te <| m_events ::= if remove : bool then erase_event s else set_elapsed s 0 |>)
  else mret tt.
(** The loop, from the element after [after]. *)
Fixpoint visit (fuel : nat) (after : Z) : TE unit :=
  match fuel with
  | O => fail OutOfFuel
  | S fuel =>
      te ← get;
      match next_event after (m_events te) with
      | None => mret tt
      | Some e => count_event e ;; visit fuel (seq_num e)
      end
  end.
(** One turn of the thread's loop, between two waits. *)
Definition tick (fuel : nat) : TE unit :=
  modify (λ te, te <| m_ticks ::= λ k, u64 (k + 1) |>) ;; visit fuel (-1).
Fixpoint run_ticks (n fuel : nat) : TE unit :=
  match n with
  | O => mret tt
  | S n => tick fuel ;; run_ticks n fuel
  end.
End wheel.

(** ** The ordered set *)

Section event_set_lemmas.
Context {F : Type}.
Implicit Types (e : event_ctx F) (l pre : list (event_ctx F)).

Definition below (s : Z) l : Prop := Forall (λ e, seq_num e < s) l.
Definition above (s : Z) l : Prop := Forall (λ e, s < seq_num e) l.
Definition sorted l : Prop := StronglySorted (λ e e', seq_num e < seq_num e') l.

Lemma below_le s s' l : below s l → s ≤ s' → below s' l.
Proof. intros H Hs. eapply Forall_impl; [exact H|]. cbn. lia. Qed.
Lemma insert_event_last e l : below (seq_num e) l → insert_event e l = l ++ [e].
Proof.
  induction 1 as [|e' l He _ IH]; cbn; [done|].
  rewrite (proj2 (Z.ltb_ge _ _)), (proj2 (Z.ltb_lt _ _)), IH by lia. done.
Qed.
Lemma next_event_None a l : below (a + 1) l → next_event a l = None.
Proof.
  induction 1 as [|e l He _ IH]; cbn; [done|]. rewrite (proj2 (Z.ltb_ge _ _)) by lia. done.
Qed.
Lemma next_event_at a pre e l :
  below (a + 1) pre → a < seq_num e → next_event a (pre ++ e :: l) = Some e.
Proof.
  induction 1 as [|e' pre He _ IH]; cbn; intros Ha.
  - by rewrite (proj2 (Z.ltb_lt _ _)).
  - rewrite (proj2 (Z.ltb_ge _ _)) by lia. auto.
Qed.
Lemma set_elapsed_other s n l : Forall (λ e, seq_num e ≠ s) l → set_elapsed s n l = l.
Proof.
  induction 1 as [|e l He _ IH]; cbn; [done|]. rewrite (proj2 (Z.eqb_neq _ _)) by done.
  by f_equal.
Qed.
Lemma erase_event_other s l : Forall (λ e, seq_num e ≠ s) l → erase_event s l = l.
Proof.
  unfold erase_event. induction 1 as [|e l He _ IH]; [done|].
  by rewrite filter_cons_True, IH.
Qed.
Lemma others s pre l :
  below s pre → above s l → Forall (λ e, seq_num e ≠ s) pre ∧ Forall (λ e, seq_num e ≠ s) l.
Proof. intros H1 H2. split; eapply Forall_impl; [exact H1| |exact H2|]; cbn; lia. Qed.
Lemma set_elapsed_at s e pre l n :
  seq_num e = s → below s pre → above s l →
  set_elapsed s n (pre ++ e :: l) = pre ++ (e <| elapsed := n |>) :: l.
Proof.
  intros <- H1 H2. destruct (others _ _ _ H1 H2). unfold set_elapsed.
  rewrite fmap_app, fmap_cons. rewrite Z.eqb_refl.
  f_equal; [|f_equal]; by apply set_elapsed_other.
Qed.
Lemma erase_event_at s e pre l :
  seq_num e = s → below s pre → above s l → erase_event s (pre ++ e :: l) = pre ++ l.
Proof.
  intros <- H1 H2. destruct (others _ _ _ H1 H2). unfold erase_event.
  rewrite filter_app, filter_cons_False by auto.
  f_equal; by apply erase_event_other.
Qed.
End event_set_lemmas.

#[global] Arguments erase_event : simpl never.
#[global] Arguments set_elapsed : simpl never.

(** ** Reference schedule *)

Section schedule.
Context {F : Type}.
Implicit Types e : event_ctx F.

(** Whether the event is called at the [i]-th tick from now. *)
Definition due (sig : gmap Z bool) (i : Z) e : bool :=
  negb (default false (sig !! event e)) &&
  (if once e then elapsed e + i =? ticks e else (elapsed e + i) mod ticks e =? 0).
(** The calls at tick [k], [i] ticks from now, and at the next [n] ticks. *)
Definition calls_at (sig : gmap Z bool) (l : list (event_ctx F)) (k i : Z) : list (Z * Z) :=
  (λ e, (k + i, seq_num e)) <$> filter (λ e, due sig i e = true) l.
Definition schedule (sig : gmap Z bool) (l : list (event_ctx F)) (k : Z) (n : nat) : list (Z * Z) :=
  seqZ 1 (Z.of_nat n) ≫= calls_at sig l k.

(** An event after one more tick, if it is still there. *)
Definition bump (sig : gmap Z bool) e : option (event_ctx F) :=
  if elapsed e + 1 =? ticks e then
    if default false (sig !! event e) || once e then None else Some (e <| elapsed := 0 |>)
  else Some (e <| elapsed := elapsed e + 1 |>).
(** [n] ticks at once. *)
Fixpoint bumps (sig : gmap Z bool) (n : nat) (l : list (event_ctx F)) : list (event_ctx F) :=
  match n with O => l | S n => bumps sig n (omap (bump sig) l) end.

(** Counting towards a time to come. *)
Definition counting e : Prop := 0 ≤ elapsed e < ticks e ∧ ticks e < 2^64.

Lemma bump_counting sig e e' : counting e → bump sig e = Some e' →
  counting e' ∧ seq_num e' = seq_num e ∧ event e' = event e ∧ once e' = once e ∧ ticks e' = ticks e.
Proof.
  unfold bump, counting. intros H E. destruct (elapsed e + 1 =? ticks e) eqn:El.
  - destruct (_ || _); simplify_eq. cbn. split_and!; lia || done.
  - simplify_eq. apply Z.eqb_neq in El. cbn. split_and!; lia || done.
Qed.
Lemma bump_due sig e e' i : 0 < i → counting e → bump sig e = Some e' →
  due sig i e' = due sig (i + 1) e.
Proof.
  unfold bump, counting, due. intros Hi H E. destruct (elapsed e + 1 =? ticks e) eqn:El.
  - apply Z.eqb_eq in El. destruct (default _ _) eqn:Hs; [done|]. cbn in E.
    destruct (once e) eqn:Ho; simplify_eq. cbn. rewrite Hs. cbn.
    replace (elapsed e + (i + 1)) with (i + 1 * ticks e) by lia. by rewrite Z_mod_plus_full.
  - simplify_eq. cbn. by rewrite <-Z.add_assoc, (Z.add_comm 1).
Qed.
Lemma bump_gone sig e i : 0 < i → counting e → bump sig e = None → due sig (i + 1) e = false.
Proof.
  unfold bump, counting, due. intros Hi H E. destruct (elapsed e + 1 =? ticks e) eqn:El; [|done].
  apply Z.eqb_eq in El. destruct (default _ _) eqn:Hs; [done|]. cbn in *.
  destruct (once e) eqn:Ho; [|done]. apply Z.eqb_neq. lia.
Qed.
Lemma due_next sig e : counting e →
  due sig 1 e = (elapsed e + 1 =? ticks e) && negb (default false (sig !! event e)).
Proof.
  unfold due, counting. intros H. rewrite andb_comm. f_equal. destruct (once e); [done|].
  destruct (elapsed e + 1 =? ticks e) eqn:El.
  - apply Z.eqb_eq in El. rewrite El, Z_mod_same_full. done.
  - apply Z.eqb_neq in El. rewrite Z.mod_small by lia. apply Z.eqb_neq. lia.
Qed.

Lemma calls_one sig e k :
  calls_at sig [e] k 1 = if due sig 1 e then [(k + 1, seq_num e)] else [].
Proof.
  unfold calls_at. destruct (due sig 1 e) eqn:E.
  - by rewrite filter_cons_True.
  - by rewrite filter_cons_False by congruence.
Qed.
Lemma calls_cons sig e l k i : calls_at sig (e :: l) k i = calls_at sig [e] k i ++ calls_at sig l k i.
Proof. unfold calls_at. by rewrite <-fmap_app, <-filter_app. Qed.
Lemma calls_bump sig l k i : 0 < i → Forall counting l →
  calls_at sig (omap (bump sig) l) (k + 1) i = calls_at sig l k (i + 1).
Proof.
  intros Hi. unfold calls_at. induction 1 as [|e l He _ IH]; [done|]. cbn [omap list_omap].
  destruct (bump sig e) as [e'|] eqn:E.
  - pose proof (bump_due _ _ _ _ Hi He E) as Hd.
    destruct (bump_counting _ _ _ He E) as (_ & Hs & _).
    destruct (due sig (i + 1) e) eqn:D.
    + rewrite !filter_cons_True by done. cbn [fmap list_fmap]. rewrite IH, Hs.
      do 2 f_equal. lia.
    + rewrite !filter_cons_False by congruence. done.
  - rewrite filter_cons_False; [done|]. by rewrite (bump_gone _ _ _ Hi He E).
Qed.
Lemma schedule_S sig l k n : Forall counting l →
  schedule sig l k (S n) = calls_at sig l k 1 ++ schedule sig (omap (bump sig) l) (k + 1) n.
Proof.
  intros Hl. unfold schedule. rewrite seqZ_cons by lia. cbn [mbind list_bind]. f_equal.
  replace (Z.pred (Z.of_nat (S n))) with (Z.of_nat n) by lia.
  change (Z.succ 1) with (1 + 1). rewrite <-fmap_add_seqZ.
  assert (∀ i, i ∈ seqZ 1 (Z.of_nat n) → 0 < i) as Hpos by (intros i Hi%elem_of_seqZ; lia).
  induction (seqZ 1 (Z.of_nat n)) as [|i r IH]; [done|].
  cbn [fmap list_fmap mbind list_bind].
  rewrite IH by (intros; apply Hpos; by right). f_equal.
  rewrite calls_bump; [|apply Hpos; by left|done]. by rewrite (Z.add_comm 1 i).
Qed.
Lemma bump_all sig l : Forall counting l → sorted l →
  Forall counting (omap (bump sig) l) ∧ sorted (omap (bump sig) l) ∧
  ∀ s, above s l → above s (omap (bump sig) l).
Proof.
  intros Hc Hs. induction Hc as [|e l He Hc IH]; [done|].
  apply StronglySorted_inv in Hs as [Hs Hr]. destruct (IH Hs) as (H1 & H2 & H3).
  cbn [omap list_omap]. destruct (bump sig e) as [e'|] eqn:E.
  - destruct (bump_counting _ _ _ He E) as (He' & Hseq & _).
    split; [by constructor|]. split.
    + constructor; [done|]. rewrite Hseq. by apply H3.
    + intros s [Hse Hsl]%Forall_cons. constructor; [lia|by apply H3].
  - split; [done|]. split; [done|]. intros s [_ Hsl]%Forall_cons. by apply H3.
Qed.
End schedule.

(** ** Ticks with callbacks that leave the wheel alone *)

Class QuietCode (F U : Type) `{!UserCode F U} :=
  quiet_call f te : ∃ u, user_call f te = Ok tt (te <| user := u |>).

(** The state a wheel keeps: the set in order, every event counting. *)
Record wheel_wf {F U} (te : TimeEvent F U) : Prop := {
  wf_tick : 0 < m_tick te;
  wf_sorted : sorted (m_events te);
  wf_counting : Forall counting (m_events te);
  wf_nonneg : above (-1) (m_events te)
}.

Section quiet.
Context {F U : Type} `{!UserCode F U} `{!QuietCode F U}.
Implicit Types te : TimeEvent F U.

Definition after_tick (te : TimeEvent F U) (u : U) (pre rest : list (event_ctx F)) :
    TimeEvent F U :=
  te <| m_events := pre ++ omap (bump (signaled te)) rest |>
     <| trace := trace te ++ calls_at (signaled te) rest (m_ticks te - 1) 1 |> <| user := u |>.

(** One event of the set. *)
Lemma visit_one te fuel a pre e rest :
  m_events te = pre ++ e :: rest → below (a + 1) pre → a < seq_num e → above (seq_num e) rest →
  counting e →
  ∃ u, visit (S fuel) a te = visit fuel (seq_num e)
    (te <| m_events := pre ++ option_list (bump (signaled te) e) ++ rest |>
        <| trace := trace te ++ calls_at (signaled te) [e] (m_ticks te - 1) 1 |> <| user := u |>).
Proof.
  intros Hte Hpre Ha Hrest He. cbn [visit]. rewrite bind_get.
  rewrite Hte, (next_event_at _ _ _ _ Hpre Ha). cbv zeta.
  assert (below (seq_num e) pre) as Hb by (eapply below_le; [exact Hpre|lia]).
  assert (u64 (elapsed e + 1) = elapsed e + 1) as Hw by (unfold counting in He; by rewrite u64_small by lia).
  unfold count_event. rewrite bind_assoc, Hw, calls_one, bind_modify.
  rewrite (due_next (signaled te) e He). unfold bump.
  destruct (elapsed e + 1 =? ticks e) eqn:El.
  - rewrite bind_assoc. unfold proc. rewrite bind_assoc, bind_get.
    change (is_signaled (event e) _) with (default false (signaled te !! event e)).
    destruct (default false (signaled te !! event e)) eqn:Hs; cbn [orb andb negb].
    + rewrite bind_ret, bind_modify. cbn. rewrite Hte, set_elapsed_at by done.
      rewrite erase_event_at by done.
      exists (user te). by rewrite app_nil_r.
    + rewrite bind_assoc, bind_modify, bind_assoc.
      destruct (quiet_call (callback e) (te <| m_events ::= set_elapsed (seq_num e) (elapsed e + 1) |>
        <| trace := trace te ++ [(m_ticks te, seq_num e)] |>)) as (u & E).
      rewrite (bind_Ok _ _ _ _ _ E), bind_ret, bind_modify. cbn.
      rewrite Hte, set_elapsed_at by done. exists u.
      rewrite Z.sub_add. destruct (once e) eqn:Ho.
      * by rewrite erase_event_at.
      * rewrite set_elapsed_at by done. cbn. by rewrite ?Ho.
  - rewrite bind_ret. cbn. rewrite Hte, set_elapsed_at by done. exists (user te).
    by rewrite app_nil_r.
Qed.

Lemma visit_quiet rest : ∀ fuel te a pre,
  m_events te = pre ++ rest → below (a + 1) pre → above a rest → sorted rest →
  Forall counting rest → (length rest < fuel)%nat →
  ∃ u, visit fuel a te = Ok tt (after_tick te u pre rest).
Proof.
  induction rest as [|e rest IH]; intros fuel te a pre Hte Hpre Ha Hs Hc Hf;
    (destruct fuel as [|fuel]; [cbn in Hf; lia|]).
  - cbn [visit]. rewrite bind_get, Hte, app_nil_r, next_event_None by done.
    exists (user te). unfold after_tick. cbn. rewrite !app_nil_r. destruct te. cbn in *.
    by rewrite Hte, app_nil_r.
  - apply Forall_cons in Ha as [Ha1 Ha2], Hc as [He Hc].
    apply StronglySorted_inv in Hs as [Hs Hr].
    destruct (visit_one te fuel a pre e rest Hte Hpre Ha1 Hr He) as (u & ->).
    destruct (IH fuel (te <| m_events := pre ++ option_list (bump (signaled te) e) ++ rest |>
        <| trace := trace te ++ calls_at (signaled te) [e] (m_ticks te - 1) 1 |> <| user := u |>)
      (seq_num e) (pre ++ option_list (bump (signaled te) e))) as (u' & E);
      [by rewrite <-app_assoc| |exact Hr|done|done|cbn in Hf; lia|].
    { apply Forall_app. split; [eapply below_le; [exact Hpre|lia]|].
      destruct (bump (signaled te) e) as [e'|] eqn:Eb; [|constructor].
      destruct (bump_counting _ _ _ He Eb) as (_ & Hq & _). repeat constructor. lia. }
    exists u'. rewrite E. unfold after_tick. rewrite (calls_cons _ e rest). cbn [omap list_omap].
    cbn -[calls_at]. rewrite <-!app_assoc. by destruct (bump (signaled te) e).
Qed.

Lemma tick_quiet te fuel :
  wheel_wf te → 0 ≤ m_ticks te < 2^64 - 1 → (length (m_events te) < fuel)%nat →
  ∃ u, tick fuel te = Ok tt (te <| m_ticks := m_ticks te + 1 |>
    <| m_events := omap (bump (signaled te)) (m_events te) |>
    <| trace := trace te ++ calls_at (signaled te) (m_events te) (m_ticks te) 1 |>
    <| user := u |>).
Proof.
  intros [_ H1 H2 H3] Ht Hf. unfold tick. rewrite bind_modify. 
  pose (te1 := te <| m_ticks ::= λ k, u64 (k + 1) |>).
  destruct (visit_quiet (m_events te) fuel te1 (-1) [] eq_refl ltac:(constructor) H3 H1 H2 Hf)
    as (u & E).
  exists u. etransitivity; [exact E|]. unfold after_tick. cbn. rewrite u64_small by lia. by rewrite Z.add_simpl_r.
Qed.

Lemma bump_length sig (l : list (event_ctx F)) : (length (omap (bump sig) l) ≤ length l)%nat.
Proof. induction l as [|e l IH]; cbn; [done|]. destruct (bump sig e); cbn; lia. Qed.

(** C21: the wheel keeps to the reference schedule.  With callbacks that leave it
    alone, [n] ticks always return, and make exactly the calls of [schedule], tick
    by tick and within a tick in the order the events were set: a timeout that is
    not cancelled at its tick count and never again, an interval at every
    multiple of it, a cancelled event never.  What remains are the events
    [bumps] leaves, still counting. *)
Theorem ticks_follow_schedule n fuel te :
  wheel_wf te → 0 ≤ m_ticks te → m_ticks te + Z.of_nat n < 2^64 →
  (length (m_events te) < fuel)%nat →
  ∃ te', run_ticks n fuel te = Ok tt te' ∧
    trace te' = trace te ++ schedule (signaled te) (m_events te) (m_ticks te) n ∧
    m_events te' = bumps (signaled te) n (m_events te) ∧ m_ticks te' = m_ticks te + Z.of_nat n ∧
    signaled te' = signaled te ∧ wheel_wf te'.
Proof.
  revert te. induction n as [|n IH]; intros te Hw H0 Hn Hf; cbn [run_ticks bumps].
  { exists te. unfold schedule. cbn. rewrite app_nil_r, Z.add_0_r. by split_and!. }
  destruct (tick_quiet te fuel Hw ltac:(lia) Hf) as (u & E). rewrite (bind_Ok _ _ _ _ _ E).
  destruct Hw as [H1 H2 H3 H4].
  destruct (bump_all (signaled te) _ H3 H2) as (Hc & Hs & Hab).
  match type of E with _ = Ok _ ?te1 => destruct (IH te1) as (te' & E' & T1 & T2 & T3 & T4 & T5) end.
  - split; [done|done|done|by apply Hab].
  - cbn. lia.
  - cbn. lia.
  - cbn. pose proof (bump_length (signaled te) (m_events te)). lia.
  - exists te'. cbn in T1, T2, T3, T4. split; [done|]. rewrite schedule_S by done.
    rewrite T1, <-app_assoc. split; [done|]. split; [done|]. split; [lia|done].
Qed.
End quiet.

(** ** Ticks with callbacks that use the wheel, and other threads *)

Section public.
Context {F U : Type} `{!UserCode F U}.
(** The handles nobody calls [reset] on. *)
Context (kept : Z → Prop).
Implicit Types te : TimeEvent F U.

(** A call of the interface of a handle: it is signaled, cancelled or reset. *)
Inductive handle_call : TimeEvent F U → TimeEvent F U → Prop :=
  | call_cancel h te te1 : cancel_event h te = Ok tt te1 → handle_call te te1
  | call_reset h te te1 : ¬ kept h → reset_event h te = Ok tt te1 → handle_call te te1.

(** What code can do to a wheel from outside or from a callback: set events, as
    long as the sequence numbers last, call the interface of any handle, set events
    of other wheels, which takes sequence numbers, and work on its own data. *)
Inductive public : TimeEvent F U → TimeEvent F U → Prop :=
  | pub_done te : public te te
  | pub_set once timeout f te h te1 te2 :
      kNextSeqNum te < 2^64 - 1 → timeout ≤ INT64_MAX →
      set_event once timeout f te = Ok h te1 → public te1 te2 → public te te2
  | pub_handle te te1 te2 : handle_call te te1 → public te1 te2 → public te te2
  | pub_elsewhere te te2 :
      kNextSeqNum te < 2^64 - 1 → public (te <| kNextSeqNum ::= Z.succ |>) te2 → public te te2
  | pub_user u te te2 : public (te <| user := u |>) te2 → public te te2.

(** Where the thread of a wheel is: waiting, in its loop behind the element numbered
    [after], or calling the function of an event it has found not cancelled. *)
Inductive phase :=
  | waiting
  | between (after : Z)
  | calling (e : event_ctx F).

(** One step of a wheel: of its thread, whose accesses to the handles' flags are
    atomic, of another thread that calls the interface of a handle at any moment, or
    of the code that owns the wheel while the thread waits. *)
Inductive wheel_step : phase * TimeEvent F U → phase * TimeEvent F U → Prop :=
  | step_handle p te te1 : handle_call te te1 → wheel_step (p, te) (p, te1)
  | step_owner te te1 : public te te1 → wheel_step (waiting, te) (waiting, te1)
  | step_wake te :
      wheel_step (waiting, te) (between (-1), te <| m_ticks ::= λ k, u64 (k + 1) |>)
  | step_count a e te :
      next_event a (m_events te) = Some e → u64 (elapsed e + 1) ≠ ticks e →
      wheel_step (between a, te) (between (seq_num e),
        te <| m_events ::= set_elapsed (seq_num e) (u64 (elapsed e + 1)) |>)
  | step_cancelled a e te :
      next_event a (m_events te) = Some e → u64 (elapsed e + 1) = ticks e →
      is_signaled (event e) te = true →
      wheel_step (between a, te) (between (seq_num e),
        te <| m_events ::= set_elapsed (seq_num e) (u64 (elapsed e + 1)) |>
           <| m_events ::= erase_event (seq_num e) |>)
  | step_begin a e te :
      next_event a (m_events te) = Some e → u64 (elapsed e + 1) = ticks e →
      is_signaled (event e) te = false →
      wheel_step (between a, te) (calling e,
        te <| m_events ::= set_elapsed (seq_num e) (u64 (elapsed e + 1)) |>)
  | step_call e te te1 :
      public (te <| trace := trace te ++ [(m_ticks te, seq_num e)] |>) te1 →
      wheel_step (calling e, te) (between (seq_num e),
        te1 <| m_events ::= if once e then erase_event (seq_num e)
                            else set_elapsed (seq_num e) 0 |>)
  | step_end a te :
      next_event a (m_events te) = None → wheel_step (between a, te) (waiting, te).

(** The invariant; while the event numbered [o] is being called, it has counted to
    its end. *)
Record wheel_inv (o : Z) te : Prop := {
  wi_tick : 0 < m_tick te;
  wi_sorted : sorted (m_events te);
  wi_nonneg : above (-1) (m_events te);
  wi_below : below (kNextSeqNum te) (m_events te);
  wi_next : 0 ≤ kNextSeqNum te < 2^64;
  wi_counting : Forall (λ e, 0 < ticks e < 2^64 ∧ (seq_num e ≠ o → counting e)) (m_events te);
  wi_handles : Forall (λ e, event e < next_handle te) (m_events te)
}.

Lemma sorted_snoc (l : list (event_ctx F)) e : sorted l → below (seq_num e) l → sorted (l ++ [e]).
Proof.
  induction 1 as [|e' l Hs IH Hr]; intros Hb; cbn; [by repeat constructor|].
  apply Forall_cons in Hb as [He Hb]. constructor; [by apply IH|].
  apply Forall_app. split; [done|]. by repeat constructor.
Qed.
Lemma set_event_inv b timeout f te h te' :
  below (kNextSeqNum te) (m_events te) → 0 ≤ kNextSeqNum te < 2^64 - 1 →
  set_event b timeout f te = Ok h te' →
  m_tick te ≤ timeout ∧ te' = te
    <| m_events := m_events te ++ [mkEvent (kNextSeqNum te) b f
         (u64 (Z.quot timeout (m_tick te))) 0 (next_handle te)] |>
    <| kNextSeqNum := kNextSeqNum te + 1 |> <| signaled ::= <[next_handle te := false]> |>
    <| next_handle := next_handle te + 1 |>.
Proof.
  intros Hb Hk H. unfold set_event in H. rewrite bind_get in H.
  apply bind_inv in H as (? & te1 & [Ht ->]%check_inv & H). cbv zeta in H.
  rewrite bind_modify in H. apply ret_inv in H as [_ ->]. apply Z.leb_le in Ht. split; [done|].
  cbn. by rewrite insert_event_last, (u64_small (kNextSeqNum te + 1)) by (done || lia).
Qed.

(** A call of a handle's interface changes its flag, and not to false if kept. *)
Lemma handle_call_inv te te' :
  handle_call te te' →
  ∃ sig, te' = te <| signaled := sig |> ∧
    ∀ h, kept h → is_signaled h te = true → is_signaled h te' = true.
Proof.
  unfold is_signaled.
  intros [h te1 te2 ->%modify_inv|h te1 te2 Hk ->%modify_inv]; (eexists; split; [reflexivity|]);
    intros i Hi Hs; cbn; destruct (decide (h = i)) as [->|];
    by rewrite ?lookup_insert_eq, ?lookup_insert_ne.
Qed.

Lemma public_inv o te te' :
  public te te' → wheel_inv o te → o < kNextSeqNum te →
  wheel_inv o te' ∧ kNextSeqNum te ≤ kNextSeqNum te'.
Proof.
  induction 1 as [te|b timeout f te h te1 te2 Hk Ht Hs _ IH|te te1 te2 Hh _ IH|te te2 Hk _ IH|
    u te te2 _ IH]; intros [H1 H2 H3 H4 H5 H6 H7] Ho; [by split; [split|]| | | |].
  - apply set_event_inv in Hs as [Hm ->]; [|done|lia].
    destruct IH as [IH1 IH2]; [|cbn; lia|split; [done|cbn in IH2; lia]].
    unfold INT64_MAX in Ht. assert (0 < Z.quot timeout (m_tick te) < 2^64).
    { rewrite Z.quot_div_nonneg by lia. split; [by apply Z.div_str_pos|].
      apply (Z.le_lt_trans _ timeout); [|lia]. apply Z.div_le_upper_bound; [lia|].
      rewrite <-(Z.mul_1_l timeout) at 1. apply Z.mul_le_mono_nonneg_r; lia. }
    assert (below (kNextSeqNum te + 1) (m_events te)) by (eapply below_le; [done|lia]).
    split; cbn.
    + done.
    + by apply sorted_snoc.
    + apply Forall_app; split; [done|apply Forall_singleton; cbn; lia].
    + apply Forall_app; split; [done|apply Forall_singleton; cbn; lia].
    + lia.
    + apply Forall_app; split; [done|]. constructor; [|constructor]. unfold counting. cbn.
      rewrite u64_small by lia. lia.
    + apply Forall_app; split; [|apply Forall_singleton; cbn; lia].
      eapply Forall_impl; [exact H7|]. cbn. lia.
  - apply handle_call_inv in Hh as (sig & -> & _). apply IH; [by split|done].
  - destruct IH as [IH1 IH2]; [split; cbn; try done|cbn; lia|split; [done|cbn in IH2; lia]].
    + eapply below_le; [exact H4|lia].
    + lia.
  - apply IH; [by split|done].
Qed.
End public.
#[global] Arguments phase F : clear implicits.
#[global] Arguments waiting {F}.
#[global] Arguments between {F} _.
#[global] Arguments calling {F} _.

(** User code that uses the wheel through its interface only. *)
Class PublicCode (kept : Z → Prop) (F U : Type) `{!UserCode F U} :=
  public_call f te v te' : user_call f te = Ok v te' → public kept te te'.

Section public_ticks.
Context (kept : Z → Prop) {F U : Type} `{!UserCode F U} `{!PublicCode kept F U}.
Implicit Types te : TimeEvent F U.

Lemma next_event_inv a (l : list (event_ctx F)) e :
  next_event a l = Some e → e ∈ l ∧ a < seq_num e.
Proof.
  induction l as [|e' l IH]; cbn; [done|]. destruct (a <? seq_num e') eqn:E.
  - intros [= ->]. apply Z.ltb_lt in E. split; [by left|done].
  - intros [H1 H2]%IH. split; [by right|done].
Qed.
Lemma sorted_unique (l : list (event_ctx F)) e e' :
  sorted l → e ∈ l → e' ∈ l → seq_num e = seq_num e' → e = e'.
Proof.
  induction 1 as [|x l Hs IH Hr]; [by intros ?%not_elem_of_nil|]. rewrite Forall_forall in Hr.
  intros [->|H1]%elem_of_cons [->|H2]%elem_of_cons Hq; [done| | |by apply IH].
  - specialize (Hr _ H2). cbn in Hr. lia.
  - specialize (Hr _ H1). cbn in Hr. lia.
Qed.
(** What an event keeps when its count changes. *)
Lemma set_elapsed_Forall (P P' : event_ctx F → Prop) s n (l : list (event_ctx F)) :
  Forall P l → (∀ e, P e → seq_num e ≠ s → P' e) →
  (∀ e, e ∈ l → P e → seq_num e = s → P' (e <| elapsed := n |>)) → Forall P' (set_elapsed s n l).
Proof.
  intros H H1 H2. unfold set_elapsed. apply Forall_fmap, Forall_forall. intros e Hin. cbn.
  rewrite Forall_forall in H. destruct (seq_num e =? s) eqn:E.
  - apply Z.eqb_eq in E. by apply H2; [|apply H|].
  - apply Z.eqb_neq in E. by apply H1; [apply H|].
Qed.
Lemma sorted_set_elapsed s n (l : list (event_ctx F)) : sorted l → sorted (set_elapsed s n l).
Proof.
  induction 1 as [|e l Hs IH Hr]; [constructor|]. constructor; [done|].
  eapply set_elapsed_Forall; [exact Hr| |]; cbn; intros; by destruct (seq_num e =? s).
Qed.

Lemma wheel_inv_set_elapsed o o' s n te :
  wheel_inv o te →
  (∀ e, e ∈ m_events te → seq_num e = s → s ≠ o' → 0 ≤ n < ticks e) →
  (∀ q, q ≠ s → q ≠ o' → 0 ≤ q → q ≠ o) →
  wheel_inv o' (te <| m_events ::= set_elapsed s n |>).
Proof.
  intros [H1 H2 H3 H4 H5 H6 H7] Hn Ho. split; cbn; [done| | | |done| |].
  - by apply sorted_set_elapsed.
  - eapply set_elapsed_Forall; [exact H3|done|by intros].
  - eapply set_elapsed_Forall; [exact H4|done|by intros].
  - pose proof (proj2 (Forall_and _ _) (conj H6 H3)) as H.
    eapply set_elapsed_Forall; [exact H| |]; cbn.
    + intros e [[Ht Hc] Hq] Hs. split; [done|]. intros Hne. apply Hc, Ho; [done|done|lia].
    + intros e Hin [[Ht Hc] Hq] Hs. split; [done|]. intros Hne. unfold counting. cbn.
      split; [|lia]. apply Hn; [done|done|congruence].
  - eapply set_elapsed_Forall; [exact H7|done|by intros].
Qed.
Lemma erase_event_Forall P s (l : list (event_ctx F)) : Forall P l → Forall P (erase_event s l).
Proof. rewrite !Forall_forall. intros H e [_ He]%list_elem_of_filter. by apply H. Qed.
Lemma sorted_erase_event s (l : list (event_ctx F)) : sorted l → sorted (erase_event s l).
Proof.
  induction 1 as [|e l Hs IH Hr]; [constructor|].
  unfold erase_event in *. destruct (decide (seq_num e ≠ s)).
  - rewrite filter_cons_True by done. constructor; [done|].
    by apply (erase_event_Forall _ s) in Hr.
  - by rewrite filter_cons_False.
Qed.
Lemma wheel_inv_erase s te :
  wheel_inv s te → wheel_inv (-1) (te <| m_events ::= erase_event s |>).
Proof.
  intros [H1 H2 H3 H4 H5 H6 H7]. split; cbn; [done| | | |done| |].
  - by apply sorted_erase_event.
  - by apply erase_event_Forall.
  - by apply erase_event_Forall.
  - apply Forall_forall. intros e [Hs Hin]%list_elem_of_filter.
    rewrite Forall_forall in H6. destruct (H6 _ Hin) as [Ht Hc]. split; [done|]. intros _. by apply Hc.
  - by apply erase_event_Forall.
Qed.

(** Event [s] has the handle [h], which is signaled. *)
Record cancelled (s h : Z) te : Prop := {
  cc_signaled : is_signaled h te = true;
  cc_handle : h < next_handle te;
  cc_seq : s < kNextSeqNum te;
  cc_event : Forall (λ e, seq_num e = s → event e = h) (m_events te)
}.

Lemma cancelled_events s h te f :
  (∀ P : event_ctx F → Prop, (∀ e n, P e → P (e <| elapsed := n |>)) →
    Forall P (m_events te) → Forall P (f (m_events te))) →
  cancelled s h te → cancelled s h (te <| m_events ::= f |>).
Proof. intros Hf [U1 U2 U3 U4]. split; [done..|by apply Hf]. Qed.
Lemma cancelled_set_elapsed s h i n te :
  cancelled s h te → cancelled s h (te <| m_events ::= set_elapsed i n |>).
Proof.
  apply cancelled_events. intros P HP Hl.
  eapply set_elapsed_Forall; [exact Hl|done|]. intros. by apply HP.
Qed.
Lemma cancelled_erase s h i te :
  cancelled s h te → cancelled s h (te <| m_events ::= erase_event i |>).
Proof. apply cancelled_events. intros P HP. apply erase_event_Forall. Qed.

Lemma handle_call_cancelled s h te te' :
  handle_call kept te te' → kept h → cancelled s h te →
  cancelled s h te' ∧ trace te' = trace te ∧ ∀ o, wheel_inv o te → wheel_inv o te'.
Proof.
  intros (sig & -> & Hk)%handle_call_inv Hh [U1 U2 U3 U4].
  split; [split; [by apply Hk|done..]|]. split; [done|]. by intros o []; split.
Qed.
Lemma public_trace te te' : public kept te te' → trace te' = trace te.
Proof.
  induction 1 as [te|b timeout f te i te1 te2 _ _ Hs _ IH|te te1 te2 Hh _ IH|te te2 _ _ IH|
    u te te2 _ IH]; [done| | |done|done].
  - unfold set_event in Hs. rewrite bind_get in Hs. apply bind_inv in Hs as (? & te0 & [_ ->]%check_inv & Hs).
    cbv zeta in Hs. rewrite bind_modify in Hs. by apply ret_inv in Hs as [_ ->].
  - by apply handle_call_inv in Hh as (sig & -> & _).
Qed.
Lemma public_cancelled o s h te te' :
  public kept te te' → kept h → wheel_inv o te → o < kNextSeqNum te →
  cancelled s h te → cancelled s h te'.
Proof.
  intros Hp Hh. induction Hp as [te|b timeout f te i te1 te2 Hk Ht Hs Hp IH|te te1 te2 Hc _ IH|
    te te2 Hk _ IH|u te te2 _ IH]; intros Hi Ho Hu; [done| | | |].
  - assert (public kept te te1) as Hp1 by (eapply pub_set; [exact Hk|exact Ht|exact Hs|constructor]).
    destruct (public_inv _ _ _ _ Hp1 Hi Ho) as [Hi1 Hk1].
    apply set_event_inv in Hs as [_ ->]; [|apply Hi|destruct Hi; lia].
    destruct Hu as [U1 U2 U3 U4].
    apply IH; [exact Hi1|cbn; lia|]. split; cbn; [|lia|lia|].
    + unfold is_signaled. cbn. rewrite lookup_insert_ne by lia. exact U1.
    + apply Forall_app. split; [done|]. apply Forall_singleton. cbn. lia.
  - destruct (handle_call_cancelled _ _ _ _ Hc Hh Hu) as (Hu1 & _ & Hi1).
    apply handle_call_inv in Hc as (sig & -> & _). by apply IH; [apply Hi1| |].
  - assert (public kept te (te <| kNextSeqNum ::= Z.succ |>)) as Hp1
      by (apply pub_elsewhere; [done|constructor]).
    destruct (public_inv _ _ _ _ Hp1 Hi Ho) as [Hi1 Hk1]. apply IH; [done|cbn in *; lia|].
    destruct Hu as [U1 U2 U3 U4]. split; cbn; [done|done|lia|done].
  - apply IH; [by destruct Hi; split|done|by destruct Hu; split].
Qed.

(** The invariant of a wheel whose thread is at [p], and how many calls of event [s]
    that thread has begun and not yet recorded. *)
Definition phase_inv (p : phase F) te : Prop :=
  match p with
  | calling e => wheel_inv (seq_num e) te ∧ -1 < seq_num e < kNextSeqNum te
  | _ => wheel_inv (-1) te
  end.
Definition begun (p : phase F) (s : Z) : nat :=
  match p with calling e => if seq_num e =? s then 1%nat else 0%nat | _ => 0%nat end.
Definition calls_of (s : Z) (l : list (Z * Z)) : nat := length (filter (λ c, c.2 = s) l).
Lemma calls_of_one s c : calls_of s [c] = if c.2 =? s then 1%nat else 0%nat.
Proof.
  unfold calls_of. destruct (Z.eqb_spec c.2 s).
  - by rewrite filter_cons_True.
  - by rewrite filter_cons_False.
Qed.

Lemma phase_inv_bound p te :
  phase_inv p te → ∃ o, wheel_inv o te ∧ o < kNextSeqNum te ∧
    ∀ te', wheel_inv o te' → kNextSeqNum te ≤ kNextSeqNum te' → phase_inv p te'.
Proof.
  destruct p as [|a|e]; cbn.
  1,2: intros Hi; exists (-1); split; [done|]; split; [by destruct Hi; lia|done].
  intros [Hi Hs]. exists (seq_num e). split; [done|]. split; [lia|]. split; [done|lia].
Qed.

(** Counting a tick for the event the loop has come to. *)
Lemma count_inv a e te :
  next_event a (m_events te) = Some e → wheel_inv (-1) te →
  let te1 := te <| m_events ::= set_elapsed (seq_num e) (u64 (elapsed e + 1)) |> in
  e ∈ m_events te ∧ -1 < seq_num e < kNextSeqNum te ∧ wheel_inv (seq_num e) te1 ∧
  (u64 (elapsed e + 1) ≠ ticks e → wheel_inv (-1) te1).
Proof.
  intros [He _]%next_event_inv Hi te1.
  pose proof (wi_nonneg _ _ Hi) as Hnn. pose proof (wi_counting _ _ Hi) as Hct.
  pose proof (wi_sorted _ _ Hi) as Hso. pose proof (wi_below _ _ Hi) as Hb.
  unfold above, below in Hnn, Hb. rewrite Forall_forall in Hnn, Hct, Hb.
  specialize (Hnn _ He). specialize (Hb _ He). cbn in Hnn, Hb.
  destruct (Hct _ He) as [Ht Hc]. destruct Hc as [Hc _]; [lia|].
  split; [done|]. split; [lia|]. split.
  - eapply wheel_inv_set_elapsed; [exact Hi|by intros ??? []|lia].
  - rewrite u64_small by lia. intros Hne. subst te1. rewrite u64_small by lia.
    eapply wheel_inv_set_elapsed; [exact Hi| |lia]. intros e' He' Hq _.
    rewrite (sorted_unique _ e' e Hso He' He Hq). lia.
Qed.
(** The end of a call. *)
Lemma call_end_inv (once : bool) s te :
  wheel_inv s te →
  wheel_inv (-1) (te <| m_events ::= if once then erase_event s else set_elapsed s 0 |>).
Proof.
  intros Hi. destruct once; [by apply wheel_inv_erase|].
  eapply wheel_inv_set_elapsed; [exact Hi| |lia]. intros e He _ _.
  pose proof (wi_counting _ _ Hi) as Hct. rewrite Forall_forall in Hct.
  destruct (Hct _ He) as [? _]. lia.
Qed.

Lemma wheel_step_inv p te p' te' :
  wheel_step kept (p, te) (p', te') → phase_inv p te → phase_inv p' te'.
Proof.
  intros H. inversion H as [? ? ? Hc|? ? Hp|?|a e ? Hn Hne|a e ? Hn Hq Hs|a e ? Hn Hq Hs|
    e ? te1 Hp|? ? Hn]; subst; clear H; cbn [phase_inv]; intros Hi.
  - destruct (phase_inv_bound _ _ Hi) as (o & Hi1 & _ & Hb).
    apply handle_call_inv in Hc as (sig & -> & _). apply Hb; [by destruct Hi1; split|done].
  - eapply public_inv; [exact Hp|exact Hi|]. destruct Hi. lia.
  - by destruct Hi; split.
  - by destruct (count_inv _ _ _ Hn Hi) as (_ & _ & _ & Hi1); auto.
  - destruct (count_inv _ _ _ Hn Hi) as (_ & _ & Hi1 & _). exact (wheel_inv_erase _ _ Hi1).
  - by destruct (count_inv _ _ _ Hn Hi) as (_ & Hb & Hi1 & _).
  - destruct Hi as [Hi Hb]. apply (call_end_inv (once e) (seq_num e) te1).
    eapply public_inv; [exact Hp|by destruct Hi; split|]. cbn. lia.
  - done.
Qed.

(** A step does not begin a call of a cancelled event. *)
Lemma wheel_step_cancelled s h p te p' te' :
  wheel_step kept (p, te) (p', te') → phase_inv p te → kept h → cancelled s h te →
  cancelled s h te' ∧ ∃ l, trace te' = trace te ++ l ∧ (calls_of s l + begun p' s = begun p s)%nat.
Proof.
  intros H Hi Hh Hu. assert (∃ l, trace te = trace te ++ l ∧ calls_of s l = 0%nat) as (l0 & E0 & C0)
    by (exists []; by rewrite app_nil_r).
  inversion H as [? ? ? Hc|? ? Hp|?|a e ? Hn Hne|a e ? Hn Hq Hs|a e ? Hn Hq Hs|
    e ? te1 Hp|? ? Hn]; subst; clear H.
  - destruct (handle_call_cancelled _ _ _ _ Hc Hh Hu) as (Hu1 & -> & _).
    split; [done|]. exists l0. by rewrite C0.
  - split; [eapply public_cancelled; [exact Hp|exact Hh|exact Hi| |exact Hu]; destruct Hi; lia|].
    rewrite (public_trace _ _ Hp). exists l0. by rewrite C0.
  - split; [by destruct Hu; split|]. exists l0. by rewrite C0.
  - split; [exact (cancelled_set_elapsed _ _ _ _ _ Hu)|]. exists l0. by rewrite C0.
  - split; [exact (cancelled_erase _ _ _ _ (cancelled_set_elapsed _ _ _ _ _ Hu))|]. exists l0. by rewrite C0.
  - split; [exact (cancelled_set_elapsed _ _ _ _ _ Hu)|]. exists l0. rewrite C0. split; [done|]. cbn.
    destruct (Z.eqb_spec (seq_num e) s) as [<-|]; [|done].
    apply next_event_inv in Hn as [He _]. destruct Hu as [U1 _ _ U4].
    rewrite Forall_forall in U4. rewrite (U4 _ He eq_refl) in Hs. congruence.
  - destruct Hi as [Hi Hb].
    assert (cancelled s h te1) as Hu1.
    { eapply public_cancelled; [exact Hp|exact Hh|by destruct Hi; split|cbn; lia|by destruct Hu; split]. }
    split; [destruct (once e); [exact (cancelled_erase _ _ _ _ Hu1)|exact (cancelled_set_elapsed _ _ _ _ _ Hu1)]|].
    exists [(m_ticks te, seq_num e)]. split; [cbn; by rewrite (public_trace _ _ Hp)|].
    rewrite calls_of_one. cbn. lia.
  - split; [done|]. exists l0. by rewrite C0.
Qed.

Lemma wheel_steps_inv x x' :
  rtc (wheel_step kept) x x' → phase_inv x.1 x.2 → phase_inv x'.1 x'.2.
Proof.
  induction 1 as [|[p te] [p1 te1] x' H _ IH]; [done|]. intros Hi. by eapply IH, wheel_step_inv.
Qed.
Lemma wheel_steps_cancelled s h x x' :
  rtc (wheel_step kept) x x' → phase_inv x.1 x.2 → kept h → cancelled s h x.2 →
  ∃ l, trace x'.2 = trace x.2 ++ l ∧ (calls_of s l ≤ begun x.1 s)%nat.
Proof.
  intros H Hi Hh. revert Hi.
  induction H as [[p te]|[p te] [p1 te1] [p' te'] H _ IH]; cbn; intros Hi Hu.
  { exists []. rewrite app_nil_r. split; [done|]. cbn. lia. }
  destruct (wheel_step_cancelled s h _ _ _ _ H Hi Hh Hu) as (Hu1 & l1 & E1 & L1).
  destruct (IH (wheel_step_inv _ _ _ _ H Hi) Hu1) as (l2 & E2 & L2). cbn in E2, L2.
  exists (l1 ++ l2). rewrite E2, E1, <-app_assoc. split; [done|].
  unfold calls_of in *. rewrite filter_app, length_app. lia.
Qed.

(** *** The code makes these steps *)

Lemma count_event_steps a e te u te' :
  next_event a (m_events te) = Some e → count_event e te = Ok u te' →
  rtc (wheel_step kept) (between a, te) (between (seq_num e), te').
Proof.
  intros Hn H. unfold count_event in H. rewrite bind_modify in H. cbv beta zeta in H.
  destruct (Z.eqb_spec (u64 (elapsed e + 1)) (ticks e)) as [Hq|Hq].
  2: { apply ret_inv in H as [_ ->]. by apply rtc_once, step_count. }
  apply bind_inv in H as (b & te1 & H1 & H). apply modify_inv in H as ->.
  unfold proc in H1. rewrite bind_get in H1.
  change (is_signaled (event e) _) with (is_signaled (event e) te) in H1.
  destruct (is_signaled (event e) te) eqn:Hs.
  - apply ret_inv in H1 as [-> ->]. by apply rtc_once, step_cancelled.
  - rewrite bind_modify in H1. apply bind_inv in H1 as (v & te2 & Hc & H1).
    apply ret_inv in H1 as [-> ->]. apply public_call in Hc.
    eapply rtc_l; [by apply step_begin|]. apply rtc_once. by apply step_call.
Qed.
Lemma visit_steps fuel a te u te' :
  visit fuel a te = Ok u te' → rtc (wheel_step kept) (between a, te) (waiting, te').
Proof.
  revert a te. induction fuel as [|fuel IH]; intros a te H; cbn [visit] in H; [done|].
  rewrite bind_get in H. destruct (next_event a (m_events te)) as [e|] eqn:E.
  - apply bind_inv in H as (v & te1 & H1 & H).
    etransitivity; [by eapply count_event_steps|by apply IH].
  - apply ret_inv in H as [_ ->]. by apply rtc_once, step_end.
Qed.
Lemma tick_steps fuel te u te' :
  tick fuel te = Ok u te' → rtc (wheel_step kept) (waiting, te) (waiting, te').
Proof.
  intros H. unfold tick in H. rewrite bind_modify in H.
  eapply rtc_l; [apply step_wake|]. by eapply visit_steps.
Qed.

(** C30: the thread of a wheel, its callbacks, its owner and other threads that call
    the interface of the handles at any moment.  A tick is made of the steps of this
    system.  Every step keeps the set in order, every sequence number below the next
    one, and every event counting towards a tick still to come.  An event whose handle
    is signaled and not [reset] by anybody afterwards is never called again, neither
    by the tick in progress nor by a later one, except for the one call that the
    thread may have decided on before.  Events are set by the owner while the thread
    waits, and by callbacks, while the 64-bit sequence numbers last. *)
Theorem cancelled_event_uncalled :
  (∀ fuel te u te', tick fuel te = Ok u te' →
     rtc (wheel_step kept) (waiting, te) (waiting, te')) ∧
  ∀ p te p' te', rtc (wheel_step kept) (p, te) (p', te') → phase_inv p te →
    phase_inv p' te' ∧
    ∀ e, e ∈ m_events te → kept (event e) → is_signaled (event e) te = true →
      ∃ l, trace te' = trace te ++ l ∧ (calls_of (seq_num e) l ≤ begun p (seq_num e))%nat.
Proof.
  split; [apply tick_steps|]. intros p te p' te' H Hi.
  split; [exact (wheel_steps_inv _ _ H Hi)|]. intros e He Hk Hs.
  apply (wheel_steps_cancelled (seq_num e) (event e) _ _ H Hi Hk).
  destruct (phase_inv_bound _ _ Hi) as (o & [_ Hso _ Hb _ _ Hh] & _).
  unfold below in Hb. rewrite Forall_forall in Hb, Hh. split; [done|by apply Hh|by apply Hb|].
  apply Forall_forall. intros e' He' Hq. by rewrite (sorted_unique _ e' e Hso He' He Hq).
Qed.
End public_ticks.

(** ** A callback that sets its event again *)

(** The insertion goes behind the element the loop is at, so the loop finds it in
    the same tick. *)
Section rearming.
#[local] Instance rearm : UserCode unit unit := λ _,
  te ← get; set_timeout (m_tick te) tt ;; mret tt.

Lemma visit_rearm fuel te a s h n :
  m_events te = [mkEvent s true tt 1 n h] → n = 0 → a < s → is_signaled h te = false →
  h < next_handle te → s < kNextSeqNum te → 0 < m_tick te →
  0 ≤ kNextSeqNum te → kNextSeqNum te + Z.of_nat fuel < 2^64 →
  ∃ te', visit fuel a te = Abort OutOfFuel te'.
Proof.
  revert te a s h n. induction fuel as [|fuel IH]; intros te a s h n He -> Ha Hs Hh Hk Ht H0 Hf;
    [by exists te|].
  cbn [visit]. rewrite bind_get, He. cbn [next_event seq_num].
  rewrite (proj2 (Z.ltb_lt _ _)) by done. unfold count_event. cbn [elapsed ticks seq_num].
  rewrite bind_assoc, bind_modify. change (u64 (0 + 1) =? 1) with true. cbn [andb].
  rewrite bind_assoc. unfold proc. rewrite bind_assoc, bind_get. cbn [event callback].
  change (is_signaled h _) with (is_signaled h te) at 1. rewrite Hs.
  rewrite bind_assoc, bind_modify, bind_assoc. unfold user_call, rearm. rewrite bind_assoc, bind_get.
  unfold set_timeout, set_event. rewrite !bind_assoc, bind_get, bind_assoc.
  cbn [m_tick]. rewrite (proj2 (Z.leb_le _ _)) by (cbn; lia). cbn [check].
  rewrite bind_ret, bind_assoc, bind_modify, !bind_ret, bind_modify.
  eapply (IH _ s (kNextSeqNum te) (next_handle te) 0); cbn.
  - rewrite He. unfold set_elapsed. cbn. rewrite Z.eqb_refl. cbn.
    rewrite (proj2 (Z.ltb_ge _ _)), (proj2 (Z.ltb_lt _ _)) by lia. cbn.
    unfold erase_event. rewrite filter_cons_False by (cbn; by intros []).
    rewrite filter_cons_True by (cbn; lia). rewrite Z.quot_same by lia. done.
  - done.
  - done.
  - unfold is_signaled. cbn. by rewrite lookup_insert_eq.
  - lia.
  - rewrite u64_small by lia. lia.
  - done.
  - rewrite u64_small by lia. lia.
  - rewrite u64_small by lia. lia.
Qed.

(** C40: a timeout of one tick that its callback sets again keeps the loop in one
    tick: it does not end before the 64-bit sequence numbers run out. *)
Theorem rearming_timeout_spins fuel te s h :
  m_events te = [mkEvent s true tt 1 0 h] → is_signaled h te = false →
  h < next_handle te → 0 ≤ s < kNextSeqNum te → 0 < m_tick te →
  kNextSeqNum te + Z.of_nat fuel < 2^64 →
  ∃ te', tick fuel te = Abort OutOfFuel te'.
Proof.
  intros He Hs Hh Hk Ht Hf. unfold tick. rewrite bind_modify.
  by apply (visit_rearm fuel _ (-1) s h 0); cbn; try lia.
Qed.
End rearming.

(** ** The length of the waits *)

(** Lines 170 to 173 and 146: how long the thread waits after [m_ticks] ticks, at
    time [now]; the product is unsigned, the rest signed. *)
Definition i64 (z : Z) : Z := (z + 2^63) mod 2^64 - 2^63.
Definition drift (start tick ticks now : Z) : Z := (now - start) - i64 (u64 (tick * ticks)).
Definition wait_length (start tick ticks now : Z) : Z := tick - drift start tick ticks now.

(** When the thread wakes up for tick [k + 1]: [late] is by how much it is woken or
    scheduled late, [work] what the callbacks of a tick take.  A wait that is over
    when it begins returns at once. *)
Fixpoint wake (start tick : Z) (work late : nat → Z) (k : nat) : Z :=
  match k with
  | O => start + tick + late 0%nat
  | S k =>
      let now := wake start tick work late k + work k in
      now + Z.max 0 (wait_length start tick (Z.of_nat (S k)) now) + late (S k)
  end.
(** The queueing recursion: what is left over when the next tick is due. *)
Fixpoint backlog (tick : Z) (work late : nat → Z) (k : nat) : Z :=
  match k with
  | O => late 0%nat
  | S k => Z.max 0 (backlog tick work late k + work k - tick) + late (S k)
  end.

(** ticks do not drift: the wake-up for tick [k + 1] is behind its time, [k + 1]
    ticks after the start, by the backlog alone.  So as long as the callbacks of
    each tick and the lateness before them fit in one tick, every tick is as late
    as its own wake-up and no more; and after an overload the thread catches up. *)
Theorem ticks_do_not_drift start tick work late k :
  0 < tick → tick * (Z.of_nat k + 1) < 2^63 →
  wake start tick work late k = start + tick * (Z.of_nat k + 1) + backlog tick work late k ∧
  ((∀ i, late i + work i ≤ tick) → backlog tick work late k = late k).
Proof.
  intros Ht. induction k as [|k IH]; intros Hk; cbn [wake backlog]; [split; [lia|done]|].
  rewrite Nat2Z.inj_succ in *. unfold Z.succ in *. rewrite !Z.mul_add_distr_l, !Z.mul_1_r in *.
  assert (0 ≤ tick * Z.of_nat k) by (apply Z.mul_nonneg_nonneg; lia).
  destruct IH as [IH1 IH2]; [lia|]. split.
  - rewrite IH1. unfold wait_length, drift, i64. rewrite Z.mul_add_distr_l, Z.mul_1_r.
    rewrite u64_small, Z.mod_small by lia. lia.
  - intros Hw. rewrite (IH2 Hw). specialize (Hw k). lia.
Qed.

(** ** Witnesses *)

(** Callbacks that note their names, and a wheel with a timeout of 3 ticks, an
    interval of 2 and a cancelled interval of 1. *)
Section wheel_witnesses.
#[local] Instance noting : UserCode Z (list Z) := λ f, modify (λ te, te <| user ::= cons f |>).
#[local] Instance noting_quiet : QuietCode Z (list Z).
Proof. intros f te. by exists (f :: user te). Qed.
(** Nobody resets the handle of the interval. *)
Definition wh_kept (h : Z) : Prop := h = 101.
#[local] Instance noting_public : PublicCode wh_kept Z (list Z).
Proof.
  intros f te v te' H. apply modify_inv in H as ->. apply (pub_user _ (f :: user te)). constructor.
Qed.

Definition wh_te : TimeEvent Z (list Z) :=
  mkTimeEvent 10 0 [mkEvent 0 true 70 3 0 100; mkEvent 1 false 71 2 0 101; mkEvent 2 false 72 1 0 102]
    3 {[100 := false; 101 := false; 102 := true]} 103 [] [].
Definition wh_cancelled : TimeEvent Z (list Z) := wh_te <| signaled ::= <[101 := true]> |>.
Definition wh_after (te : TimeEvent Z (list Z)) : TimeEvent Z (list Z) :=
  match tick 9 te with Ok _ te => te | Abort _ te => te end.

Lemma wh_wf : wheel_wf wh_te.
Proof. split; [done|by repeat constructor..]. Defined.
Lemma wh_inv : wheel_inv (-1) wh_te.
Proof.
  split; [done|by repeat constructor|by repeat constructor|by repeat constructor|done| |].
  - repeat (constructor; [by split|]). constructor.
  - by repeat constructor.
Defined.

Lemma ticks_follow_schedule_witness :
  ∃ te, run_ticks 4 9 wh_te = Ok tt te ∧ trace te = [(2, 1); (3, 0); (4, 1)].
Proof.
  destruct (ticks_follow_schedule 4 9 wh_te wh_wf) as (te & H & Ht & _); [by vm_compute|done|cbn; lia|].
  exists te. split; [exact H|]. rewrite Ht. by vm_compute.
Defined.

(** The interval is cancelled, another thread resets the handle of the third event,
    and the wheel ticks three times: the two others are called. *)
Definition wh_reset : TimeEvent Z (list Z) := wh_cancelled <| signaled ::= <[102 := false]> |>.
Definition wh_end : TimeEvent Z (list Z) := wh_after (wh_after (wh_after wh_reset)).

Lemma cancelled_event_uncalled_witness :
  calls_of 1 (trace wh_end) = 0%nat ∧ trace wh_end = [(1, 2); (2, 2); (3, 0); (3, 2)].
Proof.
  split; [|by vm_compute].
  pose proof (cancelled_event_uncalled wh_kept (F:=Z) (U:=list Z)) as [Htick Hsteps].
  assert (rtc (wheel_step wh_kept) (waiting, wh_cancelled) (waiting, wh_end)) as Hr.
  { eapply rtc_l; [apply step_handle, (call_reset _ 102); [discriminate|reflexivity]|].
    do 3 (etransitivity; [apply (Htick 9%nat _ tt); by vm_compute|]). reflexivity. }
  destruct (Hsteps _ _ _ _ Hr) as [_ Hc]; [by destruct wh_inv; split|].
  destruct (Hc (mkEvent 1 false 71 2 0 101)) as (l & El & Hl);
    [right; by left|done|by vm_compute|].
  change (trace wh_cancelled) with (@nil (Z * Z)) in El. rewrite El.
  apply Nat.le_0_r. exact Hl.
Defined.

Lemma rearming_timeout_spins_witness :
  ∃ te', tick (UserCode0 := rearm) 100
    (mkTimeEvent 10 0 [mkEvent 0 true tt 1 0 100] 1 {[100 := false]} 101 tt []) = Abort OutOfFuel te'.
Proof. by apply (rearming_timeout_spins 100 _ 0 100). Defined.

Lemma ticks_do_not_drift_witness :
  wake 5000 10 (λ _, 7) (λ _, 2) 99 = 5000 + 10 * 100 + 2.
Proof.
  destruct (ticks_do_not_drift 5000 10 (λ _, 7) (λ _, 2) 99) as [H1 H2]; [lia|lia|].
  rewrite H1, H2; [done|]. cbn. lia.
Defined.
End wheel_witnesses.
