(* ===== verification/Net.v ===== *)
(** * NetTool (include/util/net_util.h)

    Finding the host's own address in a given subnet: the interfaces come from
    [getifaddrs], addresses are 32-bit words in network byte order as a
    little-endian [in_addr_t] holds them. *)
From S2P Require Import Prelude Words Types World Text Sim.

Definition AF_INET : Z := 2.

(** [std::to_string] of an [int]. *)
Definition int_to_string (z : Z) : string := pretty z.

Section net.
Context {X : Type} `{!Platform X}.

(** The printed address of host 1 of the subnet without its last character,
    ["12.12.12."] for 12.12.12.111/24.  Shifting a 32-bit word by its width is
    undefined, and so is [1 << length] from 31 on. *)
Definition subnet_prefix (ip_prefix : string) (ip_prefix_length : Z) : W X string :=
  let ip := u32 (inet_addr ip_prefix) in
  let len := u32 ip_prefix_length in
  defined ((1 <=? len) && (len <=? 30)) "shift count" ;;
  let ip_local := Z.shiftr (u32 (Z.shiftl ip (32 - len))) (32 - len) in
  let gtway := u32 (ip_local + Z.shiftl 1 ip_prefix_length) in
  let ip_ := inet_ntop gtway in
  mret (String.substring 0 (String.length ip_ - 1) ip_).

(** [strncmp(s, t, n) == 0] on strings without embedded NUL. *)
Definition strncmp_eq (s t : string) (n : nat) : bool :=
  bool_decide (String.substring 0 n s = String.substring 0 n t).

(** The loop over the interfaces: the last match wins. *)
Fixpoint scan_interfaces (ip_prefix : string) (n : nat) (ifas : list (option (Z * Z)))
    (node_id : Z) : Z :=
  match ifas with
  | [] => node_id
  | None :: ifas => scan_interfaces ip_prefix n ifas node_id
  | Some (family, addr) :: ifas =>
      let addressBuffer := inet_ntop addr in
      let node_id :=
        if (family =? AF_INET) && strncmp_eq addressBuffer ip_prefix n
        then atoi (String.substring n (String.length addressBuffer - n) addressBuffer)
        else node_id in
      scan_interfaces ip_prefix n ifas node_id
  end.

Definition get_node_id (ip_prefix : string) (ip_prefix_length : Z) : W X Z :=
  ip_ ← subnet_prefix ip_prefix ip_prefix_length;
  ifas ← call getifaddrs;
  mret (scan_interfaces ip_prefix (String.length ip_) ifas (-1)).

Definition get_ip (ip_prefix : string) (ip_prefix_length : Z) : W X string :=
  ip_ ← subnet_prefix ip_prefix ip_prefix_length;
  node_id ← get_node_id ip_prefix ip_prefix_length;
  defined ((String.length ip_ - 1 <=? String.length ip_prefix)%nat) "ip_prefix is too short" ;;
  mret (String.substring 0 (String.length ip_ - 1) ip_prefix +:+ "." +:+ int_to_string node_id).
End net.

(** The documented behaviour of [inet_ntop] and [inet_addr]. *)
Class InetLaws (X : Type) `{!Platform X} : Prop := {
  inet_ntop_spec a : 0 ≤ a < 2^32 → inet_ntop a = dotted_quad a;
  inet_addr_spec a : 0 ≤ a < 2^32 → inet_addr (dotted_quad a) = a
}.

(** ** Lemmas *)

(** A statement about all bytes, case by case. *)
Lemma all_bytes (P : Z → Prop) : Forall P (seqZ 0 256) → ∀ b, 0 ≤ b < 256 → P b.
Proof. intros H b Hb. rewrite Forall_forall in H. apply H, elem_of_seqZ. lia. Qed.

Ltac by_bytes tac :=
  lazymatch goal with |- ∀ b, 0 ≤ b < 256 → @?P b => apply (all_bytes P) end;
  let l := eval vm_compute in (seqZ 0 256) in change (seqZ 0 256) with l;
  repeat (constructor; [tac|]); constructor.

(** Printing a byte is inverted by the digits before the next dot. *)
Lemma byte_print b : 0 ≤ b < 256 → ∀ s,
  digits 10 0 (pretty b +:+ "." +:+ s) = b ∧ after_dot (pretty b +:+ "." +:+ s) = s.
Proof.
  revert b. by_bytes ltac:(intros s; split; vm_compute; reflexivity).
Qed.
Lemma byte_print_last b : 0 ≤ b < 256 → digits 10 0 (pretty b) = b ∧ atoi (pretty b) = b.
Proof.
  revert b. by_bytes ltac:(split; vm_compute; reflexivity).
Qed.
(** Only the byte 12 is printed as a prefix ["12."]. *)
Lemma byte_prefix b : 0 ≤ b < 256 → ∀ n s t,
  String.substring 0 (3 + n) (pretty b +:+ "." +:+ s) = "12." +:+ t →
  b = 12 ∧ String.substring 0 n s = t.
Proof.
  revert b. by_bytes ltac:(intros n s t H; vm_compute in H; first [discriminate H
    | split; [reflexivity|injection H as H; exact H]]).
Qed.

Lemma quad_byte_range a i : 0 ≤ quad_byte a i < 256.
Proof. apply Z.mod_pos_bound. lia. Qed.
Lemma quad_bytes_val a : 0 ≤ a < 2^32 →
  quad_byte a 0 + 256 * quad_byte a 1 + 256 ^ 2 * quad_byte a 2 + 256 ^ 3 * quad_byte a 3 = a.
Proof.
  intros Ha. unfold quad_byte. rewrite Z.pow_0_r, Z.pow_1_r, Z.div_1_r.
  change (256 ^ 2) with (256 * 256). change (256 ^ 3) with (256 * 256 * 256).
  rewrite <-!Z.div_div by lia.
  pose proof (Z.div_mod a 256 ltac:(lia)). pose proof (Z.div_mod (a / 256) 256 ltac:(lia)).
  pose proof (Z.div_mod (a / 256 / 256) 256 ltac:(lia)).
  rewrite (Z.mod_small (a / 256 / 256 / 256)); [lia|].
  rewrite !Z.div_div by lia. split; [apply Z.div_pos; lia|apply Z.div_lt_upper_bound; lia].
Qed.

Lemma parse_dotted_quad a : 0 ≤ a < 2^32 → parse_quad (dotted_quad a) = a.
Proof.
  intros Ha. rewrite <-(quad_bytes_val a Ha) at 2. unfold parse_quad, dotted_quad.
  destruct (byte_print (quad_byte a 0) (quad_byte_range _ _)
    (pretty (quad_byte a 1) +:+ "." +:+ pretty (quad_byte a 2) +:+ "." +:+ pretty (quad_byte a 3)))
    as [E1 E2].
  destruct (byte_print (quad_byte a 1) (quad_byte_range _ _)
    (pretty (quad_byte a 2) +:+ "." +:+ pretty (quad_byte a 3))) as [E3 E4].
  destruct (byte_print (quad_byte a 2) (quad_byte_range _ _) (pretty (quad_byte a 3))) as [E5 E6].
  destruct (byte_print_last (quad_byte a 3) (quad_byte_range _ _)) as [E7 _].
  cbv zeta. rewrite E2, E4, E6, E1, E3, E5, E7. reflexivity.
Qed.

#[export] Instance sim_inet_laws : InetLaws Sim.
Proof. split; cbn; [done|apply parse_dotted_quad]. Qed.

(** The subnet the configuration looks for: 12.12.12.0/24. *)
Definition in_subnet (a : Z) : bool := a mod 2^24 =? 12 + 256 * 12 + 256 ^ 2 * 12.

Lemma in_subnet_bytes a : 0 ≤ a < 2^32 →
  in_subnet a = true ↔ quad_byte a 0 = 12 ∧ quad_byte a 1 = 12 ∧ quad_byte a 2 = 12.
Proof.
  intros Ha. pose proof (quad_bytes_val a Ha) as E. unfold in_subnet. rewrite Z.eqb_eq.
  pose proof (quad_byte_range a 0). pose proof (quad_byte_range a 1).
  pose proof (quad_byte_range a 2). pose proof (quad_byte_range a 3).
  change (256 ^ 2) with 65536 in *. change (256 ^ 3) with 16777216 in *.
  change (2 ^ 24) with 16777216.
  assert (a mod 16777216 = quad_byte a 0 + 256 * quad_byte a 1 + 65536 * quad_byte a 2) as ->;
    [|lia].
  rewrite <-E at 1. rewrite Z.add_comm, Z.mul_comm, Z.add_comm, Z.mod_add, Z.mod_small; lia.
Qed.

Lemma substring_all s : String.substring 0 (String.length s) s = s.
Proof. induction s as [|c s IH]; cbn; [done|by rewrite IH]. Qed.

Lemma subnet_match a : 0 ≤ a < 2^32 →
  strncmp_eq (dotted_quad a) "12.12.12.111" 9 = in_subnet a ∧
  (in_subnet a = true → let s := dotted_quad a in
     s = "12.12.12." +:+ pretty (quad_byte a 3) ∧
     atoi (String.substring 9 (String.length s - 9) s) = quad_byte a 3).
Proof.
  intros Ha. assert (in_subnet a = true →
    dotted_quad a = "12.12.12." +:+ pretty (quad_byte a 3)) as Hs.
  { intros Hin. apply in_subnet_bytes in Hin as (E0 & E1 & E2); [|done].
    unfold dotted_quad. rewrite E0, E1, E2. change (pretty 12) with "12". reflexivity. }
  split.
  - unfold strncmp_eq. destruct (in_subnet a) eqn:E.
    + apply bool_decide_true. rewrite Hs by done. cbn. by destruct (pretty _).
    + apply bool_decide_false. intros H. apply not_true_iff_false in E. apply E.
      apply in_subnet_bytes; [done|]. unfold dotted_quad in H.
      apply (byte_prefix _ (quad_byte_range _ _) 6 _ "12.12.") in H as [-> H].
      apply (byte_prefix _ (quad_byte_range _ _) 3 _ "12.") in H as [-> H].
      by apply (byte_prefix _ (quad_byte_range _ _) 0 _ "") in H as [-> H].
  - intros E. cbv zeta. rewrite Hs by done. split; [done|].
    set (p := pretty (quad_byte a 3)).
    change (atoi (String.substring 0 (String.length p - 0) p) = quad_byte a 3).
    rewrite Nat.sub_0_r, substring_all. by apply byte_print_last, quad_byte_range.
Qed.

(** The hosts of the subnet among the interfaces, in the order listed. *)
Definition subnet_hosts (ifas : list (option (Z * Z))) : list Z :=
  omap (λ i, p ← i; if (p.1 =? AF_INET) && in_subnet p.2 then Some p.2 else None) ifas.

(** Interface addresses are 32-bit words. *)
Definition ifas_wf (ifas : list (option (Z * Z))) : Prop :=
  Forall (λ i, match i with Some (_, a) => 0 ≤ a < 2^32 | None => True end) ifas.

Section net_lemmas.
Context {X : Type} `{!Platform X} `{!InetLaws X}.
Implicit Types w : World X.

Lemma scan_interfaces_eq ifas node :
  ifas_wf ifas →
  scan_interfaces "12.12.12.111" 9 ifas node =
    match list.last (subnet_hosts ifas) with Some a => quad_byte a 3 | None => node end.
Proof.
  intros Hwf. revert node. induction Hwf as [|[[f a]|] ifas Ha _ IH]; intros node; [done| |apply IH].
  cbn [scan_interfaces subnet_hosts omap list_omap mbind option_bind fst snd]. rewrite IH.
  rewrite (inet_ntop_spec a Ha). destruct (subnet_match a Ha) as [E1 E2]. rewrite E1.
  destruct ((f =? AF_INET) && in_subnet a) eqn:E; [|done].
  apply andb_true_iff in E as [_ E]. rewrite last_cons. fold (subnet_hosts ifas).
  destruct (list.last (subnet_hosts ifas)); [done|]. by apply E2.
Qed.

Lemma subnet_prefix_eq w :
  subnet_prefix "12.12.12.111" 24 w = Ok "12.12.12." w.
Proof.
  unfold subnet_prefix.
  assert (inet_addr "12.12.12.111" = 1863060492) as ->.
  { change "12.12.12.111" with (dotted_quad 1863060492). by apply inet_addr_spec. }
  cbn -[inet_ntop]. rewrite inet_ntop_spec by (vm_compute; split; congruence). done.
Qed.

Lemma get_ip_eq w ifas x m :
  getifaddrs (w_ext w) (w_mem w) = (ifas, (x, m)) → ifas_wf ifas →
  get_ip "12.12.12.111" 24 w =
    Ok (match list.last (subnet_hosts ifas) with Some a => dotted_quad a | None => "12.12.12.-1" end)
      (w <| w_ext := x |> <| w_mem := m |>).
Proof.
  intros Hg Hwf. unfold get_ip, get_node_id.
  rewrite (bind_Ok _ _ _ _ _ (subnet_prefix_eq w)), bind_assoc.
  rewrite (bind_Ok _ _ _ _ _ (subnet_prefix_eq w)), bind_assoc.
  rewrite (bind_Ok _ _ _ _ _ (call_eq _ _ _ _ _ Hg)), bind_ret.
  change (String.length "12.12.12.") with 9%nat. rewrite scan_interfaces_eq by done.
  cbn [Nat.sub Nat.leb String.length defined]. rewrite bind_ret. unfold mret, M_ret. f_equal.
  destruct (list.last (subnet_hosts ifas)) as [a|] eqn:E; [|done].
  apply last_Some in E as [l E].
  assert (a ∈ subnet_hosts ifas) as Hin by (rewrite E; set_solver).
  apply list_elem_of_omap in Hin as ([[f b]|] & Hin & Hb); [|done].
  unfold ifas_wf in Hwf. rewrite Forall_forall in Hwf. specialize (Hwf _ Hin). cbn in Hb.
  destruct ((f =? AF_INET) && in_subnet b) eqn:Hm; [|done]. injection Hb as ->.
  apply andb_true_iff in Hm as [_ Hm]. destruct (subnet_match a Hwf) as [_ Hs].
  destruct (Hs Hm) as [-> _]. done.
Qed.
End net_lemmas.
