(* ===== verification/Options.v ===== *)
(** * Derived_Config (include/config.h)

    Command line options: what each option does to the configuration, the
    cluster list, the host's own address and the checks at the end of
    [parse_args].  [getopt_long] is the C library's: a parameter that yields the
    next option from the argument vector, which it may permute. *)
From stdpp Require Import sorting.
From S2P Require Import Prelude Words Types World Text Sim Net.

Inductive AllReduceType :=
  | UNKNOWN_ALLREDUCE | SERVER_CLIENT | FULL_MESH_ALLREDUCE | RING_ALLREDUCE
  | TREE_ALLREDUCE | DOUBLE_BINARY_TREE_ALLREDUCE.

#[export] Instance AllReduceType_eq_dec : EqDecision AllReduceType.
Proof. solve_decision. Defined.

Record Derived_Config := mkDerived { base : Config; all_reduce : AllReduceType }.

#[export] Instance eta_Derived_Config : Eta Derived_Config := λ r,
  mkDerived (base r) (all_reduce r).

Definition default_Derived_Config : Derived_Config :=
  mkDerived default_Config UNKNOWN_ALLREDUCE.

(** [std::sort] of strings: any sorting function gives this list
    ([sort_unique] below). *)
Fixpoint insert_sorted (s : string) (l : list string) : list string :=
  match l with
  | [] => [s]
  | t :: l' => if String.leb s t then s :: l else t :: insert_sorted s l'
  end.
Definition sort_strings (l : list string) : list string := foldr insert_sorted [] l.

(** The C library's parser: the state it hides, the argument vector, [optind]
    and, for each call, the option's value ([-1] at the end) and [optarg]. *)
Class GetOpt (G : Type) := {
  getopt_long : G → list string → Z → Z * option string * (G * list string * Z)
}.

Section options.
Context {X : Type} `{!Platform X} {G : Type} `{!GetOpt G}.

(** [atoi]: a value outside [int] is undefined. *)
Definition atoi_int (s : string) : W X Z :=
  defined ((- 2^31 <=? atoi s) && (atoi s <=? INT_MAX)) "atoi out of range" ;;
  mret (atoi s).

(** A reference to the member: its value, with the updated object. *)
Definition get_local_ip (c : Derived_Config) : W X (string * Derived_Config) :=
  if (String.length (local_ip (base c)) =? 0)%nat then
    ip ← get_ip "12.12.12.111" 24;
    mret (ip, c <| base ::= λ b, b <| local_ip := ip |> |>)
  else mret (local_ip (base c), c).

Definition set_server_name (c : Derived_Config) (ip : string) : W X Derived_Config :=
  r ← get_local_ip c;
  let '(my_ip, c) := r in
  if bool_decide (my_ip = ip) then
    mret (c <| base ::= λ b, b <| server_name := ip |> <| serve_as_client := false |> |>)
  else
    mret (c <| base ::= λ b, b <| serve_as_client := true |> <| server_name := ip |> |>).

Definition add_to_cluster (c : Derived_Config) (str : string) : W X Derived_Config :=
  r ← get_local_ip c;
  let '(my_ip, c) := r in
  let c := if bool_decide (my_ip = str) then c
           else c <| base ::= λ b, b <| cluster ::= λ l, l ++ [str] |> |> in
  mret (c <| base ::= λ b, b <| cluster ::= sort_strings |> |>).

(** [print_config] before [exit(-1)]. *)
Definition conflict_check (c : Derived_Config) : W X Derived_Config :=
  let c :=
    if (num_senders (base c) =? 0) && negb (bool_decide (cluster (base c) = []))
    then c <| base ::= λ b, b <| num_senders := i32 (Z.of_nat (length (cluster b))) |> |>
    else c in
  let continue_check := negb (single_recv (base c) && (num_senders (base c) =? 0)) in
  let continue_check :=
    continue_check &&
    negb (bool_decide (all_reduce c = TREE_ALLREDUCE) && (tree_width (base c) <=? 0)) in
  c ← (if continue_check && bool_decide (all_reduce c = SERVER_CLIENT) then
         check (negb (bool_decide (server_name (base c) = "") && serve_as_client (base c)))
           "You mush speficy master node" ;;
         r ← get_local_ip c;
         let '(this_ip, c) := r in
         mret (c <| base ::= λ b,
           b <| serve_as_client := negb (bool_decide (this_ip = server_name b)) |> |>)
       else mret c);
  if continue_check then mret c
  else get_local_ip c ;; fail (Exit (-1)).

Definition topology_of (topology : string) (old : AllReduceType) : AllReduceType :=
  if bool_decide (topology = "full-mesh") then FULL_MESH_ALLREDUCE
  else if bool_decide (topology = "double-binary-tree") || bool_decide (topology = "dbt")
  then DOUBLE_BINARY_TREE_ALLREDUCE
  else if bool_decide (topology = "ring") then RING_ALLREDUCE
  else if bool_decide (topology = "tree") then TREE_ALLREDUCE
  else if bool_decide (topology = "server-client") then SERVER_CLIENT
  else old.

(** The first character of an argument is not a dash. *)
Definition is_operand (s : string) : bool :=
  match s with String "-"%char _ => false | _ => true end.

(** [while (optind < argc && argv[optind][0] != '-')] *)
Fixpoint add_operands (fuel : nat) (c : Derived_Config) (argv : list string) (optind : Z)
    : W X (Derived_Config * Z) :=
  match fuel with
  | O => fail OutOfFuel
  | S fuel =>
      if optind <? Z.of_nat (length argv) then
        defined (0 <=? optind) "argv[optind]" ;;
        a ← must (argv !! Z.to_nat optind) "argv[optind]";
        if is_operand a then
          c ← add_to_cluster c a;
          add_operands fuel c argv (optind + 1)
        else mret (c, optind)
      else mret (c, optind)
  end.

(** The values the options are recognised by: a character or a number. *)
Definition opt_char (a : Ascii.ascii) : Z := char_code a.

Definition upd_base (c : Derived_Config) (f : Config → Config) : Derived_Config :=
  c <| base ::= f |>.

(** The body of the [switch]: the configuration and [optind] after it. *)
Definition handle_option (c : Derived_Config) (iarg : Z) (optarg : option string)
    (argv : list string) (optind : Z) : W X (Derived_Config * Z) :=
  let arg := must optarg "optarg" in
  let keep (m : W X Derived_Config) := c ← m; mret (c, optind) in
  if iarg =? opt_char "h" then fail (Exit 0)
  else if iarg =? opt_char "v" then mret (c, optind)
  else if iarg =? opt_char "u" then
    a ← arg;
    c ← add_to_cluster c a;
    add_operands (S (length argv)) c argv optind
  else if iarg =? opt_char "p" then
    keep (a ← arg; mret (upd_base c (λ b, b <| tcp_port := u32 (strtoul0 a) |>)))
  else if iarg =? opt_char "d" then
    keep (a ← arg; mret (upd_base c (λ b, b <| cfg_dev_name := a |>)))
  else if iarg =? opt_char "i" then
    keep (a ← arg;
          let v := i32 (strtoul0 a) in
          if v <? 0 then fail (Exit (-1))
          else mret (upd_base c (λ b, b <| cfg_ib_port := v |>)))
  else if iarg =? opt_char "g" then
    keep (a ← arg;
          let v := i32 (strtoul0 a) in
          if v <? 0 then fail (Exit (-1))
          else mret (upd_base c (λ b, b <| gid_idx := v |>)))
  else if iarg =? opt_char "s" then keep (a ← arg; set_server_name c a)
  else if iarg =? opt_char "t" then
    keep (a ← arg; mret (upd_base c (λ b, b <| cfg_traffic_class := u32 (strtoul0 a) |>)))
  else if iarg =? opt_char "c" then keep (arg ;; mret c)
  else if iarg =? opt_char "e" then keep (mret (upd_base c (λ b, b <| use_event := true |>)))
  else if iarg =? 257 then
    keep (a ← arg; v ← atoi_int a; mret (upd_base c (λ b, b <| DATA_MSG_SIZE := v |>)))
  else if iarg =? 258 then
    keep (a ← arg; v ← atoi_int a; mret (upd_base c (λ b, b <| num_senders := v |>)))
  else if iarg =? 259 then keep (mret (upd_base c (λ b, b <| single_recv := true |>)))
  else if iarg =? 261 then
    keep (a ← arg; mret (c <| all_reduce ::= topology_of a |>))
  else if iarg =? 262 then
    keep (a ← arg; v ← atoi_int a; mret (upd_base c (λ b, b <| tree_width := v |>)))
  else if iarg =? 263 then keep (a ← arg; mret (upd_base c (λ b, b <| role := a |>)))
  else if iarg =? 264 then keep (a ← arg; mret (upd_base c (λ b, b <| master_ip := a |>)))
  else mret (c, optind).

(** [while (iarg != -1)]; the pass that gets [-1] handles it like an option the
    switch does not list. *)
Fixpoint parse_loop (fuel : nat) (c : Derived_Config) (g : G) (argv : list string)
    (optind : Z) : W X Derived_Config :=
  match fuel with
  | O => fail OutOfFuel
  | S fuel =>
      let '(iarg, optarg, (g, argv, optind)) := getopt_long g argv optind in
      r ← handle_option c iarg optarg argv optind;
      let '(c, optind) := r in
      if iarg =? -1 then mret c else parse_loop fuel c g argv optind
  end.

Definition parse_args (fuel : nat) (c : Derived_Config) (g : G) (argv : list string)
    : W X Derived_Config :=
  c ← parse_loop fuel c g argv 1;
  conflict_check c.
End options.

(** ** Sorting *)

Definition string_le (s t : string) : Prop := String.leb s t = true.
#[export] Instance string_le_dec s t : Decision (string_le s t).
Proof. unfold string_le. apply _. Defined.

Lemma string_compare_trans s t u :
  String.compare s t ≠ Gt → String.compare t u ≠ Gt → String.compare s u ≠ Gt.
Proof.
  revert t u. induction s as [|a s IH]; intros [|b t] [|c u]; cbn; try done.
  unfold Ascii.compare.
  destruct (N.compare_spec (Ascii.N_of_ascii a) (Ascii.N_of_ascii b)) as [E1|E1|E1];
    destruct (N.compare_spec (Ascii.N_of_ascii b) (Ascii.N_of_ascii c)) as [E2|E2|E2];
    destruct (N.compare_spec (Ascii.N_of_ascii a) (Ascii.N_of_ascii c)) as [E3|E3|E3];
    try done; try lia. apply IH.
Qed.

#[export] Instance string_le_trans : Transitive string_le.
Proof.
  intros s t u. unfold string_le, String.leb. intros H1 H2.
  pose proof (string_compare_trans s t u) as H.
  destruct (String.compare s t), (String.compare t u), (String.compare s u); try done;
    exfalso; by apply H.
Qed.
#[export] Instance string_le_antisymm : AntiSymm (=) string_le.
Proof. intros s t. apply String.leb_antisym. Qed.
#[export] Instance string_le_total : Total string_le.
Proof. intros s t. apply String.leb_total. Qed.

Lemma insert_sorted_perm s l : insert_sorted s l ≡ₚ s :: l.
Proof.
  induction l as [|t l IH]; cbn; [done|]. destruct (String.leb s t); [done|].
  rewrite IH. apply Permutation_swap.
Qed.
Lemma sort_strings_perm l : sort_strings l ≡ₚ l.
Proof.
  induction l as [|s l IH]; cbn; [done|]. by rewrite insert_sorted_perm, IH.
Qed.
Lemma insert_sorted_sorted s l :
  StronglySorted string_le l → StronglySorted string_le (insert_sorted s l).
Proof.
  induction l as [|t l IH]; cbn; intros H; [repeat constructor|].
  apply StronglySorted_inv in H as [H Ht]. destruct (String.leb s t) eqn:E.
  - constructor; [by constructor|]. constructor; [done|].
    eapply Forall_impl; [exact Ht|]. intros u Hu. by transitivity t.
  - constructor; [auto|]. rewrite insert_sorted_perm. constructor; [|done].
    destruct (total string_le s t) as [Hs|Hs]; [|done]. unfold string_le in Hs. congruence.
Qed.
Lemma sort_strings_sorted l : StronglySorted string_le (sort_strings l).
Proof. induction l; cbn; [constructor|by apply insert_sorted_sorted]. Qed.

(** A sorted permutation is unique. *)
Lemma sort_unique l k :
  StronglySorted string_le k → k ≡ₚ l → k = sort_strings l.
Proof.
  intros Hk Hp. apply (StronglySorted_unique string_le); [done|apply sort_strings_sorted|].
  by rewrite sort_strings_perm.
Qed.
Lemma sort_strings_app l k : sort_strings (sort_strings l ++ k) = sort_strings (l ++ k).
Proof.
  symmetry. apply sort_unique; [apply sort_strings_sorted|].
  by rewrite !sort_strings_perm.
Qed.
Lemma sort_strings_nil l : sort_strings l = [] ↔ l = [].
Proof.
  split; [|by intros ->]. intros H. apply Permutation_nil. symmetry.
  by rewrite <-(sort_strings_perm l), H.
Qed.

(** ** Lemmas *)

(** What parsing keeps true of a configuration: the cluster is sorted and does
    not list the host itself, every number fits its C type, and the port and
    GID index are not negative. *)
Definition int_range (z : Z) : Prop := - 2^31 ≤ z ≤ INT_MAX.
Record config_wf (c : Derived_Config) : Prop := {
  wf_sorted : StronglySorted string_le (cluster (base c));
  wf_local : cluster (base c) ≠ [] → local_ip (base c) ≠ "";
  wf_not_self : local_ip (base c) ∉ cluster (base c);
  wf_ib_port : 0 ≤ cfg_ib_port (base c) ≤ INT_MAX;
  wf_gid_idx : 0 ≤ gid_idx (base c) ≤ INT_MAX;
  wf_tcp_port : 0 ≤ tcp_port (base c) < 2^32;
  wf_traffic : 0 ≤ cfg_traffic_class (base c) < 2^32;
  wf_msg_size : int_range (DATA_MSG_SIZE (base c));
  wf_senders : int_range (num_senders (base c));
  wf_width : int_range (tree_width (base c))
}.

(** The configuration with the host's address filled in. *)
Definition with_ip (ip : string) (c : Derived_Config) : Derived_Config :=
  upd_base c (λ b, b <| local_ip := ip |>).
Definition with_cluster (l : list string) (c : Derived_Config) : Derived_Config :=
  upd_base c (λ b, b <| cluster := l |>).

Lemma with_ip_id c : with_ip (local_ip (base c)) c = c.
Proof. by destruct c as [[] ?]. Qed.

Lemma i32_range z : int_range (i32 z).
Proof.
  unfold int_range, i32, INT_MAX. pose proof (Z.mod_pos_bound (z + 2^31) (2^32)). lia.
Qed.

(** The cases of the switch that keep [optind]: [tac] proves the case's body. *)
Ltac keep_case H tac :=
  destruct (_ =? _) in H; [
    let c1 := fresh "c" in let w1 := fresh "w" in let H1 := fresh "H" in
    apply bind_inv in H as (c1 & w1 & H1 & H); pinv H; cbn [fst]; tac H1|].

Section option_lemmas.
Context {X : Type} `{!Platform X} {G : Type} `{!GetOpt G}.
Implicit Types (w : World X) (c : Derived_Config).

Lemma get_ip_not_empty p n w ip w' : get_ip p n w = Ok ip w' → ip ≠ "".
Proof.
  intros H. unfold get_ip in H. apply bind_inv in H as (i & w1 & _ & H).
  apply bind_inv in H as (node & w2 & _ & H). wstep H as ? w3 H3. pinv H.
  by destruct (String.substring _ _ _).
Qed.

(** A call leaves the object with its address set, the address it returns. *)
Lemma get_local_ip_inv c w r w' :
  get_local_ip c w = Ok r w' →
  r.1 ≠ "" ∧ r.2 = with_ip r.1 c ∧ (local_ip (base c) ≠ "" → r.1 = local_ip (base c) ∧ w' = w).
Proof.
  intros H. unfold get_local_ip in H. destruct (local_ip (base c)) as [|a s] eqn:E; cbn in H.
  - apply bind_inv in H as (ip & w1 & H1 & H). pinv H. cbn.
    apply get_ip_not_empty in H1. by split.
  - pinv H. cbn. split; [done|]. split; [|done]. rewrite <-E. symmetry. apply with_ip_id.
Qed.

Lemma with_ip_wf ip c :
  ip ≠ "" → (local_ip (base c) ≠ "" → ip = local_ip (base c)) → config_wf c →
  config_wf (with_ip ip c).
Proof.
  intros Hne Heq [H1 H2 H3 H4 H5 H6 H7 H8 H9 H10]. split; try done. cbn.
  destruct (decide (cluster (base c) = [])) as [->|Hc]; [apply not_elem_of_nil|].
  by rewrite Heq by auto.
Qed.
Lemma get_local_ip_wf c w r w' :
  get_local_ip c w = Ok r w' → config_wf c → config_wf r.2 ∧ local_ip (base r.2) = r.1.
Proof.
  intros (H1 & -> & H3)%get_local_ip_inv Hc. split; [|done].
  apply with_ip_wf; [done| |done]. intros Hl. by apply H3.
Qed.

(** [add_to_cluster] puts the name in its place, unless it is the host's. *)
Lemma add_to_cluster_inv c s w c' w' :
  add_to_cluster c s w = Ok c' w' →
  ∃ ip, ip ≠ "" ∧ (local_ip (base c) ≠ "" → ip = local_ip (base c) ∧ w' = w) ∧
    c' = with_cluster (sort_strings (cluster (base c) ++ filter (λ t, t ≠ ip) [s]))
           (with_ip ip c).
Proof.
  intros H. unfold add_to_cluster in H. apply bind_inv in H as ([ip c1] & w1 & H1 & H).
  apply get_local_ip_inv in H1 as (Hne & Hc1 & Hl). cbn in Hc1, Hne, Hl. subst c1. pinv H.
  exists ip. split; [done|]. split; [done|].
  rewrite filter_cons, filter_nil. case_bool_decide as E.
  - rewrite decide_False by (by intros []). by rewrite app_nil_r.
  - rewrite decide_True by done. done.
Qed.
Lemma add_to_cluster_wf c s w c' w' :
  add_to_cluster c s w = Ok c' w' → config_wf c → config_wf c' ∧ local_ip (base c') ≠ "".
Proof.
  intros (ip & Hne & Hl & ->)%add_to_cluster_inv Hc.
  assert (config_wf (with_ip ip c)) as [H1 H2 H3 H4 H5 H6 H7 H8 H9 H10].
  { apply with_ip_wf; [done| |done]. intros. by apply Hl. }
  split; [|done]. split; try done; cbn in *.
  - apply sort_strings_sorted.
  - rewrite sort_strings_perm. intros [Hin|Hin]%elem_of_app; [done|].
    case_decide; [apply list_elem_of_singleton in Hin; congruence|by apply elem_of_nil in Hin].
Qed.

(** Adding the operands from [optind] on, up to the first option. *)
Fixpoint leading_operands (l : list string) : list string :=
  match l with
  | s :: l => if is_operand s then s :: leading_operands l else []
  | [] => []
  end.

Lemma add_to_cluster_eq c s w ip c1 w1 :
  get_local_ip c w = Ok (ip, c1) w1 →
  add_to_cluster c s w =
    Ok (with_cluster (sort_strings (cluster (base c) ++ filter (λ t, t ≠ ip) [s])) c1) w1.
Proof.
  intros H. unfold add_to_cluster. rewrite (bind_Ok _ _ _ _ _ H).
  apply get_local_ip_inv in H as (_ & Hc1 & _). cbn [fst snd] in Hc1. subst c1.
  rewrite filter_cons, filter_nil. case_bool_decide as E.
  - rewrite decide_False by (by intros []). by rewrite app_nil_r.
  - by rewrite decide_True.
Qed.
Lemma get_local_ip_set c w :
  local_ip (base c) ≠ "" → get_local_ip c w = Ok (local_ip (base c), c) w.
Proof. intros H. unfold get_local_ip. by destruct (local_ip (base c)) eqn:E. Qed.

Lemma add_operands_eq fuel c argv i w :
  (Z.to_nat (Z.of_nat (length argv) - i) < fuel)%nat → 0 ≤ i →
  local_ip (base c) ≠ "" → StronglySorted string_le (cluster (base c)) →
  let l := leading_operands (drop (Z.to_nat i) argv) in
  add_operands fuel c argv i w =
    Ok (with_cluster (sort_strings (cluster (base c) ++ filter (λ t, t ≠ local_ip (base c)) l)) c,
        i + Z.of_nat (length l)) w.
Proof.
  cbv zeta. revert c i. induction fuel as [|fuel IH]; intros c i Hf Hi Hip Hs; [lia|].
  assert (with_cluster (sort_strings (cluster (base c))) c = c) as Hsame.
  { rewrite <-(sort_unique _ _ Hs (Permutation_refl _)). by destruct c as [[] ?]. }
  cbn [add_operands]. destruct (i <? _) eqn:Hlt.
  - rewrite (proj2 (Z.leb_le 0 i) Hi). cbn [defined]. rewrite bind_ret.
    destruct (lookup_lt_is_Some_2 argv (Z.to_nat i) ltac:(lia)) as [a Ha]. rewrite Ha.
    cbn [must]. rewrite bind_ret, (drop_S _ _ _ Ha). cbn [leading_operands].
    destruct (is_operand a).
    + rewrite (bind_Ok _ _ _ _ _ (add_to_cluster_eq _ a _ _ _ _ (get_local_ip_set c w Hip))).
      rewrite IH; [|lia|lia|done|apply sort_strings_sorted].
      replace (Z.to_nat (i + 1)) with (S (Z.to_nat i)) by lia. unfold with_cluster, upd_base.
      cbn -[sort_strings]. rewrite sort_strings_app, <-app_assoc. f_equal. f_equal; [|lia].
      by case_decide.
    + cbn -[with_cluster]. by rewrite app_nil_r, Hsame, Z.add_0_r.
  - apply Z.ltb_ge in Hlt. rewrite drop_ge by lia. cbn -[with_cluster].
    by rewrite app_nil_r, Hsame, Z.add_0_r.
Qed.
Lemma add_operands_inv c argv i w r w' :
  add_operands (S (length argv)) c argv i w = Ok r w' →
  local_ip (base c) ≠ "" → StronglySorted string_le (cluster (base c)) →
  let l := leading_operands (drop (Z.to_nat i) argv) in
  w' = w ∧ r = (with_cluster (sort_strings (cluster (base c) ++
      filter (λ t, t ≠ local_ip (base c)) l)) c, i + Z.of_nat (length l)).
Proof.
  intros H Hip Hs. destruct (decide (0 ≤ i)) as [Hi|Hi].
  - rewrite add_operands_eq in H; [|lia|done..]. by injection H as <- <-.
  - cbn [add_operands] in H. rewrite (proj2 (Z.ltb_lt i _)) in H by lia.
    wstep H as ? w1 H1. lia.
Qed.

Lemma set_server_name_wf c s w c' w' :
  set_server_name c s w = Ok c' w' → config_wf c → config_wf c'.
Proof.
  intros H Hc. unfold set_server_name in H. apply bind_inv in H as ([ip c1] & w1 & H1 & H).
  apply get_local_ip_wf in H1 as [H1 _]; [|done].
  destruct (bool_decide (ip = s)); pinv H; by destruct H1; split.
Qed.
Lemma atoi_int_inv s w v w' : atoi_int s w = Ok v w' → w' = w ∧ int_range v.
Proof.
  intros H. unfold atoi_int in H. wstep H as ? w1 H1. pinv H. split; [done|].
  apply andb_true_iff in H1 as [H1 H2]. unfold int_range. lia.
Qed.

(** An option that takes a number keeps it in the range of its member. *)
Lemma number_option_wf c f g w r w' :
  (∀ v, int_range v → config_wf c → config_wf (upd_base c (f v))) →
  (a ← must g "optarg"; v ← atoi_int a; mret (upd_base c (f v))) w = Ok r w' →
  config_wf c → config_wf r.
Proof.
  intros Hf H Hc. wstep H as a w1 H1. apply bind_inv in H as (v & w2 & [-> Hv]%atoi_int_inv & H).
  pinv H. auto.
Qed.
Lemma index_option_wf c f g w r w' :
  (∀ v, 0 ≤ v ≤ INT_MAX → config_wf c → config_wf (upd_base c (f v))) →
  (a ← must g "optarg";
   let v := i32 (strtoul0 a) in
   if v <? 0 then fail (Exit (-1)) else mret (upd_base c (f v))) w = Ok r w' →
  config_wf c → config_wf r.
Proof.
  intros Hf H Hc. wstep H as a w1 H1. cbv zeta in H. destruct (_ <? 0) eqn:E; [done|].
  pinv H. apply Hf; [|done]. pose proof (i32_range (strtoul0 a)) as [_ ?]. lia.
Qed.

(** An update of one member that parsing does not constrain, or to a value in
    its range. *)
Ltac keep_wf := let H := fresh in intros; match goal with Hc : config_wf _ |- config_wf _ =>
  destruct Hc; split; cbn in *; first [assumption | lia] end.

Lemma handle_option_wf c iarg optarg argv i w r w' :
  handle_option c iarg optarg argv i w = Ok r w' → config_wf c → config_wf r.1.
Proof.
  intros H Hc. unfold handle_option in H. cbv zeta in H.
  destruct (iarg =? opt_char "h"); [done|]. destruct (iarg =? opt_char "v"); [by pinv H|].
  destruct (iarg =? opt_char "u").
  { wstep H as a w1 H1. apply bind_inv in H as (c1 & w2 & H2 & H).
    apply add_to_cluster_wf in H2 as [Hc1 Hip]; [|done].
    apply add_operands_inv in H; [|done|by destruct Hc1]. destruct H as [_ ->]. destruct Hc1. split; try done; cbn [fst].
    - apply sort_strings_sorted.
    - unfold with_cluster. cbn -[sort_strings filter].
      rewrite sort_strings_perm. intros [Hin|Hin]%elem_of_app; [done|].
      by apply list_elem_of_filter in Hin as [? _]. }
  pose proof (λ s, u32_range (strtoul0 s)) as Hu.
  keep_case H ltac:(fun H => wstep H as a w2 H2; pinv H; specialize (Hu a); keep_wf).
  keep_case H ltac:(fun H => wstep H as a w2 H2; pinv H; keep_wf).
  keep_case H ltac:(fun H => refine (index_option_wf _ (λ v b, b <| cfg_ib_port := v |>) _ _ _ _ _ H Hc); keep_wf).
  keep_case H ltac:(fun H => refine (index_option_wf _ (λ v b, b <| gid_idx := v |>) _ _ _ _ _ H Hc); keep_wf).
  keep_case H ltac:(fun H => wstep H as a w2 H2; by eapply set_server_name_wf).
  keep_case H ltac:(fun H => wstep H as a w2 H2; pinv H; specialize (Hu a); keep_wf).
  keep_case H ltac:(fun H => wstep H as a w2 H2; by pinv H).
  keep_case H ltac:(fun H => pinv H; keep_wf).
  keep_case H ltac:(fun H => refine (number_option_wf _ (λ v b, b <| DATA_MSG_SIZE := v |>) _ _ _ _ _ H Hc); keep_wf).
  keep_case H ltac:(fun H => refine (number_option_wf _ (λ v b, b <| num_senders := v |>) _ _ _ _ _ H Hc); keep_wf).
  keep_case H ltac:(fun H => pinv H; keep_wf).
  keep_case H ltac:(fun H => wstep H as a w2 H2; pinv H; keep_wf).
  keep_case H ltac:(fun H => refine (number_option_wf _ (λ v b, b <| tree_width := v |>) _ _ _ _ _ H Hc); keep_wf).
  do 2 keep_case H ltac:(fun H => wstep H as a w2 H2; pinv H; keep_wf).
  by pinv H.
Qed.

Lemma parse_loop_wf fuel c (g : G) argv i w c' w' :
  parse_loop fuel c g argv i w = Ok c' w' → config_wf c → config_wf c'.
Proof.
  revert c g argv i w. induction fuel as [|fuel IH]; intros c g argv i w H Hc; [done|].
  cbn [parse_loop] in H. destruct (getopt_long g argv i) as [[iarg o] [[g' argv'] i']].
  apply bind_inv in H as ([c1 i1] & w1 & H1 & H).
  apply handle_option_wf in H1; [|done]. destruct (iarg =? -1); [by pinv H|by eapply IH].
Qed.

(** The checks at the end, and what they change. *)
Lemma conflict_check_inv c w c' w' :
  conflict_check c w = Ok c' w' → config_wf c →
  config_wf c' ∧ cluster (base c') = cluster (base c) ∧
  (single_recv (base c') = true → num_senders (base c') ≠ 0) ∧
  (all_reduce c' = TREE_ALLREDUCE → 0 < tree_width (base c')) ∧
  (all_reduce c' = SERVER_CLIENT →
    serve_as_client (base c') = negb (bool_decide (local_ip (base c') = server_name (base c')))).
Proof.
  intros H Hc. unfold conflict_check in H. cbv zeta in H.
  set (c0 := if (num_senders (base c) =? 0) && _ then _ else c) in H.
  assert (config_wf c0 ∧ cluster (base c0) = cluster (base c)) as [Hc0 <-].
  { subst c0. clear H. destruct (_ && _); [|by split]. split; [|done].
    pose proof (i32_range (Z.of_nat (length (cluster (base c))))). keep_wf. }
  clearbody c0. clear Hc c.
  destruct (single_recv (base c0) && (num_senders (base c0) =? 0)) eqn:E1; cbn [negb andb] in H.
  { wstep H as c1 w1 H1. by apply bind_inv in H as (? & ? & _ & ?). }
  destruct (bool_decide (all_reduce c0 = TREE_ALLREDUCE) && _) eqn:E2; cbn [negb andb] in H.
  { wstep H as c1 w1 H1. by apply bind_inv in H as (? & ? & _ & ?). }
  apply bind_inv in H as (c1 & w1 & H1 & H). pinv H.
  assert (single_recv (base c0) = true → num_senders (base c0) ≠ 0) as G1.
  { intros Hs. rewrite Hs in E1. cbn in E1. lia. }
  assert (all_reduce c0 = TREE_ALLREDUCE → 0 < tree_width (base c0)) as G2.
  { intros Ht. rewrite bool_decide_true in E2 by done. cbn in E2. lia. }
  case_bool_decide as E3; [|by pinv H1].
  wstep H1 as ? w2 H2. apply bind_inv in H1 as ([ip c2] & w3 & H3 & H1).
  pose proof (get_local_ip_wf _ _ _ _ H3 Hc0) as [Hwf Hip].
  apply get_local_ip_inv in H3 as (Hne & Hc2 & _). cbn in *. subst c2. pinv H1.
  split; [|done]. by destruct Hwf; split.
Qed.
End option_lemmas.

(** What the loop over the options relies on: every call that does not end
    the options consumes something, and skipping operands consumes more. *)
Class GetOptLaws (G : Type) `{!GetOpt G} := {
  opts_left : G → list string → Z → nat;
  opts_skip g argv i j : i ≤ j → (opts_left g argv j ≤ opts_left g argv i)%nat;
  opts_next g argv i iarg o g' argv' i' :
    getopt_long g argv i = (iarg, o, (g', argv', i')) →
    iarg ≠ -1 → (opts_left g' argv' i' < opts_left g argv i)%nat
}.

Section option_termination.
Context {X : Type} `{!Platform X} {G : Type} `{!GetOpt G} `{!GetOptLaws G}.
Implicit Types (w : World X) (c : Derived_Config).

Lemma completes_get_local_ip c : completes (get_local_ip (X:=X) c).
Proof. unfold get_local_ip, get_ip, get_node_id, subnet_prefix. cbv zeta. solve_completes. Qed.
Lemma completes_set_server_name c s : completes (set_server_name (X:=X) c s).
Proof. unfold set_server_name. pose proof completes_get_local_ip. solve_completes. Qed.
Lemma completes_add_to_cluster c s : completes (add_to_cluster (X:=X) c s).
Proof. unfold add_to_cluster. pose proof completes_get_local_ip. solve_completes. Qed.
Lemma completes_conflict_check c : completes (conflict_check (X:=X) c).
Proof. unfold conflict_check. cbv zeta. pose proof completes_get_local_ip. solve_completes. Qed.
Lemma completes_add_operands fuel c argv i :
  (Z.to_nat (Z.of_nat (length argv) - i) < fuel)%nat →
  completes (add_operands (X:=X) fuel c argv i).
Proof.
  revert c i. induction fuel as [|fuel IH]; intros c i Hf; [lia|].
  cbn [add_operands]. destruct (i <? _) eqn:E; [|apply completes_ret].
  apply completes_bind; [apply completes_defined|intros _].
  apply completes_bind; [apply completes_must|intros a].
  destruct (is_operand a); [|apply completes_ret].
  apply completes_bind; [apply completes_add_to_cluster|intros c1]. apply IH. lia.
Qed.

Lemma add_operands_le fuel c argv i w r w' :
  add_operands fuel c argv i w = Ok r w' → i ≤ r.2.
Proof.
  revert c i w. induction fuel as [|fuel IH]; intros c i w H; [done|].
  cbn [add_operands] in H. destruct (i <? _); [|by pinv H].
  wstep H as ? w1 H1. wstep H as a w2 H2. destruct (is_operand a); [|by pinv H].
  apply bind_inv in H as (c1 & w3 & _ & H). apply IH in H. lia.
Qed.
Lemma handle_option_le c iarg o argv i w r w' :
  handle_option c iarg o argv i w = Ok r w' → i ≤ r.2.
Proof.
  intros H. unfold handle_option in H. cbv zeta in H.
  destruct (iarg =? opt_char "h"); [done|]. destruct (iarg =? opt_char "v"); [by pinv H|].
  destruct (iarg =? opt_char "u").
  { wstep H as a w1 H1. apply bind_inv in H as (c1 & w2 & _ & H). by eapply add_operands_le. }
  repeat keep_case H ltac:(fun _ => reflexivity). by pinv H.
Qed.
Lemma completes_handle_option c iarg o argv i :
  completes (handle_option (X:=X) c iarg o argv i).
Proof.
  unfold handle_option. cbv zeta.
  pose proof completes_set_server_name. pose proof completes_add_to_cluster.
  assert (∀ c, completes (add_operands (X:=X) (S (length argv)) c argv i)).
  { intros c'. destruct (decide (0 ≤ i)) as [Hi|Hi]; [apply completes_add_operands; lia|].
    cbn [add_operands]. rewrite (proj2 (Z.leb_gt 0 i)) by lia. by destruct (_ <? _). }
  unfold atoi_int.
  repeat (apply completes_if; [solve_completes|]). solve_completes.
Qed.
End option_termination.

(** ** Theorems *)

Section option_theorems.
Context {X : Type} `{!Platform X} {G : Type} `{!GetOpt G}.
Implicit Types (w : World X) (c : Derived_Config).

(** C36: parsing leaves a well-formed configuration: the cluster is sorted and
    never lists the host itself, every number fits its C type, ports and GID
    index are not negative; a single receiver has a number of senders, a tree
    has a positive width, and with the server-client topology the node is a
    server exactly when the server's address is its own. *)
Theorem parse_args_wf fuel c (g : G) argv w c' w' :
  config_wf c → parse_args fuel c g argv w = Ok c' w' →
  config_wf c' ∧
  (single_recv (base c') = true → num_senders (base c') ≠ 0) ∧
  (all_reduce c' = TREE_ALLREDUCE → 0 < tree_width (base c')) ∧
  (all_reduce c' = SERVER_CLIENT →
    serve_as_client (base c') = negb (bool_decide (local_ip (base c') = server_name (base c')))).
Proof.
  intros Hc H. apply bind_inv in H as (c1 & w1 & H1 & H).
  apply parse_loop_wf in H1; [|done].
  by apply conflict_check_inv in H as (? & _ & ? & ? & ?).
Qed.

(** C37: parsing terminates: with fuel for the options [getopt_long] has left, the
    loop over the options and the loops over the operands of [--cluster] all
    end, whatever the arguments. *)
Theorem parse_args_terminates `{!GetOptLaws G} fuel c (g : G) argv w w' :
  (opts_left g argv 1 < fuel)%nat → parse_args fuel c g argv w ≠ Abort OutOfFuel w'.
Proof.
  intros Hf. revert w w'. apply completes_bind; [|apply completes_conflict_check].
  revert c g argv Hf. generalize 1 as i. induction fuel as [|fuel IH]; intros i c g argv Hf; [lia|].
  cbn [parse_loop]. destruct (getopt_long g argv i) as [[iarg o] [[g' argv'] i']] eqn:E.
  intros w w'. unfold mbind, M_bind.
  destruct (handle_option c iarg o argv' i' w) as [[c1 i1] w1|f w1] eqn:H.
  - apply handle_option_le in H. destruct (iarg =? -1) eqn:Ei; [done|].
    apply IH. apply opts_next in E; [|lia]. pose proof (opts_skip g' argv' i' i1 H). lia.
  - intros [= -> ->]. by apply completes_handle_option in H.
Qed.

(** option [--cluster] takes its argument and every operand up to the next
    option; the names join the cluster in sorted order, the host's own address
    is left out, and [optind] moves past the operands. *)
Theorem cluster_option c a argv i w ip c1 w1 :
  config_wf c → 0 ≤ i → get_local_ip c w = Ok (ip, c1) w1 →
  let operands := leading_operands (drop (Z.to_nat i) argv) in
  handle_option c (opt_char "u") (Some a) argv i w =
    Ok (with_cluster (sort_strings (cluster (base c) ++ filter (λ s, s ≠ ip) (a :: operands))) c1,
        i + Z.of_nat (length operands)) w1.
Proof.
  intros Hc Hi Hip. cbv zeta. unfold handle_option. cbv zeta.
  change (opt_char "u" =? opt_char "h") with false.
  change (opt_char "u" =? opt_char "v") with false. rewrite Z.eqb_refl. cbn iota.
  cbn [must]. rewrite bind_ret.
  rewrite (bind_Ok _ _ _ _ _ (add_to_cluster_eq _ a _ _ _ _ Hip)).
  apply get_local_ip_inv in Hip as (Hne & Hc1 & _). cbn [fst snd] in Hne, Hc1. subst c1.
  rewrite add_operands_eq; [|lia|done|done|apply sort_strings_sorted].
  unfold with_cluster, upd_base. cbn -[sort_strings filter].
  by rewrite sort_strings_app, <-app_assoc, <-filter_app.
Qed.

(** with the server-client topology and no server named, a node that was not
    given [--server] passes the check and becomes a client whose server's name
    is empty: the check for the missing server looks at the client flag before
    the flag is computed. *)
Theorem unnamed_server_becomes_client c w ip c1 w1 :
  all_reduce c = SERVER_CLIENT → server_name (base c) = "" →
  serve_as_client (base c) = false → single_recv (base c) = false →
  get_local_ip c w = Ok (ip, c1) w1 →
  ∃ c', conflict_check c w = Ok c' w1 ∧
    serve_as_client (base c') = true ∧ server_name (base c') = "".
Proof.
  intros Ha Hs Hc Hr Hip. unfold conflict_check. cbv zeta.
  set (c0 := if (num_senders (base c) =? 0) && _ then _ else c).
  assert (∃ n, c0 = upd_base c (λ b, b <| num_senders := n |>)) as [n Hn].
  { subst c0. destruct (_ && _); [by eexists|]. exists (num_senders (base c)).
    by destruct c as [[] ?]. }
  assert (get_local_ip c0 w = Ok (ip, upd_base c1 (λ b, b <| num_senders := n |>)) w1) as Hip0.
  { rewrite Hn. revert Hip. unfold get_local_ip. cbn. destruct (_ =? 0)%nat.
    - intros (ip' & w2 & H1 & H)%bind_inv. rewrite (bind_Ok _ _ _ _ _ H1). by injection H as <- <- <-.
    - by intros [= <- <- <-]. }
  clearbody c0. subst c0. unfold upd_base in *. cbn in *. rewrite Ha, Hs, Hc, Hr in Hip0 |- *. cbn.
  rewrite (bool_decide_false (SERVER_CLIENT = TREE_ALLREDUCE)), bool_decide_true by done.
  rewrite andb_false_r. cbn. rewrite bind_assoc, bind_ret, bind_assoc.
  rewrite (bind_Ok _ _ _ _ _ Hip0), bind_ret.
  apply get_local_ip_inv in Hip as (Hne & Hc1 & _). cbn [fst snd] in Hne, Hc1. subst c1.
  eexists. split; [reflexivity|]. cbn. rewrite Hs. by rewrite bool_decide_false.
Qed.

(** the host's address is the last interface address in 12.12.12.0/24 (with no
    such interface, the string ["12.12.12.-1"]); it is looked up once: later
    calls return the stored address and leave the system alone. *)
Theorem local_ip_from_interfaces `{!InetLaws X} c w ifas x m :
  local_ip (base c) = "" → getifaddrs (w_ext w) (w_mem w) = (ifas, (x, m)) → ifas_wf ifas →
  let ip := match list.last (subnet_hosts ifas) with
            | Some a => dotted_quad a | None => "12.12.12.-1" end in
  get_local_ip c w = Ok (ip, with_ip ip c) (w <| w_ext := x |> <| w_mem := m |>) ∧
  ∀ w', get_local_ip (with_ip ip c) w' = Ok (ip, with_ip ip c) w'.
Proof.
  intros Hl Hg Hwf ip. unfold get_local_ip at 1. rewrite Hl. cbn [String.length Nat.eqb].
  pose proof (get_ip_eq _ _ _ _ Hg Hwf) as Hip. fold ip in Hip.
  rewrite (bind_Ok _ _ _ _ _ Hip). split; [done|].
  intros w'. apply (get_local_ip_set (with_ip ip c)). cbn. by eapply get_ip_not_empty.
Qed.
End option_theorems.

(** ** Witnesses *)

(** A command line read off a list: the value and argument of each option, and
    how many elements of the vector it takes. *)
Definition Script : Type := list (Z * option string * nat).
#[export] Instance script_getopt : GetOpt Script := {
  getopt_long g argv i :=
    match g with
    | [] => (-1, None, ([], argv, i))
    | (iarg, o, n) :: g => (iarg, o, (g, argv, i + Z.of_nat n))
    end
}.
#[export] Instance script_laws : GetOptLaws Script.
Proof.
  refine {| opts_left g _ _ := length g |}; [lia|].
  intros [|[[iarg o] n] g] argv i iarg' o' g' argv' i' [= <- <- <- <- <-] H; [done|cbn; lia].
Defined.

(** prog --cluster 12.12.12.4 12.12.12.2 12.12.12.3 --topo server-client
    --server 12.12.12.2, on host 12.12.12.3. *)
Definition opt_argv : list string :=
  ["prog"; "--cluster"; "12.12.12.4"; "12.12.12.2"; "12.12.12.3"; "--topo"; "server-client";
   "--server"; "12.12.12.2"].
Definition opt_script : Script :=
  [(opt_char "u", Some "12.12.12.4", 2%nat); (261, Some "server-client", 2%nat);
   (opt_char "s", Some "12.12.12.2", 2%nat)].
Definition opt_ifaddrs : list (option (Z * Z)) :=
  [Some (AF_INET, 16777343); None; Some (AF_INET, parse_quad "12.12.12.3")].
Definition opt_w : World Sim := world0 <| w_ext ::= λ x, x <| sim_ifaddrs := opt_ifaddrs |> |>.
Definition opt_run : result (World Sim) Derived_Config :=
  parse_args 4 default_Derived_Config opt_script opt_argv opt_w.

Lemma default_config_wf : config_wf default_Derived_Config.
Proof.
  split; cbn; unfold int_range, INT_MAX; try done; try lia; try constructor.
  by apply not_elem_of_nil.
Defined.

Lemma parse_args_wf_witness :
  ∃ c' w', opt_run = Ok c' w' ∧ cluster (base c') = ["12.12.12.2"; "12.12.12.4"] ∧
    serve_as_client (base c') = true ∧ config_wf c'.
Proof.
  destruct opt_run as [c' w'|f w'] eqn:E; [|vm_compute in E; discriminate E].
  pose proof (proj1 (parse_args_wf 4 default_Derived_Config opt_script opt_argv opt_w c' w'
    default_config_wf E)) as Hwf.
  exists c', w'. split; [reflexivity|].
  vm_compute in E. injection E as E _. split; [by rewrite <-E|]. split; [by rewrite <-E|exact Hwf].
Defined.

Lemma parse_args_terminates_witness :
  opt_run ≠ Abort OutOfFuel opt_w.
Proof.
  apply (parse_args_terminates 4 default_Derived_Config opt_script opt_argv opt_w opt_w).
  cbn. lia.
Defined.

Definition opt_c1 : Derived_Config := with_ip "12.12.12.3" default_Derived_Config.

Lemma cluster_option_witness :
  handle_option opt_c1 (opt_char "u") (Some "12.12.12.4") opt_argv 3 opt_w =
    Ok (with_cluster ["12.12.12.2"; "12.12.12.4"] opt_c1, 5) opt_w.
Proof.
  refine (cluster_option opt_c1 "12.12.12.4" opt_argv 3 opt_w "12.12.12.3" opt_c1 opt_w _ _ _);
    [|lia|reflexivity].
  destruct default_config_wf; split; try done. cbn. by apply not_elem_of_nil.
Defined.

Lemma unnamed_server_becomes_client_witness :
  let c := opt_c1 <| all_reduce := SERVER_CLIENT |> in
  ∃ c', conflict_check c opt_w = Ok c' opt_w ∧
    serve_as_client (base c') = true ∧ server_name (base c') = "".
Proof.
  intros c. exact (unnamed_server_becomes_client c opt_w "12.12.12.3" c opt_w
    eq_refl eq_refl eq_refl eq_refl eq_refl).
Defined.

Lemma local_ip_from_interfaces_witness :
  get_local_ip default_Derived_Config opt_w = Ok ("12.12.12.3", opt_c1) opt_w.
Proof.
  refine (proj1 (local_ip_from_interfaces default_Derived_Config opt_w opt_ifaddrs
    (w_ext opt_w) (w_mem opt_w) eq_refl eq_refl _)).
  repeat constructor; vm_compute; discriminate.
Defined.
