(* ===== verification/Log.v ===== *)
(** * RLOG and Tracer (include/util/logging.h)

    The static object that passes the log level of RCL_MAX_VLOG_LEVEL on to glog,
    and the tracing records.  LOG_TERMINAL is defined, so a tracer only writes to
    the log and the table of records stays as it is; its report is modelled for
    any table. *)
From S2P Require Import Prelude Words Types World Text Sim Options.

Record RLOG := mkRLOG { log_level : Z; registerted : bool }.

Section logging.
Context {X : Type} `{!Platform X}.

Definition set_env (k v : string) : W X unit :=
  r ← call (setenv k v);
  if r =? 0 then mret tt else fail (Exit 0).
Definition set_glog (l : RLOG) : W X (Z * RLOG) :=
  if registerted l then mret (1, l)
  else
    LOG_LEVEL ← call (getenv "RCL_MAX_VLOG_LEVEL");
    level ← match LOG_LEVEL with
            | Some level =>
                set_env "GLOG_v" level ;;
                set_env "GLOG_logtostderr" "1" ;;
                set_env "GLOG_colorlogtostderr" "1" ;;
                atoi_int level
            | None => mret (log_level l)
            end;
    mret (0, mkRLOG level true).
Definition RLOG_ctor : W X RLOG :=
  r ← set_glog (mkRLOG 0 false);
  mret r.2.

(** [static RLOG mylog], constructed by the first call; [mylog] is the object, if
    it exists. *)
Definition register_function (mylog : option RLOG) : W X (option RLOG) :=
  match mylog with
  | Some l => mret (Some l)
  | None => l ← RLOG_ctor; mret (Some l)
  end.
End logging.

(** ** Tracer *)

(** [InfoTuple]: function, file, line, info, and 1 for a call or -1 for its end. *)
Record InfoTuple := mkInfo {
  func_name : string;
  file_name : string;
  lines : Z;
  info : string;
  info_action : Z
}.
(** [LogStructure] in the order its iterator goes through it. *)
Definition LogStructure : Type := list (Z * list InfoTuple).

Definition newline : string := String (ascii_of_nat 10) EmptyString.
Definition quote : string := String (ascii_of_nat 34) EmptyString.
(** [std::to_string] of a [size_t]. *)
Definition number (n : Z) : string := pretty n.

Definition entry_line (tid : Z) (i : InfoTuple) : string :=
  "[Tracing_" +:+ (if info_action i =? 1 then "in][" else "out][") +:+ "tid=" +:+ number tid +:+ "]: "
    +:+ "Source " +:+ quote +:+ file_name i +:+ quote +:+ ", line " +:+ number (lines i)
    +:+ ", in " +:+ func_name i +:+ ", info = " +:+ info i +:+ newline.
Definition Tracer_to_string (log : LogStructure) : string :=
  foldl (λ s each, foldl (λ s i, s +:+ entry_line each.1 i) s each.2) "" log.

(** [log_map_[tid].push_back(i)]; a new thread gets its vector first. *)
Fixpoint push_record (tid : Z) (i : InfoTuple) (log : LogStructure) : LogStructure :=
  match log with
  | [] => [(tid, [i])]
  | (t, l) :: log => if t =? tid then (t, l ++ [i]) :: log else (t, l) :: push_record tid i log
  end.
Definition LOG_TERMINAL : bool := true.
(** What construction and destruction do to the table, by whether LOG_TERMINAL is
    defined. *)
Definition Tracer_ctor (terminal : bool) (i : InfoTuple) (tid : Z) (log : LogStructure)
    : LogStructure :=
  if terminal then log
  else push_record tid (mkInfo (func_name i) (file_name i) (lines i) (info i) 1) log.
Definition Tracer_dtor (terminal : bool) (i : InfoTuple) (tid : Z) (log : LogStructure)
    : LogStructure :=
  if terminal then log
  else push_record tid (mkInfo (func_name i) (file_name i) (lines i) (info i) (-1)) log.

(** ** Properties *)

Section log_properties.
Context {X : Type} `{!Platform X}.
Implicit Types w : World X.

(** The ways a run can end the process. *)
Definition may_end {A} (P : failure → Prop) (m : W X A) : Prop := ∀ w f w', m w = Abort f w' → P f.
Lemma may_end_bind {A B} P (m : W X A) (k : A → W X B) :
  may_end P m → (∀ a, may_end P (k a)) → may_end P (m ≫= k).
Proof.
  intros Hm Hk w f w'. unfold mbind, M_bind. destruct (m w) as [a w1|f1 w1] eqn:E.
  - apply Hk.
  - intros [= <- <-]. by eapply Hm.
Qed.
Lemma may_end_call {A} P (op : ext_op X A) : may_end P (call op).
Proof. intros w f w' H. unfold call in H. by destruct (op _ _) as [? [? ?]]. Qed.

(** the object sets the environment of glog once: its constructor leaves it
    registered, its level the number in RCL_MAX_VLOG_LEVEL if that is set and 0
    otherwise; after that neither [set_glog] nor [register_function] does
    anything.  A failing setenv ends the process with exit code 0. *)
Theorem glog_set_once w :
  (∀ l w', RLOG_ctor w = Ok l w' →
   registerted l = true ∧ set_glog l w' = Ok (1, l) w' ∧
   register_function None w = Ok (Some l) w' ∧ register_function (Some l) w' = Ok (Some l) w' ∧
   ∀ v x m, getenv "RCL_MAX_VLOG_LEVEL" (w_ext w) (w_mem w) = (v, (x, m)) →
     log_level l = from_option atoi 0 v ∧
     ∀ level, v = Some level → ∃ y n y' n', setenv "GLOG_v" level y n = (0, (y', n'))) ∧
  (∀ f w', RLOG_ctor w = Abort f w' → f = Exit 0 ∨ ∃ msg, f = UB msg).
Proof.
  split.
  - intros l w' H. assert (register_function None w = Ok (Some l) w') as Hr.
    { unfold register_function. by rewrite (bind_Ok _ _ _ _ _ H). }
    unfold RLOG_ctor in H. apply bind_inv in H as (r & w1 & H & H1). injection H1 as <- <-.
    unfold set_glog in H. cbn [registerted log_level] in H.
    apply bind_inv in H as (v & w2 & (x & m & E & ->)%call_inv & H).
    apply bind_inv in H as (level & w3 & H & H1). injection H1 as <- <-. cbn [snd] in *.
    split; [done|]. split; [done|]. split; [exact Hr|]. split; [done|].
    intros v' x' m' E'. rewrite E in E'. injection E' as <- <- <-. cbn [log_level].
    destruct v as [s|]; [|by injection H as <- _].
    apply bind_inv in H as (? & w4 & H4 & H). apply bind_inv in H as (? & w5 & _ & H).
    apply bind_inv in H as (? & w6 & _ & H). unfold atoi_int in H.
    apply bind_inv in H as (? & w7 & _ & H). injection H as <- _. split; [done|].
    intros ? [= <-]. unfold set_env in H4.
    apply bind_inv in H4 as (r & w8 & (y & n & E4 & ->)%call_inv & H4).
    destruct (r =? 0) eqn:Er; [|done]. apply Z.eqb_eq in Er as ->. eauto.
  - revert w. set (P f := f = Exit 0 ∨ ∃ msg, f = UB msg).
    change (may_end P RLOG_ctor).
    assert (∀ k v, may_end P (set_env k v)) as He.
    { intros k v. apply may_end_bind; [apply may_end_call|]. intros r.
      destruct (r =? 0); intros w f w' H; [done|]. injection H as <- _. by left. }
    assert (∀ s, may_end P (atoi_int s)) as Ha.
    { intros s w f w' H. unfold atoi_int, defined in H. destruct (_ && _); [done|].
      injection H as <- _. right. by eexists. }
    apply may_end_bind; [|by intros ????]. unfold set_glog. cbn [registerted].
    apply may_end_bind; [apply may_end_call|]. intros [s|]; [|by intros ???].
    apply may_end_bind; [|by intros ????].
    repeat (apply may_end_bind; [apply He|intros _]). apply Ha.
Qed.
End log_properties.

(** ** The table of records *)

(** A tracer of a thread begins or ends. *)
Inductive trace_event := Enter (tid : Z) (i : InfoTuple) | Exit_ (tid : Z) (i : InfoTuple).
Definition trace_step (terminal : bool) (log : LogStructure) (e : trace_event) : LogStructure :=
  match e with
  | Enter tid i => Tracer_ctor terminal i tid log
  | Exit_ tid i => Tracer_dtor terminal i tid log
  end.
Definition event_of (tid : Z) (e : trace_event) : list InfoTuple :=
  match e with
  | Enter t i =>
      if t =? tid then [mkInfo (func_name i) (file_name i) (lines i) (info i) 1] else []
  | Exit_ t i =>
      if t =? tid then [mkInfo (func_name i) (file_name i) (lines i) (info i) (-1)] else []
  end.
(** The records of a thread, if it has any. *)
Fixpoint records (tid : Z) (log : LogStructure) : list InfoTuple :=
  match log with
  | [] => []
  | (t, l) :: log => if t =? tid then l else records tid log
  end.

Lemma records_push t i tid log :
  records tid (push_record t i log) = records tid log ++ (if t =? tid then [i] else []).
Proof.
  induction log as [|[q l] log IH]; cbn; [by destruct (t =? tid)|].
  destruct (q =? t) eqn:E; cbn; destruct (q =? tid) eqn:E2.
  - apply Z.eqb_eq in E as <-. by rewrite E2.
  - apply Z.eqb_eq in E as <-. by rewrite E2, app_nil_r.
  - apply Z.eqb_eq in E2 as <-. by rewrite Z.eqb_sym, E, app_nil_r.
  - apply IH.
Qed.

(** whatever way the calls of the threads interleave, the table holds for each
    thread its own calls and returns in their order; as LOG_TERMINAL is defined,
    it stays empty instead, and so does the report. *)
Theorem trace_table_by_thread l tid log :
  records tid (foldl (trace_step false) log l) = records tid log ++ (l ≫= event_of tid) ∧
  foldl (trace_step LOG_TERMINAL) log l = log ∧
  Tracer_to_string (foldl (trace_step LOG_TERMINAL) [] l) = "".
Proof.
  assert (∀ log, foldl (trace_step LOG_TERMINAL) log l = log) as Hempty.
  { induction l as [|[] l IH]; intros log'; [done|apply IH|apply IH]. }
  split; [|by rewrite !Hempty]. clear Hempty. revert log.
  induction l as [|e l IH]; intros log; cbn [foldl mbind list_bind]; [by rewrite app_nil_r|].
  rewrite IH, app_assoc. f_equal. destruct e; apply records_push.
Qed.

(** ** Witnesses *)

Definition lg_w : World Sim :=
  world0 <| w_ext ::= λ x, x <| sim_env := {["RCL_MAX_VLOG_LEVEL" := "5"]} |> |>.
Lemma glog_set_once_witness :
  ∃ l, value (RLOG_ctor lg_w) = Some l ∧ log_level l = 5 ∧
    set_glog l (state_of (RLOG_ctor lg_w)) = Ok (1, l) (state_of (RLOG_ctor lg_w)).
Proof.
  exists (mkRLOG 5 true).
  assert (value (RLOG_ctor lg_w) = Some (mkRLOG 5 true)) as E by (vm_compute; reflexivity).
  split; [exact E|]. split; [done|]. apply value_Ok in E.
  apply (proj1 (glog_set_once lg_w) (mkRLOG 5 true) (state_of (RLOG_ctor lg_w)) E).
Defined.
