(* ===== verification/Reports.v ===== *)
(** * What the program prints

    The usage text and the configuration of include/config.h, the description of a
    buffer of src/rdma_buffer.cc, and the sizes of example/lat_bw_benchmark.cc, each
    as the characters it writes; and the conversions of printf they use. *)
From S2P Require Import Prelude Words Types World Text Sim Ident Buffer Net Options.
From S2P Require Import Log Bench.

(** ** The conversions of printf *)

Definition hex_digit (d : Z) : Ascii.ascii :=
  Ascii.ascii_of_nat (Z.to_nat (if d <? 10 then 48 + d else 87 + d)).
(** The digits of [n] in front of [acc]. *)
Fixpoint hex_digits (fuel : nat) (n : Z) (acc : string) : string :=
  match fuel with
  | O => acc
  | S fuel =>
      let acc := String (hex_digit (n mod 16)) acc in
      if n / 16 =? 0 then acc else hex_digits fuel (n / 16) acc
  end.
(** Sixteen digits are enough for 64 bits. *)
Definition hexadecimal (n : Z) : string := hex_digits 16 n "".

(** On x86-64 a variable argument fills a register, of which [%u], [%d] and [%x] read the
    lower half: what is printed of a [size_t], too. *)
Definition percent_u (n : Z) : string := pretty (u32 n).
Definition percent_d (n : Z) : string := pretty (i32 n).
Definition percent_x (n : Z) : string := hexadecimal (u32 n).
(** [%p], as the C library of GNU prints it. *)
Definition percent_p (n : Z) : string := if n =? 0 then "(nil)" else "0x" +:+ hexadecimal n.
(** A [bool] on [std::cout]. *)
Definition cout_bool (b : bool) : string := if b then "1" else "0".

Definition line (s : string) : string := s +:+ newline.

(** ** The configuration *)

Definition usage (argv0 : string) : string :=
  line "Usage:" +:+
  line (" " +:+ argv0 +:+ " start a server and wait for connection") +:+
  line (" " +:+ argv0 +:+ " <host> connect to server at <host>") +:+
  line "" +:+
  line "Options:" +:+
  line " -p, --port <port> listen on/connect to port <port> (default 2020)" +:+
  line " -d, --ib-dev <dev> use IB device <dev> (default first device found)" +:+
  line " -i, --ib-port <port> use port <port> of IB device (default 1)" +:+
  line " -g, --gid_idx <git index> gid index to be used in GRH (default not used)".

Definition rule : string := line " ------------------------------------------------".
(** The [switch] of [print_config]. *)
Definition topology_name (t : AllReduceType) : string :=
  match t with
  | FULL_MESH_ALLREDUCE => " Full-Mesh AllReduce"
  | TREE_ALLREDUCE => " Tree AllReduce"
  | DOUBLE_BINARY_TREE_ALLREDUCE => " Double-Binary-Tree AllReduce"
  | RING_ALLREDUCE => " Ring AllReduce"
  | SERVER_CLIENT => " Server-client"
  | UNKNOWN_ALLREDUCE => "Unknown all reduce type"
  end.
Definition printed (b : bool) (s : string) : string := if b then s else "".

Section reports.
Context {X : Type} `{!Platform X}.

(** The text, and the object with the host's address looked up. *)
Definition print_config (c : Derived_Config) : W X (string * Derived_Config) :=
  r ← get_local_ip c;
  let '(my_ip, c) := r in
  let b := base c in
  mret (rule +:+
    line (" Device name : " +:+ quote +:+ cfg_dev_name b +:+ quote) +:+
    line (" IB port : " +:+ percent_u (cfg_ib_port b)) +:+
    (if serve_as_client b then " Serving as client, remoteIP :" +:+ server_name b
     else line " Serving as Server") +:+
    line (" TCP port : " +:+ percent_u (tcp_port b)) +:+
    printed (0 <=? gid_idx b) (line (" GID index : " +:+ percent_u (gid_idx b))) +:+
    line (" Traffic Class: " +:+ percent_d (cfg_traffic_class b)) +:+
    line (" Using event channel: " +:+ cout_bool (use_event b)) +:+
    line (" MSG size: " +:+ pretty (DATA_MSG_SIZE b) +:+ "*" +:+ pretty (MSG_BLOCK_NUM b)) +:+
    line (" My IP addr: " +:+ my_ip) +:+
    printed (negb (bool_decide (cluster b = [])))
      (line (" IP cluster: " +:+ foldr (λ ip s, ip +:+ " " +:+ s) "" (cluster b))) +:+
    printed (negb (num_senders b =? 0)) (line (" Expected senders: " +:+ pretty (num_senders b))) +:+
    line (" Topology: " +:+ topology_name (all_reduce c)) +:+
    printed (bool_decide (all_reduce c = TREE_ALLREDUCE))
      (line (" The Tree Allreduce width: " +:+ pretty (tree_width b))) +:+
    line (" Using single thread for receiver: " +:+ cout_bool (single_recv b)) +:+
    rule +:+ newline, c).

(** ** Buffers *)

(** [owned_by_channel] is an [RDMAAdapter *], so [info] is that class's. *)
Definition RDMABuffer_to_string (this : Z) : W X string :=
  b ← buf_at this;
  owner ← (if owned_by_channel b =? 0 then mret "" else adapter_info (owned_by_channel b));
  mret ("Buffer Name: " +:+ buffer_name b +:+ "; Buffer Addr: " +:+ percent_p (data_ptr b) +:+
    "; Buffer size: " +:+ percent_u (buffer_size b) +:+ " bytes" +:+
    "; Register in Channel (" +:+ percent_p (owned_by_channel b) +:+ ") " +:+ owner +:+
    "; Register in NIC (" +:+ percent_p (from_option mr_handle 0 (mr_ b)) +:+ ") " +:+
    match mr_ b with
    | Some m => "rkey=(0x" +:+ percent_x (mr_rkey m) +:+ "), lkey=(0x" +:+ percent_x (mr_lkey m) +:+ ") "
    | None => ""
    end).

(** Both strings are made, whether or not the log shows them. *)
Definition print_buffer_info (this : Z) : W X (string * string) :=
  my_info ← RDMABuffer_to_string this;
  b ← buf_at this;
  base_info ← RDMABuffer_to_string (base_buffer_ b);
  mret (my_info, base_info).
End reports.

(** ** The sizes of the benchmark *)

(** [format] in the five tests. *)
Definition size_label (msg_length : Z) : string :=
  if msg_length <? 1024 then pretty msg_length
  else if msg_length <? MB then pretty (msg_length / 1024) +:+ " K"
  else pretty (msg_length / MB) +:+ " M".

(** ** Properties *)

Lemma hex_digit_val d : 0 ≤ d < 16 → digit_val (hex_digit d) = Some d.
Proof.
  intros H. assert (Forall (λ d, digit_val (hex_digit d) = Some d) (seqZ 0 16)) as HF
    by repeat constructor.
  eapply (proj1 (Forall_forall _ _)) in HF; [exact HF|]. apply elem_of_seqZ. lia.
Qed.
Lemma digits_hex fuel n acc :
  0 ≤ n < 16 ^ Z.of_nat (S fuel) → digits 16 0 (hex_digits (S fuel) n acc) = digits 16 n acc.
Proof.
  revert n acc. induction fuel as [|fuel IH]; intros n acc Hn.
  - change (16 ^ Z.of_nat 1) with 16 in Hn. cbn [hex_digits].
    rewrite Z.div_small, Z.mod_small by lia. cbn. rewrite hex_digit_val by lia.
    by rewrite (proj2 (Z.ltb_lt n 16)) by lia.
  - assert (0 ≤ n mod 16 < 16) as Hm by (apply Z.mod_pos_bound; lia).
    assert (∀ a, digits 16 a (String (hex_digit (n mod 16)) acc) = digits 16 (a * 16 + n mod 16) acc)
      as Hd by (intros a; cbn; by rewrite hex_digit_val, (proj2 (Z.ltb_lt (n mod 16) 16)) by lia).
    pose proof (Z.div_mod n 16 ltac:(lia)) as E.
    change (hex_digits (S (S fuel)) n acc) with
      (let acc := String (hex_digit (n mod 16)) acc in
       if n / 16 =? 0 then acc else hex_digits (S fuel) (n / 16) acc).
    cbv zeta. destruct (n / 16 =? 0) eqn:Eq.
    + apply Z.eqb_eq in Eq. rewrite Hd. f_equal. lia.
    + rewrite IH, Hd; [f_equal; lia|]. split; [by apply Z.div_pos; lia|].
      apply Z.div_lt_upper_bound; [lia|]. rewrite <-Z.pow_succ_r by lia.
      rewrite <-Nat2Z.inj_succ. apply Hn.
Qed.
Lemma hex_digits_cons fuel n acc :
  0 ≤ n → acc ≠ "" ∨ fuel ≠ 0%nat → (∀ a s, acc = String a s → is_Some (digit_val a)) →
  ∃ a s, hex_digits fuel n acc = String a s ∧ is_Some (digit_val a).
Proof.
  revert n acc. induction fuel as [|fuel IH]; intros n acc Hn Hne Hacc.
  - destruct Hne as [Hne|[]]; [|done]. destruct acc as [|a s]; [done|]. exists a, s.
    split; [done|by eapply Hacc].
  - assert (is_Some (digit_val (hex_digit (n mod 16)))) as Hd.
    { rewrite hex_digit_val; [done|]. apply Z.mod_pos_bound. lia. }
    cbn [hex_digits]. destruct (n / 16 =? 0); [by eexists _, _|].
    apply IH; [by apply Z.div_pos; lia|by left|]. by intros ? ? [= <- <-].
Qed.

(** An address is printed so that it can be read back: [strtoul] of what [%p] writes is
    the pointer. *)
Lemma percent_p_roundtrip n : 0 < n < 2^64 → strtoul0 (percent_p n) = n.
Proof.
  intros Hn. unfold percent_p. rewrite (proj2 (Z.eqb_neq n 0)) by lia.
  pose proof (digits_hex 15 n "" ltac:(change (16 ^ Z.of_nat 16) with (2^64); lia)) as E.
  destruct (hex_digits_cons 16 n "") as (a & s & Ea & Ha); [lia|by right|done|].
  unfold hexadecimal. rewrite Ea in *. unfold strtoul0.
  change (sign (skip_space ("0x" +:+ String a s))) with (false, String "0" (String "x" (String a s))).
  unfold strtoul_magnitude. rewrite (bool_decide_true (is_Some _)) by done.
  change (bool_decide ("x"%char = "x"%char)) with true. cbn [orb andb]. rewrite E.
  cbn [digits]. by rewrite (proj2 (Z.leb_gt _ _)) by lia.
Qed.

Section report_properties.
Context {X : Type} `{!Platform X}.
Implicit Types w : World X.

(** Printing a configuration leaves it well formed, with the host's address filled in;
    its ports and its GID index are printed as they are. *)
Lemma print_config_inv c w s c' w' :
  config_wf c → print_config c w = Ok (s, c') w' →
  config_wf c' ∧ local_ip (base c') ≠ "" ∧ c' = with_ip (local_ip (base c')) c ∧
  percent_u (cfg_ib_port (base c')) = pretty (cfg_ib_port (base c)) ∧
  percent_u (tcp_port (base c')) = pretty (tcp_port (base c)) ∧
  percent_u (gid_idx (base c')) = pretty (gid_idx (base c)).
Proof.
  intros Hc H. unfold print_config in H. apply bind_inv in H as ([ip c1] & w1 & H1 & H).
  injection H as _ <- _. pose proof (get_local_ip_wf _ _ _ _ H1 Hc) as [Hc1 Hip].
  apply get_local_ip_inv in H1 as (Hne & E & _). cbn [fst snd] in *. subst ip.
  split; [done|]. split; [done|]. split; [done|]. rewrite E. cbn. unfold percent_u.
  destruct Hc as [_ _ _ H4 H5 H6 _ _ _ _]. unfold INT_MAX in *. rewrite !u32_small by lia. done.
Qed.

(** Descriptions are made without changing anything. *)
Lemma RDMABuffer_to_string_read this w s w' : RDMABuffer_to_string this w = Ok s w' → w' = w.
Proof.
  intros H. unfold RDMABuffer_to_string in H. wstep H as b w1 H1.
  apply bind_inv in H as (o & w2 & H2 & H). assert (w2 = w) as ->.
  { destruct (_ =? 0); [by pinv H2|by apply adapter_info_read in H2]. }
  by pinv H.
Qed.
Lemma print_buffer_info_read this w r w' : print_buffer_info this w = Ok r w' → w' = w.
Proof.
  intros H. unfold print_buffer_info in H.
  apply bind_inv in H as (s & w1 & ->%RDMABuffer_to_string_read & H). wstep H as b w2 H2.
  apply bind_inv in H as (t & w3 & ->%RDMABuffer_to_string_read & H). by pinv H.
Qed.
End report_properties.

(** The sizes of the benchmark are told apart by their labels. *)
Lemma size_labels_distinct : NoDup (size_label <$> test_sizes).
Proof. apply (bool_decide_unpack _). vm_compute. exact I. Qed.

(** The size that is shown of the buffer of the benchmark is not its size. *)
Example benchmark_buffer_size_cut :
  percent_u (8 * MB * 1000) = "4093640704" ∧ pretty (8 * MB * 1000) = "8388608000".
Proof. split; vm_compute; reflexivity. Qed.
Example size_label_16K : size_label (2 ^ 14) = "16 K". Proof. vm_compute. reflexivity. Qed.
Example percent_p_ff : percent_p 65535 = "0xffff". Proof. vm_compute. reflexivity. Qed.
