(* ===== verification/Programs.v ===== *)
(** * The programs (example/*.cc)

    What the three main functions do with the command line and the library.
    [fuel] bounds the options, [rfuel] the receiving loops of the TCP exchange,
    [pfuel] the polls without a completion, [rounds] the turns of the endless
    completion loops.  Threads run one after the other, in the order they are
    started; the benchmark's server enforces that with its mutex. *)
From S2P Require Import Prelude Words Types Layout World Text Sim Ident Device Buffer Adapter Channel.
From S2P Require Import Tcp Endpoint Session ClientServer Mesh Bench Net Options.

(** The virtual functions of a session class. *)
Record session_class (X : Type) := mkClass {
  class_ctor : Config → W X Z;
  class_init : Z → W X unit;
  class_lazy_config : Z → W X unit;
  class_post_connecting : Z → W X unit;
  class_process_CQ : Z → list Z → W X unit
}.
Arguments mkClass {X} _ _ _ _ _.
Arguments class_ctor {X} _.
Arguments class_init {X} _.
Arguments class_lazy_config {X} _.
Arguments class_post_connecting {X} _.
Arguments class_process_CQ {X} _.

Section programs.
Context {X : Type} `{!Platform X} `{!Application X} {G : Type} `{!GetOpt G}.
(** As in the completion handlers: the value of an uninitialised member. *)
Context (uninit : Z).

Definition RDMAServerSession_class (rfuel rounds : nat) : session_class X :=
  mkClass RDMASession_ctor (server_init_session rfuel) server_lazy_config_hca
    server_post_connecting (process_CQ uninit rfuel rounds).
Definition RDMAClientSession_class (rfuel rounds : nat) : session_class X :=
  mkClass RDMASession_ctor (client_init_session rfuel) client_lazy_config_hca
    client_post_connecting (process_CQ uninit rfuel rounds).
Definition SchedulingServer_class (rfuel pfuel : nat) : session_class X :=
  mkClass SchedulingServer_ctor (server_init_session rfuel) SchedulingServer_lazy_config_hca
    (λ _, mret tt) (SchedulingServer_process_CQ rfuel pfuel).
Definition SchedulingClient_class (rfuel pfuel : nat) : session_class X :=
  mkClass SchedulingClient_ctor (client_init_session rfuel) SchedulingClient_lazy_config_hca
    (λ _, mret tt) (SchedulingClient_process_CQ rfuel pfuel).

(** [session->init_session(); session->connecting(); session->running();] *)
Definition serve (rfuel : nat) (c : session_class X) (session : Z) : W X unit :=
  class_init c session ;;
  session_connecting rfuel (class_lazy_config c) (class_post_connecting c) session ;;
  groups ← running session;
  for_each groups (λ each, class_process_CQ c session each.2).

(** The mains of ping_pong_test.cc and lat_bw_benchmark.cc differ in their
    classes. *)
Definition main_by_role (fuel rfuel : nat) (g : G) (argv : list string)
    (server client : session_class X) : W X unit :=
  conf ← parse_args fuel default_Derived_Config g argv;
  let conf := base conf in
  if bool_decide (role conf = "master") then
    session ← class_ctor server (conf <| serve_as_client := false |>);
    serve rfuel server session
  else if bool_decide (role conf = "slaver") then
    session ← class_ctor client (conf <| serve_as_client := true |>);
    serve rfuel client session
  else log_fatal ("Unknown role for: " +:+ role conf).

Definition ping_pong_main (fuel rfuel rounds : nat) (g : G) (argv : list string) : W X unit :=
  main_by_role fuel rfuel g argv (RDMAServerSession_class rfuel rounds)
    (RDMAClientSession_class rfuel rounds).
Definition benchmark_main (fuel rfuel pfuel : nat) (g : G) (argv : list string) : W X unit :=
  main_by_role fuel rfuel g argv (SchedulingServer_class rfuel pfuel)
    (SchedulingClient_class rfuel pfuel).

(** The threads of mesh_comm_service.cc, each with a copy of the configuration. *)
Inductive mesh_service :=
  | start_server (conf : Config)
  | start_client (conf : Config) (server_ip : string).
Definition mesh_services (conf : Config) : list mesh_service :=
  start_server conf :: (start_client conf <$> cluster conf).
Definition mesh_main (fuel : nat) (g : G) (argv : list string) : W X (list mesh_service) :=
  conf ← parse_args fuel default_Derived_Config g argv;
  mret (mesh_services (base conf)).
(** What a thread runs; the groups of channels whose completion loops it starts. *)
Definition run_mesh_service (rfuel : nat) (s : mesh_service) : W X (list (Z * list Z)) :=
  match s with
  | start_server conf => start_server_service rfuel conf
  | start_client conf server_ip => start_client_service rfuel conf server_ip
  end.
End programs.

(** ** Lemmas *)

Section program_lemmas.
Context {X : Type} `{!Platform X}.
Implicit Types w : World X.

Lemma RDMASession_ctor_inv conf w this w' :
  RDMASession_ctor conf w = Ok this w' →
  ∃ s, w_sess w' !! this = Some s ∧ work_env_ s = conf ∧ end_point_mgr_ s = [].
Proof.
  intros H. injection H as <- <-. cbn. eexists. by rewrite lookup_insert_eq.
Qed.

Lemma keeps_sess_sock_sync fuel c n bs : keeps (w_sess (X:=X)) (sock_sync_data fuel c n bs).
Proof.
  pose proof (keeps_sess_recv_force (X:=X)).
  unfold sock_sync_data, send_data, recv_data_force, get_or_build_socket. solve_keeps.
Qed.
Lemma names_sess {A} (m : W X A) : keeps names m → keeps w_sess m.
Proof. intros H w a w' E. apply H in E. unfold names in E. congruence. Qed.
Lemma keeps_sess_real_connecting fuel this : keeps (w_sess (X:=X)) (real_connecting fuel this).
Proof.
  pose proof keeps_sess_sock_sync.
  pose proof (λ ch, names_sess _ (keeps_names_loading ch)).
  pose proof (λ ch p, names_sess _ (keeps_names_connecting ch p)).
  unfold real_connecting, endpoint_connecting, connect_channel. solve_keeps.
Qed.
Lemma keeps_sess_connecting fuel lazy post this :
  keeps (w_sess (X:=X)) (lazy this) → keeps (w_sess (X:=X)) (post this) →
  keeps (w_sess (X:=X)) (session_connecting fuel lazy post this).
Proof.
  intros H1 H2. pose proof keeps_sess_real_connecting. unfold session_connecting. solve_keeps.
Qed.
Lemma keeps_sess_tower_configs this :
  keeps (w_sess (X:=X)) (ServerTower_lazy_config_hca this) ∧
  keeps (w_sess (X:=X)) (ClientTower_lazy_config_hca this).
Proof.
  split; [unfold ServerTower_lazy_config_hca, ServerTower_configure
         |unfold ClientTower_lazy_config_hca, ClientTower_configure];
    unfold get_channel, upd_config; solve_keeps.
Qed.
Lemma connect_loop_sess fuel this fd a n w u w' s :
  connect_loop fuel this fd a n w = Ok u w' → w_sess w !! this = Some s →
  ∃ s', w_sess w' !! this = Some s' ∧ end_point_mgr_ s' = end_point_mgr_ s.
Proof.
  revert n w. induction fuel as [|fuel IH]; intros n w H Hs; cbn [connect_loop] in H; [done|].
  wstep H as r w1 H1. destruct (r =? 0).
  - unfold upd_sess in H. wstep H as s1 w2 H2. cbn in H2. same H2 Hs. pinv H. cbn.
    rewrite lookup_insert_eq. by eexists.
  - destruct (0 <? n); [by eapply IH|]. pinv H. by eexists.
Qed.
Lemma client_init_adds rfuel this w u w' s :
  client_init_session rfuel this w = Ok u w' → w_sess w !! this = Some s →
  ∃ s', w_sess w' !! this = Some s' ∧
    length (end_point_mgr_ s') = S (length (end_point_mgr_ s)).
Proof.
  intros H Hs. unfold client_init_session in H.
  apply bind_inv in H as (fd & w1 & H1%keeps_sess_allocate_socket & H). rewrite <-H1 in Hs.
  wstep H as s2 w2 H2. same H2 Hs. cbv zeta in H.
  apply bind_inv in H as (? & w3 & H3 & H).
  destruct (connect_loop_sess _ _ _ _ _ _ _ _ _ H3 Hs) as (s3 & Hs3 & Hm).
  apply bind_inv in H as (? & w4 & H4 & H). pinv H.
  eapply accept_sess in H4 as [ep Hs']; [|exact Hs3]. eexists. split; [exact Hs'|].
  cbn. rewrite length_app, Hm. cbn. lia.
Qed.

(** [running] groups every endpoint's channel once. *)
Lemma add_to_group_length cq ch groups :
  length (concat (add_to_group cq ch groups).*2) = S (length (concat groups.*2)).
Proof.
  induction groups as [|[q chs] groups IH]; cbn; [done|]. destruct (q =? cq); cbn.
  - rewrite !length_app. cbn. lia.
  - rewrite !length_app, IH. lia.
Qed.
Lemma group_channels_length l groups :
  length (concat (foldl (λ groups p, add_to_group p.1 p.2 groups) groups l).*2) =
    (length (concat groups.*2) + length l)%nat.
Proof.
  revert groups. induction l as [|p l IH]; intros groups; cbn; [lia|].
  rewrite IH, add_to_group_length. lia.
Qed.
Lemma running_length this w groups w' s :
  running this w = Ok groups w' → w_sess w !! this = Some s →
  length (concat groups.*2) = length (end_point_mgr_ s).
Proof.
  intros H Hs. unfold running in H. wstep H as s' w1 H1. same H1 Hs.
  apply bind_inv in H as (l & w2 & (-> & Hf)%collect_channels_inv & H). pinv H.
  unfold group_channels. rewrite group_channels_length. cbn.
  symmetry. by eapply Forall2_length.
Qed.
End program_lemmas.

(** ** Properties *)

(** The clients in a list of services, by the server they connect to. *)
Definition targets (l : list mesh_service) : list string :=
  l ≫= (λ s, match s with start_server _ => [] | start_client _ ip => [ip] end).
(** How many clients its server waits for. *)
Definition awaited (conf : Config) : nat := Nat.max 1 (length (cluster conf)).

Section program_properties.
Context {X : Type} `{!Platform X} {G : Type} `{!GetOpt G}.
Implicit Types w : World X.

(** C15: what the threads of the mesh program end with: the server's thread, one
    channel for each host of the cluster and at least one, each in exactly one of
    the groups whose completion loops are started; a client's thread, one
    channel. *)
Theorem mesh_service_channels rfuel conf ip w groups w' :
  (run_mesh_service rfuel (start_server conf) w = Ok groups w' →
   Z.of_nat (length (cluster conf)) < 2^32 → length (concat groups.*2) = awaited conf) ∧
  (run_mesh_service rfuel (start_client conf ip) w = Ok groups w' →
   length (concat groups.*2) = 1%nat).
Proof.
  split; cbn [run_mesh_service]; [intros H Hn; unfold start_server_service in H
                                 |intros H; unfold start_client_service in H]; cbv zeta in H.
  - apply bind_inv in H as ([this c'] & w1 & H1 & H). unfold ServerTower_ctor in H1.
    apply bind_inv in H1 as (p & w2 & H1 & H2). injection H2 as <- <- <-. cbn [fst] in H.
    apply RDMASession_ctor_inv in H1 as (s & Hs & Hc & Hm).
    apply bind_inv in H as (? & w3 & H3 & H).
    eapply server_init_adds in H3 as (s' & Hs' & _ & Hl); [|exact Hs|by rewrite Hc].
    apply bind_inv in H as (? & w4 & H4 & H).
    apply keeps_sess_connecting in H4; [|by apply keeps_sess_tower_configs|by intros ??? [= _ <-]].
    rewrite <-H4 in Hs'. rewrite (running_length _ _ _ _ _ H Hs'), Hl, Hm, Hc. done.
  - apply bind_inv in H as (this & w1 & H1 & H).
    apply RDMASession_ctor_inv in H1 as (s & Hs & _ & Hm).
    apply bind_inv in H as (? & w3 & H3 & H).
    eapply client_init_adds in H3 as (s' & Hs' & Hl); [|exact Hs].
    apply bind_inv in H as (? & w4 & H4 & H).
    apply keeps_sess_connecting in H4; [|by apply keeps_sess_tower_configs|by intros ??? [= _ <-]].
    rewrite <-H4 in Hs'. by rewrite (running_length _ _ _ _ _ H Hs'), Hl, Hm.
Qed.

(** A run of the mesh program on host [h], started with the option --cluster and
    the names of [hosts] in any order. *)
Definition mesh_run (hosts : list string) (h : string) (l : list mesh_service) : Prop :=
  ∃ fuel (g : G) argv w w' w1 a argv' i g1 o rest,
    getopt_long g argv 1 = (opt_char "u", Some a, (g1, argv', i)) ∧ 0 ≤ i ∧
    a :: leading_operands (drop (Z.to_nat i) argv') ≡ₚ hosts ∧
    getopt_long g1 argv' (i + Z.of_nat (length (leading_operands (drop (Z.to_nat i) argv')))) =
      (-1, o, rest) ∧
    get_local_ip default_Derived_Config w = Ok (h, with_ip h default_Derived_Config) w1 ∧
    mesh_main fuel g argv w = Ok l w'.

Lemma mesh_run_services hosts h l :
  mesh_run hosts h l →
  ∃ conf, l = mesh_services conf ∧ local_ip conf = h ∧ cluster conf ≡ₚ filter (λ s, s ≠ h) hosts.
Proof.
  intros (fuel & g & argv & w & w' & w1 & a & argv' & i & g1 & o & rest & E1 & Hi & Hp & E2 & Hip & H).
  unfold mesh_main in H. apply bind_inv in H as (c & w2 & H1 & H). injection H as <- <-.
  exists (base c). split; [done|]. unfold parse_args in H1.
  apply bind_inv in H1 as (c1 & w3 & H1 & Hcheck).
  set (ops := leading_operands (drop (Z.to_nat i) argv')) in *.
  set (l := sort_strings (filter (λ s, s ≠ h) (a :: ops))).
  assert (c1 = with_cluster l (with_ip h default_Derived_Config)) as ->.
  { destruct fuel as [|[|fuel]]; [done| |]; cbn [parse_loop] in H1; rewrite E1 in H1;
      rewrite (bind_Ok _ _ _ _ _ (cluster_option _ a argv' i _ _ _ _ default_config_wf Hi Hip)) in H1;
      cbn [fst snd] in H1; change (opt_char "u" =? -1) with false in H1; [done|].
    cbn [parse_loop] in H1. fold ops in H1. rewrite E2 in H1. destruct rest as [[g2 argv2] i2].
    by injection H1 as <- _. }
  clear H1. unfold conflict_check in Hcheck. cbv zeta in Hcheck. cbn -[l] in Hcheck.
  assert (l ≡ₚ filter (λ s, s ≠ h) hosts) as Hl by (unfold l; by rewrite sort_strings_perm, Hp).
  destruct (negb (bool_decide (l = []))); injection Hcheck as <- _; by split.
Qed.

Lemma filter_none {A} (P : A → Prop) `{!∀ x, Decision (P x)} (l : list A) :
  (∀ x, x ∈ l → ¬ P x) → filter P l = [].
Proof.
  induction l as [|x l IH]; intros Hn; [done|].
  rewrite filter_cons_False by (apply Hn; by left). apply IH. intros y Hy. apply Hn. by right.
Qed.
Lemma targets_services conf : targets (mesh_services conf) = cluster conf.
Proof. unfold targets, mesh_services. cbn. induction (cluster conf); cbn; by f_equal. Qed.

(** C14: the mesh is complete: when every host runs the program with the same list
    of hosts, each of them starts one server, and one client for every other
    host and none for itself; so the server of a host waits for exactly the
    clients that are started for it, if there are two hosts at least.  With one
    host alone it waits for a client that nobody starts. *)
Theorem mesh_complete hosts (services : string → list mesh_service) h :
  NoDup hosts → (∀ k, k ∈ hosts → mesh_run hosts k (services k)) → h ∈ hosts →
  (∀ k, k ∈ hosts → length (filter (λ ip, ip = h) (targets (services k))) =
    if bool_decide (k = h) then 0%nat else 1%nat) ∧
  ∃ conf, head (services h) = Some (start_server conf) ∧
    awaited conf = Nat.max 1 (length (filter (λ ip, ip = h) (hosts ≫= λ k, targets (services k)))).
Proof.
  intros Hnd Hrun Hh.
  assert (∀ k, k ∈ hosts → length (filter (λ ip, ip = h) (targets (services k))) =
    if bool_decide (k = h) then 0%nat else 1%nat) as Hone.
  { intros k Hk. destruct (mesh_run_services _ _ _ (Hrun k Hk)) as (conf & -> & _ & Hc).
    rewrite targets_services, Hc, list_filter_filter. case_bool_decide as E.
    - subst k. rewrite filter_none; [done|]. by intros x _ [? ?].
    - rewrite (list_filter_iff _ (λ ip, ip = h)) by (intros x; split; [tauto|intros ->; auto]).
      clear -Hnd Hh. induction Hnd as [|x l Hx Hnd IH]; [by apply elem_of_nil in Hh|].
      destruct (decide (x = h)) as [->|Hne].
      + rewrite filter_cons_True by done. rewrite filter_none; [done|]. by intros y Hy ->.
      + rewrite filter_cons_False by done. apply IH. by apply elem_of_cons in Hh as [->|]. }
  split; [exact Hone|]. destruct (mesh_run_services _ _ _ (Hrun h Hh)) as (conf & E & _ & Hc).
  exists conf. rewrite E. split; [done|]. unfold awaited. rewrite Hc.
  f_equal. clear -Hone.
  assert (∀ l, (∀ k, k ∈ l → k ∈ hosts) → length (filter (λ s, s ≠ h) l) =
    length (filter (λ ip, ip = h) (l ≫= λ k, targets (services k)))) as H; [|by apply H].
  induction l as [|k l IH]; intros Hl; [done|]. cbn [mbind list_bind].
  rewrite filter_app, length_app, Hone by (apply Hl; by left).
  rewrite <-IH by (intros; apply Hl; by right).
  case_bool_decide as Ek.
  - by rewrite filter_cons_False by (intros []; done).
  - by rewrite filter_cons_True.
Qed.

(** ping_pong_test and lat_bw_benchmark serve one of two roles: with any other
    they end before the session exists, having done nothing but parse.  In
    particular they do not start a server when they are run without options. *)
Theorem role_required (server client : session_class X) fuel rfuel (g : G) argv w :
  (∀ conf w1, parse_args fuel default_Derived_Config g argv w = Ok conf w1 →
   role (base conf) ∉ ["master"; "slaver"] →
   main_by_role fuel rfuel g argv server client w =
     Abort (Fatal ("Unknown role for: " +:+ role (base conf))) w1) ∧
  (∀ o rest, (0 < fuel)%nat → getopt_long g argv 1 = (-1, o, rest) →
   main_by_role fuel rfuel g argv server client w = Abort (Fatal "Unknown role for: ") w).
Proof.
  assert (∀ conf w1, parse_args fuel default_Derived_Config g argv w = Ok conf w1 →
   role (base conf) ∉ ["master"; "slaver"] →
   main_by_role fuel rfuel g argv server client w =
     Abort (Fatal ("Unknown role for: " +:+ role (base conf))) w1) as H.
  { intros conf w1 E Hr. unfold main_by_role. rewrite (bind_Ok _ _ _ _ _ E). cbv zeta.
    rewrite !bool_decide_false by (intros Eq; apply Hr; rewrite Eq; set_solver). done. }
  split; [exact H|]. intros o [[g' argv'] i'] Hf E.
  apply (H default_Derived_Config w); [|by apply (bool_decide_unpack _)].
  destruct fuel as [|fuel]; [lia|]. unfold parse_args. cbn [parse_loop]. rewrite E. done.
Qed.
End program_properties.

(** ** Witnesses *)

(** Host 12.12.12.3 of a mesh of three; both other hosts connect to it and send
    their adapter's description. *)
Definition mp_ifaddrs (ip : string) : list (option (Z * Z)) := [Some (AF_INET, parse_quad ip)].
Definition mp_conf : Config :=
  default_Config <| cluster := ["12.12.12.2"; "12.12.12.4"] |> <| local_ip := "12.12.12.3" |>.
Definition mp_peer (ip : string) : Z * sockaddr_in :=
  (7, mkSockaddrIn (htons 5001) (parse_quad ip)).
Definition mp_world : World Sim := world0 <| w_ext ::= λ x, x
  <| sim_accept := mp_peer <$> cluster mp_conf |>
  <| sim_inbox := [sync_byte; sync_byte; encode_AdapterInfo ad_peer; sync_byte;
       encode_AdapterInfo ad_peer; sync_byte] |> |>.
(** Both channels report to one queue. *)
Definition mp_groups : list (Z * list Z) := [(3, [4099; 4102])].

Lemma mesh_service_channels_witness :
  ∃ w, run_mesh_service 200 (start_server mp_conf) mp_world = Ok mp_groups w ∧
    length (concat mp_groups.*2) = awaited mp_conf.
Proof.
  assert (value (run_mesh_service 200 (start_server mp_conf) mp_world) = Some mp_groups) as E
    by (vm_compute; reflexivity).
  apply value_Ok in E. eexists. split; [exact E|].
  apply (proj1 (mesh_service_channels 200 mp_conf "" mp_world mp_groups _)) in E; [exact E|].
  vm_compute; reflexivity.
Defined.

(** Two hosts, each started with --cluster and both names. *)
Definition mp_hosts : list string := ["12.12.12.2"; "12.12.12.3"].
Definition mp_argv : list string := "prog" :: "--cluster" :: mp_hosts.
Definition mp_script : Script := [(opt_char "u", Some "12.12.12.2", 2%nat)].
Definition mp_host (ip : string) : World Sim :=
  world0 <| w_ext ::= λ x, x <| sim_ifaddrs := mp_ifaddrs ip |> |>.
Definition mp_services (ip : string) : list mesh_service :=
  default [] (value (mesh_main 2 mp_script mp_argv (mp_host ip))).

Lemma mesh_complete_witness :
  ∃ conf, head (mp_services "12.12.12.3") = Some (start_server conf) ∧ awaited conf = 1%nat.
Proof.
  assert (∀ h, h ∈ mp_hosts → mesh_run (X:=Sim) (G:=Script) mp_hosts h (mp_services h)) as Hr.
  { intros h Hh.
    exists 2%nat, mp_script, mp_argv, (mp_host h),
      (state_of (mesh_main 2 mp_script mp_argv (mp_host h))), (mp_host h), "12.12.12.2", mp_argv, 3,
      [], None, ([], mp_argv, 4).
    repeat (apply elem_of_cons in Hh as [->|Hh]); [..|by apply elem_of_nil in Hh];
      (split; [done|]; split; [done|]; split; [by vm_compute|]; split; [done|];
       split; [by vm_compute|apply value_Ok; by vm_compute]). }
  destruct (mesh_complete mp_hosts mp_services "12.12.12.3") as (_ & conf & Hc & Ha).
  - apply (bool_decide_unpack _). by vm_compute.
  - exact Hr.
  - right. left.
  - exists conf. split; [exact Hc|]. rewrite Ha. by vm_compute.
Defined.

Lemma role_required_witness :
  main_by_role 1 5 ([] : Script) ["prog"] (SchedulingServer_class 5 2)
    (SchedulingClient_class 5 2) world0 = Abort (Fatal "Unknown role for: ") world0.
Proof.
  apply (proj2 (role_required (SchedulingServer_class 5 2) (SchedulingClient_class 5 2) 1 5
    ([] : Script) ["prog"] world0) None ([], ["prog"], 1)); [lia|done].
Defined.
